(* ===== verification/_CoqProject ===== *)
-Q . S2P
Prelude.v
Types.v
CppString.v
Checker.v
Abacus.v
OperationKey.v
CacheRepository.v
Postgres.v
OperationStorage.v
StorageService.v
RequestHandler.v
LineProtocol.v
RequestData.v
HandlerSafety.v
HandlerCorrect.v
HandlerTheorems.v
Restart.v
HandlerConcurrent.v
HandlerFailing.v
StorageOutage.v
HandlerCalls.v
StorageWorker.v
WorkerCorrect.v
Resources.v
WorkerStorage.v
ServerSystem.v
SystemCorrect.v
SystemLive.v
SystemMemory.v
SystemTheorems.v
ServerConfig.v
ConnectionString.v
ConfigFile.v
ConfigTypes.v
ConfigRoundtrip.v
TcpServer.v
TcpCorrect.v
ServerCorrect.v
ServerSessions.v
SignalHandler.v
Application.v
Shutdown.v
Service.v
ServiceCorrect.v
ServiceLive.v
ServiceTheorems.v
ServiceMemory.v
ServiceRun.v
ServiceResources.v
ServiceLives.v
ServiceRecall.v
Logger.v
