(* ===== verification/Prelude.v ===== *)
(** * ConsoleCalculatorServer: a verification library

    ** The program

    The repository holds a TCP server that answers one calculation request per
    line.  [main] ([server/main.cpp]) reads the configuration and runs
    [ServiceApplication], which starts, in this order, the logger, the signal
    thread, the storage thread and the network threads.  A network thread reads
    lines in a [Session] and gives each to the one [RequestHandler]; the handler
    parses it with the protocol library, asks the storage for an earlier result,
    and otherwise checks the arguments ([Checker]), calculates ([Abacus]) and
    saves the record.  The storage that the handler sees is the [StorageWorker],
    which passes each call through a queue to its own thread; that thread owns a
    [StorageService], a cache ([CacheRepository]) in front of a table in
    PostgreSQL ([PostgresRepository]).

    ** The files and what they model

    Each operation is a function of the state of its component.  A C++ function
    that may throw is in the monad [prog E S A] of this file: it takes the state
    [S] and gives the state behind the call with an [outcome], which is a value,
    an exception or undefined behaviour; a state survives the exception, as a
    member does.  Names are those of the source; [t] is the record of the
    members of the class whose Module it is in.

    - [Prelude]: outcomes, state passing, [try]/[catch], the property [keeps] of
      programs that preserve an invariant and avoid undefined behaviour, its
      hints and the tactics of the library.
    - [Types] ([core/include/types/], [support/include/]): the enumerations,
      [CalculatorData], the exception objects.
    - [CppString]: [std::to_string], [stoi], [stoul], [stoull] and C strings.
    - [Checker] ([core/src/checker.cpp]), [Abacus] ([core/src/abacus.cpp]).
    - [OperationKey] ([storage/src/operation-key.cpp],
      [storage/include/types/operation-record.h]), [CacheRepository]
      ([storage/src/cache-repository.cpp]), [Postgres] (the result, the
      connection and the repository of [storage/postgres/]), [StorageService]
      ([storage/src/storage-service.cpp]).
    - [OperationStorage] ([server/include/operation-storage.h] and the in-memory
      implementation): the interface of a storage as a class [IOperationStorage]
      with its laws [StorageLaws] and, for a storage that never fails,
      [ReliableStorage].  [StorageService], [InMemoryOperationStorage] and the
      view of the worker are instances; the handler is verified against it.
    - [RequestHandler] ([server/src/request-handler.cpp]): [handle] and all its
      helpers, with the nested [try] blocks and the storage calls in the order
      of the source; [handle] works on a [frame], its local variables with the
      storage.  [HandlerSafety], [HandlerCorrect] and [HandlerTheorems] are its
      theory; [RequestData] is about the data of a request; [Restart] and
      [StorageOutage] put the handler on a [StorageService], across any number
      of restarts and on a connection that is lost.  [HandlerConcurrent] is about
      handlers that share a storage; [HandlerCalls] about the calls that one
      makes, whatever the replies; [HandlerFailing] about handlers whose storage
      may fail: its class [HonestStorage] says how a storage fails ([fails]) and
      that its records then hold right results or such failures.  A reliable
      storage (it never fails), the service on any database (with
      [ERROR_STORAGE]) and the worker (also with its refusals) are honest.
    - [StorageWorker] ([server/src/storage-worker.cpp]): the queue and the
      threads as a step relation; [WorkerCorrect] and [WorkerStorage] are its
      theory.  [Resources] runs the PostgreSQL layer, the service and the thread
      on any library with a ledger of the results and connections it handed out.
    - [ServerSystem]: network threads that run [handle], each blocked on the
      future of its storage call, the queue and its thread, and calls of [stop],
      as one step relation; [SystemCorrect] (it answers right, for any
      [HonestStorage]), [SystemLive] (it answers), [SystemMemory] (what its
      requests leave in the storage) and [SystemTheorems] are its theory.
    - [ServerConfig] ([server/src/server-config.cpp]), with [ConnectionString],
      [ConfigFile], [ConfigTypes] and [ConfigRoundtrip].
    - [TcpServer] ([server/src/tcp-json-server.cpp]): a session as a state
      machine over the completions of Boost.Asio, and the server's [start],
      [stop] and accept handler, with the state of the acceptor and the close of
      it that [stop] posts; [TcpCorrect] is its theory, [ServerCorrect]
      puts the sessions on a handler that calls its storage directly, and
      [ServerSessions] puts them on the threads of [ServerSystem].
    - [SignalHandler] ([server/src/signal-handler.cpp]), [Application]
      ([server/src/service-application.cpp], [server/main.cpp]), [Logger]
      ([support/src/logger.cpp]; its [recorded] is any library with a record of
      the files and the messages).  [Shutdown] runs the calls that [Application]
      finds for [run] against the signal thread.
    - [Service] puts it all together: the main thread makes the calls of [run]
      on the storage worker and the server, with the signal thread, the storage
      thread, and network threads that run the completion handlers of any number
      of sessions and in them the request handlers; signals, connections and
      bytes come at any time.  [ServiceCorrect] is its invariant, [ServiceLive]
      its measure and the states without a move, [ServiceTheorems] what follows
      for a client, [ServiceRun] an executable schedule and a service on a table
      from its start to its end, [ServiceResources] what it holds of [libpq],
      [ServiceMemory] what its sessions leave in the storage, [ServiceLives] the
      process run again and again on one database, and [ServiceRecall] what one
      life leaves to the next.
    - [LineProtocol], [SafeMath] (in [Abacus]) and [TableServer] (in [Postgres])
      instantiate the parameters in the examples; they are no models of the
      libraries the server is built with.

    ** What the theorems show

    - Answers.  The cache is invisible but for the source, message and timing of
      a response: after any history ([handle_history_correct]) and under any
      interleaving of handlers ([concurrent_requests_correct]) a request gets
      the value or the error of its own checks and calculation; the lemmas
      [repeated_request_cached] and [restarted_server_remembers] say for the
      handler alone that a calculation is made once, also across restarts.  No
      request text runs into undefined behaviour ([handle_safe]) or lets an
      exception out ([handle_returns]).
    - The whole service.  From the start of the process, on every schedule: each
      client reads, in order and one for each line, the right answers, in every
      life of the process on one database ([service_lives_right], from the lemma
      [service_answers_right] for one life), or [STORAGE_ERROR] where the
      database failed ([service_never_wrong], on any database whose records were
      right or such failures when the storage opened), and never a refusal; what
      a client was answered, every client that asks later is answered from the
      cache ([service_remembers]), and every client of a later life
      ([service_lives_remember]); the threads come to a rest only at the wait of
      [run], with every line answered, or at its end, with every thread joined,
      and a signal leads to the end ([service_ends]); each result and connection
      of [libpq] is released once, whatever it answers ([service_releases]).
    - The threads together.  The queue and its thread are a storage that answers
      at once ([server_refines_atomic]); so the running server answers each
      request right, but for refusals after a stop ([server_requests_right]),
      answers all of them, and its storage thread returns after a stop
      ([server_answers_all], for any database); the lemmas [server_never_wrong],
      on a database that fails, and [server_answers_right], for the lines of a
      session.
    - Calculation.  [calculate_result_exact], [check_arguments_correct],
      [make_injective] and the lemma [make_errors] (keys neither collide nor
      miss), [to_calculator_data_correct] (64-bit operands to [int]).
    - Storage.  The worker is linearizable and answers every job
      ([worker_linearizable], [worker_answers_all], [worker_start]; the lemmas
      [worker_refines_view]: to a caller it is a sequential storage, and
      [worker_stop_refuses]: it takes no job after a stop);
      [save_load_roundtrip], [restart_transparent], the lemma
      [find_after_warm_up]; [repository_failures] lists what can be thrown.
    - Network.  [session_answers_lines] and [session_size_limit], for any
      handler, with the lemma [session_continues], that a session catches up;
      [server_start_stop].
    - Configuration.  [from_file_correct], [environment_overrides_file] and
      [config_file_roundtrip] for the file, [connection_string_roundtrip] (no
      injection) for the connection string, [parse_uint16_correct] and the lemma
      [trim_correct] for the texts; [configuration_well_typed].
    - Life of the process.  [signal_stop_returns], [signal_called_once], the
      lemma [signal_answered]; [application_unwinds], the lemma
      [main_exit_status], [config_path_correct]; the lemma
      [service_ends_by_signal], which is [service_ends] for calls that return;
      [logger_is_first].
    - Behaviour to know.  [factorial_without_operands] (the lookup precedes the
      check), [outage_poisons_cache] and [refused_save_stays_cached] (a failed
      save stays in the cache), [quoted_hash_truncated] (a number sign in
      quotes), [session_size_limit] (the limit counts once the line is complete:
      the buffer of a session, an [asio::streambuf], has none), and the failed
      starts in [worker_start] and [server_start_stop], where also a start after
      a stop throws, when the acceptor was not closed in time, or serves nobody.

    ** Parameters

    Code that is not in the repository is a class of operations, with the laws
    that its documentation states as separate classes: [CalculatorMath.Library]
    (status codes and six functions; [Codes]: the codes differ; [Safe]: a
    success stores the exact value, a division by zero says so; [Reports]:
    success and overflow are told apart by the value; [Symmetric]: sums and
    products do not depend on the order), [Protocol.Library] ([OperationCodes]:
    the codes differ; [Total]: the factories and the serialiser accept
    everything), [Libpq.Library] ([Documented]: what an available server answers
    to the three statements of the source, and that [PQclear] and [PQfinish]
    leave the table alone), the operations of spdlog and the file system in
    [Logger], the outside calls of a session in [TcpServer] (premises of its
    step relation) and what Asio makes of the acceptor and its address
    ([opens_once]: an open one is not opened again), the files, the environment
    and the clock as functions.  A theorem names the classes it needs; every
    theorem with hypotheses has an example that applies it.

    ** Numbers and fuel

    [int] is an integer within [in_int] (32 bits), request operands have 64
    bits, [parse_uint16] is kept at its width, and [std::stoul] wraps a negative
    number modulo 2^64.  Loops over data are structural.  Fuel counts the moves
    of a thread: [drain] makes [2 * length (jobs w) + 2] moves of the storage
    thread, two for a job and two more to reach its next wait or its end, and
    [run_thread] three or five of the signal thread; the theorems that use them
    say that this is enough.  Where several threads move there is no fuel: a
    weight of the state, [work] in [SystemLive], [moves_left] in [Shutdown] and
    [service_weight] in [ServiceLive], falls with each move and bounds every
    schedule.  Theorems on
    step relations hold for runs of any length.

    ** What is not modelled

    The log lines of the components (text for operators; [Logger] models where
    they go), the release of memory by destructors (that of [libpq]'s results
    and connections is), reads of a result behind its [PQclear] (it is read in
    its scope only), the text of the JSON (protocol library), sockets below the
    completions of Boost.Asio, memory exhaustion, and the failure to create a
    thread.  Shared state is accessed under the source's mutexes and atomics, so
    its critical sections are the steps of the models; data races are not
    represented (the pointer of the [Logger] has no lock; [run] sets it before
    it starts a thread).  On its own, [ServerSystem] starts with a storage
    thread that is ready and lets a stop come at any time, and [Shutdown] takes
    the other components' calls as calls that return; [Service] has the starts
    and stops of [run].  In [Service] a handler that began when
    [io_context::stop] came is run to its end, and what Asio makes of the
    listening address is one answer for the whole run, for an acceptor that is
    open and for one that is not.  Tests, build and deployment files hold no
    logic of the program. *)

From stdpp Require Import base tactics strings list gmap pretty.

(** ** Outcomes of C++ evaluation

    A C++ expression either returns a value, throws an exception object, or
    runs into undefined behaviour ([*cached->result()] on an empty
    [std::optional], for instance).  [E] is the type of the exception objects
    that can be in flight. *)

Inductive outcome (E A : Type) : Type :=
  | Ret (a : A)
  | Throw (e : E)
  | Undef.

Arguments Ret {E A} _.
Arguments Throw {E A} _.
Arguments Undef {E A}.

#[export] Instance outcome_ret E : MRet (outcome E) := λ A, Ret.

#[export] Instance outcome_bind E : MBind (outcome E) := λ A B k m,
  match m with
  | Ret a => k a
  | Throw e => Throw e
  | Undef => Undef
  end.

#[export] Instance outcome_fmap E : FMap (outcome E) := λ A B f m,
  match m with
  | Ret a => Ret (f a)
  | Throw e => Throw e
  | Undef => Undef
  end.

#[export] Instance outcome_eq_dec E A `{EqDecision E, EqDecision A} :
  EqDecision (outcome E A).
Proof. solve_decision. Defined.

(** Reading an exception of one type as one of a wider type. *)
Definition map_exn {E E' A} (f : E → E') (m : outcome E A) : outcome E' A :=
  match m with
  | Ret a => Ret a
  | Throw e => Throw (f e)
  | Undef => Undef
  end.

(** The evaluation neither throws nor is undefined. *)
Definition returns {E A} (m : outcome E A) : Prop :=
  match m with Ret _ => True | _ => False end.

Definition defined {E A} (m : outcome E A) : Prop :=
  match m with Undef => False | _ => True end.

(** ** Stateful code

    A member function that reads and writes the state [S] of its object: the
    writes made before a throw stay, as in C++. *)

Definition prog (E S A : Type) : Type := S → outcome E A * S.

#[export] Instance prog_ret E S : MRet (prog E S) := λ A a s, (Ret a, s).

#[export] Instance prog_bind E S : MBind (prog E S) := λ A B k m s,
  match m s with
  | (Ret a, s') => k a s'
  | (Throw e, s') => (Throw e, s')
  | (Undef, s') => (Undef, s')
  end.

Definition lift {E S A} (m : outcome E A) : prog E S A := λ s, (m, s).
Definition throw {E S A} (e : E) : prog E S A := λ s, (Throw e, s).
Definition gets {E S A} (f : S → A) : prog E S A := λ s, (Ret (f s), s).
Definition modify {E S} (f : S → S) : prog E S unit := λ s, (Ret (), f s).

(** [try { m } catch ...]: [h e] is the body of the handler that matches [e],
    [None] when no handler does and [e] stays in flight. *)
Definition try_catch {E S A} (m : prog E S A) (h : E → option (prog E S A)) :
    prog E S A := λ s,
  match m s with
  | (Throw e, s') =>
      match h e with
      | Some k => k s'
      | None => (Throw e, s')
      end
  | r => r
  end.

(** The scope of an object with a destructor: [destroy] runs at its end, which
    is reached by the value of [m] or by an exception. *)
Definition scoped {E S A} (destroy : S → S) (m : prog E S A) : prog E S A := λ s,
  match m s with
  | (Undef, s') => (Undef, s')
  | (o, s') => (o, destroy s')
  end.

(** The body of a constructor: the members are destroyed when it throws. *)
Definition unwinding {E S A} (destroy : S → S) (m : prog E S A) : prog E S A := λ s,
  match m s with
  | (Throw e, s') => (Throw e, destroy s')
  | r => r
  end.

Declare Scope cpp_scope.
Delimit Scope cpp_scope with cpp.
Notation "m 'catch' h" := (try_catch m h)
  (at level 85, right associativity) : cpp_scope.
Open Scope cpp_scope.

(** Running a program of a member object inside the state of its owner, with
    the exceptions it throws read as the owner's. *)
Definition zoom {E E' S T A} (f : E → E') (view : T → S) (upd : S → T → T)
    (m : prog E S A) : prog E' T A := λ t,
  let '(o, s) := m (view t) in (map_exn f o, upd s t).

(** The first step of a program whose outcome is known. *)
Lemma bind_ret {E S A B} (m : prog E S A) (k : A → prog E S B) s a s' :
  m s = (Ret a, s') → (m ≫= k) s = k a s'.
Proof. unfold mbind, prog_bind. by intros ->. Qed.

Lemma bind_throw {E S A B} (m : prog E S A) (k : A → prog E S B) s e s' :
  m s = (Throw e, s') → (m ≫= k) s = (Throw e, s').
Proof. unfold mbind, prog_bind. by intros ->. Qed.

Lemma try_ret {E S A} (m : prog E S A) h s a s' :
  m s = (Ret a, s') → try_catch m h s = (Ret a, s').
Proof. unfold try_catch. by intros ->. Qed.

Lemma try_throw {E S A} (m : prog E S A) h s e s' k :
  m s = (Throw e, s') → h e = Some k → try_catch m h s = k s'.
Proof. unfold try_catch. by intros -> ->. Qed.

Lemma try_uncaught {E S A} (m : prog E S A) h s e s' :
  m s = (Throw e, s') → h e = None → try_catch m h s = (Throw e, s').
Proof. unfold try_catch. by intros -> ->. Qed.

(** A destructor changes no outcome. *)
Lemma scoped_outcome {E S A} destroy (m : prog E S A) s :
  (scoped destroy m s).1 = (m s).1.
Proof. unfold scoped. by destruct (m s) as [[]]. Qed.

Lemma unwinding_outcome {E S A} destroy (m : prog E S A) s :
  (unwinding destroy m s).1 = (m s).1.
Proof. unfold unwinding. by destruct (m s) as [[]]. Qed.

(** Takes the first step of a program, whose outcome [tac] proves. *)
Tactic Notation "take_step" tactic3(tac) :=
  etransitivity; [eapply bind_ret; solve [tac]|]; cbv beta.

(** ** Hoare triples over [prog]

    [triple P m Q]: from a state in [P], [m] ends with an outcome and a state
    in [Q]. *)
Definition triple {E S A} (P : S → Prop) (m : prog E S A)
    (Q : outcome E A → S → Prop) : Prop :=
  ∀ s, P s → Q (m s).1 (m s).2.

Section triples.
Context {E S : Type}.

Lemma triple_weaken {A} (P : S → Prop) (m : prog E S A) (R Q : outcome E A → S → Prop) :
  triple P m R → (∀ o s, R o s → Q o s) → triple P m Q.
Proof. intros Hm HQ s HP. by apply HQ, Hm. Qed.

Lemma triple_ret {A} (P : S → Prop) (a : A) (Q : outcome E A → S → Prop) :
  (∀ s, P s → Q (Ret a) s) → triple P (mret a) Q.
Proof. intros H s HP. by apply H. Qed.

Lemma triple_throw {A} (P : S → Prop) e (Q : outcome E A → S → Prop) :
  (∀ s, P s → Q (Throw e) s) → triple P (throw e) Q.
Proof. intros H s HP. by apply H. Qed.

Lemma triple_lift {A} (P : S → Prop) m (Q : outcome E A → S → Prop) :
  (∀ s, P s → Q m s) → triple P (lift m) Q.
Proof. intros H s HP. by apply H. Qed.

Lemma triple_bind {A B} (P : S → Prop) (m : prog E S A) (k : A → prog E S B)
    (R : outcome E A → S → Prop) (Q : outcome E B → S → Prop) :
  triple P m R →
  (∀ a, triple (R (Ret a)) (k a) Q) →
  (∀ e s, R (Throw e) s → Q (Throw e) s) →
  (∀ s, R Undef s → Q Undef s) →
  triple P (m ≫= k) Q.
Proof.
  intros Hm Hk Ht Hu s HP. specialize (Hm s HP).
  unfold mbind, prog_bind. destruct (m s) as [[a|e|] s']; simpl in *; auto.
  by apply Hk.
Qed.

Lemma triple_try {A} (P : S → Prop) (m : prog E S A) h
    (R Q : outcome E A → S → Prop) :
  triple P m R →
  (∀ a s, R (Ret a) s → Q (Ret a) s) →
  (∀ e, match h e with
        | Some k => triple (R (Throw e)) k Q
        | None => ∀ s, R (Throw e) s → Q (Throw e) s
        end) →
  (∀ s, R Undef s → Q Undef s) →
  triple P (m catch h) Q.
Proof.
  intros Hm Hr Hh Hu s HP. specialize (Hm s HP). unfold try_catch.
  destruct (m s) as [[a|e|] s']; simpl in *; [by auto| |by auto].
  specialize (Hh e). destruct (h e); simpl; by apply Hh.
Qed.
End triples.

(** [keeps I m Q]: run from a state in the invariant [I], [m] ends in [I], never
    in undefined behaviour, and with a value in [Q] when it returns. *)
Definition keeps {E S A} (I : S → Prop) (m : prog E S A) (Q : A → Prop) : Prop :=
  triple I m (λ o s, I s ∧
    match o with Ret a => Q a | Throw _ => True | Undef => False end).

Section keeps.
Context {E S : Type} (I : S → Prop).

Lemma keeps_ret {A} (a : A) (Q : A → Prop) : Q a → keeps (E := E) I (mret a) Q.
Proof. intros HQ. by apply triple_ret. Qed.

Lemma keeps_throw {A} (e : E) (Q : A → Prop) : keeps I (throw e) Q.
Proof. by apply triple_throw. Qed.

Lemma keeps_lift {A} (m : outcome E A) (Q : A → Prop) :
  match m with Ret a => Q a | Throw _ => True | Undef => False end →
  keeps I (lift m) Q.
Proof. intros HQ. by apply triple_lift. Qed.

Lemma keeps_gets {A} (f : S → A) (Q : A → Prop) :
  (∀ s, I s → Q (f s)) → keeps (E := E) I (gets f) Q.
Proof. intros HQ s HI. split; [done|]. by apply HQ. Qed.

Lemma keeps_modify (f : S → S) :
  (∀ s, I s → I (f s)) → keeps (E := E) I (modify f) (λ _, True).
Proof. intros HI s HS. split; [by apply HI|done]. Qed.

Lemma keeps_zoom {E' T A} (f : E → E') (view : T → S) (upd : S → T → T)
    (J : T → Prop) (m : prog E S A) (Q : A → Prop) :
  (∀ t, J t → J (upd (m (view t)).2 t) ∧
    match (m (view t)).1 with
    | Ret a => Q a | Throw _ => True | Undef => False
    end) →
  keeps J (zoom f view upd m) Q.
Proof.
  intros Hm t Ht. specialize (Hm t Ht). unfold zoom.
  destruct (m (view t)) as [o s]; simpl in *. destruct Hm. split; [done|].
  by destruct o.
Qed.

Lemma keeps_bind {A B} (m : prog E S A) (k : A → prog E S B) R Q :
  keeps I m R → (∀ a, R a → keeps I (k a) Q) → keeps I (m ≫= k) Q.
Proof.
  intros Hm Hk. eapply triple_bind; [exact Hm|..]; simpl; [|by auto..].
  intros a s [Hs Ha]. by apply Hk.
Qed.

Lemma keeps_try {A} (m : prog E S A) h Q :
  keeps I m Q → (∀ e k, h e = Some k → keeps I k Q) → keeps I (m catch h) Q.
Proof.
  intros Hm Hh. eapply triple_try; [exact Hm|by auto| |by auto].
  intros e. destruct (h e) as [k|] eqn:He; [|by auto].
  intros s [Hs _]. by apply (Hh e k He).
Qed.
End keeps.

(** The facts about closed calls that [auto with cpp] may use. *)
Create HintDb cpp.

(** The rules for the leaves of a program, with the weakest value condition. *)
Create HintDb keeps.

Section leaves.
Context {E S : Type} (I : S → Prop).

Lemma keeps_ret_any {A} (a : A) : keeps (E := E) I (mret a) (λ _, True).
Proof. by apply keeps_ret. Qed.

Lemma keeps_throw_any {A} (e : E) : keeps (A := A) I (throw e) (λ _, True).
Proof. apply keeps_throw. Qed.

Lemma keeps_gets_any {A} (f : S → A) : keeps (E := E) I (gets f) (λ _, True).
Proof. by apply keeps_gets. Qed.

Lemma keeps_lift_any {A} (m : outcome E A) :
  defined m → keeps I (lift m) (λ _, True).
Proof. intros Hm. apply keeps_lift. by destruct m. Qed.
End leaves.

#[export] Hint Resolve keeps_ret_any keeps_throw_any keeps_gets_any
  keeps_lift_any : keeps.

(** Walks through the binds of a program; the calls it meets are solved with
    the lemmas on them. *)
Ltac walk_keeps :=
  repeat first
    [ by eauto with keeps
    | eapply keeps_bind; [by eauto with keeps|intros ? ?]
    | apply (keeps_bind _ _ _ (λ _, True)); [|intros ? ?] ].

(** ** Machine integers of the x86-64 Linux target *)

Open Scope Z_scope.

Definition INT_MIN : Z := - 2 ^ 31.
Definition INT_MAX : Z := 2 ^ 31 - 1.
Definition LONG_MIN : Z := - 2 ^ 63.
Definition LONG_MAX : Z := 2 ^ 63 - 1.
Definition ULONG_MAX : Z := 2 ^ 64 - 1.

Definition in_int (z : Z) : Prop := INT_MIN ≤ z ≤ INT_MAX.
Definition in_long (z : Z) : Prop := LONG_MIN ≤ z ≤ LONG_MAX.

#[export] Instance in_int_dec z : Decision (in_int z).
Proof. unfold in_int. apply _. Defined.
#[export] Instance in_long_dec z : Decision (in_long z).
Proof. unfold in_long. apply _. Defined.

(** ** Tactics *)

(** Case analysis on the innermost scrutinee of the goal. *)
Ltac split_match :=
  match goal with
  | |- context [match ?x with _ => _ end] =>
      lazymatch x with
      | context [match _ with _ => _ end] => fail
      | _ => destruct x eqn:?
      end
  end.

Ltac split_match_in H :=
  match type of H with
  | context [match ?x with _ => _ end] =>
      lazymatch x with
      | context [match _ with _ => _ end] => fail
      | _ => destruct x eqn:?
      end
  end.

(** Split every scrutinee, then close the goals that hold by computation or
    by contradictory equations. *)
Ltac crush_match :=
  repeat (split_match; simplify_eq/=); try done; try lia.

(** ** Sums over finite maps *)

Section total.
Context {A : Type} (weight : A → nat).

Definition total_weight (m : gmap nat A) : nat :=
  map_fold (λ _ a n, weight a + n)%nat 0%nat m.

Lemma total_weight_insert_new m i a :
  m !! i = None → total_weight (<[i := a]> m) = (weight a + total_weight m)%nat.
Proof.
  intros Hi. unfold total_weight.
  by rewrite map_fold_insert_L by (done || (intros; lia)).
Qed.

Lemma total_weight_insert m i a b :
  m !! i = Some a →
  (total_weight (<[i := b]> m) + weight a = total_weight m + weight b)%nat.
Proof.
  intros Hi. rewrite <-(insert_delete_id m i a Hi) at 2.
  rewrite <-insert_delete_eq.
  rewrite !total_weight_insert_new by apply lookup_delete_eq. lia.
Qed.
End total.
