(* ===== verification/Types.v ===== *)
(** * Shared data of the calculator

    The enumerations and the record that the components exchange
    ([core/include/types/], [support/include/types/error-code.h]), and the
    exception objects they throw ([support/include/exception.h] and the
    standard exceptions of the code the components call). *)

From stdpp Require Import base tactics strings list.
From S2P Require Import Prelude.

(** ** [Calculator::Types::ErrorCode], a [std::uint8_t] *)

Inductive ErrorCode : Type :=
  | ERROR_NONE
  | ERROR_UNKNOWN_OPTION
  | ERROR_INVALID_NUMBER
  | ERROR_MISSING_FIRST_NUMBER
  | ERROR_MISSING_SECOND_NUMBER
  | ERROR_MISSING_OPERATION
  | ERROR_INVALID_OPERATION
  | ERROR_DIVISION_BY_ZERO
  | ERROR_NEGATIVE_FACTORIAL
  | ERROR_NEGATIVE_POWER
  | ERROR_OVERFLOW
  | ERROR_INVALID_JSON
  | ERROR_STORAGE.

#[export] Instance ErrorCode_eq_dec : EqDecision ErrorCode.
Proof. solve_decision. Defined.

(** [static_cast<int>(code)] *)
Definition error_int (code : ErrorCode) : Z :=
  match code with
  | ERROR_NONE => 0
  | ERROR_UNKNOWN_OPTION => 1
  | ERROR_INVALID_NUMBER => 2
  | ERROR_MISSING_FIRST_NUMBER => 3
  | ERROR_MISSING_SECOND_NUMBER => 4
  | ERROR_MISSING_OPERATION => 5
  | ERROR_INVALID_OPERATION => 6
  | ERROR_DIVISION_BY_ZERO => 7
  | ERROR_NEGATIVE_FACTORIAL => 8
  | ERROR_NEGATIVE_POWER => 9
  | ERROR_OVERFLOW => 10
  | ERROR_INVALID_JSON => 11
  | ERROR_STORAGE => 12
  end.

Definition error_codes : list ErrorCode :=
  [ERROR_NONE; ERROR_UNKNOWN_OPTION; ERROR_INVALID_NUMBER;
   ERROR_MISSING_FIRST_NUMBER; ERROR_MISSING_SECOND_NUMBER;
   ERROR_MISSING_OPERATION; ERROR_INVALID_OPERATION; ERROR_DIVISION_BY_ZERO;
   ERROR_NEGATIVE_FACTORIAL; ERROR_NEGATIVE_POWER; ERROR_OVERFLOW;
   ERROR_INVALID_JSON; ERROR_STORAGE].

(** [static_cast<Types::ErrorCode>(value)] converts to the underlying
    [std::uint8_t], modulo 256; the result may be no enumerator ([None]). *)
Definition error_underlying (value : Z) : Z := value mod 256.

Definition error_of_int (value : Z) : option ErrorCode :=
  list_find (λ code, error_int code = error_underlying value) error_codes
    ≫= λ p, Some p.2.

(** ** [Calculator::Types::OperationCode] *)

Inductive OperationCode : Type :=
  | OPERATION_NONE
  | OPERATION_ADDITION
  | OPERATION_SUBTRACTION
  | OPERATION_MULTIPLICATION
  | OPERATION_DIVISION
  | OPERATION_EXPONENTIATION
  | OPERATION_FACTORIAL.

#[export] Instance OperationCode_eq_dec : EqDecision OperationCode.
Proof. solve_decision. Defined.

(** ** [Calculator::Types::CalculatorData]

    The [int] fields are their values; [error_code] holds the underlying
    [std::uint8_t] of the enumeration, which a cast can make any byte. *)

Record CalculatorData : Type := mk_data {
  first_number : Z;
  second_number : Z;
  result : Z;
  has_first_number : Z;
  has_second_number : Z;
  operation : OperationCode;
  error_code : Z;
  need_help : Z
}.

#[export] Instance CalculatorData_eq_dec : EqDecision CalculatorData.
Proof. solve_decision. Defined.

(** The default member initialisers. *)
Definition default_data : CalculatorData :=
  mk_data 0 0 0 0 0 OPERATION_NONE (error_int ERROR_NONE) 0.

Definition set_result (v : Z) (d : CalculatorData) : CalculatorData :=
  mk_data (first_number d) (second_number d) v (has_first_number d)
    (has_second_number d) (operation d) (error_code d) (need_help d).

Definition set_error_code (v : Z) (d : CalculatorData) : CalculatorData :=
  mk_data (first_number d) (second_number d) (result d) (has_first_number d)
    (has_second_number d) (operation d) v (need_help d).

Definition set_operation (op : OperationCode) (d : CalculatorData) :
    CalculatorData :=
  mk_data (first_number d) (second_number d) (result d) (has_first_number d)
    (has_second_number d) op (error_code d) (need_help d).

Definition set_need_help (v : Z) (d : CalculatorData) : CalculatorData :=
  mk_data (first_number d) (second_number d) (result d) (has_first_number d)
    (has_second_number d) (operation d) (error_code d) v.

(** [data.first_number = v; data.has_first_number = 1;] *)
Definition set_first (v : Z) (d : CalculatorData) : CalculatorData :=
  mk_data v (second_number d) (result d) 1
    (has_second_number d) (operation d) (error_code d) (need_help d).

(** [data.second_number = v; data.has_second_number = 1;] *)
Definition set_second (v : Z) (d : CalculatorData) : CalculatorData :=
  mk_data (first_number d) v (result d) (has_first_number d)
    1 (operation d) (error_code d) (need_help d).

(** ** Exception objects

    [CalculatorException] derives from [std::runtime_error]; [StdException]
    stands for the other classes derived from [std::exception]
    ([std::invalid_argument], [std::out_of_range], [std::runtime_error], ...);
    [OtherException] for a thrown object of any other type. *)

Inductive exn : Type :=
  | CalculatorException (code : Z) (what : string)
  | StdException (what : string)
  | OtherException.

#[export] Instance exn_eq_dec : EqDecision exn.
Proof. solve_decision. Defined.

(** [what()] of an object a [catch (const std::exception&)] clause matches. *)
Definition exn_what (e : exn) : option string :=
  match e with
  | CalculatorException _ what => Some what
  | StdException what => Some what
  | OtherException => None
  end.

(** [throw CalculatorException(static_cast<int>(code), what)] *)
Definition calculator_exception (code : ErrorCode) (what : string) : exn :=
  CalculatorException (error_int code) what.

(** ** Lemmas *)

Lemma error_int_byte code : 0 ≤ error_int code < 256.
Proof. by destruct code. Qed.

Lemma error_of_int_int code : error_of_int (error_int code) = Some code.
Proof. by destruct code. Qed.

#[export] Instance error_int_inj : Inj (=) (=) error_int.
Proof. intros [] []; simpl; congruence. Qed.

Lemma error_int_none code : error_int code = 0 ↔ code = ERROR_NONE.
Proof. by destruct code. Qed.
