(* ===== verification/CppString.v ===== *)
(** * The C++ standard library's strings and numbers

    What the code uses of [<string>] and [<cstdlib>]: [std::to_string],
    [std::stoi], [std::stoul], [std::stoull], [c_str()] and the searches and
    cuts of a string.  [long] and [unsigned long] have 64 bits.  A byte of a
    [std::string] is an [ascii] character. *)

From stdpp Require Import base tactics strings list pretty.
From Stdlib Require Import Ascii.
From S2P Require Import Prelude.
From S2P Require Import Types.

(** ** Characters *)

Definition is_digit (c : ascii) : bool :=
  (48 <=? N_of_ascii c)%N && (N_of_ascii c <=? 57)%N.

Definition digit_value (c : ascii) : Z := Z.of_N (N_of_ascii c) - 48.

(** [std::isspace] in the "C" locale: space, tab, line feed, vertical tab, form
    feed and carriage return. *)
Definition is_c_space (c : ascii) : bool :=
  (N_of_ascii c =? 32)%N
  || ((9 <=? N_of_ascii c)%N && (N_of_ascii c <=? 13)%N).

Fixpoint all_digits (s : string) : bool :=
  match s with
  | EmptyString => true
  | String c s' => is_digit c && all_digits s'
  end.

(** ** [std::to_string] and the conversions back *)

(** Decimal, with a leading [-] for a negative number. *)
Definition to_string (z : Z) : string := pretty z.

Fixpoint skip_spaces (s : string) : string :=
  match s with
  | String c s' => if is_c_space c then skip_spaces s' else s
  | EmptyString => s
  end.

Fixpoint read_digits (acc : Z) (s : string) : Z :=
  match s with
  | String c s' =>
      if is_digit c then read_digits (acc * 10 + digit_value c) s' else acc
  | EmptyString => acc
  end.

Definition starts_with_digit (s : string) : bool :=
  match s with
  | String c _ => is_digit c
  | EmptyString => false
  end.

(** The sign and the magnitude the [strtol] family reads in base 10: white
    space, one optional sign and at least one digit; what follows the digits is
    ignored.  [None] when no conversion can be made. *)
Definition read_number (s : string) : option (bool * Z) :=
  let s := skip_spaces s in
  let '(negative, s) :=
    match s with
    | String "-" s' => (true, s')
    | String "+" s' => (false, s')
    | _ => (false, s)
    end in
  if starts_with_digit s then Some (negative, read_digits 0 s) else None.

Definition signed (number : bool * Z) : Z :=
  if number.1 then - number.2 else number.2.

(** [std::stoi]: [std::invalid_argument] without a number,
    [std::out_of_range] for one that is no [int]. *)
Definition stoi (s : string) : outcome exn Z :=
  match read_number s with
  | None => Throw (StdException "stoi")
  | Some n => if bool_decide (in_int (signed n)) then Ret (signed n)
              else Throw (StdException "stoi")
  end.

(** [std::stoul] and [std::stoull] on a 64-bit [unsigned long]: a number behind
    a minus sign is negated modulo 2^64. *)
Definition read_unsigned (name : string) (s : string) : outcome exn Z :=
  match read_number s with
  | None => Throw (StdException name)
  | Some n => if bool_decide (n.2 ≤ ULONG_MAX) then Ret (signed n mod 2 ^ 64)
              else Throw (StdException name)
  end.

Definition stoul : string → outcome exn Z := read_unsigned "stoul".
Definition stoull : string → outcome exn Z := read_unsigned "stoull".

(** ** C strings *)

(** What a callee reads behind [s.c_str()]: the characters before the first
    NUL. *)
Fixpoint c_str (s : string) : string :=
  match s with
  | EmptyString => EmptyString
  | String c s' =>
      if bool_decide (c = "000"%char) then EmptyString else String c (c_str s')
  end.

(** A text of ASCII characters without NUL. *)
Definition plain_char (c : ascii) : bool :=
  (1 <=? N_of_ascii c)%N && (N_of_ascii c <=? 127)%N.

Fixpoint plain (s : string) : bool :=
  match s with
  | EmptyString => true
  | String c s' => plain_char c && plain s'
  end.

(** ** Lemmas *)

Lemma string_app_cons c (s t : string) :
  String c s +:+ t = String c (s +:+ t).
Proof. done. Qed.

Lemma string_app_assoc (s1 s2 s3 : string) :
  (s1 +:+ s2) +:+ s3 = s1 +:+ (s2 +:+ s3).
Proof.
  induction s1 as [|c s1 IH]; [done|]. by rewrite !string_app_cons, IH.
Qed.

Lemma string_app_nil_r (s : string) : s +:+ EmptyString = s.
Proof. induction s as [|c s IH]; [done|]. by rewrite string_app_cons, IH. Qed.

Lemma pretty_char_digit n :
  (n < 10)%N → is_digit (pretty_N_char n) = true ∧
               digit_value (pretty_N_char n) = Z.of_N n.
Proof.
  intros Hn.
  assert (n = 0 ∨ n = 1 ∨ n = 2 ∨ n = 3 ∨ n = 4 ∨ n = 5 ∨ n = 6 ∨ n = 7 ∨ n = 8
          ∨ n = 9)%N as Hc by lia.
  repeat destruct Hc as [->|Hc]; try done. by rewrite Hc.
Qed.

Lemma pretty_N_go_digits n s :
  all_digits s = true →
  all_digits (pretty_N_go n s) = true ∧
  read_digits 0 (pretty_N_go n s) = read_digits (Z.of_N n) s.
Proof.
  revert s. induction (N.lt_wf_0 n) as [n _ IH]; intros s Hs.
  destruct (decide (n = 0)%N) as [->|Hn]; [done|].
  rewrite pretty_N_go_step by lia.
  destruct (pretty_char_digit (n `mod` 10)) as [Hd Hv]; [by apply N.mod_lt|].
  destruct (IH (n `div` 10)%N) with (String (pretty_N_char (n `mod` 10)) s)
    as [Ha Hr]; [by apply N.div_lt; lia|by simpl; rewrite Hd|].
  split; [done|]. rewrite Hr. simpl. rewrite Hd, Hv. f_equal.
  pose proof (N.div_mod n 10). lia.
Qed.

Lemma pretty_N_go_starts n s :
  n ≠ 0%N → starts_with_digit (pretty_N_go n s) = true.
Proof.
  revert s. induction (N.lt_wf_0 n) as [n _ IH]; intros s Hn.
  rewrite pretty_N_go_step by lia.
  destruct (decide (n `div` 10 = 0)%N) as [->|Hq].
  - by apply pretty_char_digit, N.mod_lt.
  - apply IH; [by apply N.div_lt; lia|done].
Qed.

(** The decimal text of a natural number: digits only, at least one. *)
Lemma pretty_N_text (n : N) :
  all_digits (pretty n) = true ∧ starts_with_digit (pretty n) = true ∧
  read_digits 0 (pretty n) = Z.of_N n.
Proof.
  unfold pretty, pretty_N. case_decide as Hn; [by subst|].
  destruct (pretty_N_go_digits n EmptyString) as [? ?]; [done|].
  by rewrite pretty_N_go_starts.
Qed.

(** [to_string z] is a text of digits behind a minus sign when [z] is
    negative. *)
Lemma to_string_cases z :
  ∃ digits, all_digits digits = true ∧ starts_with_digit digits = true ∧
    read_digits 0 digits = Z.abs z ∧
    to_string z = if bool_decide (z < 0) then String "-" digits else digits.
Proof.
  exists (pretty (Z.abs_N z)).
  destruct (pretty_N_text (Z.abs_N z)) as (? & ? & ->).
  split_and!; [done..|lia|]. by destruct z.
Qed.

Lemma to_string_inj z1 z2 : to_string z1 = to_string z2 → z1 = z2.
Proof. by intros ?%(inj pretty). Qed.

Lemma digit_not_space c : is_digit c = true → is_c_space c = false.
Proof. by destruct c as [[] [] [] [] [] [] [] []]. Qed.

Lemma read_number_text neg digits :
  starts_with_digit digits = true →
  read_number (if neg : bool then String "-" digits else digits) =
  Some (neg, read_digits 0 digits).
Proof.
  intros Hs. unfold read_number. destruct neg; simpl; [by rewrite Hs|].
  destruct digits as [|c s]; [done|]. simpl in *.
  rewrite digit_not_space by done.
  by destruct c as [[] [] [] [] [] [] [] []].
Qed.

Lemma read_number_to_string z :
  read_number (to_string z) = Some (bool_decide (z < 0), Z.abs z).
Proof.
  destruct (to_string_cases z) as (digits & _ & Hs & <- & ->).
  by rewrite (read_number_text (bool_decide (z < 0))).
Qed.

Lemma signed_abs z : signed (bool_decide (z < 0), Z.abs z) = z.
Proof. unfold signed; simpl. case_bool_decide; lia. Qed.

(** The text of an [int] is read back as that [int]. *)
Lemma stoi_to_string z : in_int z → stoi (to_string z) = Ret z.
Proof.
  intros Hz. unfold stoi. rewrite read_number_to_string, signed_abs.
  by rewrite bool_decide_true.
Qed.

Lemma stoi_in_int s z : stoi s = Ret z → in_int z.
Proof. unfold stoi. intros H. repeat case_match; simplify_eq; by case_bool_decide. Qed.

Lemma read_unsigned_bounds name s z :
  read_unsigned name s = Ret z → 0 ≤ z ≤ ULONG_MAX.
Proof.
  unfold read_unsigned, ULONG_MAX. intros H. repeat case_match; simplify_eq.
  pose proof (Z.mod_pos_bound (signed p) (2 ^ 64)). lia.
Qed.

Lemma read_unsigned_to_string name z :
  0 ≤ z ≤ ULONG_MAX → read_unsigned name (to_string z) = Ret z.
Proof.
  intros Hz. unfold read_unsigned. rewrite read_number_to_string.
  rewrite bool_decide_true by (simpl; lia). rewrite signed_abs.
  rewrite Z.mod_small; [done|]. unfold ULONG_MAX in Hz. lia.
Qed.

(** Reading a text of the form [digits; separator; rest] is unambiguous. *)
Lemma digits_prefix d1 d2 c1 c2 r1 r2 :
  all_digits d1 = true → all_digits d2 = true →
  is_digit c1 = false → is_digit c2 = false →
  d1 +:+ String c1 r1 = d2 +:+ String c2 r2 →
  d1 = d2 ∧ c1 = c2 ∧ r1 = r2.
Proof.
  revert d2. induction d1 as [|x d1 IH]; intros [|y d2]; simpl;
    rewrite ?string_app_cons.
  - by intros _ _ _ _ [= -> ->].
  - intros _ [Hy _]%andb_true_iff Hc1 _ [= -> _]. congruence.
  - intros [Hx _]%andb_true_iff _ _ Hc2 [= -> _]. congruence.
  - intros [_ ?]%andb_true_iff [_ ?]%andb_true_iff ?? [= -> Htail].
    by destruct (IH d2) as (-> & -> & ->).
Qed.

Lemma number_prefix z1 z2 c1 c2 r1 r2 :
  is_digit c1 = false → is_digit c2 = false →
  to_string z1 +:+ String c1 r1 = to_string z2 +:+ String c2 r2 →
  z1 = z2 ∧ c1 = c2 ∧ r1 = r2.
Proof.
  intros Hc1 Hc2 H.
  destruct (to_string_cases z1) as (d1 & Hd1 & Hs1 & Hr1 & E1).
  destruct (to_string_cases z2) as (d2 & Hd2 & Hs2 & Hr2 & E2).
  cut (to_string z1 = to_string z2 ∧ c1 = c2 ∧ r1 = r2).
  { intros (?%to_string_inj & ? & ?). done. }
  rewrite E1, E2 in H |- *. repeat case_bool_decide; rewrite ?string_app_cons in H.
  - injection H as Htail.
    by destruct (digits_prefix d1 d2 c1 c2 r1 r2) as (-> & -> & ->).
  - destruct d1 as [|x d1]; [done|]. rewrite string_app_cons in H.
    injection H as -> _. done.
  - destruct d2 as [|x d2]; [done|]. rewrite string_app_cons in H.
    injection H as <- _. done.
  - by destruct (digits_prefix d1 d2 c1 c2 r1 r2) as (-> & -> & ->).
Qed.

Lemma to_string_head z c s :
  to_string z = String c s → is_digit c = true ∨ c = "-"%char.
Proof.
  destruct (to_string_cases z) as (d & _ & Hs & _ & ->).
  case_bool_decide; [by intros [= <- _]; right|]. intros ->. by left.
Qed.

(** ** Plain texts reach a C callee whole *)

Lemma c_str_plain s : plain s = true → c_str s = s.
Proof.
  induction s as [|c s IH]; simpl; [done|].
  intros [Hc Hs]%andb_true_iff.
  rewrite bool_decide_false by (by intros ->). by rewrite IH.
Qed.

Lemma plain_app s t : plain (s +:+ t) = plain s && plain t.
Proof.
  induction s as [|c s IH]; [done|].
  rewrite string_app_cons; simpl. by rewrite IH, andb_assoc.
Qed.

Lemma all_digits_plain s : all_digits s = true → plain s = true.
Proof.
  induction s as [|c s IH]; simpl; [done|]. intros [Hc ?]%andb_true_iff.
  rewrite IH, andb_true_r by done. clear -Hc.
  by destruct c as [[] [] [] [] [] [] [] []].
Qed.

Lemma to_string_plain z : plain (to_string z) = true.
Proof.
  destruct (to_string_cases z) as (d & ?%all_digits_plain & _ & _ & ->).
  by case_bool_decide.
Qed.

#[export] Hint Resolve to_string_plain : cpp.
