(* ===== verification/Checker.v ===== *)
(** * [Calculator::Checker] ([core/src/checker.cpp])

    The argument checks made before a calculation.  The object holds a
    reference to the request's [CalculatorData], which it only reads. *)

From stdpp Require Import base tactics strings list.
From S2P Require Import Prelude.
From S2P Require Import Types.

Definition check_arguments (data : CalculatorData) : outcome exn unit :=
  if bool_decide (need_help data ≠ 0) then Ret ()
  else if bool_decide (operation data = OPERATION_NONE) then
    Throw (calculator_exception ERROR_MISSING_OPERATION "Operation is missing.")
  else if bool_decide (has_first_number data = 0) then
    Throw (calculator_exception ERROR_MISSING_FIRST_NUMBER
             "First number is missing.")
  else if bool_decide (operation data = OPERATION_FACTORIAL) then
    if bool_decide (first_number data < 0) then
      Throw (calculator_exception ERROR_NEGATIVE_FACTORIAL
               "Factorial argument must be non-negative.")
    else Ret ()
  else if bool_decide (has_second_number data = 0) then
    Throw (calculator_exception ERROR_MISSING_SECOND_NUMBER
             "Second number is missing.")
  else if bool_decide (operation data = OPERATION_EXPONENTIATION)
          && bool_decide (second_number data < 0) then
    Throw (calculator_exception ERROR_NEGATIVE_POWER
             "Negative power is not supported.")
  else Ret ().

(** ** Specification: the requests the calculator may compute *)

Record valid_arguments (data : CalculatorData) : Prop := mk_valid {
  valid_operation : operation data ≠ OPERATION_NONE;
  valid_first : has_first_number data ≠ 0;
  valid_factorial :
    operation data = OPERATION_FACTORIAL → 0 ≤ first_number data;
  valid_second :
    operation data ≠ OPERATION_FACTORIAL → has_second_number data ≠ 0;
  valid_power :
    operation data = OPERATION_EXPONENTIATION → 0 ≤ second_number data
}.

(** The code reported for arguments that are not valid: the first of the
    checks that fails, in this order. *)
Definition argument_error (data : CalculatorData) : option ErrorCode :=
  let table : list (bool * ErrorCode) :=
    [(bool_decide (operation data = OPERATION_NONE), ERROR_MISSING_OPERATION);
     (bool_decide (has_first_number data = 0), ERROR_MISSING_FIRST_NUMBER);
     (bool_decide (operation data = OPERATION_FACTORIAL
                   ∧ first_number data < 0), ERROR_NEGATIVE_FACTORIAL);
     (bool_decide (operation data ≠ OPERATION_FACTORIAL
                   ∧ has_second_number data = 0), ERROR_MISSING_SECOND_NUMBER);
     (bool_decide (operation data = OPERATION_EXPONENTIATION
                   ∧ second_number data < 0), ERROR_NEGATIVE_POWER)]
  in snd <$> head (filter (λ row, row.1 = true) table).

(** The checks never touch undefined behaviour and throw only the class of
    the calculator. *)
Lemma check_arguments_cases data :
  check_arguments data = Ret () ∨
  ∃ code what, check_arguments data = Throw (calculator_exception code what)
               ∧ code ≠ ERROR_NONE.
Proof. unfold check_arguments. repeat case_match; eauto. Qed.

Lemma check_arguments_valid data :
  need_help data = 0 →
  check_arguments data = Ret () ↔ valid_arguments data.
Proof.
  destruct data as [f s r hf hs op ec nh]; unfold check_arguments; simpl.
  intros ->; simpl. split.
  - destruct op; simpl; repeat case_bool_decide; simpl; intros ?; simplify_eq;
      constructor; simpl; intros; try done; lia.
  - intros [H1 H2 H3 H4 H5]; simpl in *.
    destruct op; simpl in *; repeat case_bool_decide; simpl; try done;
      exfalso; first [by apply H1 | by apply H4 | by apply H2
                     | specialize (H3 eq_refl); lia
                     | specialize (H5 eq_refl); lia].
Qed.

Lemma check_arguments_code data :
  need_help data = 0 →
  match check_arguments data with
  | Ret _ => argument_error data = None
  | Throw (CalculatorException code _) =>
      ∃ c, argument_error data = Some c ∧ code = error_int c
  | _ => False
  end.
Proof.
  intros Hh. unfold check_arguments, argument_error.
  destruct data as [f s r hf hs op ec nh]; simpl in *; subst nh.
  destruct op; simpl; repeat case_bool_decide; simpl;
    first [by eexists; split | done | exfalso; lia
      | match goal with H : ¬ (_ ∧ _) |- _ => by destruct H end
      | match goal with H : _ ∧ _ |- _ => by destruct H end].
Qed.

(** C19: for a request without help the checker decides validity and names the
    first defect: it accepts exactly the requests that carry an operation and
    the operands it needs, a factorial of a non-negative number and a power
    with a non-negative exponent; otherwise it throws a [CalculatorException]
    whose code is that of the first failed check, and no check fails on a
    request it accepts. *)
Theorem check_arguments_correct data :
  need_help data = 0 →
  (check_arguments data = Ret () ↔ valid_arguments data) ∧
  match check_arguments data with
  | Ret _ => argument_error data = None
  | Throw (CalculatorException code _) =>
      ∃ c, argument_error data = Some c ∧ code = error_int c
  | _ => False
  end.
Proof.
  intros Hh. split; [by apply check_arguments_valid|].
  by apply check_arguments_code.
Qed.

Definition negative_power_request : CalculatorData :=
  set_second (-1) (set_first 4 (set_operation OPERATION_EXPONENTIATION
    default_data)).

Example check_arguments_correct_witness :
  argument_error negative_power_request = Some ERROR_NEGATIVE_POWER ∧
  ¬ valid_arguments negative_power_request.
Proof.
  split; [reflexivity|]. intros Hv.
  pose proof (proj2 (proj1 (check_arguments_correct negative_power_request
    eq_refl)) Hv) as H.
  vm_compute in H. discriminate H.
Defined.
