(* ===== verification/Abacus.v ===== *)
(** * [Calculator::Abacus] ([core/src/abacus.cpp])

    The dispatch of a checked request to the arithmetic library and the
    translation of the library's status.  The library,
    [ConsoleCalculatorMathLib], is fetched by the build and is a parameter:
    its status codes and its six functions, each of which receives the value
    that [*result] holds before the call and returns its status with the value
    [*result] holds after it. *)

From stdpp Require Import base tactics strings list sets.
From Stdlib Require Import Factorial.
From S2P Require Import Prelude.
From S2P Require Import Types.
From S2P Require Import Checker.

(** ** The arithmetic library *)

Module CalculatorMath.
Class Library : Type := {
  ERROR_NONE : Z;
  ERROR_OVERFLOW : Z;
  ERROR_DIVISION_BY_ZERO : Z;
  ERROR_INVALID_ARGUMENTS : Z;
  addition : Z → Z → Z → Z * Z;
  subtraction : Z → Z → Z → Z * Z;
  multiplication : Z → Z → Z → Z * Z;
  division : Z → Z → Z → Z * Z;
  exponentiation : Z → Z → Z → Z * Z;
  factorial : Z → Z → Z * Z
}.

(** The labels of one [switch] are pairwise different: C++ refuses the
    program otherwise. *)
Class Codes `{Library} : Prop := codes_distinct :
  NoDup [ERROR_NONE; ERROR_OVERFLOW; ERROR_DIVISION_BY_ZERO;
         ERROR_INVALID_ARGUMENTS].

(** A call that reports success has stored the exact value, which is an
    [int]. *)
Definition exact_call `{Library} (call : Z → Z * Z) (value : Z) : Prop :=
  ∀ old, (call old).1 = ERROR_NONE → (call old).2 = value ∧ in_int value.

(** "Safe arithmetic": on arguments of its domain, a function of the library
    that reports success stored the exact result.  Outside of the domain
    (a negative exponent or factorial argument) nothing is assumed. *)
Class Safe `{Library} : Prop := {
  safe_addition a b : in_int a → in_int b → exact_call (addition a b) (a + b);
  safe_subtraction a b :
    in_int a → in_int b → exact_call (subtraction a b) (a - b);
  safe_multiplication a b :
    in_int a → in_int b → exact_call (multiplication a b) (a * b);
  safe_division a b :
    in_int a → in_int b → exact_call (division a b) (a `quot` b);
  safe_division_by_zero a old :
    in_int a → (division a 0 old).1 = ERROR_DIVISION_BY_ZERO;
  safe_exponentiation a b :
    in_int a → in_int b → 0 ≤ b → exact_call (exponentiation a b) (a ^ b);
  safe_factorial a :
    in_int a → 0 ≤ a → exact_call (factorial a) (Z.of_nat (fact (Z.to_nat a)))
}.

(** The reason of a failure is reported: on arguments of its domain a function
    succeeds when the value is an [int] and reports an overflow when it is none. *)
Definition reported `{Library} (call : Z → Z * Z) (value : Z) : Prop :=
  ∀ old, (call old).1 =
    if bool_decide (in_int value) then ERROR_NONE else ERROR_OVERFLOW.

Class Reports `{Library} : Prop := {
  reports_addition a b : in_int a → in_int b → reported (addition a b) (a + b);
  reports_subtraction a b :
    in_int a → in_int b → reported (subtraction a b) (a - b);
  reports_multiplication a b :
    in_int a → in_int b → reported (multiplication a b) (a * b);
  reports_division a b :
    in_int a → in_int b → b ≠ 0 → reported (division a b) (a `quot` b);
  reports_exponentiation a b :
    in_int a → in_int b → 0 ≤ b → reported (exponentiation a b) (a ^ b);
  reports_factorial a :
    in_int a → 0 ≤ a → reported (factorial a) (Z.of_nat (fact (Z.to_nat a)))
}.

(** Whether a sum or a product of two numbers overflows does not depend on
    their order. *)
Class Symmetric `{Library} : Prop := {
  symmetric_addition a b old : addition a b old = addition b a old;
  symmetric_multiplication a b old :
    multiplication a b old = multiplication b a old
}.
End CalculatorMath.

Section abacus.
Context `{math : CalculatorMath.Library}.

(** The [case] of [ERROR_INVALID_ARGUMENTS] falls through to [default]. *)
Definition map_math_error (math_error : Z) : Z :=
  if bool_decide (math_error = CalculatorMath.ERROR_NONE) then
    error_int ERROR_NONE
  else if bool_decide (math_error = CalculatorMath.ERROR_OVERFLOW) then
    error_int ERROR_OVERFLOW
  else if bool_decide (math_error = CalculatorMath.ERROR_DIVISION_BY_ZERO)
  then error_int ERROR_DIVISION_BY_ZERO
  else error_int ERROR_INVALID_OPERATION.

(** A library call whose out parameter is [&data_.result]. *)
Definition store_result (call : Z → Z * Z) : prog exn CalculatorData Z :=
  λ d, let r := call (result d) in (Ret r.1, set_result r.2 d).

Definition calculate_result : prog exn CalculatorData unit :=
  d ← gets id;
  if bool_decide (need_help d ≠ 0) then mret () else
  math_status ←
    match operation d with
    | OPERATION_ADDITION =>
        store_result
          (CalculatorMath.addition (first_number d) (second_number d))
    | OPERATION_SUBTRACTION =>
        store_result
          (CalculatorMath.subtraction (first_number d) (second_number d))
    | OPERATION_MULTIPLICATION =>
        store_result
          (CalculatorMath.multiplication (first_number d) (second_number d))
    | OPERATION_DIVISION =>
        store_result
          (CalculatorMath.division (first_number d) (second_number d))
    | OPERATION_EXPONENTIATION =>
        store_result
          (CalculatorMath.exponentiation (first_number d) (second_number d))
    | OPERATION_FACTORIAL =>
        store_result (CalculatorMath.factorial (first_number d))
    | OPERATION_NONE =>
        throw (calculator_exception ERROR_INVALID_OPERATION
                 "Unknown operation code.")
    end;
  let mapped_error := map_math_error math_status in
  if bool_decide (mapped_error ≠ error_int ERROR_NONE) then
    throw (CalculatorException mapped_error "Calculation failed.")
  else mret ().
End abacus.

(** ** Specification: the mathematical value of a request *)

Definition exact_value (d : CalculatorData) : option Z :=
  let a := first_number d in
  let b := second_number d in
  match operation d with
  | OPERATION_ADDITION => Some (a + b)
  | OPERATION_SUBTRACTION => Some (a - b)
  | OPERATION_MULTIPLICATION => Some (a * b)
  | OPERATION_DIVISION => if bool_decide (b = 0) then None else Some (a `quot` b)
  | OPERATION_EXPONENTIATION => Some (a ^ b)
  | OPERATION_FACTORIAL => Some (Z.of_nat (fact (Z.to_nat a)))
  | OPERATION_NONE => None
  end.

(** The codes a calculation can end with. *)
Definition calculation_codes : list ErrorCode :=
  [ERROR_OVERFLOW; ERROR_DIVISION_BY_ZERO; ERROR_INVALID_OPERATION].

Section properties.
Context `{math : CalculatorMath.Library}.

(** The library call the dispatch selects. *)
Definition math_call (d : CalculatorData) : option (Z → Z * Z) :=
  let a := first_number d in
  let b := second_number d in
  match operation d with
  | OPERATION_ADDITION => Some (CalculatorMath.addition a b)
  | OPERATION_SUBTRACTION => Some (CalculatorMath.subtraction a b)
  | OPERATION_MULTIPLICATION => Some (CalculatorMath.multiplication a b)
  | OPERATION_DIVISION => Some (CalculatorMath.division a b)
  | OPERATION_EXPONENTIATION => Some (CalculatorMath.exponentiation a b)
  | OPERATION_FACTORIAL => Some (CalculatorMath.factorial a)
  | OPERATION_NONE => None
  end.

Lemma calculate_result_call d call :
  need_help d = 0 → math_call d = Some call →
  calculate_result d =
    (let mapped := map_math_error (call (result d)).1 in
     if bool_decide (mapped = error_int ERROR_NONE) then Ret ()
     else Throw (CalculatorException mapped "Calculation failed."),
     set_result (call (result d)).2 d).
Proof.
  unfold calculate_result, math_call, store_result, gets, mbind, prog_bind.
  intros Hh Hc; simpl; rewrite Hh; simpl.
  destruct (operation d); simplify_eq/=; rewrite bool_decide_not; by case_bool_decide.
Qed.

Lemma calculate_result_none d :
  need_help d = 0 → math_call d = None →
  calculate_result d =
    (Throw (calculator_exception ERROR_INVALID_OPERATION
              "Unknown operation code."), d).
Proof.
  unfold calculate_result, math_call, gets, mbind, prog_bind.
  intros Hh Hc; simpl; rewrite Hh; simpl. by destruct (operation d).
Qed.

Lemma map_math_error_none `{!CalculatorMath.Codes} status :
  map_math_error status = error_int ERROR_NONE ↔
  status = CalculatorMath.ERROR_NONE.
Proof.
  unfold map_math_error. repeat case_bool_decide; simpl; split; done.
Qed.

(** [code] is the code for the failure that the library reported with [status]. *)
Record names_reason (status : Z) (code : ErrorCode) : Prop := mk_names_reason {
  reason_failed : status ≠ CalculatorMath.ERROR_NONE;
  reason_overflow :
    code = ERROR_OVERFLOW ↔ status = CalculatorMath.ERROR_OVERFLOW;
  reason_division :
    code = ERROR_DIVISION_BY_ZERO ↔ status = CalculatorMath.ERROR_DIVISION_BY_ZERO;
  reason_other :
    code = ERROR_INVALID_OPERATION ↔
    status ≠ CalculatorMath.ERROR_OVERFLOW ∧
    status ≠ CalculatorMath.ERROR_DIVISION_BY_ZERO
}.

Lemma map_math_error_codes status :
  map_math_error status = error_int ERROR_NONE ∨
  ∃ code, code ∈ calculation_codes ∧ map_math_error status = error_int code.
Proof.
  unfold map_math_error, calculation_codes.
  repeat case_bool_decide; [by left|right..]; eexists;
    (split; [|reflexivity]); set_solver.
Qed.

Lemma map_math_error_reason `{codes : !CalculatorMath.Codes} status :
  status ≠ CalculatorMath.ERROR_NONE →
  ∃ code, map_math_error status = error_int code ∧ names_reason status code.
Proof.
  unfold CalculatorMath.Codes in codes. intros Hs. unfold map_math_error.
  repeat (rewrite NoDup_cons in codes; destruct codes as [? codes]).
  rewrite bool_decide_false by done.
  repeat case_bool_decide; eexists; (split; [reflexivity|]); split; set_solver.
Qed.

(** Nothing of the data but [result] changes, on every path, and every throw
    carries one of the codes of a calculation. *)
Lemma calculate_result_frame d :
  ∃ v, (calculate_result d).2 = set_result v d.
Proof.
  assert (d = set_result (result d) d) as Hd by by destruct d.
  destruct (decide (need_help d = 0)) as [Hh|Hh].
  - destruct (math_call d) as [call|] eqn:Hc.
    + rewrite (calculate_result_call _ _ Hh Hc). by eexists.
    + rewrite (calculate_result_none _ Hh Hc). by eexists.
  - exists (result d). unfold calculate_result, gets, mbind, prog_bind; simpl.
    by rewrite bool_decide_true by done.
Qed.

Lemma calculate_result_throws d e :
  (calculate_result d).1 = Throw e →
  ∃ code what, e = calculator_exception code what ∧ code ∈ calculation_codes.
Proof.
  destruct (decide (need_help d = 0)) as [Hh|Hh].
  - destruct (math_call d) as [call|] eqn:Hc.
    + rewrite (calculate_result_call _ _ Hh Hc). simpl.
      case_bool_decide as Hm; [done|]. intros [= <-].
      destruct (map_math_error_codes (call (result d)).1)
        as [?|(code & Hin & ->)]; [done|]. by eexists _, _.
    + rewrite (calculate_result_none _ Hh Hc). intros [= <-].
      do 2 eexists. split; [done|]. unfold calculation_codes. set_solver.
  - unfold calculate_result, gets, mbind, prog_bind; simpl.
    by rewrite bool_decide_true by done.
Qed.

Lemma calculate_result_defined d : (calculate_result d).1 ≠ Undef.
Proof.
  destruct (decide (need_help d = 0)) as [Hh|Hh].
  - destruct (math_call d) as [call|] eqn:Hc.
    + rewrite (calculate_result_call _ _ Hh Hc). simpl. by case_bool_decide.
    + by rewrite (calculate_result_none _ Hh Hc).
  - unfold calculate_result, gets, mbind, prog_bind; simpl.
    by rewrite bool_decide_true by done.
Qed.

Context `{codes : !CalculatorMath.Codes} `{safe : !CalculatorMath.Safe}.

(** On checked arguments the library is only called inside its domain. *)
Lemma math_call_exact d call :
  valid_arguments d → in_int (first_number d) → in_int (second_number d) →
  math_call d = Some call → (call (result d)).1 = CalculatorMath.ERROR_NONE →
  exact_value d = Some (call (result d)).2 ∧ in_int (call (result d)).2.
Proof.
  intros [_ _ Hfact _ Hpow] Ha Hb Hc Hs.
  assert (∀ v, CalculatorMath.exact_call call v →
    Some v = Some (call (result d)).2 ∧ in_int (call (result d)).2) as Hex.
  { intros v Hv. destruct (Hv _ Hs) as [-> ?]. done. }
  unfold math_call in Hc; unfold exact_value.
  destruct (operation d) eqn:Hop; simplify_eq; try apply Hex.
  - by apply CalculatorMath.safe_addition.
  - by apply CalculatorMath.safe_subtraction.
  - by apply CalculatorMath.safe_multiplication.
  - case_bool_decide as H0; [exfalso|by apply Hex, CalculatorMath.safe_division].
    rewrite H0, CalculatorMath.safe_division_by_zero in Hs by done.
    unfold CalculatorMath.Codes in codes. rewrite Hs in codes.
    rewrite !NoDup_cons in codes. set_solver.
  - apply CalculatorMath.safe_exponentiation; auto.
  - apply CalculatorMath.safe_factorial; auto.
Qed.

(** The status of a call on checked arguments. *)
Lemma math_call_reports `{!CalculatorMath.Reports} d call :
  valid_arguments d → in_int (first_number d) → in_int (second_number d) →
  math_call d = Some call →
  (call (result d)).1 =
    match exact_value d with
    | Some v => if bool_decide (in_int v) then CalculatorMath.ERROR_NONE
                else CalculatorMath.ERROR_OVERFLOW
    | None => CalculatorMath.ERROR_DIVISION_BY_ZERO
    end.
Proof.
  intros [_ _ Hfact _ Hpow] Ha Hb Hc. unfold math_call in Hc; unfold exact_value.
  destruct (operation d) eqn:Hop; simplify_eq.
  - by apply CalculatorMath.reports_addition.
  - by apply CalculatorMath.reports_subtraction.
  - by apply CalculatorMath.reports_multiplication.
  - case_bool_decide as H0; [|by apply CalculatorMath.reports_division].
    rewrite H0. by apply CalculatorMath.safe_division_by_zero.
  - apply CalculatorMath.reports_exponentiation; auto.
  - apply CalculatorMath.reports_factorial; auto.
Qed.

(** C18: a calculation on checked [int] arguments either returns with the
    exact mathematical value in [result], which is an [int], or throws a
    [CalculatorException]; its code is that of an overflow exactly when the
    library reported an overflow, that of a division by zero exactly when it
    reported one, and that of an invalid operation for every other status; a
    division by zero always throws its own code; and only [result] is ever
    written.  So nothing wraps around, [INT_MIN / -1] included.  Over a library
    that reports the reason of a failure, the outcome is a function of the
    mathematical value alone: it returns exactly when there is a value and it is
    an [int], and throws the code of an overflow for a value that is none and the
    code of a division by zero where there is no value. *)
Theorem calculate_result_exact d :
  need_help d = 0 → valid_arguments d →
  in_int (first_number d) → in_int (second_number d) →
  match calculate_result d with
  | (Ret _, d') =>
      ∃ v, exact_value d = Some v ∧ in_int v ∧ d' = set_result v d
  | (Throw e, d') =>
      (∃ code call, e = calculator_exception code "Calculation failed." ∧
         math_call d = Some call ∧ names_reason (call (result d)).1 code ∧
         (operation d = OPERATION_DIVISION → second_number d = 0 →
          code = ERROR_DIVISION_BY_ZERO)) ∧
      ∃ v, d' = set_result v d
  | (Undef, _) => False
  end ∧
  (CalculatorMath.Reports →
   (calculate_result d).1 =
     match exact_value d with
     | Some v =>
         if bool_decide (in_int v) then Ret ()
         else Throw (calculator_exception ERROR_OVERFLOW "Calculation failed.")
     | None =>
         Throw (calculator_exception ERROR_DIVISION_BY_ZERO "Calculation failed.")
     end).
Proof.
  intros Hh Hv Ha Hb. destruct (math_call d) as [call|] eqn:Hc;
    [|by unfold math_call in Hc; destruct (operation d) eqn:?; destruct Hv].
  rewrite (calculate_result_call _ _ Hh Hc); cbn [fst snd].
  pose proof (math_call_exact d call Hv Ha Hb Hc) as Hex.
  destruct (decide ((call (result d)).1 = CalculatorMath.ERROR_NONE)) as [Hs|Hs].
  - rewrite bool_decide_true by (by apply map_math_error_none).
    destruct (Hex Hs) as [He Hint]. split; [by eexists|].
    intros _. by rewrite He, bool_decide_true.
  - destruct (map_math_error_reason _ Hs) as (code & Hm & Hr).
    rewrite bool_decide_false by (by rewrite map_math_error_none). rewrite Hm.
    split; [split; [|by eexists]|].
    + exists code, call. split_and!; [done..|]. intros Hop H0.
      unfold math_call in Hc. rewrite Hop, H0 in Hc. simplify_eq.
      apply (reason_division _ _ Hr). by apply CalculatorMath.safe_division_by_zero.
    + intros Hrep. pose proof (math_call_reports d call Hv Ha Hb Hc) as Hst.
      destruct (exact_value d) as [v|]; [case_bool_decide; [done|]|].
      * by rewrite (proj2 (reason_overflow _ _ Hr) Hst).
      * by rewrite (proj2 (reason_division _ _ Hr) Hst).
Qed.
End properties.

(** ** A library that satisfies the hypotheses

    The functions compute in [Z] and report a value outside of [int] as an
    overflow. *)

Module SafeMath.
Definition checked (value old : Z) : Z * Z :=
  if bool_decide (in_int value) then (0, value) else (1, old).

#[export] Instance library : CalculatorMath.Library := {|
  CalculatorMath.ERROR_NONE := 0;
  CalculatorMath.ERROR_OVERFLOW := 1;
  CalculatorMath.ERROR_DIVISION_BY_ZERO := 2;
  CalculatorMath.ERROR_INVALID_ARGUMENTS := 3;
  CalculatorMath.addition a b := checked (a + b);
  CalculatorMath.subtraction a b := checked (a - b);
  CalculatorMath.multiplication a b := checked (a * b);
  CalculatorMath.division a b old :=
    if bool_decide (b = 0) then (2, old) else checked (a `quot` b) old;
  CalculatorMath.exponentiation a b old :=
    if bool_decide (b < 0) then (3, old) else checked (a ^ b) old;
  CalculatorMath.factorial a old :=
    if bool_decide (a < 0) then (3, old)
    else checked (Z.of_nat (fact (Z.to_nat a))) old
|}.

#[export] Instance codes : CalculatorMath.Codes.
Proof. unfold CalculatorMath.Codes; simpl. by apply (bool_decide_unpack _). Qed.

Lemma checked_exact value : CalculatorMath.exact_call (checked value) value.
Proof. intros old. unfold checked; simpl. by case_bool_decide. Qed.

#[export] Instance safe : CalculatorMath.Safe.
Proof.
  split; simpl; intros; try apply checked_exact; try reflexivity;
    intros old; case_bool_decide; try done; by apply checked_exact.
Qed.

Lemma checked_reported value : CalculatorMath.reported (checked value) value.
Proof. intros old. unfold checked; simpl. by case_bool_decide. Qed.

#[export] Instance reports : CalculatorMath.Reports.
Proof.
  split; simpl; intros; try apply checked_reported; intros old;
    rewrite bool_decide_false by lia; by apply checked_reported.
Qed.

#[export] Instance symmetric : CalculatorMath.Symmetric.
Proof.
  split; intros; simpl; [by rewrite Z.add_comm|by rewrite Z.mul_comm].
Qed.
End SafeMath.

(** [INT_MIN / -1], the one quotient of [int]s that is not an [int]. *)
Definition int_min_division : CalculatorData :=
  set_second (-1) (set_first INT_MIN (set_operation OPERATION_DIVISION
    default_data)).

Example calculate_result_exact_witness :
  (calculate_result (math := SafeMath.library) int_min_division).1 =
    Throw (calculator_exception ERROR_OVERFLOW "Calculation failed.") ∧
  exact_value int_min_division = Some (INT_MAX + 1).
Proof.
  split; [|reflexivity].
  refine (proj2 (calculate_result_exact (math := SafeMath.library)
    (codes := SafeMath.codes) (safe := SafeMath.safe)
    int_min_division eq_refl _ _ _) SafeMath.reports).
  - by apply check_arguments_valid.
  - by apply (bool_decide_unpack _).
  - by apply (bool_decide_unpack _).
Defined.
