(* ===== verification/OperationKey.v ===== *)
(** * Records and cache keys of calculations

    [Storage::Types::OperationRecord] ([storage/include/types/]) and
    [Storage::OperationKey] ([storage/src/operation-key.cpp]), the text under
    which the cache and the database file a calculation. *)

From stdpp Require Import base tactics strings list.
From S2P Require Import Prelude.
From S2P Require Import Types.
From S2P Require Import CppString.

Module OperationRecord.
Record t : Type := mk {
  first_number : Z;
  second_number : option Z;
  operation : string;
  result : option Z;
  status : Z;
  cache_key : string
}.

#[export] Instance eq_dec : EqDecision t.
Proof. solve_decision. Defined.

(** What a request is answered from. *)
Definition answer (r : t) : Z * option Z := (status r, result r).
End OperationRecord.

(** A record that fits its C++ type and the columns of the database: the numbers
    are [int]s ([INTEGER]), the texts plain. *)
Definition option_int (o : option Z) : Prop :=
  match o with Some z => in_int z | None => True end.

#[export] Instance option_int_dec o : Decision (option_int o).
Proof. destruct o; simpl; apply _. Defined.

Record fits_columns (r : OperationRecord.t) : Prop := mk_fits {
  fits_first : in_int (OperationRecord.first_number r);
  fits_second : option_int (OperationRecord.second_number r);
  fits_operation : plain (OperationRecord.operation r) = true;
  fits_result : option_int (OperationRecord.result r);
  fits_status : in_int (OperationRecord.status r);
  fits_key : plain (OperationRecord.cache_key r) = true
}.

Module OperationKey.
Definition is_commutative (operation : string) : bool :=
  bool_decide (operation = "add") || bool_decide (operation = "+")
  || bool_decide (operation = "mul") || bool_decide (operation = "*").

Definition is_factorial (operation : string) : bool :=
  bool_decide (operation = "fact") || bool_decide (operation = "factorial")
  || bool_decide (operation = "!").

Definition symbol_for (operation : string) : outcome exn string :=
  if bool_decide (operation = "add") || bool_decide (operation = "+") then
    Ret "+"
  else if bool_decide (operation = "sub") || bool_decide (operation = "-")
  then Ret "-"
  else if bool_decide (operation = "mul") || bool_decide (operation = "*")
  then Ret "*"
  else if bool_decide (operation = "div") || bool_decide (operation = "/")
  then Ret "/"
  else if bool_decide (operation = "pow") || bool_decide (operation = "^")
  then Ret "^"
  else if is_factorial operation then Ret "fact"
  else Throw (calculator_exception ERROR_INVALID_OPERATION
                ("Unsupported operation for storage key: " +:+ operation)).

Definition make (first_number : Z) (second_number : option Z)
    (operation : string) : outcome exn string :=
  if is_factorial operation then
    Ret ("fact(" +:+ to_string first_number +:+ ")")
  else
    match second_number with
    | None =>
        Throw (calculator_exception ERROR_MISSING_SECOND_NUMBER
          "Second number is required for binary operation storage key.")
    | Some second =>
        let '(left_, right_) :=
          if is_commutative operation && bool_decide (first_number > second)
          then (second, first_number)
          else (first_number, second) in
        symbol ← symbol_for operation;
        Ret (to_string left_ +:+ symbol +:+ to_string right_)
    end.
End OperationKey.

Import OperationKey.

(** ** Specification: when two calculations are the same

    The names and the sign of an operation denote it alike; a factorial has
    one operand; the operands of a sum and of a product have no order. *)

Inductive same_calculation (a : Z) (x : option Z) (op : string)
    (a' : Z) (x' : option Z) (op' : string) : Prop :=
  | same_factorial :
      is_factorial op = true → is_factorial op' = true → a = a' →
      same_calculation a x op a' x' op'
  | same_binary b b' :
      is_factorial op = false → is_factorial op' = false →
      symbol_for op = symbol_for op' → x = Some b → x' = Some b' →
      (a = a' ∧ b = b') ∨ (is_commutative op = true ∧ a = b' ∧ b = a') →
      same_calculation a x op a' x' op'.

(** ** Lemmas *)

(** The table of the binary operations: a symbol of one character that is not
    a digit, and the same commutativity for the names that share it. *)
Lemma symbol_for_binary op s :
  is_factorial op = false → symbol_for op = Ret s →
  ∃ c, s = String c EmptyString ∧ is_digit c = false ∧ plain s = true ∧
       is_commutative op = bool_decide (s = "+" ∨ s = "*").
Proof.
  unfold symbol_for, is_commutative. intros -> H.
  repeat (case_bool_decide; simplify_eq/=); eexists; split_and!; reflexivity.
Qed.

Lemma symbol_for_ok op :
  (∃ s, symbol_for op = Ret s) ∨
  ∃ what, symbol_for op = Throw (calculator_exception ERROR_INVALID_OPERATION what).
Proof.
  unfold symbol_for. repeat (case_match; simpl; [by eauto|]). by eauto.
Qed.

(** The operands in the order in which the key holds them. *)
Definition ordered (op : string) (a b : Z) : Z * Z :=
  if is_commutative op && bool_decide (a > b) then (b, a) else (a, b).

Lemma make_factorial a x op :
  is_factorial op = true → make a x op = Ret ("fact(" +:+ to_string a +:+ ")").
Proof. unfold make. by intros ->. Qed.

Lemma make_binary a b op c :
  is_factorial op = false → symbol_for op = Ret (String c EmptyString) →
  make a (Some b) op =
    Ret (to_string (ordered op a b).1 +:+
         String c (to_string (ordered op a b).2)).
Proof. unfold make, ordered. intros -> ->. by case_match. Qed.

(** A key determines what was filed under it. *)
Lemma make_cases a x op k :
  make a x op = Ret k →
  (is_factorial op = true ∧ k = "fact(" +:+ to_string a +:+ ")") ∨
  ∃ b c, is_factorial op = false ∧ x = Some b ∧ is_digit c = false ∧
    symbol_for op = Ret (String c EmptyString) ∧
    k = to_string (ordered op a b).1 +:+ String c (to_string (ordered op a b).2).
Proof.
  intros Hk. destruct (is_factorial op) eqn:Hf.
  - left. rewrite make_factorial in Hk by done. by simplify_eq.
  - right. destruct x as [b|]; [|by unfold make in Hk; rewrite Hf in Hk].
    destruct (symbol_for_ok op) as [[s Hs]|[what Hs]].
    + destruct (symbol_for_binary _ _ Hf Hs) as (c & -> & Hc & _).
      rewrite (make_binary _ _ _ c) in Hk by done. simplify_eq.
      exists b, c. done.
    + unfold make in Hk. rewrite Hf, Hs in Hk. by repeat case_match.
Qed.

Lemma ordered_swap op a b : is_commutative op = true → ordered op a b = ordered op b a.
Proof.
  unfold ordered. intros ->; simpl. repeat case_bool_decide; try done; try lia.
  f_equal; lia.
Qed.

Lemma ordered_inv op a b a' b' :
  ordered op a b = ordered op a' b' →
  (a = a' ∧ b = b') ∨ (is_commutative op = true ∧ a = b' ∧ b = a').
Proof.
  unfold ordered. destruct (is_commutative op); simpl;
    repeat case_bool_decide; intros [= -> ->]; auto.
Qed.

(** The factorial key starts with a letter, the key of a binary operation with
    a digit or a minus sign. *)
Lemma factorial_key_not_binary a z s : "fact(" +:+ a ≠ to_string z +:+ s.
Proof.
  intros H. destruct (to_string z) as [|c t] eqn:Hz.
  - destruct (to_string_cases z) as (d & _ & Hs & _ & E).
    rewrite E in Hz. case_bool_decide; [done|]. by rewrite Hz in Hs.
  - rewrite string_app_cons in H. injection H as <- _.
    by apply to_string_head in Hz as [?|?].
Qed.

Lemma string_app_inj_l (s t u : string) : s +:+ t = s +:+ u → t = u.
Proof. by intros ?%(inj _). Qed.

Lemma make_same a x op a' x' op' k k' :
  make a x op = Ret k → make a' x' op' = Ret k' →
  k = k' ↔ same_calculation a x op a' x' op'.
Proof.
  intros Hk Hk'.
  destruct (make_cases _ _ _ _ Hk) as [[Hf ->]|(b & c & Hf & -> & Hc & Hs & ->)];
  destruct (make_cases _ _ _ _ Hk')
    as [[Hf' ->]|(b' & c' & Hf' & -> & Hc' & Hs' & ->)].
  - split.
    + intros H%string_app_inj_l. apply same_factorial; [done..|].
      by apply number_prefix in H as [? _].
    + intros [_ _ ->|???]; [done|congruence].
  - split; [by intros ?%factorial_key_not_binary|].
    intros [|]; congruence.
  - split; [intros H; symmetry in H; by apply factorial_key_not_binary in H|].
    intros [|]; congruence.
  - assert (is_commutative op' = is_commutative op ∨ c ≠ c') as Hcomm.
    { destruct (symbol_for_binary _ _ Hf Hs) as (? & _ & _ & _ & ->).
      destruct (symbol_for_binary _ _ Hf' Hs') as (? & _ & _ & _ & ->).
      destruct (decide (c = c')) as [->|?]; auto. }
    split.
    + intros (H1 & -> & H2%to_string_inj)%number_prefix; [|done..].
      destruct Hcomm as [Hcomm|]; [|done].
      eapply same_binary; [done|done|congruence|done|done|].
      apply ordered_inv. unfold ordered in *. rewrite Hcomm in *.
      by apply injective_projections.
    + intros [? ? ?|b1 b1' _ _ Hsym [= <-] [= <-] Hab]; [congruence|].
      assert (c = c') as <- by congruence.
      destruct Hcomm as [Hcomm|]; [|done].
      assert (ordered op a b = ordered op' a' b') as ->; [|done].
      destruct Hab as [[-> ->]|(Hc1 & -> & ->)];
        [by unfold ordered; rewrite Hcomm|].
      rewrite ordered_swap by done. unfold ordered. by rewrite Hcomm.
Qed.

Lemma make_defined a x op :
  match make a x op with
  | Ret _ => True
  | Throw e => ∃ code what, e = calculator_exception code what ∧
      (code = ERROR_MISSING_SECOND_NUMBER ∨ code = ERROR_INVALID_OPERATION)
  | Undef => False
  end.
Proof.
  unfold make. destruct (is_factorial op); [done|].
  destruct x as [b|]; [|by eauto 10].
  destruct (symbol_for_ok op) as [[s ->]|[what ->]];
    destruct (is_commutative op && bool_decide (a > b)); simpl; try done;
    do 2 eexists; (split; [reflexivity|by right]).
Qed.

(** A key is a plain text, so it reaches the database whole. *)
Lemma make_plain a x op k : make a x op = Ret k → plain k = true.
Proof.
  intros [[_ ->]|(b & c & Hf & _ & _ & Hs & ->)]%make_cases.
  - by rewrite !plain_app, to_string_plain.
  - destruct (symbol_for_binary _ _ Hf Hs) as (c' & [= <-] & _ & Hc & _).
    simpl in Hc. apply andb_true_iff in Hc as [Hc _].
    rewrite plain_app; simpl. by rewrite !to_string_plain, Hc.
Qed.

(** ** Theorems *)

(** C20: cache keys neither collide nor miss: two calculations that have keys
    have the same key exactly when they are the same calculation, that is the
    same operation (under any of its names) on the same operands, where the
    operands of a sum or a product may be exchanged and a factorial looks at
    its first operand only. *)
Theorem make_injective a x op k a' x' op' k' :
  make a x op = Ret k → make a' x' op' = Ret k' →
  k = k' ↔ same_calculation a x op a' x' op'.
Proof. apply make_same. Qed.

Example make_injective_witness :
  "-1--2" = "-1--2" ↔
  same_calculation (-1) (Some (-2)) "sub" (-1) (Some (-2)) "-".
Proof.
  by apply (make_injective (-1) (Some (-2)) "sub" "-1--2" (-1) (Some (-2)) "-").
Defined.

(** [make] returns a key exactly for a factorial and for a binary
    operation of the table with both operands; without the second operand of a
    binary operation it throws [ERROR_MISSING_SECOND_NUMBER], for any other
    name [ERROR_INVALID_OPERATION]. *)
Lemma make_errors a x op :
  match make a x op with
  | Ret _ =>
      is_factorial op = true ∨
      (x ≠ None ∧ op ∈ ["add"; "+"; "sub"; "-"; "mul"; "*"; "div"; "/"; "pow"; "^"])
  | Throw (CalculatorException code _) =>
      is_factorial op = false ∧
      code = error_int (if decide (x = None) then ERROR_MISSING_SECOND_NUMBER
                        else ERROR_INVALID_OPERATION) ∧
      (x ≠ None →
       op ∉ ["add"; "+"; "sub"; "-"; "mul"; "*"; "div"; "/"; "pow"; "^"])
  | _ => False
  end.
Proof.
  unfold make. destruct (is_factorial op) eqn:Hf; [by left|].
  destruct x as [b|]; [|done].
  destruct (is_commutative op && bool_decide (a > b));
    unfold symbol_for; rewrite Hf; repeat (case_bool_decide; simpl);
    first [right; split; [done|]; subst; by apply (bool_decide_unpack _)
          |split_and!; [done|done|intros _ Hin]].
  all: rewrite !elem_of_cons, elem_of_nil in Hin;
    repeat (destruct Hin as [Hin|Hin]; [done|]); done.
Qed.
