(* ===== verification/CacheRepository.v ===== *)
(** * [Storage::CacheRepository] ([storage/src/cache-repository.cpp])

    The cache in front of the database: an [std::unordered_map] from cache keys
    to records, here a finite map.  [find] and [find_by_key] are [const]. *)

From stdpp Require Import base tactics strings list gmap.
From S2P Require Import Prelude.
From S2P Require Import Types.
From S2P Require Import OperationKey.

Abbreviation cache := (gmap string OperationRecord.t).

Module CacheRepository.
(** [cache_.insert_or_assign(record.cache_key(), record)] *)
Definition put (record : OperationRecord.t) (c : cache) : cache :=
  <[OperationRecord.cache_key record := record]> c.

Fixpoint warm_up (records : list OperationRecord.t) (c : cache) : cache :=
  match records with
  | [] => c
  | record :: rest => warm_up rest (put record c)
  end.

Definition find_by_key (cache_key : string) (c : cache) :
    option OperationRecord.t :=
  c !! cache_key.

Definition find (first_number : Z) (second_number : option Z)
    (operation : string) (c : cache) : outcome exn (option OperationRecord.t) :=
  key ← OperationKey.make first_number second_number operation;
  Ret (find_by_key key c).

Definition size (c : cache) : nat := base.size c.
End CacheRepository.

Import CacheRepository.

(** The last record of a history under a key. *)
Definition last_with_key (k : string) (records : list OperationRecord.t) :
    option OperationRecord.t :=
  last (filter (λ r, OperationRecord.cache_key r = k) records).

Lemma warm_up_lookup records c k :
  warm_up records c !! k =
    match last_with_key k records with
    | Some r => Some r
    | None => c !! k
    end.
Proof.
  unfold last_with_key. revert c. induction records as [|r rs IH]; intros c; [done|].
  simpl. rewrite IH, filter_cons. unfold put.
  destruct (decide (OperationRecord.cache_key r = k)) as [<-|Hne].
  - rewrite last_cons. destruct (last (filter _ rs)); [done|].
    by rewrite lookup_insert_eq.
  - by rewrite lookup_insert_ne.
Qed.

(** A condition that every record of the cache meets is kept by [put] of a
    record that meets it. *)
Lemma put_Forall (P : string → OperationRecord.t → Prop) r c :
  map_Forall P c → P (OperationRecord.cache_key r) r → map_Forall P (put r c).
Proof. intros Hc Hr. by apply map_Forall_insert_2. Qed.

Lemma warm_up_Forall (P : string → OperationRecord.t → Prop) rs c :
  map_Forall P c → Forall (λ r, P (OperationRecord.cache_key r) r) rs →
  map_Forall P (warm_up rs c).
Proof.
  intros Hc Hrs. revert c Hc.
  induction Hrs as [|r rs Hr _ IH]; simpl; auto using put_Forall.
Qed.

(** After a warm-up from a history and one more [put], [find] of any
    calculation with a key returns the record put under that key if it has that
    key, otherwise the last record of the history with the key, otherwise what
    the cache held before. *)
Lemma find_after_warm_up records r c a x op k :
  OperationKey.make a x op = Ret k →
  find a x op (put r (warm_up records c)) =
    Ret (if decide (OperationRecord.cache_key r = k) then Some r
         else match last_with_key k records with
              | Some r' => Some r'
              | None => c !! k
              end).
Proof.
  intros Hk. unfold find, find_by_key, put. rewrite Hk; simpl. f_equal.
  rewrite lookup_insert, warm_up_lookup. by case_decide.
Qed.

Example find_after_warm_up_witness :
  find 3 (Some 2) "mul"
    (put (OperationRecord.mk 1 (Some 2) "add" (Some 3) 0 "1+2")
      (warm_up [OperationRecord.mk 2 (Some 3) "mul" (Some 6) 0 "2*3";
                OperationRecord.mk 5 None "fact" (Some 120) 0 "fact(5)"] ∅)) =
  Ret (Some (OperationRecord.mk 2 (Some 3) "mul" (Some 6) 0 "2*3")).
Proof. by rewrite (find_after_warm_up _ _ _ _ _ _ "2*3"). Defined.

(** The number of records after a warm-up of an empty cache is the number of
    different keys of the history. *)
Lemma warm_up_dom records c :
  dom (warm_up records c) =
    list_to_set (OperationRecord.cache_key <$> records) ∪ dom c.
Proof.
  revert c. induction records as [|r rs IH]; intros c; simpl; [set_solver|].
  rewrite IH. unfold put. rewrite dom_insert_L. set_solver.
Qed.

(** Warming up an empty cache leaves one record per key of the history, so
    [size] is the number of different keys and a history without repeated keys
    is loaded whole. *)
Lemma warm_up_size records :
  size (warm_up records ∅) =
    base.size (list_to_set (OperationRecord.cache_key <$> records) : gset string) ∧
  (NoDup (OperationRecord.cache_key <$> records) →
   size (warm_up records ∅) = length records).
Proof.
  assert (size (warm_up records ∅) =
    base.size (list_to_set (OperationRecord.cache_key <$> records) : gset string))
    as Hs.
  { unfold size. rewrite <-size_dom, warm_up_dom. f_equal. set_solver. }
  split; [done|]. intros Hnd. rewrite Hs, size_list_to_set by done.
  by rewrite length_fmap.
Qed.
