(* ===== verification/Postgres.v ===== *)
(** * The PostgreSQL layer ([storage/postgres/])

    [PostgresResult], [PostgresConnection] and [PostgresRepository] over
    [libpq], a C library outside of the repository and a parameter here: the
    functions the code calls, with the state of the server and of the
    connection as an explicit [world].  The three SQL statements are the texts
    of the source; what the server does with them is stated by
    [Libpq.Documented]. *)

From stdpp Require Import base tactics strings list.
From Stdlib Require Import Ascii.
From S2P Require Import Prelude.
From S2P Require Import Types.
From S2P Require Import CppString.
From S2P Require Import OperationKey.

Definition newline : string := String "010" EmptyString.

(** [kSql] of [init_schema]. *)
Definition create_sql : string :=
  newline +:+ "CREATE TABLE IF NOT EXISTS operation_history (" +:+
  newline +:+ "    id BIGSERIAL PRIMARY KEY," +:+
  newline +:+ "    first_number INTEGER NOT NULL," +:+
  newline +:+ "    second_number INTEGER," +:+
  newline +:+ "    operation TEXT NOT NULL," +:+
  newline +:+ "    result INTEGER," +:+
  newline +:+ "    status INTEGER NOT NULL," +:+
  newline +:+ "    cache_key TEXT NOT NULL UNIQUE," +:+
  newline +:+ "    created_at TIMESTAMPTZ NOT NULL DEFAULT now()" +:+
  newline +:+ ");" +:+ newline.

(** [kSql] of [load_history]. *)
Definition select_sql : string :=
  newline +:+ "SELECT first_number, second_number, operation, result, status, cache_key" +:+
  newline +:+ "FROM operation_history" +:+
  newline +:+ "ORDER BY id ASC;" +:+ newline.

(** [kSql] of [save]. *)
Definition insert_sql : string :=
  newline +:+ "INSERT INTO operation_history (first_number, second_number, operation, result, status, cache_key)" +:+
  newline +:+ "VALUES ($1, $2, $3, $4, $5, $6)" +:+
  newline +:+ "ON CONFLICT (cache_key) DO NOTHING;" +:+ newline.

(** ** [libpq] *)

Module Libpq.
Class Library : Type := {
  world : Type;
  pg_conn : Type;
  pg_result : Type;
  CONNECTION_OK : Z;
  PGRES_COMMAND_OK : Z;
  PGRES_TUPLES_OK : Z;
  PQconnectdb : string → world → option pg_conn * world;
  PQstatus : pg_conn → world → Z;
  PQerrorMessage : pg_conn → world → option string;
  PQexec : pg_conn → string → world → option pg_result * world;
  PQexecParams :
    pg_conn → string → list (option string) → world → option pg_result * world;
  PQresultStatus : pg_result → Z;
  PQresultErrorMessage : pg_result → option string;
  PQresStatus : Z → string;
  PQntuples : pg_result → Z;
  PQnfields : pg_result → Z;
  PQgetisnull : pg_result → Z → Z → Z;
  PQgetvalue : pg_result → Z → Z → option string;
  PQclear : pg_result → world → world;
  PQfinish : pg_conn → world → world
}.
End Libpq.
Import Libpq.

(** ** [PostgresResult]: a [unique_ptr] to a result, empty when moved from *)

Module PostgresResult.
Section postgres_result.
Context `{Library}.

Definition t : Type := option pg_result.

(** The constructor. *)
Definition make (result : option pg_result) : outcome exn t :=
  match result with
  | None => Throw (calculator_exception ERROR_STORAGE
                     "PostgreSQL result was not created.")
  | Some _ => Ret result
  end.

(** [PgResultDeleter] *)
Definition destroy (self : t) : world → world :=
  match self with
  | None => id
  | Some result => PQclear result
  end.

Definition get (self : t) : outcome exn pg_result :=
  match self with
  | None => Throw (calculator_exception ERROR_STORAGE
                     "PostgreSQL result is empty.")
  | Some result => Ret result
  end.

Definition expect_status (expected_status : Z)
    (expected_status_name : string) (self : t) : outcome exn unit :=
  result ← get self;
  let actual_status := PQresultStatus result in
  if bool_decide (actual_status ≠ expected_status) then
    result' ← get self;
    let error_message := PQresultErrorMessage result' in
    Throw (calculator_exception ERROR_STORAGE
      ("Unexpected PostgreSQL result status. Expected " +:+
       expected_status_name +:+ ", got " +:+ PQresStatus actual_status +:+
       ". " +:+ default EmptyString error_message))
  else Ret ().

Definition expect_command_ok : t → outcome exn unit :=
  expect_status PGRES_COMMAND_OK "PGRES_COMMAND_OK".

Definition expect_tuples_ok : t → outcome exn unit :=
  expect_status PGRES_TUPLES_OK "PGRES_TUPLES_OK".

Definition row_count (self : t) : outcome exn Z :=
  result ← get self; Ret (PQntuples result).

Definition column_count (self : t) : outcome exn Z :=
  result ← get self; Ret (PQnfields result).

Definition is_null (row column : Z) (self : t) : outcome exn bool :=
  result ← get self;
  Ret (bool_decide (PQgetisnull result row column ≠ 0)).

Definition value (row column : Z) (self : t) : outcome exn string :=
  null ← is_null row column self;
  if null : bool then Ret EmptyString
  else
    result ← get self;
    Ret (default EmptyString (PQgetvalue result row column)).
End postgres_result.
End PostgresResult.

(** ** [PostgresConnection]: a [unique_ptr] to a connection *)

Module PostgresConnection.
Section postgres_connection.
Context `{Library}.

Definition t : Type := option pg_conn.

(** [PgConnectionDeleter] *)
Definition destroy (self : t) : world → world :=
  match self with
  | None => id
  | Some connection => PQfinish connection
  end.

Definition is_connected (self : t) (w : world) : bool :=
  match self with
  | None => false
  | Some connection => bool_decide (PQstatus connection w = CONNECTION_OK)
  end.

Definition last_error (self : t) (w : world) : string :=
  match self with
  | None => "PostgreSQL connection is null."
  | Some connection => default EmptyString (PQerrorMessage connection w)
  end.

Definition ensure_connected (self : t) : prog exn world unit := λ w,
  if negb (is_connected self w) then
    (Throw (calculator_exception ERROR_STORAGE
       ("PostgreSQL connection failed: " +:+ last_error self w)), w)
  else (Ret (), w).

(** The constructor. *)
Definition connect (connection_string : string) : prog exn world t :=
  connection ← (λ w, let '(c, w') := PQconnectdb (c_str connection_string) w
                     in (Ret c, w'));
  _ ← unwinding (destroy connection) (ensure_connected connection);
  mret connection.

(** [connection_.get()] after [ensure_connected]. *)
Definition call (self : t)
    (f : pg_conn → world → option pg_result * world) :
    prog exn world PostgresResult.t :=
  match self with
  | None => λ w, (Undef, w)
  | Some connection =>
      result ← (λ w, let '(r, w') := f connection w in (Ret r, w'));
      lift (PostgresResult.make result)
  end.

Definition execute (sql : string) (self : t) :
    prog exn world PostgresResult.t :=
  _ ← ensure_connected self;
  call self (λ c, PQexec c (c_str sql)).

(** [values] holds the [c_str()] of each parameter, a null pointer for an
    empty one. *)
Definition execute_params (sql : string) (params : list (option string))
    (self : t) : prog exn world PostgresResult.t :=
  _ ← ensure_connected self;
  let values := fmap (M := option) c_str <$> params in
  call self (λ c, PQexecParams c (c_str sql) values).
End postgres_connection.
End PostgresConnection.

(** ** [PostgresRepository] *)

Module PostgresRepository.
Section postgres_repository.
Context `{Library}.

Definition parse_optional_int (result : PostgresResult.t) (row column : Z) :
    outcome exn (option Z) :=
  null ← PostgresResult.is_null row column result;
  if null : bool then Ret None
  else
    text ← PostgresResult.value row column result;
    number ← stoi text;
    Ret (Some number).

Definition to_optional_string (value : option Z) : option string :=
  match value with
  | None => None
  | Some v => Some (to_string v)
  end.

Definition init_schema (connection : PostgresConnection.t) :
    prog exn world unit :=
  result ← PostgresConnection.execute create_sql connection;
  scoped (PostgresResult.destroy result)
    (lift (PostgresResult.expect_command_ok result)).

(** One turn of the loop of [load_history]. *)
Definition load_row (result : PostgresResult.t) (row : Z) :
    outcome exn OperationRecord.t :=
  first_text ← PostgresResult.value row 0 result;
  first_number ← stoi first_text;
  second_number ← parse_optional_int result row 1;
  operation ← PostgresResult.value row 2 result;
  operation_result ← parse_optional_int result row 3;
  status_text ← PostgresResult.value row 4 result;
  status ← stoi status_text;
  cache_key ← PostgresResult.value row 5 result;
  Ret (OperationRecord.mk first_number second_number operation
         operation_result status cache_key).

(** [for (int row = first; row < result.row_count(); ++row)], with a bound
    on the turns: [load_history] gives the row count. *)
Fixpoint load_rows (turns : nat) (result : PostgresResult.t) (row : Z) :
    outcome exn (list OperationRecord.t) :=
  match turns with
  | O => Ret []
  | S turns' =>
      count ← PostgresResult.row_count result;
      if bool_decide (row < count) then
        record ← load_row result row;
        records ← load_rows turns' result (row + 1);
        Ret (record :: records)
      else Ret []
  end.

(** [records.reserve(static_cast<std::size_t>(count))]: the conversion makes of a
    negative count a size that no vector can have; every other [int] is one. *)
Definition reserve (count : Z) : outcome exn unit :=
  if bool_decide (count < 0) then Throw (StdException "vector::reserve")
  else Ret ().

Definition load_history (connection : PostgresConnection.t) :
    prog exn world (list OperationRecord.t) :=
  result ← PostgresConnection.execute select_sql connection;
  scoped (PostgresResult.destroy result)
    (_ ← lift (PostgresResult.expect_tuples_ok result);
     count ← lift (PostgresResult.row_count result);
     _ ← lift (reserve count);
     lift (load_rows (Z.to_nat count) result 0)).

Definition params (record : OperationRecord.t) : list (option string) :=
  [Some (to_string (OperationRecord.first_number record));
   to_optional_string (OperationRecord.second_number record);
   Some (OperationRecord.operation record);
   to_optional_string (OperationRecord.result record);
   Some (to_string (OperationRecord.status record));
   Some (OperationRecord.cache_key record)].

Definition save (record : OperationRecord.t)
    (connection : PostgresConnection.t) : prog exn world unit :=
  result ← PostgresConnection.execute_params insert_sql (params record)
             connection;
  scoped (PostgresResult.destroy result)
    (lift (PostgresResult.expect_command_ok result)).
End postgres_repository.
End PostgresRepository.

(** ** What the server documents

    [cells r] is the row of [r] as text, [None] for NULL. *)

Definition cells (r : OperationRecord.t) : list (option string) :=
  [Some (to_string (OperationRecord.first_number r));
   to_string <$> OperationRecord.second_number r;
   Some (OperationRecord.operation r);
   to_string <$> OperationRecord.result r;
   Some (to_string (OperationRecord.status r));
   Some (OperationRecord.cache_key r)].

Definition has_key (k : string) (rows : list OperationRecord.t) : Prop :=
  k ∈ OperationRecord.cache_key <$> rows.

#[export] Instance has_key_dec k rows : Decision (has_key k rows).
Proof. unfold has_key. apply _. Defined.

(** [INSERT ... ON CONFLICT (cache_key) DO NOTHING] *)
Definition insert_row (r : OperationRecord.t) (rows : list OperationRecord.t) :
    list OperationRecord.t :=
  if decide (has_key (OperationRecord.cache_key r) rows) then rows
  else rows ++ [r].

Section documented.
Context `{Library}.

(** Cell [column] of row [row] of a result, as text. *)
Definition shows (res : pg_result) (row column : Z) (cell : option string) :
    Prop :=
  match cell with
  | None => PQgetisnull res row column ≠ 0
  | Some text => PQgetisnull res row column = 0 ∧
                 PQgetvalue res row column = Some text
  end.

(** [Documented]: while the server is available to a connection, its three
    statements succeed; [CREATE TABLE IF NOT EXISTS] keeps the rows, [SELECT]
    shows them in the order of their ids, [INSERT] adds a row with a new key
    and leaves the table alone for a key it holds.  [PQclear] frees a result,
    [PQfinish] closes a connection; neither changes the table. *)
Class Documented : Type := {
  table : world → list OperationRecord.t;
  available : pg_conn → world → Prop;
  available_status c w : available c w → PQstatus c w = CONNECTION_OK;
  create_ok c w : available c w →
    ∃ r w', PQexec c create_sql w = (Some r, w') ∧
      PQresultStatus r = PGRES_COMMAND_OK ∧ available c w' ∧
      table w' = table w;
  select_ok c w : available c w →
    ∃ r w', PQexec c select_sql w = (Some r, w') ∧
      PQresultStatus r = PGRES_TUPLES_OK ∧ available c w' ∧
      table w' = table w ∧
      PQntuples r = Z.of_nat (length (table w)) ∧
      ∀ i rec j cell, table w !! i = Some rec → cells rec !! j = Some cell →
        shows r (Z.of_nat i) (Z.of_nat j) cell;
  insert_ok c w rec : available c w → fits_columns rec →
    ∃ r w', PQexecParams c insert_sql (cells rec) w = (Some r, w') ∧
      PQresultStatus r = PGRES_COMMAND_OK ∧ available c w' ∧
      table w' = insert_row rec (table w);
  clear_keeps c r w : available c w →
    available c (PQclear r w) ∧ table (PQclear r w) = table w;
  finish_keeps c w : table (PQfinish c w) = table w
}.
End documented.

(** ** Failures, without any assumption on [libpq] *)

(** The exceptions that are thrown: [ERROR_STORAGE] by the connection and the
    statements, [std::stoi]'s for a cell that is no number, and, from the whole
    of [load_history], that of [reserve]. *)
Definition storage_failure (e : exn) : Prop :=
  ∃ what, e = calculator_exception ERROR_STORAGE what.

Definition conversion_failure (e : exn) : Prop :=
  storage_failure e ∨ e = StdException "stoi".

Definition history_failure (e : exn) : Prop :=
  conversion_failure e ∨ e = StdException "vector::reserve".

(** A value, or an exception of the kind [P]. *)
Definition fails_with {A} (P : exn → Prop) (o : outcome exn A) : Prop :=
  match o with
  | Ret _ => True
  | Throw e => P e
  | Undef => False
  end.

Lemma fails_bind {A B} P (m : outcome exn A) (k : A → outcome exn B) :
  fails_with P m → (∀ a, fails_with P (k a)) → fails_with P (m ≫= k).
Proof. destruct m; simpl; auto. Qed.

Lemma fails_prog_bind {S A B} P (m : prog exn S A) (k : A → prog exn S B) s :
  fails_with P (m s).1 → (∀ a s', fails_with P (k a s').1) →
  fails_with P ((m ≫= k) s).1.
Proof.
  unfold mbind, prog_bind. destruct (m s) as [[a|e|] s']; simpl; auto.
Qed.

Lemma storage_converts {A} (o : outcome exn A) :
  fails_with storage_failure o → fails_with conversion_failure o.
Proof. destruct o; simpl; [done|by left|done]. Qed.

Lemma conversion_history {A} (o : outcome exn A) :
  fails_with conversion_failure o → fails_with history_failure o.
Proof. destruct o; simpl; [done|by left|done]. Qed.

Lemma fails_stoi s : fails_with conversion_failure (stoi s).
Proof. unfold stoi. repeat case_match; first [done | by right]. Qed.

Create HintDb failure.
#[export] Hint Resolve fails_stoi storage_converts conversion_history : failure.

(** Walks through the binds of a program; the calls it meets are solved with the
    lemmas on them. *)
Ltac walk_failure :=
  repeat first
    [ done
    | by auto with failure
    | match goal with |- fails_with _ (lift _ _).1 => unfold lift; simpl fst end
    | match goal with |- fails_with _ (scoped _ _ _).1 => rewrite scoped_outcome end
    | match goal with |- fails_with _ (unwinding _ _ _).1 => rewrite unwinding_outcome end
    | apply fails_bind; [|intros ?]
    | apply fails_prog_bind; [|intros ? ?]
    | progress simpl
    | case_match ].

Section failures.
Context `{Library}.

Lemma fails_get r : fails_with storage_failure (PostgresResult.get r).
Proof. destruct r; simpl; [done|by eexists]. Qed.

Lemma fails_make r : fails_with storage_failure (PostgresResult.make r).
Proof. destruct r; simpl; [done|by eexists]. Qed.
Hint Resolve fails_get fails_make : failure.

Lemma fails_value row col r :
  fails_with storage_failure (PostgresResult.value row col r).
Proof. unfold PostgresResult.value, PostgresResult.is_null. walk_failure. Qed.

Lemma fails_row_count r : fails_with storage_failure (PostgresResult.row_count r).
Proof. unfold PostgresResult.row_count. walk_failure. Qed.

Lemma fails_expect_status code name r :
  fails_with storage_failure (PostgresResult.expect_status code name r).
Proof.
  unfold PostgresResult.expect_status. apply fails_bind; [auto with failure|].
  intros res. case_bool_decide; [|done].
  apply fails_bind; [auto with failure|]. intros res'. by eexists.
Qed.
Hint Resolve fails_value fails_row_count fails_expect_status : failure.

Lemma fails_parse_optional_int row col r :
  fails_with conversion_failure (PostgresRepository.parse_optional_int r row col).
Proof.
  unfold PostgresRepository.parse_optional_int, PostgresResult.is_null.
  walk_failure.
Qed.
Hint Resolve fails_parse_optional_int : failure.

Lemma fails_load_rows n row r :
  fails_with conversion_failure (PostgresRepository.load_rows n r row).
Proof.
  revert row. induction n as [|n IH]; intros row; simpl; [done|].
  unfold PostgresRepository.load_row. walk_failure.
Qed.
Hint Resolve fails_load_rows : failure.

Lemma fails_reserve count :
  fails_with history_failure (PostgresRepository.reserve count).
Proof. unfold PostgresRepository.reserve. case_bool_decide; [by right|done]. Qed.
Hint Resolve fails_reserve : failure.

Lemma fails_ensure_connected c w :
  fails_with storage_failure (PostgresConnection.ensure_connected c w).1.
Proof.
  unfold PostgresConnection.ensure_connected. case_match; simpl; [by eexists|done].
Qed.

Lemma fails_guarded_call c f w :
  fails_with storage_failure ((_ ← PostgresConnection.ensure_connected c;
                               PostgresConnection.call c f) w).1.
Proof.
  destruct c as [c|]; [|by eexists].
  apply fails_prog_bind; [apply fails_ensure_connected|]. intros [] w'.
  unfold PostgresConnection.call, mbind, prog_bind, lift.
  destruct (f c w') as [r w'']; simpl. auto with failure.
Qed.

Lemma fails_execute sql c w :
  fails_with storage_failure (PostgresConnection.execute sql c w).1.
Proof. apply fails_guarded_call. Qed.

Lemma fails_execute_params sql ps c w :
  fails_with storage_failure (PostgresConnection.execute_params sql ps c w).1.
Proof. apply fails_guarded_call. Qed.
Hint Resolve fails_execute fails_execute_params : failure.

Lemma fails_init_schema c w :
  fails_with storage_failure (PostgresRepository.init_schema c w).1.
Proof.
  unfold PostgresRepository.init_schema, PostgresResult.expect_command_ok.
  walk_failure.
Qed.

Lemma fails_save r c w :
  fails_with storage_failure (PostgresRepository.save r c w).1.
Proof.
  unfold PostgresRepository.save, PostgresResult.expect_command_ok. walk_failure.
Qed.

Lemma fails_load_history c w :
  fails_with history_failure (PostgresRepository.load_history c w).1.
Proof.
  unfold PostgresRepository.load_history, PostgresResult.expect_tuples_ok.
  walk_failure.
Qed.

(** [reserve] throws for a result of the query that counts less than no rows. *)
Lemma load_history_counts c w :
  fails_with conversion_failure (PostgresRepository.load_history c w).1 ∨
  ∃ conn r w', c = Some conn ∧ PQexec conn (c_str select_sql) w = (Some r, w') ∧
               PQntuples r < 0.
Proof.
  unfold PostgresRepository.load_history.
  pose proof (fails_execute select_sql c w) as Hx. unfold mbind at 1, prog_bind at 1.
  destruct (PostgresConnection.execute select_sql c w) as [[result|e|] w1] eqn:Hex;
    [|by left; apply storage_converts..].
  rewrite scoped_outcome.
  destruct result as [r|]; [|left; left; by eexists].
  destruct (decide (PQntuples r < 0)) as [Hneg|Hpos].
  - right. revert Hex. unfold PostgresConnection.execute, mbind, prog_bind.
    destruct c as [conn|]; [|done].
    destruct (PostgresConnection.ensure_connected _ _) as [[[]|e|] w2] eqn:Hc; [|done..].
    assert (w2 = w) as ->.
    { revert Hc. unfold PostgresConnection.ensure_connected. case_match; congruence. }
    unfold PostgresConnection.call, mbind, prog_bind.
    destruct (PQexec conn (c_str select_sql) w) as [[r'|] w3] eqn:Hq; [|done].
    intros [= -> _]. by exists conn, r, w3.
  - left. apply fails_prog_bind; [unfold PostgresResult.expect_tuples_ok; walk_failure|].
    intros _ s. unfold mbind, prog_bind, lift; simpl. unfold PostgresRepository.reserve.
    rewrite bool_decide_false by done. apply fails_load_rows.
Qed.

Lemma save_cases r c w :
  (PostgresRepository.save r c w).1 = Ret () ∨
  ∃ e, (PostgresRepository.save r c w).1 = Throw e ∧ storage_failure e.
Proof.
  pose proof (fails_save r c w) as Hs.
  destruct (PostgresRepository.save r c w).1 as [[]|e|]; [by left| |done].
  right. by exists e.
Qed.
End failures.

#[export] Hint Resolve fails_init_schema fails_load_history : failure.

(** ** The server works as documented *)

Section documented_facts.
Context `{lib : Library} `{doc : !Documented}.

Lemma available_connected c w :
  available c w → PostgresConnection.is_connected (Some c) w = true.
Proof. intros Hw. simpl. by rewrite (available_status _ _ Hw), bool_decide_true. Qed.

Lemma create_sql_plain : c_str create_sql = create_sql.
Proof. by vm_compute. Qed.
Lemma select_sql_plain : c_str select_sql = select_sql.
Proof. by vm_compute. Qed.
Lemma insert_sql_plain : c_str insert_sql = insert_sql.
Proof. by vm_compute. Qed.

Lemma execute_available sql c w r w' :
  available c w → c_str sql = sql → PQexec c sql w = (Some r, w') →
  PostgresConnection.execute sql (Some c) w = (Ret (Some r), w').
Proof.
  intros Hw Hs Hx. unfold PostgresConnection.execute, mbind, prog_bind,
    PostgresConnection.ensure_connected.
  rewrite available_connected by done. simpl.
  unfold mbind, prog_bind. by rewrite Hs, Hx.
Qed.

Lemma execute_params_available sql ps values c w r w' :
  available c w → c_str sql = sql → fmap (M := option) c_str <$> ps = values →
  PQexecParams c sql values w = (Some r, w') →
  PostgresConnection.execute_params sql ps (Some c) w = (Ret (Some r), w').
Proof.
  intros Hw Hs <- Hx. unfold PostgresConnection.execute_params, mbind,
    prog_bind, PostgresConnection.ensure_connected.
  rewrite available_connected by done.
  cbv [negb PostgresConnection.call mbind prog_bind].
  by rewrite Hs, Hx.
Qed.

Lemma init_schema_ok c w :
  available c w →
  ∃ w', PostgresRepository.init_schema (Some c) w = (Ret (), w') ∧
        available c w' ∧ table w' = table w.
Proof.
  intros Hw. destruct (create_ok c w Hw) as (r & w' & Hx & Hs & Ha & Ht).
  destruct (clear_keeps c r w' Ha) as [Ha' Ht'].
  exists (PQclear r w'). split_and!; [|done|congruence].
  unfold PostgresRepository.init_schema, mbind, prog_bind.
  rewrite (execute_available _ _ _ r w') by (done || apply create_sql_plain).
  unfold scoped, lift, PostgresResult.expect_command_ok, PostgresResult.expect_status.
  simpl. by rewrite bool_decide_false by auto.
Qed.

Lemma params_cells r :
  fits_columns r →
  fmap (M := option) c_str <$> PostgresRepository.params r = cells r.
Proof.
  intros [_ _ Hop _ _ Hk]. unfold PostgresRepository.params, cells,
    PostgresRepository.to_optional_string; simpl.
  rewrite !c_str_plain by auto with cpp.
  repeat f_equal; case_match; simpl; by rewrite ?c_str_plain by auto with cpp.
Qed.

Lemma save_ok r c w :
  available c w → fits_columns r →
  ∃ w', PostgresRepository.save r (Some c) w = (Ret (), w') ∧
        available c w' ∧ table w' = insert_row r (table w).
Proof.
  intros Hw Hr. destruct (insert_ok c w r Hw Hr) as (res & w' & Hx & Hs & Ha & Ht).
  destruct (clear_keeps c res w' Ha) as [Ha' Ht'].
  exists (PQclear res w'). split_and!; [|done|congruence].
  unfold PostgresRepository.save, mbind, prog_bind.
  rewrite (execute_params_available _ _ (cells r) _ _ res w')
    by (done || apply insert_sql_plain || by apply params_cells).
  unfold scoped, lift, PostgresResult.expect_command_ok, PostgresResult.expect_status.
  simpl. by rewrite bool_decide_false by auto.
Qed.

(** A row that is shown is read back as the record. *)
Lemma value_shown res row col text :
  shows res row col (Some text) →
  PostgresResult.value row col (Some res) = Ret text.
Proof.
  intros [Hn Hv]. unfold PostgresResult.value, PostgresResult.is_null; simpl.
  by rewrite Hn, Hv.
Qed.

Lemma parse_optional_int_shown res row col o :
  option_int o → shows res row col (to_string <$> o) →
  PostgresRepository.parse_optional_int (Some res) row col = Ret o.
Proof.
  intros Ho Hs. unfold PostgresRepository.parse_optional_int. destruct o as [z|].
  - rewrite (value_shown _ _ _ _ Hs). destruct Hs as [Hn _].
    unfold PostgresResult.is_null; simpl. rewrite Hn. simpl.
    by rewrite stoi_to_string.
  - simpl in Hs. unfold PostgresResult.is_null; simpl.
    by rewrite bool_decide_true.
Qed.

Lemma load_row_shown res row rec :
  fits_columns rec →
  (∀ j cell, cells rec !! j = Some cell → shows res row (Z.of_nat j) cell) →
  PostgresRepository.load_row (Some res) row = Ret rec.
Proof.
  intros [Hf Hs _ Hr Hst _] Hc. unfold PostgresRepository.load_row.
  rewrite (value_shown _ _ 0 _ (Hc 0%nat _ eq_refl)); simpl.
  rewrite stoi_to_string by done; simpl.
  rewrite (parse_optional_int_shown _ _ 1 _ Hs (Hc 1%nat _ eq_refl)); simpl.
  rewrite (value_shown _ _ 2 _ (Hc 2%nat _ eq_refl)); simpl.
  rewrite (parse_optional_int_shown _ _ 3 _ Hr (Hc 3%nat _ eq_refl)); simpl.
  rewrite (value_shown _ _ 4 _ (Hc 4%nat _ eq_refl)); simpl.
  rewrite stoi_to_string by done; simpl.
  rewrite (value_shown _ _ 5 _ (Hc 5%nat _ eq_refl)); simpl.
  by destruct rec.
Qed.

Lemma load_rows_shown res (rows : list OperationRecord.t) n :
  PQntuples res = Z.of_nat (length rows) →
  (∀ i rec j cell, rows !! i = Some rec → cells rec !! j = Some cell →
     shows res (Z.of_nat i) (Z.of_nat j) cell) →
  Forall fits_columns rows → (n ≤ length rows)%nat →
  PostgresRepository.load_rows n (Some res) (Z.of_nat (length rows - n)) =
    Ret (drop (length rows - n) rows).
Proof.
  intros Hcount Hshow Hfit. induction n as [|n IH]; intros Hn.
  { by rewrite Nat.sub_0_r, drop_all. }
  simpl. rewrite Hcount, bool_decide_true by lia.
  destruct (lookup_lt_is_Some_2 rows (length rows - S n)) as [rec Hrec]; [lia|].
  rewrite (load_row_shown _ _ rec); [|by eapply Forall_lookup_1|by eauto].
  simpl. replace (Z.of_nat (length rows - S n) + 1)
    with (Z.of_nat (length rows - n)) by lia.
  rewrite IH by lia. simpl. rewrite (drop_S rows rec _ Hrec).
  by replace (S (length rows - S n)) with (length rows - n)%nat by lia.
Qed.

Lemma load_history_ok c w :
  available c w → Forall fits_columns (table w) →
  ∃ w', PostgresRepository.load_history (Some c) w = (Ret (table w), w') ∧
        available c w' ∧ table w' = table w.
Proof.
  intros Hw Hf.
  destruct (select_ok c w Hw) as (r & w' & Hx & Hs & Ha & Ht & Hn & Hc).
  destruct (clear_keeps c r w' Ha) as [Ha' Ht'].
  exists (PQclear r w'). split_and!; [|done|congruence].
  unfold PostgresRepository.load_history, mbind, prog_bind.
  rewrite (execute_available _ _ _ r w') by (done || apply select_sql_plain).
  unfold scoped, lift, PostgresResult.expect_tuples_ok, PostgresResult.expect_status.
  simpl. rewrite bool_decide_false by auto. simpl.
  unfold PostgresRepository.reserve. rewrite Hn, bool_decide_false by lia. simpl.
  rewrite Nat2Z.id.
  pose proof (load_rows_shown r (table w) (length (table w)) Hn Hc Hf) as Hl.
  rewrite Nat.sub_diag in Hl. change (Z.of_nat 0) with 0 in Hl. by rewrite Hl.
Qed.

Lemma insert_row_Forall (P : OperationRecord.t → Prop) r rows :
  Forall P rows → P r → Forall P (insert_row r rows).
Proof.
  unfold insert_row. intros ??. case_decide; [done|].
  by apply Forall_app_2; [|constructor].
Qed.
End documented_facts.

(** ** Theorems *)

(** C35: whatever [libpq] answers, an operation of the repository never runs
    into undefined behaviour and reports every failure of the connection or of
    a statement as a [CalculatorException] with [ERROR_STORAGE].  Only
    [load_history] has other exceptions: that of [std::stoi], for a cell of the
    history that is no number, and that of [std::vector::reserve], for a result
    that counts less than no rows, which [PQntuples] does not document. *)
Theorem repository_failures `{Library} connection record w :
  fails_with storage_failure (PostgresRepository.init_schema connection w).1 ∧
  fails_with storage_failure (PostgresRepository.save record connection w).1 ∧
  fails_with history_failure (PostgresRepository.load_history connection w).1 ∧
  (fails_with conversion_failure (PostgresRepository.load_history connection w).1 ∨
   ∃ conn r w', connection = Some conn ∧
     PQexec conn (c_str select_sql) w = (Some r, w') ∧ PQntuples r < 0).
Proof.
  split_and!; [apply fails_init_schema|apply fails_save|apply fails_load_history|].
  apply load_history_counts.
Qed.

(** C21: a record that fits the columns survives the database: after a [save]
    on an available server, [load_history] returns the rows it held before in
    their order, followed by the record when its key is new, and unchanged when
    the key was there. *)
Theorem save_load_roundtrip `{lib : Library} `{doc : !Documented} record c w :
  available c w → Forall fits_columns (table w) → fits_columns record →
  ∃ w' w'',
    PostgresRepository.save record (Some c) w = (Ret (), w') ∧
    PostgresRepository.load_history (Some c) w' =
      (Ret (insert_row record (table w)), w'').
Proof.
  intros Hw Hf Hr. destruct (save_ok record c w Hw Hr) as (w' & Hs & Ha & Ht).
  destruct (load_history_ok c w' Ha) as (w'' & Hl & _ & _).
  { rewrite Ht. by apply insert_row_Forall. }
  exists w', w''. by rewrite Hs, Hl, Ht.
Qed.

(** ** A server that satisfies the hypotheses

    The table is a list of records; [up] says whether the server answers. *)

Module TableServer.
Record state : Type := mk_state { up : bool; rows : list OperationRecord.t }.

Inductive reply : Type :=
  | Done
  | Rows (rs : list (list (option string)))
  | Failed.

Definition cell (r : reply) (row column : Z) : option (option string) :=
  match r with
  | Rows rs => rs !! Z.to_nat row ≫= λ cs, cs !! Z.to_nat column
  | _ => None
  end.

Definition optional_int (cell : option string) : outcome exn (option Z) :=
  match cell with
  | None => Ret None
  | Some text => number ← stoi text; Ret (Some number)
  end.

Definition parse_row (ps : list (option string)) : outcome exn OperationRecord.t :=
  match ps with
  | [Some first; second; Some op; result; Some status; Some key] =>
      a ← stoi first; b ← optional_int second; r ← optional_int result;
      s ← stoi status; Ret (OperationRecord.mk a b op r s key)
  | _ => Throw OtherException
  end.

#[export] Instance library : Library := {|
  world := state;
  pg_conn := unit;
  pg_result := reply;
  CONNECTION_OK := 0;
  PGRES_COMMAND_OK := 1;
  PGRES_TUPLES_OK := 2;
  PQconnectdb _ w := (Some (), w);
  PQstatus _ w := if up w then 0 else 1;
  PQerrorMessage _ w := if up w then None else Some "server is down";
  PQexec _ sql w :=
    if bool_decide (sql = create_sql) then (Some Done, w)
    else if bool_decide (sql = select_sql) then (Some (Rows (cells <$> rows w)), w)
    else (Some Failed, w);
  PQexecParams _ _ ps w :=
    match parse_row ps with
    | Ret r => (Some Done, mk_state (up w) (insert_row r (rows w)))
    | _ => (Some Failed, w)
    end;
  PQresultStatus r := match r with Done => 1 | Rows _ => 2 | Failed => 7 end;
  PQresultErrorMessage _ := None;
  PQresStatus _ := "PGRES";
  PQntuples r := match r with Rows rs => Z.of_nat (length rs) | _ => 0 end;
  PQnfields r := match r with Rows _ => 6 | _ => 0 end;
  PQgetisnull r i j := match cell r i j with Some (Some _) => 0 | _ => 1 end;
  PQgetvalue r i j := mjoin (cell r i j);
  PQclear _ w := w;
  PQfinish _ w := w
|}.

Lemma optional_int_text o : option_int o → optional_int (to_string <$> o) = Ret o.
Proof. destruct o; simpl; [|done]. intros ?. by rewrite stoi_to_string. Qed.

Lemma parse_row_cells r : fits_columns r → parse_row (cells r) = Ret r.
Proof.
  intros [? ? _ ? ? _]. unfold parse_row, cells.
  rewrite !stoi_to_string, !optional_int_text by done. by destruct r.
Qed.

#[export] Instance documented : Documented.
Proof.
  refine {| table := rows : world → _; available _ (w : world) := up w = true |}.
  - intros c w Hw. simpl. by rewrite Hw.
  - intros c w Hw. by exists Done, w.
  - intros c w Hw. exists (Rows (cells <$> rows w)), w. split_and!; try done.
    + simpl. by rewrite length_fmap.
    + intros i rec j cl Hi Hj. unfold shows; simpl.
      rewrite !Nat2Z.id, list_lookup_fmap, Hi; simpl. rewrite Hj.
      by destruct cl.
  - intros c w rec Hw Hr. exists Done, (mk_state (up w) (insert_row rec (rows w))).
    split_and!; [|done..].
    cbn [PQexecParams library]. by rewrite parse_row_cells.
  - done.
  - done.
Defined.
End TableServer.

Definition sum_record : OperationRecord.t :=
  OperationRecord.mk 1 (Some 2) "add" (Some 3) 0 "1+2".

Lemma sum_record_fits : fits_columns sum_record.
Proof. split; by apply (bool_decide_unpack _). Qed.

Example save_load_roundtrip_witness :
  ∃ w' w'',
    PostgresRepository.save (H := TableServer.library) sum_record (Some ())
      (TableServer.mk_state true []) = (Ret (), w') ∧
    PostgresRepository.load_history (H := TableServer.library) (Some ()) w' =
      (Ret [sum_record], w'').
Proof.
  exact (save_load_roundtrip (lib := TableServer.library)
    (doc := TableServer.documented) sum_record ()
    (TableServer.mk_state true []) eq_refl (List.Forall_nil _) sum_record_fits).
Defined.
