(* ===== verification/OperationStorage.v ===== *)
(** * The storage interface of the server

    [IOperationStorage] ([server/include/operation-storage.h]) as a type class
    on the state of an implementation, with the laws its clients rely on, and
    its in-memory implementation
    ([server/src/in-memory-operation-storage.cpp]). *)

From stdpp Require Import base tactics strings list gmap.
From S2P Require Import Prelude.
From S2P Require Import Types.
From S2P Require Import OperationKey.
From S2P Require Import CacheRepository.

Class IOperationStorage (S : Type) : Type := {
  find : Z → option Z → string → prog exn S (option OperationRecord.t);
  save : OperationRecord.t → prog exn S unit
}.

(** What every implementation promises: [find] reads the record filed under the
    key of the calculation, throws what the key throws, or throws for a reason
    of its own, and never changes what is filed; [save] files the record under
    its key unless it throws, in which case it may or may not have done so; no
    call runs into undefined behaviour. *)
Class StorageLaws (S : Type) `{!IOperationStorage S} : Type := {
  records : S → gmap string OperationRecord.t;
  find_law a x op s :
    records (find a x op s).2 = records s ∧
    ((∃ e, (find a x op s).1 = Throw e) ∨
     (find a x op s).1 =
       (key ← OperationKey.make a x op; Ret (records s !! key)));
  save_law r s :
    (save r s).1 ≠ Undef ∧
    (records (save r s).2 = <[OperationRecord.cache_key r := r]> (records s) ∨
     records (save r s).2 = records s ∧ (save r s).1 ≠ Ret ())
}.

(** An implementation whose calls do not fail on states in [serving], for
    records that fit the columns. *)
Class ReliableStorage (S : Type) `{!IOperationStorage S} `{!StorageLaws S} :
    Type := {
  serving : S → Prop;
  reliable_find a x op s : serving s →
    serving (find a x op s).2 ∧
    (find a x op s).1 = (key ← OperationKey.make a x op; Ret (records s !! key));
  reliable_save r s : serving s → fits_columns r →
    serving (save r s).2 ∧ (save r s).1 = Ret () ∧
    records (save r s).2 = <[OperationRecord.cache_key r := r]> (records s)
}.

(** ** [InMemoryOperationStorage]

    [find] builds the key before it takes the lock; both calls hold the lock
    while they touch the map, so each is one atomic step on it. *)

Module InMemoryOperationStorage.
Abbreviation t := (gmap string OperationRecord.t).

Definition find (first_number : Z) (second_number : option Z)
    (operation : string) : prog exn t (option OperationRecord.t) :=
  key ← lift (OperationKey.make first_number second_number operation);
  gets (λ records_ : t, records_ !! key).

Definition save (record : OperationRecord.t) : prog exn t unit :=
  modify (λ records_ : t, <[OperationRecord.cache_key record := record]> records_).

#[export] Instance storage : IOperationStorage t := {|
  OperationStorage.find := find;
  OperationStorage.save := save
|}.

Lemma find_eq a x op s :
  find a x op s =
    ((key ← OperationKey.make a x op; Ret ((s : gmap _ _) !! key)), s).
Proof.
  unfold find, mbind, prog_bind, lift, gets; simpl.
  by destruct (OperationKey.make a x op).
Qed.

#[export] Instance laws : StorageLaws t.
Proof.
  refine {| records (s : t) := s : gmap string OperationRecord.t |}.
  - intros a x op s. simpl. rewrite find_eq. split; [done|by right].
  - intros r s. split; [done|by left].
Defined.

#[export] Instance reliable : ReliableStorage t.
Proof.
  refine {| serving _ := True |}.
  - intros a x op s _. simpl. by rewrite find_eq.
  - intros r s _ _. done.
Defined.
End InMemoryOperationStorage.
