(* ===== verification/StorageService.v ===== *)
(** * [Storage::StorageService] ([storage/src/storage-service.cpp])

    The cache in front of the database: reads come from the cache, a write goes
    to the cache first and then to the database. *)

From stdpp Require Import base tactics strings list gmap.
From S2P Require Import Prelude.
From S2P Require Import Types.
From S2P Require Import CppString.
From S2P Require Import OperationKey.
From S2P Require Import CacheRepository.
From S2P Require Import Postgres.
From S2P Require Import OperationStorage.
Import Libpq.

Module StorageService.
Section storage_service.
Context `{Library}.

(** The two repositories, and the server behind the connection. *)
Record t : Type := mk {
  cache_repository : cache;
  postgres_repository : PostgresConnection.t;
  server : world
}.

Definition set_cache (c : cache) (s : t) : t :=
  mk c (postgres_repository s) (server s).

(** A call of the database repository. *)
Definition postgres {A} (call : PostgresConnection.t → prog exn world A) :
    prog exn t A := λ s,
  let '(o, w) := call (postgres_repository s) (server s) in
  (o, mk (cache_repository s) (postgres_repository s) w).

(** The implicit destructor, of which that of the connection is left. *)
Definition destroy (s : t) : world :=
  PostgresConnection.destroy (postgres_repository s) (server s).

Definition initialize : prog exn t unit :=
  _ ← postgres PostgresRepository.init_schema;
  history ← postgres PostgresRepository.load_history;
  modify (λ s, set_cache (CacheRepository.warm_up history (cache_repository s)) s).

Definition find (first_number : Z) (second_number : option Z)
    (operation : string) : prog exn t (option OperationRecord.t) := λ s,
  (CacheRepository.find first_number second_number operation
     (cache_repository s), s).

Definition save (record : OperationRecord.t) : prog exn t unit :=
  _ ← modify (λ s, set_cache (CacheRepository.put record (cache_repository s)) s);
  postgres (PostgresRepository.save record).
End storage_service.
End StorageService.

Section implementation.
Context `{lib : Library}.

#[export] Instance service_storage : IOperationStorage StorageService.t := {|
  find := StorageService.find;
  save := StorageService.save
|}.

Lemma service_save r s :
  StorageService.save r s =
    ((PostgresRepository.save r (StorageService.postgres_repository s)
        (StorageService.server s)).1,
     StorageService.mk
       (CacheRepository.put r (StorageService.cache_repository s))
       (StorageService.postgres_repository s)
       (PostgresRepository.save r (StorageService.postgres_repository s)
          (StorageService.server s)).2).
Proof.
  unfold StorageService.save, StorageService.postgres, modify, mbind, prog_bind.
  simpl. by destruct (PostgresRepository.save _ _ _).
Qed.

Lemma fails_initialize s : fails_with history_failure (StorageService.initialize s).1.
Proof.
  unfold StorageService.initialize.
  assert (∀ A (m : PostgresConnection.t → prog exn Libpq.world A) s,
    (∀ c w, fails_with history_failure (m c w).1) →
    fails_with history_failure (StorageService.postgres m s).1) as Hm.
  { intros A m s' H. specialize (H (StorageService.postgres_repository s')
      (StorageService.server s')). unfold StorageService.postgres.
    by destruct (m _ _). }
  apply fails_prog_bind; [apply Hm; auto with failure|intros _ s'].
  apply fails_prog_bind; [apply Hm, fails_load_history|done].
Qed.

(** The service is an [IOperationStorage] that shows what its cache holds,
    also after a [save] that the database refused. *)
#[export] Instance service_laws : StorageLaws StorageService.t.
Proof.
  refine {| records := StorageService.cache_repository |}.
  - intros a x op s. split; [done|by right].
  - intros r s. simpl. rewrite service_save; simpl. split; [|by left].
    by destruct (save_cases r (StorageService.postgres_repository s)
      (StorageService.server s)) as [->|(e & -> & _)].
Defined.

Context `{doc : !Documented}.

Definition connected (s : StorageService.t) : Prop :=
  match StorageService.postgres_repository s with
  | Some c => available c (StorageService.server s)
  | None => False
  end.

(** Closing the connection leaves the table alone. *)
Lemma connection_destroy_table c w : table (PostgresConnection.destroy c w) = table w.
Proof. destruct c; [apply finish_keeps|done]. Qed.

Lemma destroy_table s : table (StorageService.destroy s) = table (StorageService.server s).
Proof. apply connection_destroy_table. Qed.

(** On an available server the service does not fail. *)
#[export] Instance service_reliable : ReliableStorage StorageService.t.
Proof.
  refine {| serving := connected |}.
  - intros a x op s Hs. done.
  - intros r [c [conn|] w] Hs Hr; [|done]. simpl in *.
    destruct (save_ok r conn w Hs Hr) as (w' & Hsave & Ha & _).
    rewrite service_save; simpl. by rewrite Hsave.
Defined.
End implementation.

(** ** Cache and database agree

    [P k r] says that [r] is right for the key [k], in the cache as in the
    table; which of several right records they hold may differ. *)

Definition agrees (P : string → OperationRecord.t → Prop)
    (r : OperationRecord.t) : Prop := P (OperationRecord.cache_key r) r.

(** Records that carry the answer that [f] gives to their key: calculations are
    deterministic, so the records that are ever saved under one key carry one
    answer, even when they differ in the order of their operands. *)
Definition answered_as (f : string → Z * option Z) (k : string)
    (r : OperationRecord.t) : Prop := OperationRecord.answer r = f k.

(** The keys of the rows of a table. *)
Definition row_keys (rows : list OperationRecord.t) : gset string :=
  list_to_set (OperationRecord.cache_key <$> rows).

Section coherence.
Context `{lib : Library} `{doc : !Documented}.
Variable P : string → OperationRecord.t → Prop.

(** A history the service can be started from. *)
Record good_table (rows : list OperationRecord.t) : Prop := mk_good {
  good_fits : Forall fits_columns rows;
  good_agrees : Forall (agrees P) rows;
  good_keys : NoDup (OperationRecord.cache_key <$> rows)
}.

(** A cache that holds exactly the keys of the table, each with a right record. *)
Record coherent (s : StorageService.t) : Prop := mk_coherent {
  coherent_connected : connected s;
  coherent_table : good_table (table (StorageService.server s));
  coherent_dom :
    dom (StorageService.cache_repository s) =
    row_keys (table (StorageService.server s));
  coherent_cache :
    map_Forall P (StorageService.cache_repository s)
}.

Lemma insert_row_good r rows :
  good_table rows → fits_columns r → agrees P r → good_table (insert_row r rows).
Proof.
  intros [Hf Ha Hk] Hr Hag. split; [by apply insert_row_Forall|by apply insert_row_Forall|].
  unfold insert_row. case_decide as Hin; [done|].
  rewrite fmap_app. apply NoDup_app. split_and!; [done| |].
  - intros k Hk1 Hk2. apply list_elem_of_singleton in Hk2 as ->. by apply Hin.
  - apply NoDup_singleton.
Qed.

Lemma insert_row_keys r rows :
  row_keys (insert_row r rows) = {[OperationRecord.cache_key r]} ∪ row_keys rows.
Proof.
  unfold row_keys, insert_row. case_decide as Hin.
  - apply (elem_of_list_to_set (C := gset string)) in Hin. set_solver.
  - rewrite fmap_app, list_to_set_app_L; simpl. set_solver.
Qed.

Lemma save_coherent r s :
  coherent s → fits_columns r → agrees P r →
  (StorageService.save r s).1 = Ret () ∧ coherent (StorageService.save r s).2.
Proof.
  destruct s as [c [conn|] w]; [|by intros []]. intros [Hc Ht Hd Hm] Hr Ha.
  simpl in *. destruct (save_ok r conn w Hc Hr) as (w' & Hsave & Hav & Htab).
  rewrite service_save; simpl. rewrite Hsave; simpl. split; [done|].
  split; simpl; [done| | |].
  - rewrite Htab. by apply insert_row_good.
  - rewrite Htab, insert_row_keys, <-Hd. unfold CacheRepository.put.
    by rewrite dom_insert_L.
  - by apply put_Forall.
Qed.

Lemma initialize_coherent conn w :
  available conn w → good_table (table w) →
  ∃ w', StorageService.initialize (StorageService.mk ∅ (Some conn) w) =
          (Ret (), StorageService.mk (CacheRepository.warm_up (table w) ∅)
                     (Some conn) w') ∧
        coherent (StorageService.mk (CacheRepository.warm_up (table w) ∅)
                    (Some conn) w') ∧ table w' = table w.
Proof.
  intros Hw Hg. destruct (init_schema_ok conn w Hw) as (w1 & Hi & Ha1 & Ht1).
  destruct (load_history_ok conn w1 Ha1) as (w2 & Hl & Ha2 & Ht2).
  { rewrite Ht1. by apply good_fits. }
  exists w2. rewrite Ht1 in *.
  unfold StorageService.initialize, StorageService.postgres, modify, mbind,
    prog_bind; simpl. rewrite Hi; simpl; rewrite Hl; simpl. split_and!; [done| |done].
  split; simpl; [done|by rewrite Ht2| |].
  - rewrite warm_up_dom, Ht2. unfold row_keys. set_solver.
  - apply warm_up_Forall; [apply map_Forall_empty|].
    destruct Hg as [_ Hag _]. apply Forall_forall. rewrite Forall_forall in Hag.
    auto.
Qed.

End coherence.

(** Two coherent services on tables with the same keys answer alike. *)
Lemma coherent_answer `{lib : Library} `{doc : !Documented} f s k :
  coherent (answered_as f) s →
  OperationRecord.answer <$> StorageService.cache_repository s !! k =
    if decide (k ∈ row_keys (table (StorageService.server s))) then Some (f k)
    else None.
Proof.
  intros [_ _ Hd Hm].
  destruct (StorageService.cache_repository s !! k) as [r|] eqn:Hk; simpl.
  - rewrite decide_True; [by rewrite (Hm _ _ Hk)|].
    rewrite <-Hd. by apply elem_of_dom_2 in Hk.
  - rewrite decide_False; [done|]. rewrite <-Hd. by apply not_elem_of_dom.
Qed.

(** The saves of a run, one after the other. *)
Fixpoint save_all `{Library} (rs : list OperationRecord.t) :
    prog exn StorageService.t unit :=
  match rs with
  | [] => mret ()
  | r :: rest => _ ← StorageService.save r; save_all rest
  end.

Lemma save_all_coherent `{lib : Library} `{doc : !Documented} P rs s :
  coherent P s → Forall (λ r, fits_columns r ∧ agrees P r) rs →
  (save_all rs s).1 = Ret () ∧ coherent P (save_all rs s).2 ∧
  StorageService.postgres_repository (save_all rs s).2 =
    StorageService.postgres_repository s.
Proof.
  revert s. induction rs as [|r rs IH]; intros s Hs Hrs; [done|].
  inversion_clear Hrs as [|? ? [Hr Ha] Hrest].
  destruct (save_coherent P r s Hs Hr Ha) as [Hret Hc].
  simpl. unfold mbind, prog_bind. rewrite service_save in *; simpl in *.
  rewrite Hret. exact (IH _ Hc Hrest).
Qed.

(** The answer a [find] gives: the status and the result, without the operands
    the record was computed from. *)
Definition found_answer (o : outcome exn (option OperationRecord.t)) :
    outcome exn (option (Z * option Z)) :=
  match o with
  | Ret r => Ret (OperationRecord.answer <$> r)
  | Throw e => Throw e
  | Undef => Undef
  end.

(** C17: restarting loses nothing.  On an available server whose history is in
    order, a service starts, accepts any sequence of saves of records with one
    answer per key, and a second service started on the same database then
    answers every [find] as the first one does, although the cache keeps the
    last record of a key and the table the first. *)
Theorem restart_transparent `{lib : Library} `{doc : !Documented} f conn w rs :
  available conn w → good_table (answered_as f) (table w) →
  Forall (λ r, fits_columns r ∧ agrees (answered_as f) r) rs →
  ∃ s0 s1 s2,
    StorageService.initialize (StorageService.mk ∅ (Some conn) w) = (Ret (), s0) ∧
    save_all rs s0 = (Ret (), s1) ∧
    StorageService.initialize
      (StorageService.mk ∅ (StorageService.postgres_repository s1)
         (StorageService.server s1)) = (Ret (), s2) ∧
    ∀ a x op, found_answer (StorageService.find a x op s2).1 =
              found_answer (StorageService.find a x op s1).1.
Proof.
  intros Hw Hg Hrs.
  destruct (initialize_coherent _ conn w Hw Hg) as (w0 & Hi & Hc0 & _).
  destruct (save_all_coherent _ rs _ Hc0 Hrs) as (Hret & Hc1 & Hconn).
  destruct (save_all rs _) as [o s1] eqn:Hs1; simpl in *; subst o.
  destruct s1 as [c1 conn1 w1]; simpl in *; subst conn1.
  destruct (initialize_coherent _ conn w1 (coherent_connected _ _ Hc1)
    (coherent_table _ _ Hc1)) as (w2 & Hi2 & Hc2 & Ht2).
  do 3 eexists. split; [exact Hi|]. split; [exact Hs1|].
  split; [exact Hi2|]. intros a x op.
  unfold StorageService.find, CacheRepository.find; simpl.
  destruct (OperationKey.make a x op) as [k|e|]; simpl; [|done..].
  pose proof (coherent_answer f _ k Hc1) as H1.
  pose proof (coherent_answer f _ k Hc2) as H2.
  simpl in H1, H2. unfold CacheRepository.find_by_key. by rewrite H1, H2, Ht2.
Qed.

Definition swapped_sum_record : OperationRecord.t :=
  OperationRecord.mk 2 (Some 1) "add" (Some 3) 0 "1+2".

Example restart_transparent_witness :
  ∃ s0 s1 s2 : StorageService.t (H := TableServer.library),
    StorageService.initialize
      (StorageService.mk (H := TableServer.library) ∅ (Some ())
         (TableServer.mk_state true [])) = (Ret (), s0) ∧
    save_all [sum_record; swapped_sum_record] s0 = (Ret (), s1) ∧
    StorageService.initialize
      (StorageService.mk ∅ (StorageService.postgres_repository s1)
         (StorageService.server s1)) = (Ret (), s2) ∧
    ∀ a x op, found_answer (StorageService.find a x op s2).1 =
              found_answer (StorageService.find a x op s1).1.
Proof.
  apply (restart_transparent (lib := TableServer.library)
    (doc := TableServer.documented) (λ _, (0, Some 3)) ()
    (TableServer.mk_state true [])).
  - reflexivity.
  - split; constructor.
  - repeat constructor; by apply (bool_decide_unpack _).
Defined.

(** A [save] that the database refuses leaves the record in the cache: the
    service throws, its table keeps the rows, and [find] answers from the
    record that was not stored. *)
Lemma refused_save_stays_cached `{Library} r s e a x op :
  (StorageService.save r s).1 = Throw e →
  OperationKey.make a x op = Ret (OperationRecord.cache_key r) →
  storage_failure e ∧
  (StorageService.find a x op (StorageService.save r s).2).1 = Ret (Some r).
Proof.
  rewrite service_save; simpl. intros He Hk. split.
  - destruct (save_cases r (StorageService.postgres_repository s)
      (StorageService.server s)) as [Hr|(e' & Ht & Hf)]; congruence.
  - unfold CacheRepository.find; rewrite Hk; simpl.
    unfold CacheRepository.find_by_key, CacheRepository.put.
    by rewrite lookup_insert_eq.
Qed.

Example refused_save_stays_cached_witness :
  ∃ e : exn, storage_failure e ∧
  (StorageService.find 1 (Some 2) "add"
    (StorageService.save sum_record
      (StorageService.mk (H := TableServer.library) ∅ (Some ())
         (TableServer.mk_state false []))).2).1 = Ret (Some sum_record).
Proof.
  eexists. by apply (refused_save_stays_cached (H := TableServer.library)
    sum_record (StorageService.mk (H := TableServer.library) ∅ (Some ())
         (TableServer.mk_state false []))).
Defined.
