(* ===== verification/RequestHandler.v ===== *)
(** * [Server::RequestHandler] ([server/src/request-handler.cpp])

    From the text of a request to the text of its response.  The protocol
    library [ConsoleCalculatorProtocol] is fetched by the build and is a
    parameter; so are the storage (an [IOperationStorage]), the arithmetic
    library and the readings of the steady clock. *)

From stdpp Require Import base tactics strings list gmap.
From S2P Require Import Prelude.
From S2P Require Import Types.
From S2P Require Import CppString.
From S2P Require Import Checker.
From S2P Require Import Abacus.
From S2P Require Import OperationKey.
From S2P Require Import CacheRepository.
From S2P Require Import OperationStorage.

(** ** The protocol library *)

(** What a [try] block of the handler can see thrown: an error of the protocol
    library or an exception of any other kind. *)
Inductive thrown (ProtocolError : Type) : Type :=
  | ProtocolFailure (error : ProtocolError)
  | Raised (e : exn).
Arguments ProtocolFailure {_} _.
Arguments Raised {_} _.

Module Protocol.
Class Library : Type := {
  (** [Codes::OperationCode] *)
  OperationCode : Type;
  OperationCode_eq_dec :: EqDecision OperationCode;
  ADDITION : OperationCode;
  SUBTRACTION : OperationCode;
  MULTIPLICATION : OperationCode;
  DIVISION : OperationCode;
  EXPONENTIATION : OperationCode;
  FACTORIAL : OperationCode;
  UNKNOWN : OperationCode;
  (** [Codes::StatusCode] *)
  StatusCode : Type;
  OK : StatusCode;
  OPERANDS_COUNT_MISMATCH : StatusCode;
  INVALID_OPERANDS : StatusCode;
  INVALID_OPERATION : StatusCode;
  DIVISION_BY_ZERO : StatusCode;
  FACTORIAL_OF_NEGATIVE_NUMBER : StatusCode;
  NUMERIC_OVERFLOW : StatusCode;
  STORAGE_ERROR : StatusCode;
  INVALID_JSON : StatusCode;
  CALCULATION_ERROR : StatusCode;
  OPERAND_OUT_OF_RANGE : StatusCode;
  INTERNAL_ERROR : StatusCode;
  UNKNOWN_ERROR : StatusCode;
  (** [Errors::ProtocolError] *)
  ProtocolError : Type;
  protocol_error : StatusCode → string → string → ProtocolError;
  error_status_code : ProtocolError → StatusCode;
  error_what : ProtocolError → string;
  error_field : ProtocolError → option string;
  (** [Models::CalculationRequest] *)
  CalculationRequest : Type;
  request_id : CalculationRequest → string;
  operation : CalculationRequest → OperationCode;
  operands : CalculationRequest → list Z;
  (** [Types::ResultInfo], [TimingInfo], [ErrorInfo] and [ResultSource] *)
  ResultInfo : Type;
  result_info_of : Z → ResultInfo;
  TimingInfo : Type;
  default_timing : TimingInfo;
  set_total_duration_ms : Z → TimingInfo → TimingInfo;
  ErrorInfo : Type;
  set_field : option string → ErrorInfo → ErrorInfo;
  ResultSource : Type;
  CACHE : ResultSource;
  CALCULATED : ResultSource;
  (** [Models::CalculationResponse]; the two factories may refuse *)
  CalculationResponse : Type;
  success : string → ResultInfo → thrown ProtocolError + CalculationResponse;
  failure : string → StatusCode → string →
    thrown ProtocolError + CalculationResponse;
  error_info : CalculationResponse → option ErrorInfo;
  set_error_info : ErrorInfo → CalculationResponse → CalculationResponse;
  set_result_source : ResultSource → CalculationResponse → CalculationResponse;
  set_timing_info : TimingInfo → CalculationResponse → CalculationResponse;
  (** [Formats::JsonCodec] *)
  parse_request : string → thrown ProtocolError + CalculationRequest;
  serialize_response : CalculationResponse → thrown ProtocolError + string
}.

(** The labels of one [switch] are pairwise different. *)
Class OperationCodes `{Library} : Prop := operation_codes_distinct :
  NoDup [ADDITION; SUBTRACTION; MULTIPLICATION; DIVISION; EXPONENTIATION;
         FACTORIAL; UNKNOWN].

(** A library whose factories and serialiser accept everything. *)
Class Total `{Library} : Type := {
  success_of : string → ResultInfo → CalculationResponse;
  failure_of : string → StatusCode → string → CalculationResponse;
  render : CalculationResponse → string;
  success_total id info : success id info = inr (success_of id info);
  failure_total id status message :
    failure id status message = inr (failure_of id status message);
  serialize_total response :
    serialize_response response = inr (render response)
}.
End Protocol.
Import Protocol.

(** [noexcept]-free calls of the library as evaluations. *)
Definition of_sum {E A} (r : E + A) : outcome E A :=
  match r with inl e => Throw e | inr a => Ret a end.

Definition fits_int64_to_int (value : Z) : bool :=
  bool_decide (value >= INT_MIN) && bool_decide (value <= INT_MAX).

Module RequestHandler.
(** The constructor: a null [shared_ptr] is refused. *)
Definition make {S : Type} (storage : option S) : outcome exn S :=
  match storage with
  | None => Throw (StdException "storage must not be null")
  | Some s => Ret s
  end.

Section conversions.
Context `{protocol : Protocol.Library}.

Abbreviation thrown := (thrown ProtocolError).

Definition unknown_operation : thrown :=
  ProtocolFailure
    (protocol_error INVALID_OPERATION "unknown operation" "operation").

Definition to_internal_operation (op : Protocol.OperationCode) :
    outcome thrown Types.OperationCode :=
  if decide (op = ADDITION) then Ret OPERATION_ADDITION
  else if decide (op = SUBTRACTION) then Ret OPERATION_SUBTRACTION
  else if decide (op = MULTIPLICATION) then Ret OPERATION_MULTIPLICATION
  else if decide (op = DIVISION) then Ret OPERATION_DIVISION
  else if decide (op = EXPONENTIATION) then Ret OPERATION_EXPONENTIATION
  else if decide (op = FACTORIAL) then Ret OPERATION_FACTORIAL
  else Throw unknown_operation.

Definition operation_to_storage_name (op : Protocol.OperationCode) :
    outcome thrown string :=
  if decide (op = ADDITION) then Ret "add"
  else if decide (op = SUBTRACTION) then Ret "sub"
  else if decide (op = MULTIPLICATION) then Ret "mul"
  else if decide (op = DIVISION) then Ret "div"
  else if decide (op = EXPONENTIATION) then Ret "pow"
  else if decide (op = FACTORIAL) then Ret "fact"
  else Throw unknown_operation.

Definition to_calculator_data (request : CalculationRequest) :
    outcome thrown CalculatorData :=
  internal ← to_internal_operation (Protocol.operation request);
  let data0 := set_need_help 0 (set_operation internal default_data) in
  let ops := operands request in
  data1 ←
    match ops with
    | [] => Ret data0
    | first :: _ =>
        if negb (fits_int64_to_int first) then
          Throw (ProtocolFailure (protocol_error OPERAND_OUT_OF_RANGE
                   "first operand is outside int range" "operands[0]"))
        else Ret (set_first first data0)
    end;
  match ops with
  | _ :: second :: _ =>
      if negb (fits_int64_to_int second) then
        Throw (ProtocolFailure (protocol_error OPERAND_OUT_OF_RANGE
                 "second operand is outside int range" "operands[1]"))
      else Ret (set_second second data1)
  | _ => Ret data1
  end.

Definition second_number_for_storage (data : CalculatorData) : option Z :=
  if bool_decide (Types.operation data = OPERATION_FACTORIAL)
     || bool_decide (has_second_number data = 0)
  then None
  else Some (second_number data).

Definition is_storable_operation (data : CalculatorData) : bool :=
  if bool_decide (need_help data ≠ 0)
     || bool_decide (Types.operation data = OPERATION_NONE)
     || bool_decide (has_first_number data = 0)
  then false
  else bool_decide (Types.operation data = OPERATION_FACTORIAL)
       || bool_decide (has_second_number data ≠ 0).

Definition make_operation_record (data : CalculatorData) (status : Z)
    (operation : string) : outcome exn OperationRecord.t :=
  let second_number := second_number_for_storage data in
  let result :=
    if bool_decide (status = error_int ERROR_NONE) then Some (result data)
    else None in
  cache_key ← OperationKey.make (first_number data) second_number operation;
  Ret (OperationRecord.mk (first_number data) second_number operation result
         status cache_key).

(** The [switch] on [static_cast<Types::ErrorCode>(error_code)]; a byte that
    is no enumerator takes the [default]. *)
Definition map_internal_error (error_code : Z) : StatusCode :=
  match error_of_int error_code with
  | Some ERROR_NONE => OK
  | Some ERROR_MISSING_FIRST_NUMBER
  | Some ERROR_MISSING_SECOND_NUMBER => OPERANDS_COUNT_MISMATCH
  | Some ERROR_INVALID_NUMBER => INVALID_OPERANDS
  | Some ERROR_MISSING_OPERATION
  | Some ERROR_INVALID_OPERATION => INVALID_OPERATION
  | Some Types.ERROR_DIVISION_BY_ZERO => DIVISION_BY_ZERO
  | Some ERROR_NEGATIVE_FACTORIAL => FACTORIAL_OF_NEGATIVE_NUMBER
  | Some Types.ERROR_OVERFLOW => NUMERIC_OVERFLOW
  | Some ERROR_STORAGE => STORAGE_ERROR
  | Some ERROR_INVALID_JSON => INVALID_JSON
  | Some ERROR_NEGATIVE_POWER => INVALID_OPERANDS
  | Some ERROR_UNKNOWN_OPTION
  | None => CALCULATION_ERROR
  end.

Definition make_failure (request_id : string) (status : StatusCode)
    (message : string) : outcome thrown CalculationResponse :=
  let request_id :=
    if bool_decide (request_id = EmptyString) then "unknown" else request_id in
  of_sum (failure request_id status message).

(** Nanoseconds of the steady clock to whole milliseconds, cut towards zero
    and never negative. *)
Definition duration_ms (started_at now : Z) : Z :=
  Z.max 0 (Z.quot (now - started_at) 1000000).
End conversions.

Section handle.
Context {S : Type} `{storage : !IOperationStorage S}.
Context `{protocol : Protocol.Library} `{math : CalculatorMath.Library}.
(** The successive readings of [steady_clock::now()]. *)
Variable steady_clock : nat → Z.

Abbreviation thrown := (thrown ProtocolError).

(** The storage behind [storage_], how often the clock was read, and the
    local variables of [handle] that its [catch] clauses read. *)
Record frame : Type := mk_frame {
  storage_ : S;
  clock_reads : nat;
  local_request_id : string;
  local_data : CalculatorData
}.

Definition set_storage (s : S) (f : frame) : frame :=
  mk_frame s (clock_reads f) (local_request_id f) (local_data f).
Definition set_request_id (id : string) (f : frame) : frame :=
  mk_frame (storage_ f) (clock_reads f) id (local_data f).
Definition set_data (d : CalculatorData) (f : frame) : frame :=
  mk_frame (storage_ f) (clock_reads f) (local_request_id f) d.

Definition handler (A : Type) : Type := prog thrown frame A.

Definition now : handler Z := λ f,
  (Ret (steady_clock (clock_reads f)),
   mk_frame (storage_ f) (Datatypes.S (clock_reads f)) (local_request_id f)
     (local_data f)).

Definition on_storage {A} (m : prog exn S A) : handler A :=
  zoom Raised storage_ set_storage m.

Definition on_data {A} (m : prog exn CalculatorData A) : handler A :=
  zoom Raised local_data set_data m.

Definition make_timing (started_at : Z) : handler TimingInfo :=
  n ← now;
  mret (set_total_duration_ms (duration_ms started_at n) default_timing).

(** [set_timing_info(make_timing(started_at))] and the serialisation that
    end every branch. *)
Definition finish (started_at : Z) (response : CalculationResponse) :
    handler string :=
  timing ← make_timing started_at;
  lift (of_sum (serialize_response (set_timing_info timing response))).

(** [*cached->result()] *)
Definition deref {A} (o : option A) : outcome thrown A :=
  match o with Some a => Ret a | None => Undef end.

Definition answer_from_cache (started_at : Z) (cached : OperationRecord.t) :
    handler string :=
  id ← gets local_request_id;
  response ←
    (if bool_decide (OperationRecord.status cached = error_int ERROR_NONE)
     then value ← lift (deref (OperationRecord.result cached));
          lift (of_sum (success id (result_info_of value)))
     else lift (make_failure id
                  (map_internal_error (OperationRecord.status cached))
                  "cached calculation error"));
  finish started_at (set_result_source CACHE response).

(** The inner [try] block. *)
Definition calculate_and_save (started_at : Z) (operation : string) :
    handler string :=
  _ ← on_data calculate_result;
  _ ← modify (λ f, set_data (set_error_code (error_int ERROR_NONE)
                               (local_data f)) f);
  data ← gets local_data;
  record ← lift (map_exn Raised
             (make_operation_record data (error_int ERROR_NONE) operation));
  _ ← on_storage (OperationStorage.save record);
  id ← gets local_request_id;
  data' ← gets local_data;
  response ← lift (of_sum (success id (result_info_of (result data'))));
  finish started_at (set_result_source CALCULATED response).

(** [catch (const std::exception&)] around the second [save], which only
    logs. *)
Definition catch_std_exception (e : thrown) : option (handler unit) :=
  match e with
  | Raised (CalculatorException _ _) | Raised (StdException _) =>
      Some (mret ())
  | Raised OtherException | ProtocolFailure _ => None
  end.

(** The inner [catch (const CalculatorException&)], which ends with
    [throw;]. *)
Definition save_failed_operation (operation : string) (e : thrown) :
    option (handler string) :=
  match e with
  | Raised (CalculatorException code what) => Some (
      _ ← modify (λ f, set_data (set_error_code (error_underlying code)
                                   (local_data f)) f);
      data ← gets local_data;
      _ ← (if is_storable_operation data then
             (record ← lift (map_exn Raised
                         (make_operation_record data code operation));
              on_storage (OperationStorage.save record))
             catch catch_std_exception
           else mret ());
      throw (Raised (CalculatorException code what)))
  | _ => None
  end.

(** The body of the outer [try]. *)
Definition handle_body (started_at : Z) (request_json : string) :
    handler string :=
  request ← lift (of_sum (parse_request request_json));
  _ ← modify (set_request_id (Protocol.request_id request));
  data ← lift (to_calculator_data request);
  _ ← modify (set_data data);
  operation ← lift (operation_to_storage_name (Protocol.operation request));
  let second_number := second_number_for_storage data in
  cached ← on_storage
    (OperationStorage.find (first_number data) second_number operation);
  match cached with
  | Some record => answer_from_cache started_at record
  | None =>
      _ ← on_data (λ d, (check_arguments d, d));
      calculate_and_save started_at operation
        catch save_failed_operation operation
  end.

Definition catch_protocol_error (started_at : Z) (error : ProtocolError) :
    handler string :=
  id ← gets local_request_id;
  response ← lift (make_failure id (error_status_code error)
                     (error_what error));
  let response :=
    match error_field error, error_info response with
    | Some _, Some info =>
        set_error_info (set_field (error_field error) info) response
    | _, _ => response
    end in
  finish started_at response.

Definition catch_failure (started_at : Z) (status : StatusCode)
    (message : string) : handler string :=
  id ← gets local_request_id;
  response ← lift (make_failure id status message);
  finish started_at response.

(** The four outer [catch] clauses, in their order. *)
Definition handle_exception (started_at : Z) (e : thrown) :
    option (handler string) :=
  Some match e with
  | ProtocolFailure error => catch_protocol_error started_at error
  | Raised (CalculatorException code what) =>
      catch_failure started_at (map_internal_error code) what
  | Raised (StdException what) =>
      catch_failure started_at INTERNAL_ERROR what
  | Raised OtherException =>
      catch_failure started_at UNKNOWN_ERROR "unknown server error"
  end.

Definition handle (request_json : string) : handler string :=
  started_at ← now;
  handle_body started_at request_json catch handle_exception started_at.

(** A call of [handle] on a storage: fresh local variables. *)
Definition run (request_json : string) (reads : nat) (s : S) :
    outcome thrown string * S :=
  let '(o, f) := handle request_json
                   (mk_frame s reads EmptyString default_data) in
  (o, storage_ f).
End handle.
End RequestHandler.
