(* ===== verification/LineProtocol.v ===== *)
(** * A protocol library that satisfies the hypotheses

    A request is the character of an operation followed by its operands in
    decimal, separated by commas, for instance [+2,3]; a response is the name of
    its status, the result and the source.  It instantiates the parameter
    [Protocol.Library] in the examples; it is no model of the library the server
    is built with. *)

From stdpp Require Import base tactics strings list.
From Stdlib Require Import Ascii.
From S2P Require Import Prelude.
From S2P Require Import Types.
From S2P Require Import CppString.
From S2P Require Import RequestHandler.
Import Protocol.

Module LineProtocol.
Inductive op : Type := Add | Sub | Mul | Div | Pow | Fact | Unknown.
#[export] Instance op_eq_dec : EqDecision op.
Proof. solve_decision. Defined.

Definition op_of_char (c : ascii) : op :=
  match c with
  | "+" => Add | "-" => Sub | "*" => Mul | "/" => Div | "^" => Pow
  | "!" => Fact | _ => Unknown
  end%char.

(** The texts between the commas. *)
Fixpoint fields (acc : string) (s : string) : list string :=
  match s with
  | EmptyString => [acc]
  | String "," s' => acc :: fields EmptyString s'
  | String c s' => fields (acc +:+ String c EmptyString) s'
  end.

Fixpoint numbers (fs : list string) : option (list Z) :=
  match fs with
  | [] => Some []
  | f :: rest => n ← read_number f; ns ← numbers rest; Some (signed n :: ns)
  end.

Record request : Type := mk_request { req_op : op; req_operands : list Z }.

Record response : Type := mk_response {
  resp_id : string; resp_status : string; resp_value : option Z;
  resp_message : option string; resp_source : option bool; resp_ms : Z
}.

Definition parse (s : string) : thrown (string * string * string) + request :=
  match s with
  | EmptyString => inl (ProtocolFailure ("INVALID_JSON", "empty request", "request"))
  | String c EmptyString => inr (mk_request (op_of_char c) [])
  | String c rest =>
      match numbers (fields EmptyString rest) with
      | Some ns => inr (mk_request (op_of_char c) ns)
      | None => inl (ProtocolFailure ("INVALID_OPERANDS", "no number", "operands"))
      end
  end.

Definition show (r : response) : string :=
  resp_status r +:+
  match resp_value r with Some v => " " +:+ to_string v | None => EmptyString end +:+
  match resp_source r with
  | Some true => " cache" | Some false => " calculated" | None => EmptyString
  end.

#[export] Instance library : Library := {|
  Protocol.OperationCode := op;
  ADDITION := Add; SUBTRACTION := Sub; MULTIPLICATION := Mul; DIVISION := Div;
  EXPONENTIATION := Pow; FACTORIAL := Fact; UNKNOWN := Unknown;
  StatusCode := string;
  OK := "OK"; OPERANDS_COUNT_MISMATCH := "OPERANDS_COUNT_MISMATCH";
  INVALID_OPERANDS := "INVALID_OPERANDS";
  INVALID_OPERATION := "INVALID_OPERATION";
  DIVISION_BY_ZERO := "DIVISION_BY_ZERO";
  FACTORIAL_OF_NEGATIVE_NUMBER := "FACTORIAL_OF_NEGATIVE_NUMBER";
  NUMERIC_OVERFLOW := "NUMERIC_OVERFLOW"; STORAGE_ERROR := "STORAGE_ERROR";
  INVALID_JSON := "INVALID_JSON"; CALCULATION_ERROR := "CALCULATION_ERROR";
  OPERAND_OUT_OF_RANGE := "OPERAND_OUT_OF_RANGE";
  INTERNAL_ERROR := "INTERNAL_ERROR"; UNKNOWN_ERROR := "UNKNOWN_ERROR";
  ProtocolError := string * string * string;
  protocol_error status what field := (status, what, field);
  error_status_code e := e.1.1;
  error_what e := e.1.2;
  error_field e := Some e.2;
  CalculationRequest := request;
  request_id _ := "req";
  Protocol.operation := req_op;
  operands := req_operands;
  ResultInfo := Z;
  result_info_of v := v;
  TimingInfo := Z;
  default_timing := 0;
  set_total_duration_ms ms _ := ms;
  ErrorInfo := string;
  set_field _ info := info;
  ResultSource := bool;
  CACHE := true; CALCULATED := false;
  CalculationResponse := response;
  success id v := inr (mk_response id "OK" (Some v) None None 0);
  failure id status message :=
    inr (mk_response id status None (Some message) None 0);
  error_info := resp_message;
  set_error_info info r :=
    mk_response (resp_id r) (resp_status r) (resp_value r) (Some info)
      (resp_source r) (resp_ms r);
  set_result_source source r :=
    mk_response (resp_id r) (resp_status r) (resp_value r) (resp_message r)
      (Some source) (resp_ms r);
  set_timing_info ms r :=
    mk_response (resp_id r) (resp_status r) (resp_value r) (resp_message r)
      (resp_source r) ms;
  parse_request := parse;
  serialize_response r := inr (show r)
|}.

#[export] Instance codes : OperationCodes.
Proof. unfold OperationCodes; simpl. by apply (bool_decide_unpack _). Qed.

#[export] Instance total : Total.
Proof.
  refine {| success_of id v := _; failure_of id status message := _;
            render := show : @CalculationResponse library → string |};
    intros; reflexivity.
Defined.
End LineProtocol.
