(* ===== verification/RequestData.v ===== *)
(** * The data of a request

    [to_calculator_data] on every request: the operation, the operands that are
    given and fit, and the errors of the others. *)

From stdpp Require Import base tactics strings list.
From S2P Require Import Prelude.
From S2P Require Import Types.
From S2P Require Import RequestHandler.
From S2P Require Import LineProtocol.
Import Protocol.
Import RequestHandler.

Section request_data.
Context `{protocol : Protocol.Library} `{distinct : !Protocol.OperationCodes}.

(** The operations that can be asked for. *)
Definition operation_table : list (Protocol.OperationCode * Types.OperationCode) :=
  [(ADDITION, OPERATION_ADDITION); (SUBTRACTION, OPERATION_SUBTRACTION);
   (MULTIPLICATION, OPERATION_MULTIPLICATION); (DIVISION, OPERATION_DIVISION);
   (EXPONENTIATION, OPERATION_EXPONENTIATION);
   (FACTORIAL, OPERATION_FACTORIAL)].

(** The data of an operation on operands, of which the first two are used. *)
Definition data_of (op : Types.OperationCode) (operands : list Z) : CalculatorData :=
  mk_data (default 0 (operands !! 0%nat)) (default 0 (operands !! 1%nat)) 0
    (match operands with _ :: _ => 1 | [] => 0 end)
    (match operands with _ :: _ :: _ => 1 | _ => 0 end)
    op (error_int ERROR_NONE) 0.

(** The first of the two operands that is no [int], with its place. *)
Definition misfit (operands : list Z) : option nat :=
  match operands with
  | [] => None
  | a :: rest =>
      if decide (in_int a) then
        match rest with
        | b :: _ => if decide (in_int b) then None else Some 1%nat
        | [] => None
        end
      else Some 0%nat
  end.

Definition misfit_error (i : nat) : thrown ProtocolError :=
  ProtocolFailure (match i with
    | 0%nat => protocol_error OPERAND_OUT_OF_RANGE
                 "first operand is outside int range" "operands[0]"
    | _ => protocol_error OPERAND_OUT_OF_RANGE
             "second operand is outside int range" "operands[1]"
    end).

Lemma fits_decide value :
  fits_int64_to_int value = bool_decide (in_int value).
Proof.
  unfold fits_int64_to_int, in_int. repeat case_bool_decide; simpl; try done; lia.
Qed.

Lemma table_operation op internal :
  (op, internal) ∈ operation_table → to_internal_operation op = Ret internal.
Proof.
  pose proof operation_codes_distinct as Hd.
  rewrite !NoDup_cons, !not_elem_of_cons in Hd.
  unfold operation_table, to_internal_operation.
  rewrite !elem_of_cons, elem_of_nil. intros Hin.
  repeat destruct Hin as [Hin|Hin]; [simplify_eq..|done];
    repeat (case_decide; [try done; exfalso; naive_solver|]); try done;
    repeat (case_decide; [done|]); done.
Qed.

Lemma unlisted_operation op :
  op ∉ operation_table.*1 → to_internal_operation op = Throw unknown_operation.
Proof.
  unfold operation_table, to_internal_operation; simpl.
  rewrite !not_elem_of_cons. intros (?&?&?&?&?&?&_).
  by repeat (rewrite decide_False by done).
Qed.

(** C36: [to_calculator_data] on every request.  An operation of the table is
    turned into its internal code, with the first two operands as far as they are
    given and 1 in the [has_] field of each; an operand outside of [int] is
    refused with [OPERAND_OUT_OF_RANGE] and its place, the first one first, and
    operands behind the second are ignored; any other operation code is refused
    as unknown before the operands are looked at. *)
Theorem to_calculator_data_correct request :
  (∀ internal, (Protocol.operation request, internal) ∈ operation_table →
     to_calculator_data request =
       match misfit (operands request) with
       | Some i => Throw (misfit_error i)
       | None => Ret (data_of internal (operands request))
       end) ∧
  (Protocol.operation request ∉ operation_table.*1 →
     to_calculator_data request = Throw unknown_operation).
Proof.
  unfold to_calculator_data, misfit. split.
  - intros internal Hin. rewrite (table_operation _ _ Hin); simpl.
    destruct (operands request) as [|a [|b rest]]; simpl; [done|..];
      rewrite ?fits_decide; repeat (case_decide || case_bool_decide); simpl; try done;
      repeat case_bool_decide; done.
  - intros Hno. by rewrite unlisted_operation.
Qed.
End request_data.

Example to_calculator_data_correct_witness :
  to_calculator_data (protocol := LineProtocol.library)
    (LineProtocol.mk_request LineProtocol.Add [7; 2 ^ 31]) =
    Throw (misfit_error (protocol := LineProtocol.library) 1).
Proof.
  exact (proj1 (to_calculator_data_correct (protocol := LineProtocol.library)
    (distinct := LineProtocol.codes)
    (LineProtocol.mk_request LineProtocol.Add [7; 2 ^ 31]))
    OPERATION_ADDITION (list_elem_of_here _ _)).
Defined.
