(* ===== verification/HandlerSafety.v ===== *)
(** * The request handler is safe

    For every storage that meets the laws of [IOperationStorage], every
    arithmetic library and every protocol library: the handler never reads an
    empty [std::optional], keeps the condition on the stored records that this
    needs, and lets no exception of its own out. *)

From stdpp Require Import base tactics strings list gmap.
From S2P Require Import Prelude.
From S2P Require Import Types.
From S2P Require Import CppString.
From S2P Require Import Checker.
From S2P Require Import Abacus.
From S2P Require Import OperationKey.
From S2P Require Import CacheRepository.
From S2P Require Import OperationStorage.
From S2P Require Import RequestHandler.
Import Protocol.
Import RequestHandler.

(** A record of a successful calculation holds its result. *)
Definition has_result (r : OperationRecord.t) : Prop :=
  OperationRecord.status r = error_int ERROR_NONE →
  OperationRecord.result r ≠ None.

#[export] Instance has_result_dec r : Decision (has_result r).
Proof. unfold has_result. apply _. Defined.

Definition complete_records (m : gmap string OperationRecord.t) : Prop :=
  map_Forall (λ _, has_result) m.

Section safety.
Context {S : Type} `{storage : !IOperationStorage S} `{laws : !StorageLaws S}.
Context `{protocol : Protocol.Library} `{math : CalculatorMath.Library}.
Variable steady_clock : nat → Z.

Abbreviation handler A := (prog (thrown ProtocolError) (frame (S := S)) A).

Definition frame_ok (f : frame (S := S)) : Prop :=
  complete_records (records (storage_ f)).

Lemma of_sum_defined {E A} (r : E + A) : defined (of_sum r).
Proof. by destruct r. Qed.

Lemma keeps_set_request_id id :
  keeps frame_ok (modify (set_request_id id) : handler _) (λ _, True).
Proof. by apply keeps_modify. Qed.

Lemma keeps_set_data (g : frame → CalculatorData) :
  keeps frame_ok (modify (λ f, set_data (g f) f) : handler _) (λ _, True).
Proof. by apply keeps_modify. Qed.

Lemma keeps_now : keeps frame_ok (now (S := S) steady_clock) (λ _, True).
Proof. intros f Hf. done. Qed.

Hint Resolve of_sum_defined keeps_set_request_id keeps_set_data keeps_now : keeps.

Lemma keeps_find a x op :
  keeps frame_ok (on_storage (S := S) (OperationStorage.find a x op))
    (λ o, match o with Some r => has_result r | None => True end).
Proof.
  apply keeps_zoom. intros f Hf. unfold frame_ok in *; simpl.
  destruct (find_law a x op (storage_ f)) as [-> Hres]. split; [done|].
  destruct Hres as [[e ->]| ->]; [done|].
  pose proof (make_defined a x op) as Hk.
  destruct (OperationKey.make a x op) as [k|e|]; simpl; [|done|done].
  destruct (records (storage_ f) !! k) as [r|] eqn:Hr; [|done].
  by apply (Hf k).
Qed.

Lemma keeps_save r :
  has_result r →
  keeps frame_ok (on_storage (S := S) (OperationStorage.save r)) (λ _, True).
Proof.
  intros Hr. apply keeps_zoom. intros f Hf. unfold frame_ok in *; simpl.
  destruct (save_law r (storage_ f)) as [Hdef Hrec].
  split; [|by destruct (OperationStorage.save r _).1].
  destruct Hrec as [-> |[-> _]]; [|done]. by apply map_Forall_insert_2.
Qed.

Lemma keeps_on_data {A} (m : prog exn CalculatorData A) :
  (∀ d, (m d).1 ≠ Undef) →
  keeps frame_ok (on_data (S := S) m) (λ _, True).
Proof.
  intros Hm. apply keeps_zoom. intros f Hf. split; [done|].
  specialize (Hm (local_data f)). by destruct (m (local_data f)) as [[]].
Qed.

Lemma keeps_calculate :
  keeps frame_ok (on_data (S := S) calculate_result) (λ _, True).
Proof. apply keeps_on_data, calculate_result_defined. Qed.

Lemma keeps_check :
  keeps frame_ok (on_data (S := S) (λ d, (check_arguments d, d))) (λ _, True).
Proof.
  apply keeps_on_data. intros d; simpl.
  by destruct (check_arguments_cases d) as [->|(? & ? & -> & _)].
Qed.

Lemma keeps_finish started response :
  keeps frame_ok (finish (S := S) steady_clock started response) (λ _, True).
Proof. unfold finish, make_timing. walk_keeps. Qed.

Hint Resolve keeps_find keeps_save keeps_calculate keeps_check keeps_finish
  : keeps.

(** A record the handler makes holds the result when its status is none. *)
Lemma keeps_make_operation_record data status op :
  keeps frame_ok
    (lift (map_exn Raised (make_operation_record data status op)) : handler _)
    has_result.
Proof.
  apply keeps_lift. unfold make_operation_record.
  pose proof (make_defined (first_number data)
    (second_number_for_storage data) op) as Hk.
  destruct (OperationKey.make _ _ _); simpl; [|done|done].
  unfold has_result; simpl. intros ->. by rewrite bool_decide_true.
Qed.
Hint Resolve keeps_make_operation_record : keeps.

Lemma keeps_answer_from_cache started r :
  has_result r →
  keeps frame_ok (answer_from_cache (S := S) steady_clock started r)
    (λ _, True).
Proof.
  intros Hr. unfold answer_from_cache, make_failure. walk_keeps.
  case_bool_decide as Hs; [|walk_keeps]. specialize (Hr Hs).
  destruct (OperationRecord.result r); [simpl; walk_keeps|done].
Qed.

Lemma keeps_calculate_and_save started op :
  keeps frame_ok (calculate_and_save (S := S) steady_clock started op)
    (λ _, True).
Proof. unfold calculate_and_save. walk_keeps. Qed.
Hint Resolve keeps_answer_from_cache keeps_calculate_and_save : keeps.

Lemma keeps_save_failed_operation op e k :
  save_failed_operation (S := S) op e = Some k → keeps frame_ok k (λ _, True).
Proof.
  destruct e as [|[code what|what|]]; simpl; intros; simplify_eq.
  walk_keeps. case_match; [|walk_keeps]. apply keeps_try; [walk_keeps|].
  intros [|[]] k' Hk; simplify_eq/=; walk_keeps.
Qed.

Lemma to_calculator_data_defined request : defined (to_calculator_data request).
Proof.
  unfold to_calculator_data, to_internal_operation. by repeat (case_match; simpl).
Qed.

Lemma storage_name_defined op : defined (operation_to_storage_name op).
Proof. unfold operation_to_storage_name. by repeat case_match. Qed.
Hint Resolve to_calculator_data_defined storage_name_defined : keeps.

Lemma keeps_handle_body started json :
  keeps frame_ok (handle_body (S := S) steady_clock started json) (λ _, True).
Proof.
  unfold handle_body. walk_keeps. case_match; walk_keeps.
  apply keeps_try; [walk_keeps|].
  intros e k Hk. by eapply keeps_save_failed_operation.
Qed.

Lemma keeps_handle json :
  keeps frame_ok (handle (S := S) steady_clock json) (λ _, True).
Proof.
  unfold handle. walk_keeps. apply keeps_try; [apply keeps_handle_body|].
  intros e k [= <-]. unfold catch_protocol_error, catch_failure, make_failure.
  destruct e as [error|[]]; walk_keeps.
Qed.
End safety.

(** ** Theorems *)

Section theorems.
Context {S : Type} `{storage : !IOperationStorage S} `{laws : !StorageLaws S}.
Context `{protocol : Protocol.Library} `{math : CalculatorMath.Library}.
Variable steady_clock : nat → Z.

Lemma run_keeps json n s :
  complete_records (records s) →
  defined (run (S := S) steady_clock json n s).1 ∧
  complete_records (records (run (S := S) steady_clock json n s).2).
Proof.
  intros Hs. unfold run.
  pose proof (keeps_handle steady_clock json
    (mk_frame s n EmptyString default_data) Hs) as [Hf Ho].
  destruct (handle steady_clock json _) as [o f]; simpl in *.
  split; [by destruct o|done].
Qed.

Lemma handle_exception_returns `{total : !Protocol.Total} started e
    (f : frame (S := S)) :
  ∃ k, handle_exception steady_clock started e = Some k ∧
       returns (k f).1 ∧ storage_ (k f).2 = storage_ f.
Proof.
  unfold handle_exception. eexists; split; [done|].
  destruct e as [error|[]]; unfold catch_protocol_error, catch_failure,
    make_failure, finish, make_timing, mbind, prog_bind; simpl;
    rewrite failure_total; simpl; by rewrite serialize_total.
Qed.

(** C12: the handler never dereferences an empty result: from a storage whose
    records of successful calculations hold their results, a request of any
    text ends with a response or an exception, never in undefined behaviour,
    and leaves such a storage, whatever the storage, the arithmetic and the
    protocol library answer. *)
Theorem handle_safe json n s :
  complete_records (records s) →
  (run (S := S) steady_clock json n s).1 ≠ Undef ∧
  complete_records (records (run (S := S) steady_clock json n s).2).
Proof.
  intros Hs. destruct (run_keeps json n s Hs) as [Hd Hc]. split; [|done].
  by intros E; rewrite E in Hd.
Qed.

(** C13: every request text gets a response text: when the factories and the
    serialiser of the protocol library accept everything, whatever the parser,
    the storage or a calculation throw is turned into a response, so no
    exception reaches the network thread that called [handle]. *)
Theorem handle_returns `{total : !Protocol.Total} json n s :
  complete_records (records s) →
  ∃ response, (run (S := S) steady_clock json n s).1 = Ret response.
Proof.
  intros Hs. unfold run, handle, now, try_catch, mbind, prog_bind; simpl.
  set (started := steady_clock n).
  set (f := mk_frame s _ _ _).
  pose proof (keeps_handle_body steady_clock started json f Hs) as [_ Hb].
  destruct (handle_body steady_clock started json f) as [[text|e|] f'];
    simpl in *; [by eexists| |done].
  destruct (handle_exception_returns started e f') as (k & Hk & Hr & _).
  injection Hk as <-. simpl.
  destruct (_ f') as [[text|e'|] f'']; simpl in *; by eauto.
Qed.
End theorems.
