(* ===== verification/HandlerCorrect.v ===== *)
(** * The request handler answers correctly

    The cache in front of the calculation never changes an answer: on a
    reliable storage that only this handler writes, the response to a request is
    determined by the request.  The specification is [evaluate], the calculation
    without a cache. *)

From stdpp Require Import base tactics strings list gmap.
From S2P Require Import Prelude.
From S2P Require Import Types.
From S2P Require Import CppString.
From S2P Require Import Checker.
From S2P Require Import Abacus.
From S2P Require Import OperationKey.
From S2P Require Import CacheRepository.
From S2P Require Import OperationStorage.
From S2P Require Import RequestHandler.
From S2P Require Import LineProtocol.
From S2P Require Import HandlerSafety.
Import Protocol.
Import OperationKey.
Import RequestHandler.

(** ** Specification *)

(** The name under which the handler files an operation. *)
Definition storage_name (op : Types.OperationCode) : string :=
  match op with
  | OPERATION_NONE => EmptyString
  | OPERATION_ADDITION => "add"
  | OPERATION_SUBTRACTION => "sub"
  | OPERATION_MULTIPLICATION => "mul"
  | OPERATION_DIVISION => "div"
  | OPERATION_EXPONENTIATION => "pow"
  | OPERATION_FACTORIAL => "fact"
  end.

(** The key of a request. *)
Definition request_key (d : CalculatorData) : outcome exn string :=
  OperationKey.make (first_number d) (second_number_for_storage d)
    (storage_name (Types.operation d)).

(** The data that [to_calculator_data] makes. *)
Record request_data (d : CalculatorData) : Prop := mk_request_data {
  request_no_help : need_help d = 0;
  request_result : result d = 0;
  request_operation : Types.operation d ≠ OPERATION_NONE;
  request_first : in_int (first_number d);
  request_second : in_int (second_number d);
  request_operands : has_second_number d ≠ 0 → has_first_number d ≠ 0
}.

Section spec.
Context `{math : CalculatorMath.Library}.

(** The checks and the calculation, without a storage. *)
Definition evaluate (d : CalculatorData) : outcome exn Z :=
  _ ← check_arguments d;
  let '(o, d') := calculate_result d in
  _ ← o; Ret (result d').

(** The status and the result that are filed for a checked request. *)
Definition filed_answer (d : CalculatorData) : Z * option Z :=
  match calculate_result d with
  | (Ret _, d') => (error_int ERROR_NONE, Some (result d'))
  | (Throw (CalculatorException code _), _) => (code, None)
  | _ => (error_int ERROR_NONE, None)
  end.

(** A record of the cache holds the answer of a checked request with its
    key. *)
Definition sound_record (k : string) (r : OperationRecord.t) : Prop :=
  ∃ d, request_data d ∧ check_arguments d = Ret () ∧ request_key d = Ret k ∧
       OperationRecord.answer r = filed_answer d.

Definition sound (m : gmap string OperationRecord.t) : Prop :=
  map_Forall sound_record m.
End spec.

(** ** The data of a request *)

Section requests.
Context `{protocol : Protocol.Library}.

Lemma fits_int value : fits_int64_to_int value = true ↔ in_int value.
Proof.
  unfold fits_int64_to_int, in_int.
  rewrite andb_true_iff, !bool_decide_eq_true. lia.
Qed.

Lemma operation_names op internal :
  to_internal_operation op = Ret internal →
  operation_to_storage_name op = Ret (storage_name internal) ∧
  internal ≠ OPERATION_NONE.
Proof.
  unfold to_internal_operation, operation_to_storage_name. intros H.
  repeat case_decide; by simplify_eq/=.
Qed.

Lemma to_calculator_data_request request d :
  to_calculator_data request = Ret d →
  request_data d ∧
  operation_to_storage_name (Protocol.operation request) =
    Ret (storage_name (Types.operation d)) ∧
  (operands request ≠ [] → has_first_number d ≠ 0) ∧
  to_internal_operation (Protocol.operation request) = Ret (Types.operation d) ∧
  (first_number d, has_first_number d) =
    match operands request with [] => (0, 0) | a :: _ => (a, 1) end ∧
  (second_number d, has_second_number d) =
    match operands request with _ :: b :: _ => (b, 1) | _ => (0, 0) end.
Proof.
  unfold to_calculator_data. intros H.
  destruct (to_internal_operation _) as [internal|e|] eqn:Hop; simpl in H;
    [|done..].
  destruct (operation_names _ _ Hop) as [Hname Hnone].
  assert (in_int 0) as H0 by by apply (bool_decide_unpack _).
  destruct (operands request) as [|a [|b rest]]; simpl in H.
  - simplify_eq/=. split_and!; done.
  - destruct (fits_int64_to_int a) eqn:Ha; simplify_eq/=.
    apply fits_int in Ha. split_and!; done.
  - destruct (fits_int64_to_int a) eqn:Ha; simplify_eq/=.
    destruct (fits_int64_to_int b) eqn:Hb; simplify_eq/=.
    apply fits_int in Ha, Hb. split_and!; done.
Qed.
End requests.

(** ** Requests with one key are calculated alike *)

Lemma is_factorial_name op :
  is_factorial (storage_name op) = bool_decide (op = OPERATION_FACTORIAL).
Proof. by destruct op. Qed.

Lemma symbol_for_name_inj op op' s :
  symbol_for (storage_name op) = Ret s → symbol_for (storage_name op') = Ret s →
  op = op'.
Proof. destruct op, op'; vm_compute; congruence. Qed.

Lemma is_commutative_name op :
  is_commutative (storage_name op) = true →
  op = OPERATION_ADDITION ∨ op = OPERATION_MULTIPLICATION.
Proof. destruct op; vm_compute; auto; discriminate. Qed.

Lemma second_for_storage_Some d b :
  second_number_for_storage d = Some b → has_second_number d ≠ 0 ∧ b = second_number d.
Proof.
  unfold second_number_for_storage. intros H.
  repeat case_bool_decide; by simplify_eq/=.
Qed.

Section same_key.
Context `{math : CalculatorMath.Library} `{symmetric : !CalculatorMath.Symmetric}.

(** The operation, the presence of the operands it needs and the library call
    that decide an evaluation. *)
Lemma same_key_cases d1 d2 k :
  request_key d1 = Ret k → request_key d2 = Ret k →
  Types.operation d1 = Types.operation d2 ∧
  ((Types.operation d1 = OPERATION_FACTORIAL ∧
    first_number d1 = first_number d2) ∨
   (Types.operation d1 ≠ OPERATION_FACTORIAL ∧
    has_second_number d1 ≠ 0 ∧ has_second_number d2 ≠ 0 ∧
    ((first_number d1 = first_number d2 ∧ second_number d1 = second_number d2) ∨
     ((Types.operation d1 = OPERATION_ADDITION ∨
       Types.operation d1 = OPERATION_MULTIPLICATION) ∧
      first_number d1 = second_number d2 ∧
      second_number d1 = first_number d2)))).
Proof.
  unfold request_key. intros H1 H2.
  destruct (proj1 (make_same _ _ _ _ _ _ _ _ H1 H2) eq_refl)
    as [Hf1 Hf2 Ha|b b' Hf1 Hf2 Hsym Hb Hb' Hab];
    rewrite is_factorial_name in *.
  - apply bool_decide_eq_true in Hf1, Hf2. split; [congruence|by left].
  - apply bool_decide_eq_false in Hf1, Hf2.
    destruct (second_for_storage_Some _ _ Hb) as [? ->].
    destruct (second_for_storage_Some _ _ Hb') as [? ->].
    assert (Types.operation d1 = Types.operation d2) as Hop.
    { destruct (make_cases _ _ _ _ H1) as [[Hf _]|(? & c & _ & _ & _ & Hs & _)];
        [by rewrite is_factorial_name, bool_decide_eq_true in Hf|].
      apply (symbol_for_name_inj _ _ (String c EmptyString)); congruence. }
    split; [done|right]. split_and!; [done..|].
    destruct Hab as [[-> ->]|(Hc%is_commutative_name & -> & ->)]; auto.
Qed.

Lemma same_key_check d1 d2 k :
  request_data d1 → request_data d2 → has_first_number d2 ≠ 0 →
  request_key d1 = Ret k → request_key d2 = Ret k →
  check_arguments d1 = Ret () → check_arguments d2 = Ret ().
Proof.
  intros [Hh1 _ Hn1 _ _ _] [Hh2 _ _ _ _ _] Hfirst H1 H2.
  rewrite !check_arguments_valid by done. intros [_ _ Hfact _ Hpow].
  destruct (same_key_cases d1 d2 k H1 H2)
    as (Hop & [[Hf Ha]|(Hf & Hs1 & Hs2 & [[Ha Hb]|[Hc _]])]);
    rewrite Hop in *; split; auto; try congruence.
  - rewrite <-Ha. auto.
  - rewrite <-Hb. auto.
  - destruct Hc as [Hc|Hc]; rewrite Hc; congruence.
Qed.

Lemma same_key_math_call d1 d2 k :
  request_data d1 → request_data d2 →
  request_key d1 = Ret k → request_key d2 = Ret k →
  ∃ call1 call2, math_call d1 = Some call1 ∧ math_call d2 = Some call2 ∧
    call1 0 = call2 0.
Proof.
  intros Hd1 Hd2 H1 H2. pose proof (request_operation _ Hd1) as Hn.
  destruct (same_key_cases d1 d2 k H1 H2)
    as (Hop & [[Hf Ha]|(Hf & _ & _ & [[Ha Hb]|(Hc & Ha & Hb)])]);
    unfold math_call; rewrite <-Hop, <-?Ha, <-?Hb.
  - rewrite Hf. by do 2 eexists.
  - destruct (Types.operation d1); first [done | by do 2 eexists].
  - destruct Hc as [-> | ->]; do 2 eexists; split_and!; try done.
    + apply CalculatorMath.symmetric_addition.
    + apply CalculatorMath.symmetric_multiplication.
Qed.

(** What is filed under a key is what any request with the key computes. *)
Lemma same_key_answer d1 d2 k :
  request_data d1 → request_data d2 →
  request_key d1 = Ret k → request_key d2 = Ret k →
  filed_answer d1 = filed_answer d2.
Proof.
  intros Hd1 Hd2 H1 H2.
  destruct (same_key_math_call d1 d2 k Hd1 Hd2 H1 H2)
    as (call1 & call2 & Hc1 & Hc2 & Hcall).
  unfold filed_answer.
  rewrite (calculate_result_call d1 call1 (request_no_help _ Hd1) Hc1).
  rewrite (calculate_result_call d2 call2 (request_no_help _ Hd2) Hc2).
  rewrite (request_result _ Hd1), (request_result _ Hd2), Hcall.
  simpl. by case_bool_decide.
Qed.
End same_key.

(** ** What is filed is what is evaluated *)

Section filed.
Context `{math : CalculatorMath.Library}.

(** A checked request is filed even when its calculation fails. *)
Lemma checked_storable d code v :
  request_data d → check_arguments d = Ret () →
  is_storable_operation (set_error_code code (set_result v d)) = true.
Proof.
  intros [Hh _ Hn _ _ _] Hc. apply check_arguments_valid in Hc; [|done].
  destruct Hc as [_ Hf _ Hs _]. unfold is_storable_operation; simpl.
  rewrite Hh, !bool_decide_false by auto; simpl.
  destruct (decide (Types.operation d = OPERATION_FACTORIAL)).
  - by rewrite bool_decide_true.
  - rewrite orb_true_iff. right. apply bool_decide_eq_true. auto.
Qed.

Lemma evaluate_filed d :
  check_arguments d = Ret () →
  (∃ v, evaluate d = Ret v ∧ filed_answer d = (error_int ERROR_NONE, Some v) ∧
        calculate_result d = (Ret (), (calculate_result d).2) ∧
        result (calculate_result d).2 = v) ∨
  (∃ c what, evaluate d = Throw (calculator_exception c what) ∧
        filed_answer d = (error_int c, None) ∧ c ≠ ERROR_NONE ∧
        calculate_result d =
          (Throw (calculator_exception c what), (calculate_result d).2)).
Proof.
  intros Hc. unfold evaluate, filed_answer. rewrite Hc; simpl.
  pose proof (calculate_result_defined d) as Hu.
  pose proof (calculate_result_throws d) as Ht.
  destruct (calculate_result d) as [[[]|e|] d']; simpl in *; [|..|done].
  - left. by eexists.
  - right. destruct (Ht e eq_refl) as (c & what & -> & Hin).
    exists c, what. split_and!; [done..| |done].
    intros ->. unfold calculation_codes in Hin.
    rewrite !elem_of_cons, elem_of_nil in Hin. by destruct Hin as [?|[?|[?|[]]]].
Qed.

Context `{codes : !CalculatorMath.Codes} `{safe : !CalculatorMath.Safe}.

Lemma evaluate_int d v :
  request_data d → check_arguments d = Ret () → evaluate d = Ret v → in_int v.
Proof.
  intros Hd Hc He. pose proof Hd as [Hh Hr Hn Ha Hb _].
  apply check_arguments_valid in Hc as Hv; [|done].
  unfold evaluate in He. rewrite Hc in He; simpl in He.
  destruct (math_call d) as [call|] eqn:Hcall;
    [|by unfold math_call in Hcall; destruct (Types.operation d)].
  rewrite (calculate_result_call _ _ Hh Hcall) in He; simpl in He.
  case_bool_decide as Hm; simplify_eq/=.
  apply map_math_error_none in Hm. by eapply math_call_exact.
Qed.

(** A record of a checked request fits the database. *)
Lemma request_record_fits d k status result :
  request_data d → request_key d = Ret k → in_int status → option_int result →
  fits_columns (OperationRecord.mk (first_number d)
    (second_number_for_storage d) (storage_name (Types.operation d)) result
    status k).
Proof.
  intros [_ _ _ Ha Hb _] Hk Hs Hr. split; simpl; try done.
  - unfold second_number_for_storage. by case_match.
  - by destruct (Types.operation d).
  - by eapply make_plain.
Qed.
End filed.

Lemma error_int_in_int c : in_int (error_int c).
Proof. destruct c; by apply (bool_decide_unpack _). Qed.

(** ** The handler on a reliable storage *)

Section correct.
Context {S : Type} `{storage : !IOperationStorage S} `{laws : !StorageLaws S}
  `{reliable : !ReliableStorage S}.
Context `{protocol : Protocol.Library} `{total : !Protocol.Total}.
Context `{math : CalculatorMath.Library} `{codes : !CalculatorMath.Codes}
  `{safe : !CalculatorMath.Safe} `{symmetric : !CalculatorMath.Symmetric}.
Variable steady_clock : nat → Z.

Definition response_id (id : string) : string :=
  if bool_decide (id = EmptyString) then "unknown" else id.

(** The responses that answer a request with data [d]: the value of its
    evaluation, or a failure with the status of the code it throws; only the
    source and the message may tell how the answer was found. *)
Inductive answers (id : string) (d : CalculatorData) : CalculationResponse → Prop :=
  | answers_value v source :
      evaluate d = Ret v →
      answers id d
        (set_result_source source (success_of id (result_info_of v)))
  | answers_error code what message :
      evaluate d = Throw (CalculatorException code what) →
      answers id d
        (failure_of (response_id id) (map_internal_error code) message)
  | answers_cached_error code what message :
      evaluate d = Throw (CalculatorException code what) →
      answers id d (set_result_source CACHE
        (failure_of (response_id id) (map_internal_error code) message)).

Definition timing_at (n : nat) : TimingInfo :=
  set_total_duration_ms
    (duration_ms (steady_clock n) (steady_clock (Datatypes.S n))) default_timing.

(** The frame when the storage is first called. *)
Definition started_frame (id : string) (d : CalculatorData) (n : nat) (s : S) :
    frame (S := S) :=
  mk_frame s (Datatypes.S n) id d.

(** The lookup of a request reads [records s] and goes on in [s1]. *)
Definition looks_up (d : CalculatorData) (s s1 : S) : Prop :=
  OperationStorage.find (first_number d) (second_number_for_storage d)
    (storage_name (Types.operation d)) s =
  ((key ← request_key d; Ret (records s !! key)), s1).

(** What a request may do to the storage: lookups, and saves of right records
    that fit. *)
Inductive asked (s : S) : S → Prop :=
  | asked_nothing : asked s s
  | asked_find a x op s1 : asked s s1 → asked s (OperationStorage.find a x op s1).2
  | asked_save r s1 :
      asked s s1 → fits_columns r →
      sound_record (OperationRecord.cache_key r) r →
      asked s (OperationStorage.save r s1).2.

Lemma asked_trans s1 s2 s3 : asked s1 s2 → asked s2 s3 → asked s1 s3.
Proof. intros H12. induction 1; [done|by constructor..]. Qed.

Lemma looks_up_asked d s s1 : looks_up d s s1 → asked s s1.
Proof.
  unfold looks_up. intros H. by rewrite <-(f_equal snd H : _ = s1); repeat constructor.
Qed.

Lemma find_reliable d s :
  serving s → ∃ s1, looks_up d s s1 ∧ serving s1 ∧ records s1 = records s.
Proof.
  intros Hs. unfold looks_up, request_key.
  destruct (reliable_find (first_number d) (second_number_for_storage d)
    (storage_name (Types.operation d)) s Hs) as [Hs' Ho].
  destruct (find_law (first_number d) (second_number_for_storage d)
    (storage_name (Types.operation d)) s) as [Hrec _].
  destruct (OperationStorage.find _ _ _ s) as [o s']; simpl in *.
  exists s'. by rewrite Ho.
Qed.

(** A reliable storage files the record of an evaluated request. *)
Lemma save_reliable r s :
  serving s → fits_columns r →
  ∃ s', OperationStorage.save r s = (Ret (), s') ∧ serving s' ∧
        records s' = <[OperationRecord.cache_key r := r]> (records s).
Proof.
  intros Hs Hr. destruct (reliable_save r s Hs Hr) as (Hs' & Ho & Hrec).
  destruct (OperationStorage.save r s) as [o s']; simpl in *.
  exists s'. by rewrite Ho.
Qed.

Lemma on_storage_save r o (f : frame (S := S)) s' :
  OperationStorage.save r (storage_ f) = (o, s') →
  on_storage (OperationStorage.save r) f =
    (map_exn Raised o : outcome (thrown ProtocolError) unit, set_storage s' f).
Proof. unfold on_storage, zoom. by intros ->. Qed.

(** The body of the outer [try] behind the lookup, by its outcome. *)
Definition after_lookup (d : CalculatorData) (n : nat)
    (found : outcome exn (option OperationRecord.t)) :
    prog (thrown ProtocolError) (frame (S := S)) string :=
  match map_exn Raised found with
  | Ret (Some r) => answer_from_cache steady_clock (steady_clock n) r
  | Ret None =>
      _ ← on_data (λ d, (check_arguments d, d));
      calculate_and_save steady_clock (steady_clock n)
        (storage_name (Types.operation d))
        catch save_failed_operation (storage_name (Types.operation d))
  | Throw e => throw e
  | Undef => lift Undef
  end.

(** The shape of a run whose request parses. *)
Lemma run_found json n s s1 req d found :
  parse_request json = inr req → to_calculator_data req = Ret d →
  OperationStorage.find (first_number d) (second_number_for_storage d)
    (storage_name (Types.operation d)) s = (found, s1) →
  run steady_clock json n s =
    (let '(o, f) :=
       try_catch (after_lookup d n found)
         (handle_exception steady_clock (steady_clock n))
         (started_frame (Protocol.request_id req) d n s1)
     in (o, storage_ f)).
Proof.
  intros Hp Hd Hfind.
  destruct (to_calculator_data_request _ _ Hd) as (_ & Hname & _).
  unfold run, handle, now, mbind, prog_bind; simpl.
  unfold try_catch, handle_body, mbind, prog_bind, modify, lift; simpl.
  rewrite Hp; simpl. rewrite Hd; simpl. rewrite Hname.
  unfold on_storage, zoom; simpl. rewrite Hfind.
  unfold after_lookup, set_storage, set_data, set_request_id, started_frame; simpl.
  by destruct (map_exn Raised found) as [[r|]|e|].
Qed.

Lemma run_parsed json n s s1 req d :
  parse_request json = inr req → to_calculator_data req = Ret d →
  looks_up d s s1 →
  run steady_clock json n s =
    (let '(o, f) :=
       try_catch (after_lookup d n (key ← request_key d; Ret (records s !! key)))
         (handle_exception steady_clock (steady_clock n))
         (started_frame (Protocol.request_id req) d n s1)
     in (o, storage_ f)).
Proof. apply run_found. Qed.

Lemma finish_total n response (f : frame (S := S)) :
  clock_reads f = Datatypes.S n →
  ∃ f', finish steady_clock (steady_clock n) response f =
          (Ret (render (set_timing_info (timing_at n) response)) :
             outcome (thrown ProtocolError) string, f') ∧
        storage_ f' = storage_ f.
Proof.
  intros Hn. eexists. unfold finish, make_timing, now, mbind, prog_bind; simpl.
  unfold lift. rewrite serialize_total, Hn. by split.
Qed.

Lemma catch_failure_total n status message (f : frame (S := S)) :
  clock_reads f = Datatypes.S n →
  ∃ f', catch_failure steady_clock (steady_clock n) status message f =
          (Ret (render (set_timing_info (timing_at n)
             (failure_of (response_id (local_request_id f)) status message))) :
             outcome (thrown ProtocolError) string, f') ∧
        storage_ f' = storage_ f.
Proof.
  intros Hn. unfold catch_failure, make_failure.
  unfold mbind at 1, prog_bind at 1; simpl.
  unfold mbind, prog_bind, lift. rewrite failure_total; simpl.
  by apply finish_total.
Qed.

Lemma answer_from_cache_value n v r (f : frame (S := S)) :
  clock_reads f = Datatypes.S n →
  OperationRecord.answer r = (error_int ERROR_NONE, Some v) →
  ∃ f', answer_from_cache steady_clock (steady_clock n) r f =
          (Ret (render (set_timing_info (timing_at n) (set_result_source CACHE
             (success_of (local_request_id f) (result_info_of v))))) :
             outcome (thrown ProtocolError) string, f') ∧
        storage_ f' = storage_ f.
Proof.
  intros Hn [= Hst Hres]. unfold answer_from_cache.
  unfold mbind at 1, prog_bind at 1; simpl.
  rewrite Hst, Hres, bool_decide_true by done.
  unfold mbind, prog_bind, lift; simpl. rewrite success_total; simpl.
  by apply finish_total.
Qed.

Lemma answer_from_cache_error n c r (f : frame (S := S)) :
  clock_reads f = Datatypes.S n → c ≠ ERROR_NONE →
  OperationRecord.status r = error_int c →
  ∃ f', answer_from_cache steady_clock (steady_clock n) r f =
          (Ret (render (set_timing_info (timing_at n) (set_result_source CACHE
             (failure_of (response_id (local_request_id f))
                (map_internal_error (error_int c))
                "cached calculation error")))) :
             outcome (thrown ProtocolError) string, f') ∧
        storage_ f' = storage_ f.
Proof.
  intros Hn Hc Hst. unfold answer_from_cache, make_failure.
  unfold mbind at 1, prog_bind at 1; simpl.
  rewrite Hst, bool_decide_false by (by intros ?%error_int_none).
  unfold mbind, prog_bind, lift; simpl. rewrite failure_total; simpl.
  by apply finish_total.
Qed.

(** The record that is filed for an evaluated request. *)
Definition evaluated_record (d : CalculatorData) (k : string) :
    OperationRecord.t :=
  OperationRecord.mk (first_number d) (second_number_for_storage d)
    (storage_name (Types.operation d)) (filed_answer d).2 (filed_answer d).1 k.

(** Filing the data after the calculation files the request's key, operands
    and answer. *)
Lemma make_evaluated_record d k v code :
  request_key d = Ret k →
  (filed_answer d).2 =
    (if bool_decide ((filed_answer d).1 = error_int ERROR_NONE) then Some v
     else None) →
  make_operation_record (set_error_code code (set_result v d))
    (filed_answer d).1 (storage_name (Types.operation d)) =
  Ret (evaluated_record d k).
Proof.
  unfold request_key, make_operation_record. intros Hk Hf.
  replace (second_number_for_storage (set_error_code code (set_result v d)))
    with (second_number_for_storage d) by done.
  simpl in *. rewrite Hk; simpl. unfold evaluated_record. by rewrite Hf.
Qed.

Lemma on_data_step {A} (m : prog exn CalculatorData A) (f : frame (S := S)) o d' :
  m (local_data f) = (o, d') →
  on_data m f = (map_exn Raised o : outcome (thrown ProtocolError) A,
                 set_data d' f).
Proof. unfold on_data, zoom. by intros ->. Qed.

Lemma lift_step {A} (o : outcome (thrown ProtocolError) A) a (f : frame (S := S)) :
  o = Ret a → lift o f = (Ret a, f).
Proof. by intros ->. Qed.

(** The calculation of a checked request, as far as the first [save] when it
    succeeds, and as far as the inner [catch] when it fails. *)
Lemma calculation_value id d n k v (s : S) :
  request_data d → check_arguments d = Ret () → request_key d = Ret k →
  evaluate d = Ret v →
  let d' := set_error_code (error_int ERROR_NONE) (set_result v d) in
  calculate_and_save steady_clock (steady_clock n)
    (storage_name (Types.operation d)) (started_frame id d n s) =
  (_ ← on_storage (OperationStorage.save (evaluated_record d k));
   id ← gets local_request_id;
   data' ← gets local_data;
   response ← lift (of_sum (success id (result_info_of (result data'))));
   finish steady_clock (steady_clock n) (set_result_source CALCULATED response))
    (mk_frame s (Datatypes.S n) id d').
Proof.
  intros Hd Hc Hk He d'.
  destruct (evaluate_filed d Hc) as [(v' & He' & Hfiled & Hcalc & Hv)|H];
    [|destruct H as (? & ? & ? & _); congruence].
  assert (v' = v) as -> by congruence. clear He'.
  destruct (calculate_result_frame d) as [w Hw]. rewrite Hw in *; simpl in Hv.
  subst w.
  assert (make_operation_record d' (error_int ERROR_NONE)
    (storage_name (Types.operation d)) = Ret (evaluated_record d k)) as Hrec.
  { pose proof (make_evaluated_record d k v (error_int ERROR_NONE) Hk) as H.
    rewrite Hfiled in H. by apply H. }
  unfold calculate_and_save.
  take_step (exact (on_data_step _ (started_frame id d n s) _ _ Hcalc)).
  do 2 take_step reflexivity.
  take_step (apply lift_step; exact (f_equal (map_exn Raised) Hrec)).
  reflexivity.
Qed.

Lemma calculation_error id d n k c what (s : S) :
  request_data d → check_arguments d = Ret () → request_key d = Ret k →
  evaluate d = Throw (calculator_exception c what) →
  ∃ d',
    (calculate_and_save steady_clock (steady_clock n)
       (storage_name (Types.operation d))
     catch save_failed_operation (storage_name (Types.operation d)))
      (started_frame id d n s) =
    (_ ← on_storage (OperationStorage.save (evaluated_record d k))
           catch catch_std_exception;
     throw (Raised (calculator_exception c what)))
      (mk_frame s (Datatypes.S n) id d').
Proof.
  intros Hd Hc Hk He.
  destruct (evaluate_filed d Hc) as [(v' & He' & _)|H]; [congruence|].
  destruct H as (c' & what' & He' & Hfiled & Hne & Hcalc).
  assert (c' = c ∧ what' = what) as [-> ->].
  { rewrite He in He'. injection He' as Hcc ->. by apply (inj error_int) in Hcc. }
  destruct (calculate_result_frame d) as [w Hw]. rewrite Hw in *.
  set (d' := set_error_code (error_underlying (error_int c)) (set_result w d)).
  assert (make_operation_record d' (error_int c)
    (storage_name (Types.operation d)) = Ret (evaluated_record d k)) as Hrec.
  { pose proof (make_evaluated_record d k w (error_underlying (error_int c)) Hk)
      as H. rewrite Hfiled in H. apply H. simpl.
    by rewrite bool_decide_false by (by intros ?%error_int_none). }
  exists d'. etransitivity.
  { eapply (try_throw _ _ _ (Raised (calculator_exception c what)));
      [|reflexivity]. unfold calculate_and_save. apply bind_throw.
    exact (on_data_step _ (started_frame id d n s) _ _ Hcalc). }
  do 2 take_step reflexivity.
  replace (is_storable_operation _) with true
    by (symmetry; by apply checked_storable).
  unfold mbind, prog_bind, try_catch, lift; simpl.
  fold d'. rewrite Hrec; simpl. done.
Qed.

(** A request that is calculated on a storage that files its record. *)
Lemma calculate_and_save_value id d n k v (s s' : S) :
  request_data d → check_arguments d = Ret () → request_key d = Ret k →
  OperationStorage.save (evaluated_record d k) s = (Ret (), s') →
  evaluate d = Ret v →
  ∃ f', calculate_and_save steady_clock (steady_clock n)
          (storage_name (Types.operation d)) (started_frame id d n s) =
        (Ret (render (set_timing_info (timing_at n)
           (set_result_source CALCULATED
              (success_of id (result_info_of v))))) :
           outcome (thrown ProtocolError) string, f') ∧
    storage_ f' = s'.
Proof.
  intros Hd Hc Hk Hsave He. rewrite (calculation_value id d n k v s Hd Hc Hk He).
  destruct (finish_total n (set_result_source CALCULATED
    (success_of id (result_info_of v)))
    (mk_frame s' (Datatypes.S n) id
       (set_error_code (error_int ERROR_NONE) (set_result v d))) eq_refl)
    as (f' & Hfin & Hst).
  exists f'. split; [|done].
  take_step (exact (on_storage_save _ _ (mk_frame s _ id _) s' Hsave)).
  do 2 take_step reflexivity.
  take_step (apply lift_step; by rewrite success_total).
  exact Hfin.
Qed.

Lemma calculate_and_save_error id d n k c what (s s' : S) :
  request_data d → check_arguments d = Ret () → request_key d = Ret k →
  OperationStorage.save (evaluated_record d k) s = (Ret (), s') →
  evaluate d = Throw (calculator_exception c what) →
  ∃ d', (calculate_and_save steady_clock (steady_clock n)
           (storage_name (Types.operation d))
         catch save_failed_operation (storage_name (Types.operation d)))
          (started_frame id d n s) =
        (Throw (Raised (calculator_exception c what)) :
           outcome (thrown ProtocolError) string,
         mk_frame s' (Datatypes.S n) id d').
Proof.
  intros Hd Hc Hk Hsave He.
  destruct (calculation_error id d n k c what s Hd Hc Hk He) as (d' & ->).
  exists d'. etransitivity; [apply bind_ret, try_ret|reflexivity].
  exact (on_storage_save _ _ (mk_frame s _ id d') s' Hsave).
Qed.

(** A storage that throws something that is no [std::exception]. *)
Lemma calculate_and_save_aborted id d n k (s s' : S) :
  request_data d → check_arguments d = Ret () → request_key d = Ret k →
  OperationStorage.save (evaluated_record d k) s = (Throw OtherException, s') →
  ∃ d', (calculate_and_save steady_clock (steady_clock n)
           (storage_name (Types.operation d))
         catch save_failed_operation (storage_name (Types.operation d)))
          (started_frame id d n s) =
        (Throw (Raised OtherException) : outcome (thrown ProtocolError) string,
         mk_frame s' (Datatypes.S n) id d').
Proof.
  intros Hd Hc Hk Hsave.
  destruct (evaluate_filed d Hc) as [(v & He & _)|(c & what & He & _)].
  - eexists. unfold try_catch.
    pose proof (calculation_value id d n k v s Hd Hc Hk He) as Hcalc.
    cbv zeta in Hcalc. rewrite Hcalc. clear Hcalc.
    unfold mbind, prog_bind.
    rewrite (on_storage_save _ _ (mk_frame s _ id _) s' Hsave). reflexivity.
  - destruct (calculation_error id d n k c what s Hd Hc Hk He) as (d' & ->).
    exists d'. apply bind_throw. unfold try_catch.
    rewrite (on_storage_save _ _ (mk_frame s _ id d') s' Hsave). reflexivity.
Qed.

(** A request without a key lacks its second operand, and is refused for it. *)
Lemma request_key_throws d e :
  request_data d → has_first_number d ≠ 0 → request_key d = Throw e →
  ∃ what what', e = calculator_exception ERROR_MISSING_SECOND_NUMBER what ∧
    evaluate d =
      Throw (calculator_exception ERROR_MISSING_SECOND_NUMBER what').
Proof.
  intros [Hh _ Hn _ _ _] Hf Hk. unfold request_key, OperationKey.make in Hk.
  rewrite is_factorial_name in Hk. case_bool_decide as Hop; [done|].
  unfold second_number_for_storage in Hk.
  rewrite (bool_decide_false _ Hop) in Hk; simpl in Hk.
  case_bool_decide as H2; simplify_eq/=.
  - do 2 eexists. split; [done|]. unfold evaluate, check_arguments.
    by rewrite Hh, (bool_decide_false _ Hn), (bool_decide_false _ Hf),
      (bool_decide_false _ Hop), (bool_decide_true _ H2).
  - exfalso. destruct (Types.operation d) eqn:?; try done; by case_match.
Qed.

Lemma request_key_defined d : request_key d ≠ Undef.
Proof.
  unfold request_key. intros H.
  pose proof (make_defined (first_number d) (second_number_for_storage d)
    (storage_name (Types.operation d))) as Hm. by rewrite H in Hm.
Qed.

Lemma evaluated_record_fits d k :
  request_data d → check_arguments d = Ret () → request_key d = Ret k →
  fits_columns (evaluated_record d k).
Proof.
  intros Hd Hc Hk. unfold evaluated_record.
  destruct (evaluate_filed d Hc)
    as [(v & He & -> & _)|(c & what & _ & -> & _)]; simpl;
    apply request_record_fits; try done.
  - by apply (evaluate_int d).
  - apply error_int_in_int.
Qed.

Lemma evaluated_record_sound d k :
  request_data d → check_arguments d = Ret () → request_key d = Ret k →
  sound_record k (evaluated_record d k).
Proof.
  intros Hd Hc Hk. exists d. split_and!; [done..|].
  unfold OperationRecord.answer, evaluated_record; simpl.
  by destruct (filed_answer d).
Qed.

(** What a cached record says of a request that finds it. *)
Lemma sound_lookup (m : gmap string OperationRecord.t) d k r :
  sound m → m !! k = Some r → request_data d → has_first_number d ≠ 0 →
  request_key d = Ret k →
  check_arguments d = Ret () ∧ OperationRecord.answer r = filed_answer d.
Proof.
  intros Hm Hr Hd Hf Hk. destruct (Hm k r Hr) as (d0 & Hd0 & Hc0 & Hk0 & Ha).
  split; [by apply (same_key_check d0 d k)|].
  rewrite Ha. by apply (same_key_answer d0 d k).
Qed.

(** The response to a request, the storage after it and the source it names:
    a record that is there is answered from the cache and the storage keeps its
    records; a checked request without a record is calculated and filed; any
    other changes nothing. *)
Inductive served (n : nat) (s : S) (req : CalculationRequest)
    (d : CalculatorData) (text : string) (s' : S) : Prop :=
  | served_response response :
      answers (Protocol.request_id req) d response →
      text = render (set_timing_info (timing_at n) response) →
      serving s' → sound (records s') →
      (records s' = records s ∨
       ∃ k, request_key d = Ret k ∧ records s !! k = None ∧
            check_arguments d = Ret () ∧
            records s' = <[k := evaluated_record d k]> (records s)) →
      (∀ k r, request_key d = Ret k → records s !! k = Some r →
         records s' = records s ∧
         ∃ response', response = set_result_source CACHE response') →
      (∀ k, request_key d = Ret k → check_arguments d = Ret () →
         k ∈ dom (records s')) →
      asked s s' →
      served n s req d text s'.

(** A calculator exception that leaves the body of the handler. *)
Lemma body_throws (m : prog (thrown ProtocolError) frame string) n fr fr' code what :
  m fr = (Throw (Raised (CalculatorException code what)), fr') →
  clock_reads fr' = Datatypes.S n →
  ∃ f', try_catch m (handle_exception steady_clock (steady_clock n)) fr =
          (Ret (render (set_timing_info (timing_at n)
             (failure_of (response_id (local_request_id fr'))
                (map_internal_error code) what))), f') ∧
        storage_ f' = storage_ (S := S) fr'.
Proof.
  intros Hm Hn.
  destruct (catch_failure_total n (map_internal_error code) what fr' Hn)
    as (f' & Hfin & Hst).
  exists f'. split; [|done]. etransitivity; [|exact Hfin].
  by eapply try_throw.
Qed.

Lemma served_same n s req d response s' :
  answers (Protocol.request_id req) d response →
  serving s' → sound (records s) → records s' = records s →
  (∀ k r, request_key d = Ret k → records s !! k = Some r →
     ∃ response', response = set_result_source CACHE response') →
  (∀ k, request_key d = Ret k → check_arguments d = Ret () →
     k ∈ dom (records s)) →
  asked s s' →
  served n s req d (render (set_timing_info (timing_at n) response)) s'.
Proof.
  intros Ha Hs' Hm Hr Hc Hk.
  eapply served_response; eauto; rewrite Hr; auto.
Qed.

(** The outer [try] when the body has looked the storage up in [s1]. *)
Section lookups.
Context (n : nat) (s s1 : S) (req : CalculationRequest) (d : CalculatorData).
Hypothesis (Hs1 : serving s1) (Hr1 : records s1 = records s) (Hask : asked s s1)
  (Hm : sound (records s)) (Hq : request_data d)
  (Hf : has_first_number d ≠ 0).

Abbreviation fr := (started_frame (Protocol.request_id req) d n s1).

Abbreviation served_by m := (∃ text s',
  (let '(o, f) := try_catch m (handle_exception steady_clock (steady_clock n)) fr
   in (o, storage_ f)) = (Ret text, s') ∧ served n s req d text s').

Lemma served_no_key e :
  request_key d = Throw e →
  served_by (throw (Raised e) : prog (thrown ProtocolError) frame string).
Proof.
  intros Hk. destruct (request_key_throws d e Hq Hf Hk) as (what & ? & -> & He).
  destruct (body_throws (throw (Raised (calculator_exception ERROR_MISSING_SECOND_NUMBER what))) n fr fr
    _ what eq_refl eq_refl) as (f' & -> & Hst).
  do 2 eexists. split; [done|]. rewrite Hst.
  apply served_same; [by eapply answers_error|done..|congruence|congruence|done].
Qed.

Lemma served_cached k r :
  request_key d = Ret k → records s !! k = Some r →
  served_by (answer_from_cache steady_clock (steady_clock n) r).
Proof.
  intros Hk Hr. destruct (sound_lookup _ d k r Hm Hr Hq Hf Hk) as [Hc Ha].
  destruct (evaluate_filed d Hc)
    as [(v & He & Hfi & _)|(c & what & He & Hfi & Hne & _)]; rewrite Hfi in Ha.
  - destruct (answer_from_cache_value n v r fr eq_refl Ha) as (f' & Hfin & Hst).
    rewrite (try_ret _ _ _ _ _ Hfin). do 2 eexists. split; [done|].
    rewrite Hst. apply served_same; eauto using answers_value.
    intros k' Hk' _. assert (k' = k) as -> by congruence.
    by eapply elem_of_dom_2.
  - destruct (answer_from_cache_error n c r fr eq_refl Hne)
      as (f' & Hfin & Hst); [by injection Ha|].
    rewrite (try_ret _ _ _ _ _ Hfin). do 2 eexists. split; [done|].
    rewrite Hst. apply served_same; eauto using answers_cached_error.
    intros k' Hk' _. assert (k' = k) as -> by congruence.
    by eapply elem_of_dom_2.
Qed.

(** The checks, then the calculation. *)
Abbreviation checked_calculation := (
  _ ← on_data (λ d, (check_arguments d, d));
  calculate_and_save steady_clock (steady_clock n)
    (storage_name (Types.operation d))
    catch save_failed_operation (storage_name (Types.operation d))
  : prog (thrown ProtocolError) frame string).

Lemma served_refused k code what :
  request_key d = Ret k → records s !! k = None →
  check_arguments d = Throw (calculator_exception code what) →
  served_by checked_calculation.
Proof.
  intros Hk Hr Hc.
  assert (evaluate d = Throw (calculator_exception code what)) as He
    by (unfold evaluate; by rewrite Hc).
  destruct (body_throws checked_calculation n fr fr (error_int code) what)
    as (f' & Hfin & Hst); [|done|].
  { apply bind_throw. unfold on_data, zoom; simpl. by rewrite Hc. }
  rewrite Hfin. do 2 eexists. split; [done|]. rewrite Hst.
  apply served_same; [by eapply answers_error|done..|congruence|congruence|done].
Qed.

Lemma served_calculated k :
  request_key d = Ret k → records s !! k = None →
  check_arguments d = Ret () →
  served_by checked_calculation.
Proof.
  intros Hk Hr Hc.
  assert (on_data (λ d, (check_arguments d, d)) fr =
          (Ret () : outcome (thrown ProtocolError) unit, fr)) as Hcheck
    by (unfold on_data, zoom; simpl; by rewrite Hc).
  assert (sound (<[k := evaluated_record d k]> (records s))) as Hsound
    by (apply map_Forall_insert_2; [by apply evaluated_record_sound|done]).
  destruct (save_reliable (evaluated_record d k) s1 Hs1) as (s' & Hsave & Hs' & Hins);
    [by apply evaluated_record_fits|].
  assert (asked s s') as Hask'.
  { rewrite <-(f_equal snd Hsave : _ = s').
    apply asked_save; [done|by apply evaluated_record_fits|].
    by apply evaluated_record_sound. }
  rewrite Hr1 in Hins.
  destruct (evaluate_filed d Hc) as [(v & He & _)|(c & what & He & _)].
  - destruct (calculate_and_save_value (Protocol.request_id req) d n k v s1 s')
      as (f' & Hcalc & Hst); [done..|].
    erewrite try_ret
      by (etransitivity; [by eapply bind_ret|by apply try_ret]).
    do 2 eexists. split; [done|]. rewrite Hst.
    eapply served_response; [by eapply answers_value|done|done| |..];
      rewrite ?Hins;
      [done|by eauto 10|congruence|intros k' ? _;
       assert (k' = k) as -> by congruence; set_solver|done].
  - destruct (calculate_and_save_error (Protocol.request_id req) d n k c what s1 s')
      as (d' & Hcalc); [done..|].
    destruct (body_throws checked_calculation n fr
      (mk_frame s' (Datatypes.S n) (Protocol.request_id req) d') (error_int c) what)
      as (f' & Hfin & Hst);
      [by etransitivity; [by eapply bind_ret|exact Hcalc]|done|].
    rewrite Hfin. do 2 eexists. split; [done|].
    rewrite Hst. eapply served_response; [by eapply answers_error|done|done| |..];
      simpl; rewrite ?Hins;
      [done|by eauto 10|congruence|intros k' ? _;
       assert (k' = k) as -> by congruence; set_solver|done].
Qed.
End lookups.

Lemma run_served json n s req d :
  serving s → sound (records s) →
  parse_request json = inr req → to_calculator_data req = Ret d →
  operands req ≠ [] →
  ∃ text s', run steady_clock json n s = (Ret text, s') ∧
             served n s req d text s'.
Proof.
  intros Hs Hm Hp Hd Hops.
  destruct (find_reliable d s Hs) as (s1 & Hlook & Hs1 & Hr1).
  rewrite (run_parsed json n s s1 req d Hp Hd Hlook).
  apply looks_up_asked in Hlook.
  destruct (to_calculator_data_request _ _ Hd) as (Hq & _ & Hf & _).
  specialize (Hf Hops).
  destruct (request_key d) as [k|e|] eqn:Hk; simpl;
    [|by apply served_no_key|by destruct (request_key_defined d)].
  destruct (records s !! k) as [r|] eqn:Hr; [by eapply served_cached|].
  destruct (check_arguments_cases d) as [Hc|(code & what & Hc & _)];
    [by eapply served_calculated|by eapply served_refused].
Qed.

(** ** Every request text keeps the cache sound *)

Lemma catch_returns (m : prog (thrown ProtocolError) frame string) started fr e fr' :
  m fr = (Throw e, fr') →
  ∃ text f', try_catch m (handle_exception steady_clock started) fr = (Ret text, f') ∧
             storage_ f' = storage_ (S := S) fr'.
Proof.
  intros Hm.
  destruct (handle_exception_returns steady_clock started e fr')
    as (k & Hk & Hret & Hst).
  destruct (k fr') as [[text|?|] f'] eqn:Hf; try done.
  exists text, f'. split; [|done]. etransitivity; [by eapply try_throw|done].
Qed.

Lemma run_rejected json n s e :
  (∀ req, parse_request json = inr req → to_calculator_data req = Throw e) →
  (∀ req d, parse_request json = inr req → to_calculator_data req ≠ Ret d) →
  ∃ text, run steady_clock json n s = (Ret text, s).
Proof.
  intros He Hd.
  set (fr := mk_frame s (Datatypes.S n) EmptyString default_data).
  assert (∃ e' fr', handle_body steady_clock (steady_clock n) json fr = (Throw e', fr')
    ∧ storage_ fr' = s) as (e' & fr' & Hb & Hst).
  { unfold handle_body. destruct (parse_request json) as [e'|req] eqn:Hp.
    - exists e', fr. split; [|done]. apply bind_throw. done.
    - exists e, (set_request_id (Protocol.request_id req) fr). split; [|done].
      take_step done. take_step done. apply bind_throw. unfold lift.
      by rewrite He. }
  destruct (catch_returns _ (steady_clock n) _ _ _ Hb) as (text & f' & Hc & Hst').
  exists text. unfold run, handle, now, mbind, prog_bind; simpl.
  fold fr. rewrite Hc. congruence.
Qed.

(** A factorial without its operand. *)
Lemma run_no_operands json n s req d :
  serving s → sound (records s) →
  parse_request json = inr req → to_calculator_data req = Ret d →
  operands req = [] →
  ∃ text s', run steady_clock json n s = (Ret text, s') ∧ serving s' ∧
             records s' = records s ∧ asked s s'.
Proof.
  intros Hs Hm Hp Hd Hops.
  destruct (find_reliable d s Hs) as (s1 & Hlook & Hs1 & Hr1).
  rewrite (run_parsed json n s s1 req d Hp Hd Hlook).
  apply looks_up_asked in Hlook.
  destruct (to_calculator_data_request _ _ Hd) as (Hq & _ & _ & _ & Hf & _).
  rewrite Hops in Hf. injection Hf as Hf0 Hf. 
  set (fr := started_frame _ _ _ _).
  destruct (request_key d) as [k|e|] eqn:Hk; simpl;
    [|..|by destruct (request_key_defined d)].
  - destruct (records s !! k) as [r|] eqn:Hr.
    + destruct (Hm k r Hr) as (d0 & _ & Hc0 & _ & Ha).
      destruct (evaluate_filed d0 Hc0)
        as [(v & _ & Hfi & _)|(c & what & _ & Hfi & Hne & _)]; rewrite Hfi in Ha.
      * destruct (answer_from_cache_value n v r fr eq_refl Ha) as (f' & Hfin & Hst).
        rewrite (try_ret _ _ _ _ _ Hfin). do 2 eexists. by rewrite Hst.
      * destruct (answer_from_cache_error n c r fr eq_refl Hne)
          as (f' & Hfin & Hst); [by injection Ha|].
        rewrite (try_ret _ _ _ _ _ Hfin). do 2 eexists. by rewrite Hst.
    + destruct (check_arguments_cases d) as [Hc|(code & what & Hc & _)].
      * exfalso. apply check_arguments_valid in Hc; [|apply Hq].
        by destruct Hc.
      * match goal with
        | |- context [try_catch ?m (handle_exception _ ?t) fr] =>
            destruct (catch_returns m t fr (Raised (calculator_exception code what)) fr)
              as (text & f' & -> & Hst)
        end; [|do 2 eexists; by rewrite Hst].
        apply bind_throw. unfold on_data, zoom; simpl. by rewrite Hc.
  - edestruct (catch_returns (throw (Raised e))) as (text & f' & Hfin & Hst);
      [reflexivity|].
    rewrite Hfin. do 2 eexists. by rewrite Hst.
Qed.

Lemma run_sound json n s :
  serving s → sound (records s) →
  ∃ text s', run steady_clock json n s = (Ret text, s') ∧ serving s' ∧
             sound (records s') ∧ dom (records s) ⊆ dom (records s') ∧ asked s s'.
Proof.
  intros Hs Hm. destruct (parse_request json) as [e|req] eqn:Hp.
  { destruct (run_rejected json n s (Raised OtherException)) as [text ->];
      [congruence|congruence|do 2 eexists; by repeat constructor]. }
  destruct (to_calculator_data req) as [d|e|] eqn:Hd.
  - destruct (operands req) as [|a ops] eqn:Hops.
    + destruct (run_no_operands json n s req d) as (text & s' & -> & ? & Hr & ?);
        [done..|]. do 2 eexists. by rewrite Hr.
    + destruct (run_served json n s req d) as (text & s' & -> & Hsv);
        [done..|by rewrite Hops|]. do 2 eexists. split; [done|].
      destruct Hsv as [? _ _ ? ? Hrec _ _ ?]. split_and!; [done..| |done].
      destruct Hrec as [->|(k & _ & _ & _ & ->)]; [done|].
      rewrite dom_insert_L. set_solver.
  - destruct (run_rejected json n s e) as [text ->]; [congruence|congruence|].
    do 2 eexists; by repeat constructor.
  - pose proof (HandlerSafety.to_calculator_data_defined req) as Hdef.
    by rewrite Hd in Hdef.
Qed.

(** The storage after a sequence of request texts, each handled from the clock
    reading it starts at. *)
Fixpoint run_history (requests : list (string * nat)) (s : S) : S :=
  match requests with
  | [] => s
  | (json, n) :: rest => run_history rest (run steady_clock json n s).2
  end.

Lemma run_history_sound requests s :
  serving s → sound (records s) →
  serving (run_history requests s) ∧ sound (records (run_history requests s)) ∧
  dom (records s) ⊆ dom (records (run_history requests s)) ∧
  asked s (run_history requests s).
Proof.
  revert s. induction requests as [|[json n] rest IH]; intros s Hs Hm;
    [by repeat constructor|].
  simpl. destruct (run_sound json n s Hs Hm) as (text & s' & -> & ? & ? & ? & ?).
  destruct (IH s') as (? & ? & ? & ?); [done..|].
  split_and!; [done..|set_solver|by eapply asked_trans].
Qed.
End correct.
