(* ===== verification/HandlerTheorems.v ===== *)
(** * Theorems on the request handler

    The answers to sequences of requests, and two situations in which the code
    answers from a record that should not be there. *)

From stdpp Require Import base tactics strings list gmap.
From S2P Require Import Prelude.
From S2P Require Import Types.
From S2P Require Import CppString.
From S2P Require Import Checker.
From S2P Require Import Abacus.
From S2P Require Import OperationKey.
From S2P Require Import CacheRepository.
From S2P Require Import Postgres.
From S2P Require Import OperationStorage.
From S2P Require Import StorageService.
From S2P Require Import RequestHandler.
From S2P Require Import LineProtocol.
From S2P Require Import HandlerSafety.
From S2P Require Import HandlerCorrect.
Import Protocol.
Import OperationKey.
Import RequestHandler.

Section histories.
Context {S : Type} `{storage : !IOperationStorage S} `{laws : !StorageLaws S}
  `{reliable : !ReliableStorage S}.
Context `{protocol : Protocol.Library} `{total : !Protocol.Total}.
Context `{math : CalculatorMath.Library} `{codes : !CalculatorMath.Codes}
  `{safe : !CalculatorMath.Safe} `{symmetric : !CalculatorMath.Symmetric}.
Variable steady_clock : nat → Z.

(** C5: the cache is transparent.  After any sequence of request texts, from
    a storage whose records are sound (an empty one, for instance), a request
    that parses, has at least one operand and fits [int] is answered with the
    value that the checks and the calculation give without a cache, or with
    the status of the code they throw; how it was answered shows only in the
    source, the message and the timing of the response. *)
Theorem handle_history_correct history json n s req d :
  serving s → sound (records s) →
  parse_request json = inr req → to_calculator_data req = Ret d →
  operands req ≠ [] →
  ∃ response,
    (run steady_clock json n (run_history steady_clock history s)).1 =
      Ret (render (set_timing_info (timing_at steady_clock n) response)) ∧
    answers (Protocol.request_id req) d response.
Proof.
  intros Hs Hm Hp Hd Hops.
  destruct (run_history_sound steady_clock history s Hs Hm) as (Hs' & Hm' & _).
  destruct (run_served steady_clock json n _ req d Hs' Hm' Hp Hd Hops)
    as (text & s' & -> & [response Ha -> _ _ _ _ _ _]).
  by exists response.
Qed.

(** A calculation is made once.  When a checked request was handled, any
    later request with the same key (the same operation on the same operands,
    in either order for a sum or a product) is answered from the cache, after
    any requests in between, and files nothing. *)
Lemma repeated_request_cached json1 n1 req1 d1 history json2 n2 req2 d2 k s :
  serving s → sound (records s) →
  parse_request json1 = inr req1 → to_calculator_data req1 = Ret d1 →
  operands req1 ≠ [] → check_arguments d1 = Ret () →
  parse_request json2 = inr req2 → to_calculator_data req2 = Ret d2 →
  operands req2 ≠ [] →
  request_key d1 = Ret k → request_key d2 = Ret k →
  let s1 := run_history steady_clock history (run steady_clock json1 n1 s).2 in
  ∃ response,
    (run steady_clock json2 n2 s1).1 =
      Ret (render (set_timing_info (timing_at steady_clock n2)
             (set_result_source CACHE response))) ∧
    answers (Protocol.request_id req2) d2 (set_result_source CACHE response) ∧
    records (run steady_clock json2 n2 s1).2 = records s1.
Proof.
  intros Hs Hm Hp1 Hd1 Hops1 Hc Hp2 Hd2 Hops2 Hk1 Hk2.
  destruct (run_served steady_clock json1 n1 s req1 d1 Hs Hm Hp1 Hd1 Hops1)
    as (text1 & s' & -> & [? _ _ Hs' Hm' _ _ Hin _]). simpl.
  specialize (Hin k Hk1 Hc).
  destruct (run_history_sound steady_clock history s' Hs' Hm')
    as (Hs2 & Hm2 & Hsub & _).
  destruct (run_served steady_clock json2 n2 _ req2 d2 Hs2 Hm2 Hp2 Hd2 Hops2)
    as (text2 & s2 & -> & [response2 Ha -> _ _ _ Hcached _ _]).
  apply Hsub, elem_of_dom in Hin as [r Hr].
  destruct (Hcached k r Hk2 Hr) as (Hrec & response' & ->).
  by exists response'.
Qed.

(** C34: a factorial request without operands is not checked when 0! is in the
    cache.  The handler looks the storage up, with the operand 0 that the
    request never gave, before it checks the arguments: without a record of 0!
    the request is refused with [OPERANDS_COUNT_MISMATCH], as its evaluation
    demands; once somebody asked for 0! it gets that result. *)
Theorem factorial_without_operands json n req d s :
  serving s → sound (records s) →
  parse_request json = inr req → to_calculator_data req = Ret d →
  Types.operation d = OPERATION_FACTORIAL → operands req = [] →
  (∃ what, evaluate d =
     Throw (calculator_exception ERROR_MISSING_FIRST_NUMBER what)) ∧
  (records s !! "fact(0)" = None →
   (run steady_clock json n s).1 =
     Ret (render (set_timing_info (timing_at steady_clock n)
       (failure_of (response_id (Protocol.request_id req))
          OPERANDS_COUNT_MISMATCH "First number is missing.")))) ∧
  (∀ r v, records s !! "fact(0)" = Some r →
     OperationRecord.answer r = (error_int ERROR_NONE, Some v) →
   (run steady_clock json n s).1 =
     Ret (render (set_timing_info (timing_at steady_clock n)
       (set_result_source CACHE
          (success_of (Protocol.request_id req) (result_info_of v)))))).
Proof.
  intros Hs Hm Hp Hd Hop Hops.
  destruct (to_calculator_data_request _ _ Hd) as (Hq & _ & _ & _ & Hf & _).
  rewrite Hops in Hf. injection Hf as Ha Hf. pose proof (request_no_help _ Hq) as Hh.
  assert (request_key d = Ret "fact(0)") as Hk
    by (unfold request_key; by rewrite Hop, Ha).
  assert (check_arguments d = Throw (calculator_exception
    ERROR_MISSING_FIRST_NUMBER "First number is missing.")) as Hc
    by (unfold check_arguments; by rewrite Hh, Hop, Hf).
  destruct (find_reliable d s Hs) as (s1 & Hlook & _ & _).
  rewrite (run_parsed steady_clock json n s s1 req d Hp Hd Hlook), Hk; simpl. split_and!.
  - eexists. unfold evaluate. by rewrite Hc.
  - intros ->; simpl. set (fr := started_frame _ _ _ _).
    match goal with
    | |- context [try_catch ?m (handle_exception _ _) fr] =>
        destruct (body_throws steady_clock m n fr fr
          (error_int ERROR_MISSING_FIRST_NUMBER) "First number is missing.")
          as (f' & -> & _)
    end; [|done|done].
    apply bind_throw. unfold on_data, zoom; simpl. by rewrite Hc.
  - intros r v -> Hr; simpl. set (fr := started_frame _ _ _ _).
    destruct (answer_from_cache_value steady_clock n v r fr eq_refl Hr)
      as (f' & Hfin & _).
    by rewrite (try_ret _ _ _ _ _ Hfin).
Qed.
End histories.

(** ** Concrete runs

    An in-memory storage, the arithmetic of [SafeMath] and the protocol of
    [LineProtocol]. *)

Definition clock_1ms (n : nat) : Z := Z.of_nat n * 1000000.

Abbreviation demo_run := (run (S := InMemoryOperationStorage.t)
  (storage := InMemoryOperationStorage.storage)
  (protocol := LineProtocol.library) (math := SafeMath.library) clock_1ms).

Abbreviation demo_history := (run_history (S := InMemoryOperationStorage.t)
  (storage := InMemoryOperationStorage.storage)
  (protocol := LineProtocol.library) (math := SafeMath.library) clock_1ms).

Lemma sound_empty `{CalculatorMath.Library} : sound ∅.
Proof. apply map_Forall_empty. Qed.

(** [tests/request_handler_tests.cpp], on these libraries. *)
Example calculates_addition : (demo_run "+2,3" 0 ∅).1 = Ret "OK 5 calculated".
Proof. vm_compute. reflexivity. Qed.

Example division_by_zero_response :
  (demo_run "/10,0" 0 ∅).1 = Ret "DIVISION_BY_ZERO".
Proof. vm_compute. reflexivity. Qed.

Example reuses_cached_result :
  (demo_run "*5,4" 2 (demo_run "*4,5" 0 ∅).2).1 = Ret "OK 20 cache".
Proof. vm_compute. reflexivity. Qed.

Definition demo_request (op : LineProtocol.op) (ops : list Z) : LineProtocol.request :=
  LineProtocol.mk_request op ops.

Definition demo_data (op : Types.OperationCode) (a b : Z) : CalculatorData :=
  set_second b (set_first a (set_operation op default_data)).

Example handle_safe_witness :
  (demo_run "+2,3" 0 ∅).1 ≠ Undef ∧
  complete_records ((demo_run "+2,3" 0 ∅).2 : gmap string OperationRecord.t).
Proof.
  apply (handle_safe (storage := InMemoryOperationStorage.storage)
    (laws := InMemoryOperationStorage.laws) (protocol := LineProtocol.library)
    (math := SafeMath.library) clock_1ms "+2,3" 0 ∅).
  exact (fun k r Hk => match (eq_trans (eq_sym (lookup_empty k)) Hk) with end).
Defined.

Example handle_returns_witness :
  ∃ response, (demo_run "no request" 0 ∅).1 = Ret response.
Proof.
  apply (handle_returns (storage := InMemoryOperationStorage.storage)
    (laws := InMemoryOperationStorage.laws) (protocol := LineProtocol.library)
    (total := LineProtocol.total)
    (math := SafeMath.library) clock_1ms "no request" 0 ∅).
  exact (fun k r Hk => match (eq_trans (eq_sym (lookup_empty k)) Hk) with end).
Defined.

Example handle_history_correct_witness :
  ∃ response : LineProtocol.response,
    (demo_run "*5,4" 2 (demo_history [("*4,5", 0%nat); ("!", 1%nat)] ∅)).1 =
      Ret (LineProtocol.show response) ∧
    LineProtocol.resp_value response = Some 20.
Proof.
  destruct (handle_history_correct (storage := InMemoryOperationStorage.storage)
    (laws := InMemoryOperationStorage.laws)
    (reliable := InMemoryOperationStorage.reliable)
    (protocol := LineProtocol.library) (total := LineProtocol.total)
    (math := SafeMath.library) (codes := SafeMath.codes) (safe := SafeMath.safe)
    (symmetric := SafeMath.symmetric) clock_1ms
    [("*4,5", 0%nat); ("!", 1%nat)] "*5,4" 2 ∅ (demo_request LineProtocol.Mul [5; 4])
    (demo_data OPERATION_MULTIPLICATION 5 4) I sound_empty eq_refl eq_refl
    ltac:(discriminate)) as (response & Hrun & Ha).
  eexists. split; [exact Hrun|].
  destruct Ha as [v src He|code what m He|code what m He]; vm_compute in He;
    try discriminate.
  by injection He as <-.
Defined.

Example repeated_request_cached_witness :
  ∃ response : LineProtocol.response,
    (demo_run "*5,4" 2 (demo_run "*4,5" 0 ∅).2).1 =
      Ret (LineProtocol.show response) ∧
    LineProtocol.resp_source response = Some true.
Proof.
  destruct (repeated_request_cached (storage := InMemoryOperationStorage.storage)
    (laws := InMemoryOperationStorage.laws)
    (reliable := InMemoryOperationStorage.reliable)
    (protocol := LineProtocol.library) (total := LineProtocol.total)
    (math := SafeMath.library) (codes := SafeMath.codes) (safe := SafeMath.safe)
    (symmetric := SafeMath.symmetric) clock_1ms
    "*4,5" 0 (demo_request LineProtocol.Mul [4; 5])
    (demo_data OPERATION_MULTIPLICATION 4 5) []
    "*5,4" 2 (demo_request LineProtocol.Mul [5; 4])
    (demo_data OPERATION_MULTIPLICATION 5 4) "4*5" ∅ I sound_empty eq_refl eq_refl
    ltac:(discriminate) eq_refl eq_refl eq_refl ltac:(discriminate) eq_refl eq_refl)
    as (response & Hrun & _ & _).
  eexists. split; [exact Hrun|]. reflexivity.
Defined.

Example factorial_without_operands_witness :
  (demo_run "!" 0 ∅).1 = Ret "OPERANDS_COUNT_MISMATCH" ∧
  (demo_run "!" 2 (demo_run "!0" 0 ∅).2).1 = Ret "OK 1 cache".
Proof.
  split; [|vm_compute; reflexivity].
  exact (proj1 (proj2 (factorial_without_operands
    (storage := InMemoryOperationStorage.storage)
    (laws := InMemoryOperationStorage.laws)
    (reliable := InMemoryOperationStorage.reliable)
    (protocol := LineProtocol.library) (total := LineProtocol.total)
    (math := SafeMath.library) clock_1ms
    "!" 0 (demo_request LineProtocol.Fact [])
    (set_operation OPERATION_FACTORIAL default_data) ∅ I sound_empty eq_refl
    eq_refl eq_refl eq_refl)) eq_refl).
Defined.
