(* ===== verification/Restart.v ===== *)
(** * The server across restarts

    The request handler on a [StorageService]: cache and table stay in step
    while requests are handled, so that a service started again on the same
    database answers from what the first one filed. *)

From stdpp Require Import base tactics strings list gmap.
From S2P Require Import Prelude.
From S2P Require Import Types.
From S2P Require Import CppString.
From S2P Require Import Checker.
From S2P Require Import Abacus.
From S2P Require Import OperationKey.
From S2P Require Import CacheRepository.
From S2P Require Import Postgres.
From S2P Require Import OperationStorage.
From S2P Require Import StorageService.
From S2P Require Import RequestHandler.
From S2P Require Import LineProtocol.
From S2P Require Import HandlerSafety.
From S2P Require Import HandlerCorrect.
From S2P Require Import HandlerTheorems.
Import Protocol.
Import RequestHandler.

Section restart.
Context `{lib : Libpq.Library} `{doc : !Documented}.
Context `{protocol : Protocol.Library} `{total : !Protocol.Total}.
Context `{math : CalculatorMath.Library} `{codes : !CalculatorMath.Codes}
  `{safe : !CalculatorMath.Safe} `{symmetric : !CalculatorMath.Symmetric}.
Variable steady_clock : nat → Z.

(** Cache and table hold the same keys, each with a record of the right
    answer. *)
Abbreviation in_step := (coherent sound_record).

Lemma asked_in_step s s' : asked s s' → in_step s → in_step s'.
Proof.
  intros Hask Hs. induction Hask as [|a x op s1 _ IH|r s1 _ IH Hf Hr]; [done..|].
  by apply (save_coherent sound_record r s1).
Qed.

Lemma in_step_serving s : in_step s → serving s ∧ sound (records s).
Proof. by intros [Hc _ _ Hm]. Qed.

Lemma history_in_step history s :
  in_step s → in_step (run_history steady_clock history s).
Proof.
  intros Hs. destruct (in_step_serving s Hs) as [Hserve Hsound].
  destruct (run_history_sound steady_clock history s Hserve Hsound)
    as (_ & _ & _ & Hask).
  by eapply asked_in_step.
Qed.

Lemma run_in_step json n s :
  in_step s → in_step (run steady_clock json n s).2.
Proof. exact (history_in_step [(json, n)] s). Qed.

(** A checked request is in the table once it was handled, and stays there. *)
Lemma handled_filed json n req d k after s :
  in_step s → parse_request json = inr req → to_calculator_data req = Ret d →
  operands req ≠ [] → check_arguments d = Ret () → request_key d = Ret k →
  k ∈ row_keys (table (StorageService.server
        (run_history steady_clock ((json, n) :: after) s))).
Proof.
  intros Hs Hp Hd Hops Hc Hk.
  rewrite <-(coherent_dom _ _ (history_in_step ((json, n) :: after) s Hs)); simpl.
  destruct (in_step_serving _ Hs) as [Hserve Hsound].
  destruct (run_served steady_clock json n s req d Hserve Hsound Hp Hd Hops)
    as (text & s' & -> & [? _ _ Hserve' Hsound' _ _ Hin _]).
  destruct (run_history_sound steady_clock after s' Hserve' Hsound')
    as (_ & _ & Hsub & _).
  exact (Hsub _ (Hin k Hk Hc)).
Qed.

Lemma run_history_app before after s :
  run_history steady_clock (before ++ after) s =
  run_history steady_clock after (run_history steady_clock before s).
Proof.
  revert s. induction before as [|[json n] before IH]; intros s; [done|].
  by simpl; rewrite IH.
Qed.

(** The service that starts with an empty cache on a connection. *)
Abbreviation started conn w := (StorageService.mk ∅ (Some conn) w).

(** The database across any number of lives of the server: each starts on a
    connection that is available then, and handles any requests. *)
Inductive lives : Libpq.world → Libpq.world → Prop :=
  | lives_none w : lives w w
  | lives_next conn history w s0 w' :
      available conn w → StorageService.initialize (started conn w) = (Ret (), s0) →
      lives (StorageService.server (run_history steady_clock history s0)) w' →
      lives w w'.

Lemma lives_keep w w' :
  lives w w' → good_table sound_record (table w) →
  good_table sound_record (table w') ∧ row_keys (table w) ⊆ row_keys (table w').
Proof.
  induction 1 as [w|conn history w s0 w' Hw Hi _ IH]; intros Hg; [done|].
  destruct (initialize_coherent sound_record conn w Hw Hg)
    as (w0 & Hi' & Hc & Ht).
  rewrite Hi' in Hi. injection Hi as <-.
  pose proof (history_in_step history _ Hc) as Hc'.
  destruct (IH (coherent_table _ _ Hc')) as [Hg' Hsub]. split; [done|].
  etransitivity; [|exact Hsub].
  pose proof (coherent_dom _ _ Hc) as Hd. simpl in Hd. rewrite Ht in Hd.
  rewrite <-Hd, <-(coherent_dom _ _ Hc').
  destruct (in_step_serving _ Hc) as [Hserve Hsound].
  by destruct (run_history_sound steady_clock history _ Hserve Hsound)
    as (_ & _ & Hdom & _).
Qed.

(** A service that starts on a table that has the key of a request. *)
Lemma started_answers conn w k :
  available conn w → good_table sound_record (table w) → k ∈ row_keys (table w) →
  ∃ s0, StorageService.initialize (started conn w) = (Ret (), s0) ∧
  ∀ json n req d,
    parse_request json = inr req → to_calculator_data req = Ret d →
    operands req ≠ [] → request_key d = Ret k →
    ∃ response,
      (run steady_clock json n s0).1 =
        Ret (render (set_timing_info (timing_at steady_clock n)
               (set_result_source CACHE response))) ∧
      answers (Protocol.request_id req) d (set_result_source CACHE response) ∧
      row_keys (table (StorageService.server (run steady_clock json n s0).2)) =
        row_keys (table w).
Proof.
  intros Hw Hg Hin.
  destruct (initialize_coherent sound_record conn w Hw Hg) as (w0 & Hi & Hc & Ht).
  eexists. split; [exact Hi|]. intros json n req d Hp Hd Hops Hk.
  set (s0 := StorageService.mk _ _ w0) in *.
  destruct (in_step_serving _ Hc) as [Hserve Hsound].
  pose proof (coherent_dom _ _ Hc) as Hdom.
  pose proof (run_in_step json n s0 Hc) as Hc'.
  destruct (run_served steady_clock json n s0 req d Hserve Hsound Hp Hd Hops)
    as (text & s1 & Hrun & [response' Ha -> _ _ _ Hcached _ _]).
  rewrite Hrun in Hc' |- *; simpl in Hc' |- *.
  assert (k ∈ dom (StorageService.cache_repository s0)) as [r Hr]%elem_of_dom
    by (rewrite Hdom; simpl; by rewrite Ht).
  destruct (Hcached k r Hk Hr) as (Hrec & response & ->).
  exists response. split_and!; [done..|].
  rewrite <-(coherent_dom _ _ Hc'), <-Ht.
  change (dom (records s1) = row_keys (table (StorageService.server s0))).
  by rewrite Hrec, <-Hdom.
Qed.

(** What was calculated once is never calculated again.  A service that
    starts on a history of right records answers requests; however often the
    server is then restarted on the same database, over any connections that are
    available, and whatever requests it handles in between, the history is right,
    and every request with the key of a checked request that the first service
    handled is answered from the cache, with its right answer, and adds nothing
    to the table. *)
Lemma restarted_server_remembers conn w before json1 n1 req1 d1 after k :
  available conn w → good_table sound_record (table w) →
  parse_request json1 = inr req1 → to_calculator_data req1 = Ret d1 →
  operands req1 ≠ [] → check_arguments d1 = Ret () → request_key d1 = Ret k →
  ∃ s0, StorageService.initialize (started conn w) = (Ret (), s0) ∧
  ∀ w2, lives (StorageService.server
    (run_history steady_clock (before ++ (json1, n1) :: after) s0)) w2 →
  good_table sound_record (table w2) ∧
  ∀ conn', available conn' w2 →
  ∃ s2, StorageService.initialize (started conn' w2) = (Ret (), s2) ∧
  ∀ json2 n2 req2 d2,
    parse_request json2 = inr req2 → to_calculator_data req2 = Ret d2 →
    operands req2 ≠ [] → request_key d2 = Ret k →
    ∃ response,
      (run steady_clock json2 n2 s2).1 =
        Ret (render (set_timing_info (timing_at steady_clock n2)
               (set_result_source CACHE response))) ∧
      answers (Protocol.request_id req2) d2 (set_result_source CACHE response) ∧
      row_keys (table (StorageService.server (run steady_clock json2 n2 s2).2)) =
        row_keys (table w2).
Proof.
  intros Hw Hg Hp1 Hd1 Hops1 Hc Hk1.
  destruct (initialize_coherent sound_record conn w Hw Hg) as (w0 & Hi & Hc0 & _).
  eexists. split; [exact Hi|]. rewrite run_history_app.
  apply (history_in_step before) in Hc0.
  pose proof (history_in_step ((json1, n1) :: after) _ Hc0) as Hc1.
  pose proof (handled_filed json1 n1 req1 d1 k after _ Hc0 Hp1 Hd1 Hops1 Hc Hk1)
    as Hin.
  intros w2 Hlives.
  destruct (lives_keep _ _ Hlives (coherent_table _ _ Hc1)) as [Hg2 Hsub].
  split; [done|]. intros conn' Hw2. apply started_answers; auto.
Qed.
End restart.

Abbreviation demo_service := (StorageService.mk (H := TableServer.library) ∅ (Some ())).

Abbreviation service_run := (run (S := StorageService.t (H := TableServer.library))
  (storage := service_storage (lib := TableServer.library))
  (protocol := LineProtocol.library) (math := SafeMath.library) clock_1ms).

(** A database that is up and empty. *)
Definition empty_database : TableServer.state := TableServer.mk_state true [].

Example restarted_server_remembers_witness :
  ∃ s0 s2 : StorageService.t (H := TableServer.library),
  StorageService.initialize (demo_service empty_database) = (Ret (), s0) ∧
  StorageService.initialize
    (demo_service (StorageService.server (service_run "*4,5" 0 s0).2)) = (Ret (), s2) ∧
  ∃ response : LineProtocol.response,
    (service_run "*5,4" 2 s2).1 = Ret (LineProtocol.show response) ∧
    LineProtocol.resp_source response = Some true ∧
    row_keys (table (Documented := TableServer.documented)
      (StorageService.server (service_run "*5,4" 2 s2).2)) = {["4*5"]}.
Proof.
  destruct (restarted_server_remembers (lib := TableServer.library)
    (doc := TableServer.documented) (protocol := LineProtocol.library)
    (total := LineProtocol.total) (math := SafeMath.library)
    (codes := SafeMath.codes) (safe := SafeMath.safe)
    (symmetric := SafeMath.symmetric) clock_1ms () empty_database []
    "*4,5" 0 (demo_request LineProtocol.Mul [4; 5])
    (demo_data OPERATION_MULTIPLICATION 4 5) [] "4*5")
    as (s0 & Hi & Hrestart);
    [reflexivity|by repeat constructor|reflexivity|reflexivity|discriminate
    |reflexivity|reflexivity|].
  exists s0. injection Hi as <-.
  destruct (Hrestart _ (lives_none (lib := TableServer.library)
    (doc := TableServer.documented) (protocol := LineProtocol.library)
    (math := SafeMath.library) clock_1ms _)) as [_ Hstart].
  destruct (Hstart () eq_refl) as (s2 & Hi2 & Hanswer).
  exists s2. split; [reflexivity|]. split; [exact Hi2|].
  destruct (Hanswer "*5,4" 2%nat (demo_request LineProtocol.Mul [5; 4])
    (demo_data OPERATION_MULTIPLICATION 5 4)) as (response & Hrun & _ & Hkeys);
    [reflexivity|reflexivity|discriminate|reflexivity|].
  eexists. split; [exact Hrun|]. split; [reflexivity|].
  etransitivity; [exact Hkeys|]. reflexivity.
Defined.
