(* ===== verification/HandlerConcurrent.v ===== *)
(** * Requests handled at the same time

    Network threads run [handle] at the same time on one storage, whose calls
    are atomic.  A thread is the handler of [RequestHandler] on a script of the
    replies that it got so far: where the script ends, the handler is blocked in
    its next call.  The threads take turns call by call in any order. *)

From stdpp Require Import base tactics strings list gmap.
From S2P Require Import Prelude.
From S2P Require Import Types.
From S2P Require Import CppString.
From S2P Require Import Checker.
From S2P Require Import Abacus.
From S2P Require Import OperationKey.
From S2P Require Import CacheRepository.
From S2P Require Import OperationStorage.
From S2P Require Import RequestHandler.
From S2P Require Import LineProtocol.
From S2P Require Import HandlerSafety.
From S2P Require Import HandlerCorrect.
From S2P Require Import HandlerTheorems.
Import Protocol.
Import RequestHandler.

(** ** Scripts *)

Inductive storage_call : Type :=
  | FindCall (first_number : Z) (second_number : option Z) (operation : string)
  | SaveCall (record : OperationRecord.t).

Inductive storage_reply : Type :=
  | FindReply (result : outcome exn (option OperationRecord.t))
  | SaveReply (result : outcome exn unit).

(** The replies still to be given, and the call behind the last of them. *)
Record script : Type := mk_script {
  left : list storage_reply;
  blocked : option storage_call
}.

Definition script_find (a : Z) (x : option Z) (op : string) :
    prog exn script (option OperationRecord.t) := λ s,
  match blocked s, left s with
  | None, FindReply o :: rest => (o, mk_script rest None)
  | None, _ => (Throw OtherException, mk_script [] (Some (FindCall a x op)))
  | Some _, _ => (Throw OtherException, s)
  end.

Definition script_save (r : OperationRecord.t) : prog exn script unit := λ s,
  match blocked s, left s with
  | None, SaveReply o :: rest => (o, mk_script rest None)
  | None, _ => (Throw OtherException, mk_script [] (Some (SaveCall r)))
  | Some _, _ => (Throw OtherException, s)
  end.

#[export] Instance script_storage : IOperationStorage script := {|
  find := script_find;
  save := script_save
|}.

(** What the shared storage makes of a call. *)
Definition execute {S} `{!IOperationStorage S} (c : storage_call) (s : S) :
    storage_reply * S :=
  match c with
  | FindCall a x op =>
      let '(o, s') := OperationStorage.find a x op s in (FindReply o, s')
  | SaveCall r => let '(o, s') := OperationStorage.save r s in (SaveReply o, s')
  end.

Section threads.
Context `{protocol : Protocol.Library} `{math : CalculatorMath.Library}.
Variable steady_clock : nat → Z.

(** A call of [handle]: its text, where its readings of the clock start and the
    replies it got. *)
Record thread : Type := mk_thread {
  request_json : string;
  reads : nat;
  replies : list storage_reply
}.

Definition handled (t : thread) : outcome (thrown ProtocolError) string * script :=
  run (S := script) steady_clock (request_json t) (reads t)
    (mk_script (replies t) None).

(** The call the thread makes next, [None] when its handler is done. *)
Definition next_call (t : thread) : option storage_call := blocked (handled t).2.

Definition result_of (t : thread) : outcome (thrown ProtocolError) string :=
  (handled t).1.

Context {S : Type} `{storage : !IOperationStorage S}.

(** Threads by number, and the storage they share. *)
Definition pool : Type := gmap nat thread * S.

Inductive pool_step : pool → pool → Prop :=
  | step_arrive i json n ts s :
      ts !! i = None →
      pool_step (ts, s) (<[i := mk_thread json n []]> ts, s)
  | step_call i t c r ts s s' :
      ts !! i = Some t → next_call t = Some c → execute c s = (r, s') →
      pool_step (ts, s)
        (<[i := mk_thread (request_json t) (reads t) (replies t ++ [r])]> ts, s').

Inductive pool_run : pool → pool → Prop :=
  | pool_run_nil p : pool_run p p
  | pool_run_snoc p p' p'' : pool_run p p' → pool_step p' p'' → pool_run p p''.
End threads.

(** ** What the handler makes of consistent replies *)

Section replies.
Context `{protocol : Protocol.Library} `{total : !Protocol.Total}.
Context `{math : CalculatorMath.Library} `{symmetric : !CalculatorMath.Symmetric}.
Variable steady_clock : nat → Z.
Context {S : Type} `{storage : !IOperationStorage S}.

(** The outcome of a lookup in a storage of sound records. *)
Inductive sound_found (d : CalculatorData) :
    outcome exn (option OperationRecord.t) → Prop :=
  | found_no_key e : request_key d = Throw e → sound_found d (Throw e)
  | found_record k r :
      request_key d = Ret k → sound_record k r → sound_found d (Ret (Some r))
  | found_nothing k : request_key d = Ret k → sound_found d (Ret None).

Lemma filed_answer_cases d :
  check_arguments d = Ret () →
  (∃ v, evaluate d = Ret v ∧ filed_answer d = (error_int ERROR_NONE, Some v)) ∨
  (∃ c what, evaluate d = Throw (calculator_exception c what) ∧
     filed_answer d = (error_int c, None) ∧ c ≠ ERROR_NONE).
Proof.
  intros Hc.
  destruct (evaluate_filed d Hc) as [(v & ? & ? & _)|(c & what & ? & ? & ? & _)];
    [left|right]; eauto 6.
Qed.

Lemma answer_from_cache_right n id d k r (s : S) :
  request_data d → request_key d = Ret k → sound_record k r →
  ∃ response f', answer_from_cache steady_clock (steady_clock n) r
      (started_frame id d n s) =
      (Ret (render (set_timing_info (timing_at steady_clock n) response)) :
         outcome (thrown ProtocolError) string, f') ∧
    storage_ f' = s ∧ (∃ uncached, response = set_result_source CACHE uncached) ∧
    (has_first_number d ≠ 0 → answers id d response).
Proof.
  intros Hq Hk Hr.
  pose proof Hr as (d0 & _ & Hc0 & _ & Ha0).
  assert (has_first_number d ≠ 0 → OperationRecord.answer r = filed_answer d ∧
          check_arguments d = Ret ()) as Hsame.
  { intros Hf. destruct (sound_lookup {[k := r]} d k r) as [? ?]; try done.
    - by apply map_Forall_singleton.
    - by apply lookup_singleton_eq. }
  destruct (filed_answer_cases d0 Hc0) as [(v & _ & Hv)|(c & what & _ & Hv & Hne)];
    rewrite Hv in Ha0.
  - destruct (answer_from_cache_value steady_clock n v r (started_frame id d n s)
      eq_refl Ha0) as (f' & Hrun & Hst).
    do 2 eexists. split_and!; [exact Hrun|done|by eexists|]. intros Hf.
    destruct (Hsame Hf) as [Ha Hc]. rewrite Ha0 in Ha.
    destruct (filed_answer_cases d Hc) as [(v' & He & Hv')|(c & what & _ & Hv' & _)];
      rewrite <-Ha in Hv'; [injection Hv' as <-|done].
    by apply answers_value.
  - injection Ha0 as Hst Hres.
    destruct (answer_from_cache_error steady_clock n c r (started_frame id d n s)
      eq_refl Hne Hst) as (f' & Hrun & Hs').
    do 2 eexists. split_and!; [exact Hrun|done|by eexists|]. intros Hf.
    destruct (Hsame Hf) as [Ha Hc]. unfold OperationRecord.answer in Ha.
    rewrite Hst, Hres in Ha.
    destruct (filed_answer_cases d Hc) as [(v' & _ & Hv')|(c' & what' & He & Hv' & _)];
      rewrite <-Ha in Hv'; [done|]. injection Hv' as Hcc.
    rewrite Hcc. by eapply answers_cached_error.
Qed.

(** A throw of a [CalculatorException] behind the lookup. *)
Lemma thrown_right n id d c what (m : prog (thrown ProtocolError) frame string)
    (s : S) f :
  m (started_frame id d n s) =
    (Throw (Raised (calculator_exception c what)), f) →
  clock_reads f = Datatypes.S n → local_request_id f = id →
  (has_first_number d ≠ 0 →
     ∃ what', evaluate d = Throw (calculator_exception c what')) →
  ∃ response f', try_catch m (handle_exception steady_clock (steady_clock n))
      (started_frame id d n s) =
      (Ret (render (set_timing_info (timing_at steady_clock n) response)), f') ∧
    storage_ f' = storage_ f ∧ (has_first_number d ≠ 0 → answers id d response).
Proof.
  intros Hm Hn Hid He.
  destruct (body_throws steady_clock m n (started_frame id d n s) f (error_int c)
    what Hm Hn) as (f' & Hrun & Hst).
  do 2 eexists. split_and!; [exact Hrun|done|]. intros Hf.
  destruct (He Hf) as [what' He']. rewrite Hid. by eapply answers_error.
Qed.

Lemma key_throws_code d e :
  request_key d = Throw e → ∃ c what, e = calculator_exception c what.
Proof.
  unfold request_key, OperationKey.make, OperationKey.symbol_for. intros Hk.
  repeat (case_match; simplify_eq/=); by do 2 eexists.
Qed.

(** The storage of a request after it: another one only after a [save]. *)
Definition storage_after {A} (d : CalculatorData)
    (found : outcome exn (option OperationRecord.t)) (s s' : A) : A :=
  match found, check_arguments d with
  | Ret None, Ret _ => s'
  | _, _ => s
  end.

(** The end of a request whose storage calls are answered like those of a sound
    and reliable storage. *)
Lemma after_lookup_right n id d found (s s' : S) :
  request_data d → sound_found d found →
  (found = Ret None → check_arguments d = Ret () →
     ∀ k, request_key d = Ret k →
     OperationStorage.save (evaluated_record d k) s = (Ret (), s')) →
  ∃ response f', try_catch (after_lookup steady_clock d n found)
      (handle_exception steady_clock (steady_clock n)) (started_frame id d n s) =
      (Ret (render (set_timing_info (timing_at steady_clock n) response)), f') ∧
    storage_ f' = storage_after d found s s' ∧
    (has_first_number d ≠ 0 → answers id d response).
Proof.
  intros Hq [e Hk|k r Hk Hr|k Hk] Hsave.
  - destruct (key_throws_code d e Hk) as (c & what & ->).
    apply (thrown_right n id d c what _ s (started_frame id d n s)); [done..|].
    intros Hf. destruct (request_key_throws d _ Hq Hf Hk) as (w & w' & He & Hev).
    injection He as Hc _. exists w'. unfold calculator_exception. by rewrite Hc.
  - destruct (answer_from_cache_right n id d k r s Hq Hk Hr)
      as (response & f' & Hrun & Hst & _ & Ha).
    exists response, f'. split_and!; [by apply try_ret|by rewrite Hst|done].
  - destruct (check_arguments_cases d) as [Hc|(c & what & Hc & _)].
    + unfold storage_after. rewrite Hc. specialize (Hsave eq_refl Hc k Hk).
      assert (on_data (λ d, (check_arguments d, d)) (started_frame id d n s) =
        (Ret () : outcome (thrown ProtocolError) unit, started_frame id d n s))
        as Hcheck by (unfold on_data, zoom; simpl; by rewrite Hc).
      destruct (filed_answer_cases d Hc) as [(v & He & _)|(c & what & He & _)].
      * destruct (calculate_and_save_value steady_clock id d n k v s s')
          as (f' & Hrun & Hst); [done..|].
        do 2 eexists. split_and!; [|exact Hst|intros _; by apply answers_value].
        apply try_ret. etransitivity; [by eapply bind_ret|]. by apply try_ret.
      * destruct (calculate_and_save_error steady_clock id d n k c what s s')
          as (d' & Hrun); [done..|].
        apply (thrown_right n id d c what _ s (mk_frame s' (Datatypes.S n) id d'));
          [|done|done|by eauto].
        etransitivity; [by eapply bind_ret|exact Hrun].
    + unfold storage_after. rewrite Hc.
      apply (thrown_right n id d c what _ s (started_frame id d n s)); [|done..|].
      * apply bind_throw. unfold on_data, zoom; simpl. by rewrite Hc.
      * intros _. exists what. unfold evaluate. by rewrite Hc.
Qed.
End replies.

(** ** One thread *)

Section thread_facts.
Context `{protocol : Protocol.Library} `{total : !Protocol.Total}.
Context `{math : CalculatorMath.Library} `{symmetric : !CalculatorMath.Symmetric}.
Variable steady_clock : nat → Z.

Definition find_call (d : CalculatorData) : storage_call :=
  FindCall (first_number d) (second_number_for_storage d)
    (storage_name (Types.operation d)).

(** The threads that a sound and reliable storage leads to. *)
Inductive thread_ok (t : thread) : Prop :=
  | thread_new : replies t = [] → thread_ok t
  | thread_found req d found :
      parse_request (request_json t) = inr req → to_calculator_data req = Ret d →
      sound_found d found → replies t = [FindReply found] → thread_ok t
  | thread_saved req d k :
      parse_request (request_json t) = inr req → to_calculator_data req = Ret d →
      request_key d = Ret k → check_arguments d = Ret () →
      replies t = [FindReply (Ret None); SaveReply (Ret ())] → thread_ok t.

(** What a handler that is done has answered. *)
Definition right_result (t : thread) : Prop :=
  ∃ text, result_of steady_clock t = Ret text ∧
    ∀ req d, parse_request (request_json t) = inr req →
      to_calculator_data req = Ret d → operands req ≠ [] →
      ∃ response,
        text = render (set_timing_info (timing_at steady_clock (reads t)) response) ∧
        answers (Protocol.request_id req) d response.

Lemma unparsed_done t :
  (∀ req d, parse_request (request_json t) = inr req → to_calculator_data req ≠ Ret d) →
  next_call steady_clock t = None ∧ right_result t.
Proof.
  intros Hno. unfold next_call, right_result, result_of, handled.
  assert (∃ e, ∀ req, parse_request (request_json t) = inr req →
    to_calculator_data req = Throw e) as [e He].
  { destruct (parse_request (request_json t)) as [e|req] eqn:Hp;
      [exists (Raised OtherException); congruence|].
    pose proof (HandlerSafety.to_calculator_data_defined req) as Hdef.
    specialize (Hno req). destruct (to_calculator_data req) as [d|e|] eqn:Hd;
      [by destruct (Hno d)|exists e; by intros ? [= <-]|done]. }
  destruct (run_rejected steady_clock (request_json t) (reads t)
    (mk_script (replies t) None) e He Hno) as [text ->].
  split; [done|]. exists text. split; [done|].
  intros req d Hp Hd. by destruct (Hno req d).
Qed.

Lemma new_thread_call t req d :
  parse_request (request_json t) = inr req → to_calculator_data req = Ret d →
  replies t = [] → next_call steady_clock t = Some (find_call d).
Proof.
  intros Hp Hd Hr. unfold next_call, handled. rewrite Hr.
  rewrite (run_found (storage := script_storage) steady_clock (request_json t) (reads t) (mk_script [] None)
    (mk_script [] (Some (find_call d))) req d (Throw OtherException) Hp Hd eq_refl).
  destruct (catch_returns steady_clock (after_lookup (storage := script_storage) steady_clock d (reads t) (Throw OtherException))
    (steady_clock (reads t))
    (started_frame (Protocol.request_id req) d (reads t) (mk_script [] (Some (find_call d))))
    (Raised OtherException) _ eq_refl) as (text & f' & -> & Hst).
  by rewrite Hst.
Qed.

(** A thread whose lookup was answered and whose [save], if any, as well. *)
Lemma answered_thread_done t req d found rest s' :
  parse_request (request_json t) = inr req → to_calculator_data req = Ret d →
  sound_found d found → replies t = FindReply found :: rest → blocked s' = None →
  (found = Ret None → check_arguments d = Ret () →
     ∀ r, script_save r (mk_script rest None) = (Ret (), s')) →
  next_call steady_clock t = None ∧ right_result t.
Proof.
  intros Hp Hd Hfound Hr Hs' Hsave.
  destruct (to_calculator_data_request _ _ Hd) as (Hq & _ & Hf & _).
  destruct (after_lookup_right (storage := script_storage) steady_clock (reads t) (Protocol.request_id req) d
    found (mk_script rest None) s' Hq Hfound) as (response & f' & Hrun & Hst & Ha).
  { intros H1 H2 k _. by apply Hsave. }
  unfold next_call, right_result, result_of, handled. rewrite Hr.
  rewrite (run_found (storage := script_storage) steady_clock (request_json t) (reads t)
    (mk_script (FindReply found :: rest) None) (mk_script rest None) req d found Hp Hd eq_refl), Hrun; simpl.
  split.
  - rewrite Hst. unfold storage_after. by destruct found as [[]| |], (check_arguments d).
  - eexists. split; [done|]. intros req' d' Hp' Hd' Hops.
    assert (req' = req) as -> by congruence. assert (d' = d) as -> by congruence.
    exists response. split; [done|]. apply Ha. by apply Hf.
Qed.

Lemma found_thread_call t req d k :
  parse_request (request_json t) = inr req → to_calculator_data req = Ret d →
  request_key d = Ret k → check_arguments d = Ret () →
  replies t = [FindReply (Ret None)] →
  next_call steady_clock t = Some (SaveCall (evaluated_record d k)).
Proof.
  intros Hp Hd Hk Hc Hr. unfold next_call, handled. rewrite Hr.
  destruct (to_calculator_data_request _ _ Hd) as (Hq & _).
  set (s1 := mk_script [] None).
  set (s2 := mk_script [] (Some (SaveCall (evaluated_record d k)))).
  rewrite (run_found (storage := script_storage) steady_clock (request_json t) (reads t)
    (mk_script [FindReply (Ret None)] None) s1 req d (Ret None)
    Hp Hd eq_refl).
  destruct (calculate_and_save_aborted (storage := script_storage) steady_clock (Protocol.request_id req) d
    (reads t) k s1 s2 Hq Hc Hk eq_refl) as (d' & Hrun).
  set (fr := started_frame (Protocol.request_id req) d (reads t) s1) in *.
  assert (after_lookup steady_clock d (reads t) (Ret None) fr =
    (Throw (Raised OtherException),
     mk_frame s2 (Datatypes.S (reads t)) (Protocol.request_id req) d')) as Hbody.
  { unfold after_lookup; simpl. etransitivity; [eapply bind_ret|exact Hrun].
    unfold on_data, zoom; simpl. by rewrite Hc. }
  destruct (catch_returns steady_clock _ (steady_clock (reads t)) _ _ _ Hbody)
    as (text & f' & -> & Hst).
  by rewrite Hst.
Qed.

(** Where a thread can be. *)
Lemma thread_cases t :
  thread_ok t →
  (next_call steady_clock t = None ∧ right_result t) ∨
  (∃ req d, parse_request (request_json t) = inr req ∧
     to_calculator_data req = Ret d ∧ replies t = [] ∧
     next_call steady_clock t = Some (find_call d)) ∨
  (∃ req d k, parse_request (request_json t) = inr req ∧
     to_calculator_data req = Ret d ∧ request_key d = Ret k ∧
     check_arguments d = Ret () ∧ replies t = [FindReply (Ret None)] ∧
     next_call steady_clock t = Some (SaveCall (evaluated_record d k))).
Proof.
  intros [Hr|req d found Hp Hd Hfound Hr|req d k Hp Hd Hk Hc Hr].
  - destruct (parse_request (request_json t)) as [e|req] eqn:Hp.
    { left. apply unparsed_done. congruence. }
    destruct (to_calculator_data req) as [d|e|] eqn:Hd.
    + right; left. exists req, d. split_and!; try done. by eapply new_thread_call.
    + left. apply unparsed_done. congruence.
    + left. apply unparsed_done. congruence.
  - destruct Hfound as [e Hk|k r Hk Hrec|k Hk].
    + left. apply (answered_thread_done t req d _ [] (mk_script [] None) Hp Hd
        (found_no_key d e Hk) Hr eq_refl). done.
    + left. apply (answered_thread_done t req d _ [] (mk_script [] None) Hp Hd
        (found_record d k r Hk Hrec) Hr eq_refl). done.
    + destruct (check_arguments_cases d) as [Hc|(c & what & Hc & _)].
      * right; right. exists req, d, k. split_and!; try done. by apply (found_thread_call t req).
      * left. apply (answered_thread_done t req d _ [] (mk_script [] None) Hp Hd
          (found_nothing d k Hk) Hr eq_refl). intros _. by rewrite Hc.
  - left. apply (answered_thread_done t req d _ [SaveReply (Ret ())]
      (mk_script [] None) Hp Hd (found_nothing d k Hk) Hr eq_refl). done.
Qed.
End thread_facts.

(** ** All threads *)

Section pools.
Context {S : Type} `{storage : !IOperationStorage S} `{laws : !StorageLaws S}
  `{reliable : !ReliableStorage S}.
Context `{protocol : Protocol.Library} `{total : !Protocol.Total}.
Context `{math : CalculatorMath.Library} `{codes : !CalculatorMath.Codes}
  `{safe : !CalculatorMath.Safe} `{symmetric : !CalculatorMath.Symmetric}.
Variable steady_clock : nat → Z.

Definition pool_ok (p : pool (S := S)) : Prop :=
  serving p.2 ∧ sound (records p.2) ∧ map_Forall (λ _, thread_ok) p.1.

Lemma sound_lookup_found d (m : gmap string OperationRecord.t) :
  sound m → sound_found d (key ← request_key d; Ret (m !! key)).
Proof.
  intros Hm. destruct (request_key d) as [k|e|] eqn:Hk; simpl.
  - destruct (m !! k) as [r|] eqn:Hr; [|by eapply found_nothing].
    eapply found_record; [exact Hk|exact (Hm k r Hr)].
  - by apply found_no_key.
  - by destruct (request_key_defined d).
Qed.

Lemma step_pool_ok p p' : pool_ok p → pool_step steady_clock p p' → pool_ok p'.
Proof.
  intros Hp Hstep. revert Hp.
  destruct Hstep as [i json n ts s Hi|i t c r ts s s' Hi Hc He];
    intros (Hs & Hm & Hts); simpl in *.
  - unfold pool_ok; simpl. split_and!; [done|done|]. apply map_Forall_insert_2; [by apply thread_new|done].
  - destruct (thread_cases steady_clock t (Hts i t Hi))
      as [[Hnone _]|[(req & d & Hp & Hd & Hr & Hcall)
        |(req & d & k & Hp & Hd & Hk & Hchk & Hr & Hcall)]];
      [congruence|..]; rewrite Hcall in Hc; injection Hc as <-; simpl in He.
    + destruct (find_reliable d s Hs) as (s1 & Hlook & Hs1 & Hrec).
      unfold looks_up in Hlook. rewrite Hlook in He. injection He as <- <-.
      unfold pool_ok; simpl. rewrite Hrec. split_and!; [done|done|].
      apply map_Forall_insert_2; [|done]. rewrite Hr.
      eapply (thread_found _ req d); [done|done|by apply sound_lookup_found|done].
    + destruct (to_calculator_data_request _ _ Hd) as (Hq & _).
      destruct (save_reliable (evaluated_record d k) s Hs) as (s1 & Hsave & Hs1 & Hrec);
        [by apply evaluated_record_fits|].
      rewrite Hsave in He. injection He as <- <-.
      unfold pool_ok; simpl. rewrite Hrec. split_and!; [done| |].
      * apply map_Forall_insert_2; [by apply evaluated_record_sound|done].
      * apply map_Forall_insert_2; [|done]. rewrite Hr.
        by eapply (thread_saved _ req d k).
Qed.

Lemma run_pool_ok p p' : pool_ok p → pool_run steady_clock p p' → pool_ok p'.
Proof.
  intros Hp Hrun. induction Hrun as [|p p' p'' _ IH Hstep]; [done|].
  eapply step_pool_ok; [by apply IH|done].
Qed.

(** C6: requests that are handled at the same time do not disturb each other.
    From a storage whose records are sound, any number of requests may arrive and
    interleave their storage calls in any way (two threads may both miss the
    cache and both calculate and file the same operation): the records stay
    sound, each handler is done after at most two calls of its own, and every
    handler that is done has answered its request with the value, or the error
    status, that the checks and the calculation give without a storage. *)
Theorem concurrent_requests_correct s0 ts s :
  serving s0 → sound (records s0) →
  pool_run steady_clock (∅, s0) (ts, s) →
  sound (records s) ∧
  ∀ i t, ts !! i = Some t →
    (length (replies t) ≤ 2)%nat ∧
    (length (replies t) = 2%nat → next_call steady_clock t = None) ∧
    (next_call steady_clock t = None → right_result steady_clock t).
Proof.
  intros Hs Hm Hrun.
  destruct (run_pool_ok (∅, s0) (ts, s)) as (_ & Hm' & Hts); [|exact Hrun|].
  { split_and!; [done|done|apply map_Forall_empty]. }
  split; [done|]. intros i t Hi. pose proof (Hts i t Hi) as Hok. simpl in Hok.
  assert (length (replies t) ≤ 2)%nat by (destruct Hok as [->|????? ? ->|?????? ? ->]; simpl; lia).
  destruct (thread_cases steady_clock t Hok)
    as [[Hnone Hright]|[(req & d & _ & _ & Hr & Hcall)
      |(req & d & k & _ & _ & _ & _ & Hr & Hcall)]];
    rewrite ?Hr, ?Hcall; simpl; split_and!; auto; try done; lia.
Qed.
End pools.

(** ** A run of two threads that both miss the cache *)

Inductive turn : Type :=
  | Arrive (i : nat) (json : string) (n : nat)
  | Call (i : nat).

Section turns.
Context `{protocol : Protocol.Library} `{math : CalculatorMath.Library}.
Variable steady_clock : nat → Z.
Context {S : Type} `{storage : !IOperationStorage S}.

Definition take_turn (e : turn) (p : pool (S := S)) : option pool :=
  match e with
  | Arrive i json n =>
      match p.1 !! i with
      | None => Some (<[i := mk_thread json n []]> p.1, p.2)
      | Some _ => None
      end
  | Call i =>
      t ← p.1 !! i;
      c ← next_call steady_clock t;
      let '(r, s') := execute c p.2 in
      Some (<[i := mk_thread (request_json t) (reads t) (replies t ++ [r])]> p.1, s')
  end.

Fixpoint take_turns (es : list turn) (p : pool (S := S)) : option pool :=
  match es with
  | [] => Some p
  | e :: rest => p' ← take_turn e p; take_turns rest p'
  end.

Lemma take_turn_step e p p' : take_turn e p = Some p' → pool_step steady_clock p p'.
Proof.
  destruct p as [ts s]. destruct e as [i json n|i]; simpl.
  - destruct (ts !! i) eqn:Hi; [done|]. intros [= <-]. by constructor.
  - intros (t & Hi & (c & Hc & Ht)%bind_Some)%bind_Some.
    destruct (execute c s) as [r s'] eqn:He. injection Ht as <-. by econstructor.
Qed.

Lemma take_turns_run es p p' : take_turns es p = Some p' → pool_run steady_clock p p'.
Proof.
  assert (∀ p p' p'', pool_step steady_clock p p' → pool_run steady_clock p' p'' →
    pool_run steady_clock p p'') as Hcons.
  { intros p1 p2 p3 Hstep. induction 1 as [|p2 p3 p4 _ IH Hs].
    - eapply pool_run_snoc; [constructor|done].
    - eapply pool_run_snoc; [by apply IH|done]. }
  revert p. induction es as [|e es IH]; simpl; intros p Hp.
  - injection Hp as ->. constructor.
  - apply bind_Some in Hp as (p1 & H1 & H2).
    eapply Hcons; [by eapply take_turn_step|by apply IH].
Qed.
End turns.

Definition demo_turns : list turn :=
  [Arrive 0 "+2,3" 0; Arrive 1 "+3,2" 2; Call 0; Call 1; Call 0; Call 1].

Definition demo_pool : option (pool (S := InMemoryOperationStorage.t)) :=
  take_turns (storage := InMemoryOperationStorage.storage)
    (protocol := LineProtocol.library) (math := SafeMath.library) clock_1ms
    demo_turns (∅, ∅).

Example concurrent_requests_correct_witness :
  match demo_pool with
  | Some (ts, _) => ∃ t, ts !! 1%nat = Some t ∧
      right_result (protocol := LineProtocol.library) (total := LineProtocol.total)
        (math := SafeMath.library) clock_1ms t
  | None => False
  end.
Proof.
  assert (match demo_pool with
    | Some (ts, _) =>
        match ts !! 1%nat with
        | Some t => bool_decide (length (replies t) = 2%nat)
        | None => false
        end
    | None => false
    end = true) as Hdone by (vm_compute; reflexivity).
  destruct demo_pool as [[ts s]|] eqn:Hp; [|discriminate].
  destruct (ts !! 1%nat) as [t|] eqn:Ht; [|discriminate].
  exists t. split; [reflexivity|].
  destruct (concurrent_requests_correct
    (storage := InMemoryOperationStorage.storage)
    (laws := InMemoryOperationStorage.laws)
    (reliable := InMemoryOperationStorage.reliable)
    (protocol := LineProtocol.library) (total := LineProtocol.total)
    (math := SafeMath.library) (codes := SafeMath.codes) (safe := SafeMath.safe)
    (symmetric := SafeMath.symmetric) clock_1ms ∅ ts s I
    (sound_empty (H := SafeMath.library))
    (take_turns_run clock_1ms demo_turns _ _ Hp)) as [_ Hthreads].
  destruct (Hthreads 1%nat t Ht) as (_ & Hlast & Hright).
  exact (Hright (Hlast (proj1 (bool_decide_eq_true _) Hdone))).
Defined.
