(* ===== verification/HandlerFailing.v ===== *)
(** * Requests on a storage that may fail

    A storage may throw from [find] and [save] at any call: a lost database, or
    one that is shutting down.  What the handler then files and answers: a value
    is right or is not given, and what is filed is the right answer or the failure
    of a [save]. *)

From stdpp Require Import base tactics strings list gmap.
From S2P Require Import Prelude.
From S2P Require Import Types.
From S2P Require Import CppString.
From S2P Require Import Checker.
From S2P Require Import Abacus.
From S2P Require Import OperationKey.
From S2P Require Import CacheRepository.
From S2P Require Import OperationStorage.
From S2P Require Import RequestHandler.
From S2P Require Import HandlerSafety.
From S2P Require Import HandlerCorrect.
From S2P Require Import HandlerConcurrent.
Import Protocol.
Import RequestHandler.

(** ** The second [save]

    When the first [save] of a calculated value throws a [CalculatorException],
    the inner [catch] files a failed operation with its code. *)

(** What is filed then. *)
Definition failure_record (d : CalculatorData) (k : string) (c : ErrorCode) :
    OperationRecord.t :=
  OperationRecord.mk (first_number d) (second_number_for_storage d)
    (storage_name (Types.operation d)) None (error_int c) k.

(** The exceptions that [catch (const std::exception&)] catches. *)
Definition is_std_exception (e : exn) : bool :=
  match e with
  | CalculatorException _ _ | StdException _ => true
  | OtherException => false
  end.

Section second_save.
Context `{protocol : Protocol.Library} `{math : CalculatorMath.Library}.
Variable steady_clock : nat → Z.
Context {S : Type} `{storage : !IOperationStorage S}.

(** The end of the inner [catch] clause. *)
Abbreviation file_and_rethrow r e := (
  _ ← on_storage (OperationStorage.save r) catch catch_std_exception;
  throw (Raised e) : prog (thrown ProtocolError) frame string).

Lemma value_save_failed id d n k v c what (s s1 : S) :
  request_data d → check_arguments d = Ret () → request_key d = Ret k →
  evaluate d = Ret v → c ≠ ERROR_NONE →
  OperationStorage.save (evaluated_record d k) s =
    (Throw (calculator_exception c what), s1) →
  ∃ d', (calculate_and_save steady_clock (steady_clock n)
           (storage_name (Types.operation d))
         catch save_failed_operation (storage_name (Types.operation d)))
          (started_frame id d n s) =
        file_and_rethrow (failure_record d k c) (calculator_exception c what)
          (mk_frame s1 (Datatypes.S n) id d').
Proof.
  intros Hd Hc Hk He Hne Hsave.
  set (d1 := set_error_code (error_int ERROR_NONE) (set_result v d)).
  set (d2 := set_error_code (error_underlying (error_int c)) d1).
  assert (make_operation_record d2 (error_int c)
    (storage_name (Types.operation d)) = Ret (failure_record d k c)) as Hrec.
  { unfold make_operation_record. unfold request_key in Hk.
    change (second_number_for_storage d2) with (second_number_for_storage d).
    simpl. rewrite Hk; simpl. by rewrite bool_decide_false by (by intros ?%error_int_none). }
  exists d2. etransitivity.
  { eapply (try_throw _ _ _ (Raised (calculator_exception c what))
      (mk_frame s1 (Datatypes.S n) id d1)); [|reflexivity].
    etransitivity; [by apply (calculation_value steady_clock id d n k v s)|].
    apply bind_throw.
    exact (on_storage_save _ _ (mk_frame s _ id _) s1 Hsave). }
  do 2 take_step reflexivity.
  replace (is_storable_operation _) with true
    by (symmetry; by apply checked_storable).
  unfold mbind, prog_bind, try_catch, lift; simpl.
  fold d1 d2. rewrite Hrec; simpl. done.
Qed.

(** Only what is no [std::exception] replaces the exception in flight. *)
Lemma file_and_rethrow_outcome r e (f : frame (S := S)) o s' :
  OperationStorage.save r (storage_ f) = (o, s') → o ≠ Undef →
  file_and_rethrow r e f =
    (Throw (Raised match o with
       | Throw e' => if is_std_exception e' then e else OtherException
       | _ => e
       end), set_storage s' f).
Proof.
  intros Hsave Ho. unfold mbind, prog_bind, try_catch.
  rewrite (on_storage_save _ _ f s' Hsave).
  destruct o as [[]|[code what|what|]|]; done.
Qed.
End second_save.

(** ** Exceptions as answers *)

Section responses.
Context `{protocol : Protocol.Library} `{total : !Protocol.Total}.
Context `{math : CalculatorMath.Library}.
Variable steady_clock : nat → Z.

(** What the outer [catch] clauses answer to an exception that is raised. *)
Definition failure_for (id : string) (e : exn) : CalculationResponse :=
  match e with
  | CalculatorException code what =>
      failure_of (response_id id) (map_internal_error code) what
  | StdException what => failure_of (response_id id) INTERNAL_ERROR what
  | OtherException =>
      failure_of (response_id id) UNKNOWN_ERROR "unknown server error"
  end.

Context {S : Type}.

Lemma raised_answer n (m : prog (thrown ProtocolError) (frame (S := S)) string) fr f e :
  m fr = (Throw (Raised e), f) → clock_reads f = Datatypes.S n →
  ∃ f', try_catch m (handle_exception steady_clock (steady_clock n)) fr =
      (Ret (render (set_timing_info (timing_at steady_clock n)
        (failure_for (local_request_id f) e))), f') ∧
    storage_ f' = storage_ f.
Proof.
  intros Hm Hn.
  assert (∀ status what, handle_exception (S := S) steady_clock (steady_clock n) (Raised e) =
      Some (catch_failure steady_clock (steady_clock n) status what) →
    failure_for (local_request_id f) e =
      failure_of (response_id (local_request_id f)) status what →
    ∃ f', try_catch m (handle_exception steady_clock (steady_clock n)) fr =
      (Ret (render (set_timing_info (timing_at steady_clock n)
        (failure_for (local_request_id f) e))), f') ∧
    storage_ f' = storage_ f) as Hcatch.
  { intros status what Hh ->.
    destruct (catch_failure_total steady_clock n status what f Hn) as (f' & Hfin & Hst).
    exists f'. split; [|done]. etransitivity; [by eapply try_throw|exact Hfin]. }
  by destruct e; eapply Hcatch.
Qed.
End responses.

(** ** Honest records and replies *)

Section honest.
Context `{protocol : Protocol.Library} `{total : !Protocol.Total}.
Context `{math : CalculatorMath.Library} `{symmetric : !CalculatorMath.Symmetric}.
Variable steady_clock : nat → Z.
(** The exceptions that the storage may throw. *)
Variable fails : exn → Prop.

Definition std_failures : Prop := ∀ e, fails e →
  (∃ c what, e = calculator_exception c what ∧ c ≠ ERROR_NONE) ∨
  (∃ what, e = StdException what).

(** A record is right, or holds a failure of the storage. *)
Definition honest_record (k : string) (r : OperationRecord.t) : Prop :=
  sound_record k r ∨
  ∃ c what, fails (calculator_exception c what) ∧ c ≠ ERROR_NONE ∧
    OperationRecord.answer r = (error_int c, None).

Definition honest (m : gmap string OperationRecord.t) : Prop :=
  map_Forall honest_record m.

Inductive honest_found (d : CalculatorData) :
    outcome exn (option OperationRecord.t) → Prop :=
  | honest_no_key e : request_key d = Throw e → honest_found d (Throw e)
  | honest_failed e : fails e → honest_found d (Throw e)
  | honest_hit k r :
      request_key d = Ret k → honest_record k r → honest_found d (Ret (Some r))
  | honest_miss k : request_key d = Ret k → honest_found d (Ret None).

Inductive honest_saved : outcome exn unit → Prop :=
  | honest_saved_ok : honest_saved (Ret ())
  | honest_saved_failed e : fails e → honest_saved (Throw e).

(** A response that reports a failure of the storage, of this request or of the
    one that filed the record. *)
Inductive failed_response (id : string) : CalculationResponse → Prop :=
  | failed_now e : fails e → failed_response id (failure_for id e)
  | failed_before c what :
      fails (calculator_exception c what) →
      failed_response id (set_result_source CACHE
        (failure_of (response_id id) (map_internal_error (error_int c))
           "cached calculation error")).

(** The threads that such a storage leads to. *)
Inductive honest_thread (t : thread) : Prop :=
  | honest_new : replies t = [] → honest_thread t
  | honest_looked_up req d found :
      parse_request (request_json t) = inr req → to_calculator_data req = Ret d →
      honest_found d found → replies t = [FindReply found] → honest_thread t
  | honest_filed req d k o :
      parse_request (request_json t) = inr req → to_calculator_data req = Ret d →
      request_key d = Ret k → check_arguments d = Ret () → honest_saved o →
      replies t = [FindReply (Ret None); SaveReply o] → honest_thread t
  | honest_refiled req d k v c what o :
      parse_request (request_json t) = inr req → to_calculator_data req = Ret d →
      request_key d = Ret k → check_arguments d = Ret () → evaluate d = Ret v →
      fails (calculator_exception c what) → honest_saved o →
      replies t = [FindReply (Ret None);
                   SaveReply (Throw (calculator_exception c what)); SaveReply o] →
      honest_thread t.

(** The client is told of the storage's failure. *)
Definition failed_result (t : thread) : Prop :=
  ∃ req response, parse_request (request_json t) = inr req ∧
    failed_response (Protocol.request_id req) response ∧
    result_of steady_clock t =
      Ret (render (set_timing_info (timing_at steady_clock (reads t)) response)).

(** ** The end of a request *)

Definition honest_end (t : thread) : Prop :=
  next_call steady_clock t = None ∧ (right_result steady_clock t ∨ failed_result t).

Hypothesis fails_std : std_failures.

Lemma fails_calculator c what :
  fails (calculator_exception c what) → c ≠ ERROR_NONE.
Proof.
  intros Hf. destruct (fails_std _ Hf) as [(c' & w & [= Hc _] & Hne)|(w & [=])].
  apply (inj error_int) in Hc. by subst.
Qed.

(** A run whose lookup was answered, by the outcome behind the lookup. *)
Lemma end_at_lookup t req d found rest f response :
  parse_request (request_json t) = inr req → to_calculator_data req = Ret d →
  replies t = FindReply found :: rest →
  try_catch (after_lookup steady_clock d (reads t) found)
    (handle_exception steady_clock (steady_clock (reads t)))
    (started_frame (Protocol.request_id req) d (reads t) (mk_script rest None)) =
    (Ret (render (set_timing_info (timing_at steady_clock (reads t)) response)), f) →
  blocked (storage_ f) = None →
  (has_first_number d ≠ 0 → answers (Protocol.request_id req) d response) ∨
    failed_response (Protocol.request_id req) response →
  honest_end t.
Proof.
  intros Hp Hd Hr Hrun Hb Ha.
  assert (handled steady_clock t = (Ret (render (set_timing_info
    (timing_at steady_clock (reads t)) response)), storage_ f)) as Hh.
  { unfold handled. rewrite Hr, (run_found (storage := script_storage) steady_clock
      (request_json t) (reads t) (mk_script (FindReply found :: rest) None)
      (mk_script rest None) req d found Hp Hd eq_refl). by rewrite Hrun. }
  unfold honest_end, next_call, right_result, failed_result, result_of.
  rewrite Hh; simpl. split; [done|]. destruct Ha as [Ha|Ha].
  - left. eexists. split; [done|]. intros req' d' Hp' Hd' Hops.
    assert (req' = req) as -> by congruence. assert (d' = d) as -> by congruence.
    exists response. split; [done|]. apply Ha.
    by destruct (to_calculator_data_request _ _ Hd) as (_ & _ & Hf & _); apply Hf.
  - right. by exists req, response.
Qed.

(** The request is answered with an exception that is raised behind the lookup. *)
Lemma end_raised t req d found rest f e :
  parse_request (request_json t) = inr req → to_calculator_data req = Ret d →
  replies t = FindReply found :: rest →
  after_lookup steady_clock d (reads t) found
    (started_frame (Protocol.request_id req) d (reads t) (mk_script rest None)) =
    (Throw (Raised e), f) →
  clock_reads f = Datatypes.S (reads t) →
  local_request_id f = Protocol.request_id req →
  blocked (storage_ f) = None →
  fails e ∨ (has_first_number d ≠ 0 →
    ∃ c what what', e = calculator_exception c what ∧
                    evaluate d = Throw (calculator_exception c what')) →
  honest_end t.
Proof.
  intros Hp Hd Hr Hrun Hn Hid Hb He.
  destruct (raised_answer steady_clock (reads t) _ _ _ _ Hrun Hn) as (f' & Hcatch & Hst).
  eapply end_at_lookup; [done..|exact Hcatch|by rewrite Hst|]. rewrite Hid.
  destruct He as [He|He]; [right; by apply failed_now|left].
  intros Hf. destruct (He Hf) as (c & what & what' & -> & Hev). by eapply answers_error.
Qed.

(** ** The cases of the lookup *)

Lemma end_no_lookup t req d e :
  parse_request (request_json t) = inr req → to_calculator_data req = Ret d →
  replies t = [FindReply (Throw e)] → request_key d = Throw e ∨ fails e →
  honest_end t.
Proof.
  intros Hp Hd Hr He. destruct (to_calculator_data_request _ _ Hd) as (Hq & _).
  eapply (end_raised t req d (Throw e) []); [done..|reflexivity|done|done|done|].
  destruct He as [Hk|He]; [right|by left]. intros Hf.
  destruct (request_key_throws d e Hq Hf Hk) as (w & w' & -> & Hev). by do 3 eexists.
Qed.

Lemma end_hit t req d k r :
  parse_request (request_json t) = inr req → to_calculator_data req = Ret d →
  request_key d = Ret k → honest_record k r → replies t = [FindReply (Ret (Some r))] →
  honest_end t.
Proof.
  intros Hp Hd Hk Hrec Hr. destruct (to_calculator_data_request _ _ Hd) as (Hq & _).
  destruct Hrec as [Hrec|(c & what & Hf & Hne & Ha)].
  - destruct (answer_from_cache_right (S := script) steady_clock (reads t)
      (Protocol.request_id req) d k r (mk_script [] None) Hq Hk Hrec)
      as (response & f' & Hrun & Hst & _ & Ha).
    eapply (end_at_lookup t req d _ [] f' response);
      [done..|by apply try_ret|by rewrite Hst|by left].
  - destruct (answer_from_cache_error (S := script) steady_clock (reads t) c r
      (started_frame (Protocol.request_id req) d (reads t) (mk_script [] None))
      eq_refl Hne) as (f' & Hrun & Hst); [by injection Ha|].
    eapply (end_at_lookup t req d _ [] f');
      [done..|by apply try_ret|by rewrite Hst|]. right. by eapply failed_before.
Qed.

Lemma end_refused t req d c what :
  parse_request (request_json t) = inr req → to_calculator_data req = Ret d →
  check_arguments d = Throw (calculator_exception c what) →
  replies t = [FindReply (Ret None)] → honest_end t.
Proof.
  intros Hp Hd Hc Hr.
  eapply (end_raised t req d (Ret None) []
    (started_frame (Protocol.request_id req) d (reads t) (mk_script [] None)));
    [done..| |done|done|done|].
  - apply bind_throw. unfold on_data, zoom; simpl. by rewrite Hc.
  - right. intros _. exists c, what, what. split; [done|]. unfold evaluate.
    by rewrite Hc.
Qed.

(** The calculation behind the checks. *)
Lemma checked_lookup d n (f f' : frame (S := script)) o :
  check_arguments (local_data f) = Ret () →
  (calculate_and_save steady_clock (steady_clock n) (storage_name (Types.operation d))
     catch save_failed_operation (storage_name (Types.operation d))) f = (o, f') →
  after_lookup steady_clock d n (Ret None) f = (o, f').
Proof.
  intros Hc Hrun. unfold after_lookup; simpl. etransitivity; [eapply bind_ret|exact Hrun].
  unfold on_data, zoom; simpl. rewrite Hc. by destruct f.
Qed.

(** One reply of [save]: the calculation failed, or what was thrown is no
    [CalculatorException]. *)
Lemma end_filed t req d k o :
  parse_request (request_json t) = inr req → to_calculator_data req = Ret d →
  request_key d = Ret k → check_arguments d = Ret () → honest_saved o →
  (∀ v c what, evaluate d = Ret v → o ≠ Throw (calculator_exception c what)) →
  replies t = [FindReply (Ret None); SaveReply o] → honest_end t.
Proof.
  intros Hp Hd Hk Hc Ho Hlast Hr.
  destruct (to_calculator_data_request _ _ Hd) as (Hq & _).
  set (s := mk_script [SaveReply o] None).
  assert (OperationStorage.save (evaluated_record d k) s = (o, mk_script [] None)) as Hsave
    by reflexivity.
  destruct (evaluate_filed d Hc) as [(v & He & _)|(c & what & He & _)].
  - destruct Ho as [|e Hf].
    + destruct (calculate_and_save_value steady_clock (Protocol.request_id req) d
        (reads t) k v s _ Hq Hc Hk Hsave He) as (f' & Hrun & Hst).
      eapply (end_at_lookup t req d _ _ f'); [done..| |by rewrite Hst|].
      * apply try_ret. eapply checked_lookup; [done|]. by apply try_ret.
      * left. intros _. by apply answers_value.
    + assert (∃ what, e = StdException what) as [what ->].
      { destruct (fails_std e Hf) as [(c & what & -> & _)|?]; [|done].
        by destruct (Hlast v c what He). }
      eapply (end_raised t req d (Ret None) [SaveReply (Throw (StdException what))]
        (mk_frame (mk_script [] None) (Datatypes.S (reads t)) (Protocol.request_id req)
           (set_error_code (error_int ERROR_NONE) (set_result v d))));
        [done..| |done|done|done|by left].
      eapply checked_lookup; [done|]. eapply try_uncaught; [|reflexivity].
      etransitivity; [by eapply (calculation_value steady_clock)|]. apply bind_throw.
      exact (on_storage_save _ _ (mk_frame s _ _ _) _ Hsave).
  - destruct (calculation_error steady_clock (Protocol.request_id req) d (reads t) k
      c what s Hq Hc Hk He) as (d' & Hrun).
    rewrite (file_and_rethrow_outcome (evaluated_record d k) (calculator_exception c what)
      (mk_frame s (Datatypes.S (reads t)) (Protocol.request_id req) d') o _ Hsave) in Hrun
      by (by destruct Ho).
    assert (match o with
      | Throw e' => if is_std_exception e' then calculator_exception c what
                    else OtherException
      | _ => calculator_exception c what end = calculator_exception c what) as Heq.
    { destruct Ho as [|e Hf]; [done|].
      by destruct (fails_std e Hf) as [(? & ? & -> & _)|[? ->]]. }
    rewrite Heq in Hrun.
    eapply (end_raised t req d (Ret None) [SaveReply o]
      (mk_frame (mk_script [] None) (Datatypes.S (reads t)) (Protocol.request_id req) d'));
      [done..|by eapply checked_lookup|done|done|done|].
    right. intros _. by exists c, what, what.
Qed.

(** A calculated value whose [save] threw a [CalculatorException]: the handler
    files the failure, and ends behind the reply. *)
Lemma refile_run t req d k v c what rest o s' :
  parse_request (request_json t) = inr req → to_calculator_data req = Ret d →
  request_key d = Ret k → check_arguments d = Ret () → evaluate d = Ret v →
  fails (calculator_exception c what) →
  OperationStorage.save (failure_record d k c) (mk_script rest None) = (o, s') →
  o ≠ Undef →
  ∃ d', after_lookup steady_clock d (reads t) (Ret None)
    (started_frame (Protocol.request_id req) d (reads t)
       (mk_script (SaveReply (Throw (calculator_exception c what)) :: rest) None)) =
    (Throw (Raised match o with
       | Throw e' => if is_std_exception e' then calculator_exception c what
                     else OtherException
       | _ => calculator_exception c what end),
     mk_frame s' (Datatypes.S (reads t)) (Protocol.request_id req) d').
Proof.
  intros Hp Hd Hk Hc He Hf Hsave Ho.
  destruct (to_calculator_data_request _ _ Hd) as (Hq & _).
  destruct (value_save_failed steady_clock (Protocol.request_id req) d (reads t) k v c what
    (mk_script (SaveReply (Throw (calculator_exception c what)) :: rest) None)
    (mk_script rest None)) as (d' & Hrun);
    [done..|by eapply fails_calculator|reflexivity|].
  exists d'. eapply checked_lookup; [done|]. etransitivity; [exact Hrun|].
  exact (file_and_rethrow_outcome _ _ (mk_frame _ _ _ _) o s' Hsave Ho).
Qed.

Lemma refile_call t req d k v c what :
  parse_request (request_json t) = inr req → to_calculator_data req = Ret d →
  request_key d = Ret k → check_arguments d = Ret () → evaluate d = Ret v →
  fails (calculator_exception c what) →
  replies t = [FindReply (Ret None); SaveReply (Throw (calculator_exception c what))] →
  next_call steady_clock t = Some (SaveCall (failure_record d k c)).
Proof.
  intros Hp Hd Hk Hc He Hf Hr.
  destruct (refile_run t req d k v c what [] (Throw OtherException)
    (mk_script [] (Some (SaveCall (failure_record d k c)))))
    as (d' & Hrun); [done..|].
  unfold next_call, handled. rewrite Hr.
  rewrite (run_found (storage := script_storage) steady_clock (request_json t) (reads t)
    (mk_script [FindReply (Ret None); SaveReply (Throw (calculator_exception c what))] None)
    (mk_script [SaveReply (Throw (calculator_exception c what))] None) req d (Ret None)
    Hp Hd eq_refl).
  destruct (catch_returns steady_clock _ (steady_clock (reads t)) _ _ _ Hrun)
    as (text & f' & -> & Hst).
  by rewrite Hst.
Qed.

Lemma end_refiled t req d k v c what o :
  parse_request (request_json t) = inr req → to_calculator_data req = Ret d →
  request_key d = Ret k → check_arguments d = Ret () → evaluate d = Ret v →
  fails (calculator_exception c what) → honest_saved o →
  replies t = [FindReply (Ret None); SaveReply (Throw (calculator_exception c what));
               SaveReply o] →
  honest_end t.
Proof.
  intros Hp Hd Hk Hc He Hf Ho Hr.
  destruct (refile_run t req d k v c what [SaveReply o] o (mk_script [] None))
    as (d' & Hrun); [done..|by destruct Ho|].
  assert (match o with
    | Throw e' => if is_std_exception e' then calculator_exception c what
                  else OtherException
    | _ => calculator_exception c what end = calculator_exception c what) as Heq.
  { destruct Ho as [|e Hfe]; [done|].
    by destruct (fails_std e Hfe) as [(? & ? & -> & _)|[? ->]]. }
  rewrite Heq in Hrun.
  eapply (end_raised t req d); [done..|exact Hrun|done|done|done|by left].
Qed.

(** Where a thread can be. *)
Inductive honest_cases (t : thread) : Prop :=
  | case_end : honest_end t → honest_cases t
  | case_find req d :
      parse_request (request_json t) = inr req → to_calculator_data req = Ret d →
      replies t = [] → next_call steady_clock t = Some (find_call d) → honest_cases t
  | case_save req d k :
      parse_request (request_json t) = inr req → to_calculator_data req = Ret d →
      request_key d = Ret k → check_arguments d = Ret () →
      replies t = [FindReply (Ret None)] →
      next_call steady_clock t = Some (SaveCall (evaluated_record d k)) →
      honest_cases t
  | case_refile req d k v c what :
      parse_request (request_json t) = inr req → to_calculator_data req = Ret d →
      request_key d = Ret k → check_arguments d = Ret () → evaluate d = Ret v →
      fails (calculator_exception c what) →
      replies t = [FindReply (Ret None);
                   SaveReply (Throw (calculator_exception c what))] →
      next_call steady_clock t = Some (SaveCall (failure_record d k c)) →
      honest_cases t.

Lemma unparsed_end t :
  (∀ req d, parse_request (request_json t) = inr req → to_calculator_data req ≠ Ret d) →
  honest_end t.
Proof. intros Hno. destruct (unparsed_done steady_clock t Hno). split; auto. Qed.

Lemma honest_thread_cases t : honest_thread t → honest_cases t.
Proof.
  intros [Hr|req d found Hp Hd Hfound Hr|req d k o Hp Hd Hk Hc Ho Hr
    |req d k v c what o Hp Hd Hk Hc He Hf Ho Hr].
  - destruct (parse_request (request_json t)) as [e|req] eqn:Hp.
    { apply case_end, unparsed_end. congruence. }
    destruct (to_calculator_data req) as [d|e|] eqn:Hd.
    + eapply case_find; [done..|]. by eapply new_thread_call.
    + apply case_end, unparsed_end. congruence.
    + apply case_end, unparsed_end. congruence.
  - destruct Hfound as [e Hk|e Hf|k r Hk Hrec|k Hk].
    + apply case_end. eapply end_no_lookup; eauto.
    + apply case_end. eapply end_no_lookup; eauto.
    + apply case_end. by eapply end_hit.
    + destruct (check_arguments_cases d) as [Hc|(c & what & Hc & _)].
      * eapply case_save; [done..|]. by eapply found_thread_call.
      * apply case_end. by eapply end_refused.
  - assert ((∃ v c what, evaluate d = Ret v ∧ o = Throw (calculator_exception c what)) ∨
      ∀ v c what, evaluate d = Ret v → o ≠ Throw (calculator_exception c what))
      as [(v & c & what & He & ->)|Hlast].
    { destruct (evaluate d) as [v|e|]; [|by right..].
      destruct Ho as [|e Hf]; [by right|].
      destruct (fails_std e Hf) as [(c & what & -> & _)|[what ->]]; [left|by right].
      by do 3 eexists. }
    + inversion_clear Ho as [|e Hf]. eapply case_refile; [done..|].
      by eapply refile_call.
    + apply case_end. by eapply end_filed.
  - apply case_end. by eapply end_refiled.
Qed.

(** ** A call keeps records and threads honest *)

(** The reply and the records of a call of an honest thread, on a storage whose
    lookups read [m] and whose [save] files what it is given. *)
Definition honest_call (m : gmap string OperationRecord.t) (c : storage_call)
    (r : storage_reply) (m' : gmap string OperationRecord.t) : Prop :=
  match c, r with
  | FindCall a x op, FindReply o =>
      (o = (key ← OperationKey.make a x op; Ret (m !! key)) ∨
       ∃ e, fails e ∧ o = Throw e) ∧ m' = m
  | SaveCall record, SaveReply o =>
      honest_saved o ∧
      (m' = <[OperationRecord.cache_key record := record]> m ∨ m' = m)
  | _, _ => False
  end.

Lemma failure_record_honest d k c what :
  fails (calculator_exception c what) → honest_record k (failure_record d k c).
Proof.
  intros Hf. right. exists c, what. split_and!; [done| |done].
  by eapply fails_calculator.
Qed.

Lemma honest_insert k r m m' :
  honest m → honest_record k r → m' = <[k := r]> m ∨ m' = m → honest m'.
Proof. intros Hm Hr [->| ->]; [by apply map_Forall_insert_2|done]. Qed.

Lemma honest_step t c r m m' :
  honest m → honest_thread t → next_call steady_clock t = Some c →
  honest_call m c r m' →
  honest m' ∧
  honest_thread (mk_thread (request_json t) (reads t) (replies t ++ [r])).
Proof.
  intros Hm Ht Hc Hcall.
  destruct (honest_thread_cases t Ht) as [[Hend _]|req d Hp Hd Hr Hn
    |req d k Hp Hd Hk Hchk Hr Hn|req d k v code what Hp Hd Hk Hchk He Hf Hr Hn];
    [congruence|..]; rewrite Hn in Hc; injection Hc as <-;
    destruct r as [found|o]; try done; destruct Hcall as [Ho Hm'].
  - subst m'. split; [done|]. eapply (honest_looked_up _ req d); [done..| |by simpl; rewrite Hr].
    destruct Ho as [->|(e & He & ->)]; [|by apply honest_failed].
    change (OperationKey.make _ _ _) with (request_key d).
    destruct (request_key d) as [k|e|] eqn:Hk; simpl.
    + destruct (m !! k) as [r|] eqn:Hrec; [|by eapply honest_miss].
      eapply honest_hit; [done|by apply Hm].
    + by apply honest_no_key.
    + by destruct (request_key_defined d).
  - destruct (to_calculator_data_request _ _ Hd) as (Hq & _). split.
    + eapply (honest_insert k); [done| |exact Hm']. left. by apply evaluated_record_sound.
    + eapply (honest_filed _ req d k o); [done..|by simpl; rewrite Hr].
  - split.
    + eapply (honest_insert k); [done| |exact Hm']. by eapply failure_record_honest.
    + eapply (honest_refiled _ req d k v code what o); [done..|by simpl; rewrite Hr].
Qed.
End honest.

(** ** Fewer failures *)

Section weaken.
Context `{protocol : Protocol.Library} `{math : CalculatorMath.Library}.
Variables fails fails' : exn → Prop.
Hypothesis weaker : ∀ e, fails e → fails' e.

Lemma honest_record_weaken k r : honest_record fails k r → honest_record fails' k r.
Proof.
  intros [?|(c & what & Hf & ?)]; [by left|right]. exists c, what. auto.
Qed.

Lemma honest_thread_weaken t : honest_thread fails t → honest_thread fails' t.
Proof.
  assert (∀ o, honest_saved fails o → honest_saved fails' o) as Hsaved
    by (destruct 1; constructor; auto).
  intros [Hr|req d found Hp Hd Hfound Hr|req d k o Hp Hd Hk Hc Ho Hr
    |req d k v c what o Hp Hd Hk Hc He Hf Ho Hr].
  - by apply honest_new.
  - eapply honest_looked_up; [done..| |done].
    destruct Hfound; [by apply honest_no_key|by apply honest_failed, weaker| |
      by eapply honest_miss].
    eapply honest_hit; [done|by apply honest_record_weaken].
  - eapply honest_filed; eauto.
  - eapply honest_refiled; eauto.
Qed.
End weaken.

(** ** The interface of a storage that may fail

    On the states [available], the calls that [asks] admits are answered from the
    records, or fail with an exception of [fails]. *)

Class HonestStorage (S : Type) `{!IOperationStorage S} `{!StorageLaws S}
    `{protocol : Protocol.Library} `{math : CalculatorMath.Library}
    (fails : exn → Prop) (asks : storage_call → Prop) : Type := {
  available : S → Prop;
  honest_fails : std_failures fails;
  honest_asks steady_clock t c :
    honest_thread fails t → next_call steady_clock t = Some c → asks c;
  honest_execute c s : available s → asks c →
    available (HandlerConcurrent.execute c s).2 ∧
    honest_call fails (records s) c (HandlerConcurrent.execute c s).1
      (records (HandlerConcurrent.execute c s).2)
}.

(** A reliable storage is asked for what fits its columns, and does not fail. *)
Definition no_failure (e : exn) : Prop := False.

Definition call_fits (c : storage_call) : Prop :=
  match c with FindCall _ _ _ => True | SaveCall r => fits_columns r end.

Section reliable.
Context {S : Type} `{storage : !IOperationStorage S} `{laws : !StorageLaws S}
  `{reliable : !ReliableStorage S}.
Context `{protocol : Protocol.Library} `{total : !Protocol.Total}.
Context `{math : CalculatorMath.Library} `{codes : !CalculatorMath.Codes}
  `{safe : !CalculatorMath.Safe} `{symmetric : !CalculatorMath.Symmetric}.

Lemma no_failure_std : std_failures no_failure.
Proof. by intros e. Qed.

(** What is saved on a storage that does not fail is right, and fits. *)
Lemma calm_saves steady_clock t r :
  honest_thread no_failure t → next_call steady_clock t = Some (SaveCall r) →
  fits_columns r ∧ sound_record (OperationRecord.cache_key r) r.
Proof.
  intros Ht Hc. destruct (honest_thread_cases steady_clock _ no_failure_std t Ht)
    as [[Hend _]|req d Hp Hd Hr Hn|req d k Hp Hd Hk Hchk Hr Hn
       |req d k v code what _ _ _ _ _ []]; [congruence|by rewrite Hn in Hc|].
  rewrite Hn in Hc. injection Hc as <-.
  destruct (to_calculator_data_request _ _ Hd) as (Hq & _).
  split; [by apply evaluated_record_fits|by apply evaluated_record_sound].
Qed.

#[export] Instance reliable_honest : HonestStorage S no_failure call_fits.
Proof.
  refine {| available := serving |}.
  - exact no_failure_std.
  - intros steady_clock t [a x op|r] Ht Hc; [done|]. by apply (calm_saves steady_clock t).
  - intros [a x op|r] s Hs Hfits; simpl in *.
    + destruct (reliable_find a x op s Hs) as [Hs' Ho].
      destruct (find_law a x op s) as [Hrec _].
      destruct (OperationStorage.find a x op s) as [o s']; simpl in *. auto.
    + destruct (reliable_save r s Hs Hfits) as (Hs' & Ho & Hrec).
      destruct (OperationStorage.save r s) as [o s']; simpl in *. subst o.
      split_and!; [done|constructor|by left].
Defined.

Lemma sound_honest fails m : sound m → honest fails m.
Proof. intros Hm k r Hr. left. exact (Hm k r Hr). Qed.

Lemma honest_sound m : honest no_failure m → sound m.
Proof. intros Hm k r Hr. by destruct (Hm k r Hr) as [?|(? & ? & [] & _)]. Qed.

Lemma no_failed_result steady_clock t : ¬ failed_result steady_clock no_failure t.
Proof. intros (req & response & _ & [e []|c what []] & _). Qed.
End reliable.
