(* ===== verification/StorageOutage.v ===== *)
(** * An outage of the database

    What the request handler answers and files, on top of [StorageService],
    while the connection to the database is lost and after it is back. *)

From stdpp Require Import base tactics strings list gmap.
From S2P Require Import Prelude.
From S2P Require Import Types.
From S2P Require Import CppString.
From S2P Require Import Checker.
From S2P Require Import Abacus.
From S2P Require Import OperationKey.
From S2P Require Import CacheRepository.
From S2P Require Import Postgres.
From S2P Require Import OperationStorage.
From S2P Require Import StorageService.
From S2P Require Import RequestHandler.
From S2P Require Import LineProtocol.
From S2P Require Import HandlerCorrect.
From S2P Require Import HandlerConcurrent.
From S2P Require Import HandlerFailing.
Import Libpq.
Import Protocol.
Import RequestHandler.

Section outage.
Context `{lib : Libpq.Library}.
Context `{protocol : Protocol.Library} `{total : !Protocol.Total}.
Context `{math : CalculatorMath.Library}.
Variable steady_clock : nat → Z.

Definition lost (s : StorageService.t) : Prop :=
  PostgresConnection.is_connected (StorageService.postgres_repository s)
    (StorageService.server s) = false.

(** What [ensure_connected] throws. *)
Definition lost_message (s : StorageService.t) : string :=
  "PostgreSQL connection failed: " +:+
    PostgresConnection.last_error (StorageService.postgres_repository s)
      (StorageService.server s).

Lemma save_lost r s :
  lost s →
  StorageService.save r s =
    (Throw (calculator_exception ERROR_STORAGE (lost_message s)),
     StorageService.set_cache
       (CacheRepository.put r (StorageService.cache_repository s)) s).
Proof.
  intros Hl. rewrite service_save. unfold PostgresRepository.save,
    PostgresConnection.execute_params, PostgresConnection.ensure_connected,
    mbind, prog_bind. unfold lost in Hl. by rewrite Hl.
Qed.

Lemma service_looks_up d s : looks_up (S := StorageService.t) d s s.
Proof. done. Qed.

(** The step from the checks to the calculation. *)
Lemma on_checked {A} (k : prog (thrown ProtocolError) (frame (S := StorageService.t)) A)
    (fr : frame) r :
  check_arguments (local_data fr) = Ret () → k fr = r →
  (_ ← on_data (λ d, (check_arguments d, d)); k) fr = r.
Proof.
  intros Hc <-. unfold on_data, zoom, mbind, prog_bind. rewrite Hc; simpl.
  by destruct fr.
Qed.

Lemma calculate_and_save_lost id d n k v (s : StorageService.t) :
  lost s → request_data d → check_arguments d = Ret () →
  request_key d = Ret k → evaluate d = Ret v →
  ∃ d', (calculate_and_save steady_clock (steady_clock n)
           (storage_name (Types.operation d))
         catch save_failed_operation (storage_name (Types.operation d)))
          (started_frame id d n s) =
        (Throw (Raised (calculator_exception ERROR_STORAGE (lost_message s))) :
           outcome (thrown ProtocolError) string,
         mk_frame (StorageService.set_cache
             (<[k := failure_record d k ERROR_STORAGE]>
                (StorageService.cache_repository s)) s)
           (Datatypes.S n) id d').
Proof.
  intros Hl Hd Hc Hk He.
  destruct (value_save_failed steady_clock id d n k v ERROR_STORAGE (lost_message s) s _
    Hd Hc Hk He ltac:(done) (save_lost (evaluated_record d k) s Hl)) as (d' & Hrun).
  exists d'. etransitivity; [exact Hrun|].
  set (s1 := StorageService.set_cache _ s).
  etransitivity; [exact (file_and_rethrow_outcome _ _ (mk_frame s1 _ id d') _ _
    (save_lost (failure_record d k ERROR_STORAGE) s1 Hl) ltac:(done))|].
  unfold s1, StorageService.set_cache, set_storage, CacheRepository.put; simpl.
  by rewrite insert_insert_eq.
Qed.

(** C33: an outage outlives itself in the cache.  While the connection to the
    database is lost, a correct request that was never asked before is answered
    with [STORAGE_ERROR], although its value [v] was calculated; the inner
    [catch] then files that failure as the answer of the calculation, so the
    same request is answered with [STORAGE_ERROR] from the cache for ever, also
    over a connection and a server that work again. *)
Theorem outage_poisons_cache json n req d k v (s : StorageService.t) :
  lost s → StorageService.cache_repository s !! k = None →
  parse_request json = inr req → to_calculator_data req = Ret d →
  request_key d = Ret k → evaluate d = Ret v →
  let id := response_id (Protocol.request_id req) in
  let s' := (run steady_clock json n s).2 in
  (run steady_clock json n s).1 =
    Ret (render (set_timing_info (timing_at steady_clock n)
      (failure_of id STORAGE_ERROR (lost_message s)))) ∧
  ∀ connection server n',
    (run steady_clock json n'
       (StorageService.mk (StorageService.cache_repository s') connection
          server)).1 =
    Ret (render (set_timing_info (timing_at steady_clock n')
      (set_result_source CACHE
         (failure_of id STORAGE_ERROR "cached calculation error")))).
Proof.
  intros Hl Hnone Hp Hd Hk He id s'.
  destruct (to_calculator_data_request _ _ Hd) as (Hq & _).
  assert (check_arguments d = Ret ()) as Hc.
  { unfold evaluate in He. by destruct (check_arguments d) as [[]|e|]. }
  assert (run steady_clock json n s =
    (Ret (render (set_timing_info (timing_at steady_clock n)
       (failure_of id STORAGE_ERROR (lost_message s)))),
     StorageService.set_cache
       (<[k := failure_record d k ERROR_STORAGE]> (StorageService.cache_repository s)) s)) as Hrun.
  { rewrite (run_parsed steady_clock json n s s req d Hp Hd (service_looks_up d s)).
    rewrite Hk; simpl. rewrite Hnone; simpl.
    destruct (calculate_and_save_lost (Protocol.request_id req) d n k v s
      Hl Hq Hc Hk He) as (d' & Hbody).
    pose proof (on_checked _ (started_frame (Protocol.request_id req) d n s) _
      Hc Hbody) as Hb.
    destruct (body_throws steady_clock _ n _ _ _ _ Hb eq_refl)
      as (f' & Htry & Hf').
    etransitivity;
      [exact (f_equal (λ '(o, f), (o, storage_ f)) Htry)|by rewrite Hf']. }
  unfold s'. rewrite Hrun. split; [done|]. intros connection server n'.
  rewrite (run_parsed steady_clock json n' _ _ req d Hp Hd
    (service_looks_up d _)), Hk; simpl.
  rewrite lookup_insert_eq; simpl.
  set (fr := started_frame _ _ _ _).
  destruct (answer_from_cache_error steady_clock n' ERROR_STORAGE
    (failure_record d k ERROR_STORAGE) fr eq_refl) as (f' & Hfin & _); [done|done|].
  by rewrite (try_ret _ _ _ _ _ Hfin).
Qed.
End outage.

(** ** Whatever the database does

    The service answers every lookup from its cache, files what it is given, and
    reports a failure of the database with [ERROR_STORAGE]. *)

Definition every_call (c : storage_call) : Prop := True.

Section service.
Context `{lib : Libpq.Library}.
Context `{protocol : Protocol.Library} `{math : CalculatorMath.Library}.

#[export] Instance failing_service_honest :
  HonestStorage StorageService.t storage_failure every_call.
Proof.
  refine {| available _ := True |}.
  - intros e (what & ->). left. by exists ERROR_STORAGE, what.
  - done.
  - intros [a x op|r] s _ _; simpl; (split; [done|]).
    + split; [by left|done].
    + rewrite service_save; simpl.
      destruct (save_cases r (StorageService.postgres_repository s)
        (StorageService.server s)) as [->|(e & -> & He)];
        (split; [by constructor|by left]).
Defined.
End service.

Example outage_poisons_cache_witness :
  let down := StorageService.mk (H := TableServer.library) ∅ (Some ())
                (TableServer.mk_state false []) in
  let run := run (S := StorageService.t (H := TableServer.library))
    (storage := service_storage (lib := TableServer.library))
    (protocol := LineProtocol.library) (math := SafeMath.library)
    (λ n, Z.of_nat n) in
  (run "+2,3" 0%nat down).1 = Ret "STORAGE_ERROR" ∧
  (run "+2,3" 2%nat (StorageService.mk (H := TableServer.library)
     (StorageService.cache_repository (run "+2,3" 0%nat down).2) (Some ())
     (TableServer.mk_state true []))).1 = Ret "STORAGE_ERROR cache".
Proof.
  intros down run.
  destruct (outage_poisons_cache (lib := TableServer.library)
    (protocol := LineProtocol.library) (total := LineProtocol.total)
    (math := SafeMath.library) (λ n, Z.of_nat n) "+2,3" 0
    (LineProtocol.mk_request LineProtocol.Add [2; 3])
    (set_second 3 (set_first 2 (set_need_help 0
      (set_operation OPERATION_ADDITION default_data))))
    "2+3" 5 down eq_refl eq_refl eq_refl eq_refl eq_refl eq_refl)
    as [Hfirst Hlater].
  split; [exact Hfirst|exact (Hlater _ _ _)].
Defined.
