(* ===== verification/HandlerCalls.v ===== *)
(** * How often a handler calls its storage

    One call of [find] and then at most two of [save], whatever the storage, the
    arithmetic and the protocol library answer: by a count of the calls along the
    binds and the [catch] clauses of [handle]. *)

From stdpp Require Import base tactics strings list gmap.
From S2P Require Import Prelude.
From S2P Require Import Types.
From S2P Require Import CppString.
From S2P Require Import Checker.
From S2P Require Import Abacus.
From S2P Require Import OperationKey.
From S2P Require Import OperationStorage.
From S2P Require Import RequestHandler.
From S2P Require Import HandlerConcurrent.
Import Protocol.
Import RequestHandler.

(** ** Programs that leave the storage alone *)

Section untouched.
Context {S E : Type}.

Definition untouched {A} (m : prog E (frame (S := S)) A) : Prop :=
  ∀ f, storage_ (m f).2 = storage_ f.

Lemma untouched_bind {A B} (m : prog E (frame (S := S)) A) (k : A → prog E _ B) :
  untouched m → (∀ x, untouched (k x)) → untouched (m ≫= k).
Proof.
  intros Hm Hk f. specialize (Hm f). unfold mbind, prog_bind.
  destruct (m f) as [[a|e|] f']; simpl in *; [|done..]. by rewrite Hk.
Qed.
End untouched.

Create HintDb untouched.
#[export] Hint Extern 3 (untouched _) => intros ?; reflexivity : untouched.

Ltac walk_untouched :=
  repeat (apply untouched_bind; [|intros ?]); auto with untouched.

Section handler.
Context {S : Type} `{storage : !IOperationStorage S}.
Context `{protocol : Protocol.Library} `{math : CalculatorMath.Library}.
Variable steady_clock : nat → Z.

Lemma on_data_untouched {A} (m : prog exn CalculatorData A) :
  untouched (on_data (S := S) m).
Proof. intros f. unfold on_data, zoom. by destruct (m (local_data f)). Qed.

Lemma answer_from_cache_untouched t r :
  untouched (answer_from_cache (S := S) steady_clock t r).
Proof.
  unfold answer_from_cache. walk_untouched.
  case_bool_decide; walk_untouched.
Qed.

Lemma handle_exception_untouched t e k :
  handle_exception (S := S) steady_clock t e = Some k → untouched k.
Proof.
  intros [= <-]. destruct e as [error|[code what|what|]];
    unfold catch_protocol_error, catch_failure; walk_untouched.
Qed.
End handler.

#[export] Hint Resolve on_data_untouched answer_from_cache_untouched : untouched.

(** ** Counting calls of [save] *)

Section count.
(** The number of [save] replies that the script holds. *)
Variable given : nat.

(** [j] of the replies are used, or the script ran out of them. *)
Definition used (j : nat) (s : script) : Prop :=
  (∃ os, s = mk_script (SaveReply <$> os) None ∧ (length os + j = given)%nat) ∨
  (∃ r, blocked s = Some (SaveCall r) ∧ (given < 2)%nat).

Definition at_most (n : nat) (f : frame (S := script)) : Prop :=
  ∃ j, (j ≤ n)%nat ∧ used j (storage_ f).

(** A program that makes at most [a] calls. *)
Definition saves {E A} (a : nat) (m : prog E (frame (S := script)) A) : Prop :=
  ∀ n, (n + a ≤ 2)%nat → triple (at_most n) m (λ _, at_most (n + a)%nat).

Lemma at_most_more n n' f : at_most n f → (n ≤ n')%nat → at_most n' f.
Proof. intros (j & Hj & Hu) Hn. exists j. split; [lia|done]. Qed.

Section rules.
Context {E : Type}.

Lemma saves_none {A} (m : prog E (frame (S := script)) A) a :
  untouched m → saves a m.
Proof.
  intros Hm n _ f (j & Hj & Hu). exists j. split; [lia|by rewrite Hm].
Qed.

Lemma saves_bind {A B} (m : prog E (frame (S := script)) A) (k : A → prog E _ B) a b c :
  (a + b ≤ c)%nat → saves a m → (∀ x, saves b (k x)) → saves c (m ≫= k).
Proof.
  intros Hc Hm Hk n Hn.
  assert (∀ f, at_most (n + a) f → at_most (n + c) f) as Hw
    by (intros f Hf; eapply at_most_more; [exact Hf|lia]).
  eapply triple_bind; [apply Hm; lia| |by auto..].
  intros x f Hf. eapply at_most_more; [apply (Hk x (n + a)%nat); [lia|exact Hf]|lia].
Qed.

Lemma saves_try {A} (m : prog E (frame (S := script)) A) h a b c :
  (a + b ≤ c)%nat → saves a m → (∀ e k, h e = Some k → saves b k) →
  saves c (m catch h).
Proof.
  intros Hc Hm Hh n Hn.
  assert (∀ f, at_most (n + a) f → at_most (n + c) f) as Hw
    by (intros f Hf; eapply at_most_more; [exact Hf|lia]).
  eapply triple_try; [apply Hm; lia|by auto| |by auto].
  intros e. destruct (h e) as [k|] eqn:He; [|by auto].
  intros f Hf. eapply at_most_more; [apply (Hh e k He (n + a)%nat); [lia|exact Hf]|lia].
Qed.
End rules.
End count.

Create HintDb saves.
#[export] Hint Extern 3 (saves _ _ _) =>
  apply saves_none; solve [walk_untouched] : saves.

(** ** The handler *)

Section handler.
Context `{protocol : Protocol.Library} `{math : CalculatorMath.Library}.
Variable steady_clock : nat → Z.
Variable given : nat.

Abbreviation saves := (saves given).

Lemma saves_save r : saves 1 (on_storage (S := script) (OperationStorage.save r)).
Proof.
  intros n Hn f (j & Hj & Hu). unfold on_storage, zoom; simpl.
  unfold script_save. exists (Datatypes.S j).
  destruct Hu as [(os & Hs & Hlen)|(r' & Hb & Hlt)].
  - rewrite Hs; simpl. destruct os as [|o os]; simpl.
    + split; [lia|right]. exists r. simpl in *. split; [done|lia].
    + split; [lia|left]. exists os. simpl in *. split; [done|lia].
  - rewrite Hb; simpl. split; [lia|right]. by exists r'.
Qed.

#[local] Hint Resolve saves_save : saves.

Lemma calculate_and_save_saves t op :
  saves 1 (calculate_and_save (S := script) steady_clock t op).
Proof.
  unfold calculate_and_save.
  do 4 (eapply (saves_bind _ _ _ 0 1); [lia|by auto with saves|intros ?]).
  eapply (saves_bind _ _ _ 1 0); [lia|by auto with saves|intros _].
  do 3 (eapply (saves_bind _ _ _ 0 0); [lia|by auto with saves|intros ?]).
  by auto with saves.
Qed.

Lemma save_failed_operation_saves op e k :
  save_failed_operation (S := script) op e = Some k → saves 1 k.
Proof.
  destruct e as [|[code what| |]]; [done| |done..]. intros [= <-].
  do 2 (eapply (saves_bind _ _ _ 0 1); [lia|by auto with saves|intros ?]).
  eapply (saves_bind _ _ _ 1 0); [lia| |by auto with saves].
  destruct (is_storable_operation _); [|by auto with saves].
  eapply (saves_try _ _ _ 1 0); [lia| |].
  - eapply (saves_bind _ _ _ 0 1); by auto with saves.
  - intros [|[]] k'; simpl; intros; simplify_eq; by auto with saves.
Qed.

(** What follows the lookup. *)
Lemma looked_up_saves t op (cached : option OperationRecord.t) :
  saves 2 (match cached with
    | Some record => answer_from_cache (S := script) steady_clock t record
    | None =>
        _ ← on_data (λ d, (check_arguments d, d));
        calculate_and_save steady_clock t op catch save_failed_operation op
    end).
Proof.
  destruct cached as [record|].
  - apply saves_none, answer_from_cache_untouched.
  - eapply (saves_bind _ _ _ 0 2); [lia|by auto with saves|intros ?].
    eapply (saves_try _ _ _ 1 1); [lia|apply calculate_and_save_saves|].
    intros e k. apply save_failed_operation_saves.
Qed.

(** Before the lookup the script is as it was; behind it, replies of [save] are
    used. *)
Lemma handle_body_calls t json found os :
  length os = given →
  triple (λ f, storage_ f = mk_script (FindReply found :: (SaveReply <$> os)) None)
    (handle_body (S := script) steady_clock t json)
    (λ _ f, storage_ f = mk_script (FindReply found :: (SaveReply <$> os)) None ∨
            at_most given 2 f).
Proof.
  intros Hos. set (s0 := mk_script _ None). unfold handle_body.
  do 5 (eapply (triple_bind _ _ _ (λ _ f, storage_ f = s0));
    [intros f Hf; exact Hf|intros ?|by auto|by auto]).
  eapply (triple_bind _ _ _ (λ _, at_most given 0)).
  - intros f Hf. unfold on_storage, zoom; simpl. rewrite Hf. unfold script_find; simpl.
    exists 0%nat. split; [lia|left]. exists os. split; [done|simpl; lia].
  - intros cached f Hf. right.
    exact (looked_up_saves t _ cached 0%nat ltac:(lia) f Hf).
  - intros e f Hf. right. eapply at_most_more; [exact Hf|lia].
  - intros f Hf. right. eapply at_most_more; [exact Hf|lia].
Qed.
End handler.

(** ** Threads *)

Section threads.
Context `{protocol : Protocol.Library} `{math : CalculatorMath.Library}.
Variable steady_clock : nat → Z.

(** Replies in the order of the calls. *)
Inductive conforming : list storage_reply → Prop :=
  | conforming_none : conforming []
  | conforming_some found os :
      (length os ≤ 2)%nat → conforming (FindReply found :: (SaveReply <$> os)).

Definition matches_call (c : storage_call) (r : storage_reply) : Prop :=
  match c, r with
  | FindCall _ _ _, FindReply _ | SaveCall _, SaveReply _ => True
  | _, _ => False
  end.

Lemma handled_frame (t : thread) :
  (handled steady_clock t).2 =
    storage_ (handle (S := script) steady_clock (request_json t)
      (mk_frame (mk_script (replies t) None) (reads t) EmptyString default_data)).2.
Proof. unfold handled, run. by destruct (handle _ _ _). Qed.

(** The [catch] clauses leave the storage as the [try] block left it. *)
Lemma handle_storage json (s : script) n (Q : script → Prop) :
  triple (λ f, storage_ f = s)
    (handle_body (S := script) steady_clock (steady_clock n) json)
    (λ _ f, Q (storage_ f)) →
  Q (storage_ (handle (S := script) steady_clock json
       (mk_frame s n EmptyString default_data)).2).
Proof.
  intros Hbody. unfold handle, mbind, prog_bind, now; simpl.
  eapply (triple_try (λ f, storage_ f = s) _ _ (λ _ f, Q (storage_ f))
    (λ _ f, Q (storage_ f)) Hbody); [done| |done|done].
  intros e. destruct (handle_exception steady_clock (steady_clock n) e) as [k|] eqn:Hk;
    [|done].
  intros f Hf. by rewrite (handle_exception_untouched _ _ _ _ Hk).
Qed.

(** The first call is [find]; the others are [save], at most two of them. *)
Lemma next_call_conforming (t : thread) c :
  conforming (replies t) → next_call steady_clock t = Some c →
  match c with
  | FindCall _ _ _ => replies t = []
  | SaveCall _ => ∃ found os, replies t = FindReply found :: (SaveReply <$> os) ∧
                    (length os < 2)%nat
  end.
Proof.
  intros Ht. unfold next_call. rewrite handled_frame. revert Ht.
  generalize (replies t) as rs. intros rs. destruct 1 as [|found os Hos].
  - apply (handle_storage _ _ _ (λ s, blocked s = Some c →
      match c with FindCall _ _ _ => [] = [] | _ => _ end)).
    unfold handle_body.
    do 5 (eapply (triple_bind _ _ _ (λ _ f, storage_ f = mk_script [] None));
      [intros f Hf; exact Hf|intros ?|intros ? f ->; done|intros f ->; done]).
    eapply (triple_bind _ _ _ (λ o f, (∀ x, o ≠ Ret x) ∧
      ∃ a x op, blocked (storage_ f) = Some (FindCall a x op))).
    + intros f Hf. unfold on_storage, zoom; simpl. rewrite Hf. simpl. split; [done|eauto].
    + intros x f [Hx _]. by destruct (Hx x).
    + intros e f (_ & a' & x' & op' & ->). by intros [= <-].
    + intros f (_ & a' & x' & op' & ->). by intros [= <-].
  - set (s := mk_script _ None).
    apply (handle_storage _ _ _ (λ s', blocked s' = Some c → match c with
      | FindCall _ _ _ => _ | SaveCall _ => _ end)).
    eapply triple_weaken; [eapply (handle_body_calls steady_clock (length os)); reflexivity|].
    intros _ f [->|(j & Hj & [(os' & -> & _)|(r & -> & Hlt)])]; [discriminate..|].
    intros [= <-]. by exists found, os.
Qed.

Lemma conforming_length rs : conforming rs → (length rs ≤ 3)%nat.
Proof. destruct 1; simpl; rewrite ?length_fmap; lia. Qed.

Lemma conforming_snoc (t : thread) c r :
  conforming (replies t) → next_call steady_clock t = Some c → matches_call c r →
  conforming (replies t ++ [r]).
Proof.
  intros Ht Hc. apply next_call_conforming in Hc; [|done].
  destruct c as [a x op|rec], r as [found|o]; try done; intros _.
  - rewrite Hc. by apply (conforming_some found []); simpl; lia.
  - destruct Hc as (found & os & -> & Hos).
    change [SaveReply o] with (SaveReply <$> [o]).
    rewrite <-app_comm_cons, <-fmap_app. apply conforming_some.
    rewrite length_app; simpl; lia.
Qed.

Lemma conforming_calls (t : thread) c :
  conforming (replies t) → next_call steady_clock t = Some c →
  (length (replies t) < 3)%nat.
Proof.
  intros Ht Hc. apply next_call_conforming in Hc; [|done].
  destruct c as [a x op|r]; [by rewrite Hc; simpl; lia|].
  destruct Hc as (found & os & -> & Hos). simpl. rewrite length_fmap. lia.
Qed.
End threads.
