(* ===== verification/StorageWorker.v ===== *)
(** * [Server::StorageWorker] ([server/src/storage-worker.cpp])

    The thread that owns the [StorageService]: network threads put jobs into a
    queue and wait for their futures, the worker thread takes the jobs in their
    order.  Its life is a step relation: a step of the worker thread, which is a
    function of the state, or a call of another thread.  Each critical section
    of the mutex is one step. *)

From stdpp Require Import base tactics strings list gmap.
From S2P Require Import Prelude.
From S2P Require Import Types.
From S2P Require Import CppString.
From S2P Require Import OperationKey.
From S2P Require Import CacheRepository.
From S2P Require Import Postgres.
From S2P Require Import OperationStorage.
From S2P Require Import StorageService.
Import Libpq.

Module StorageWorker.
Section storage_worker.
Context `{lib : Libpq.Library}.

(** ** Jobs

    The closures that [find] and [save] enqueue, and what they leave in their
    promise: a value, or the exception of the call. *)
Inductive job : Type :=
  | Find (first_number : Z) (second_number : option Z) (operation : string)
  | Save (record : OperationRecord.t).

Inductive reply : Type :=
  | Found (result : outcome exn (option OperationRecord.t))
  | Saved (result : outcome exn unit).

(** [job(storage_service)]: the [try] of the closures catches everything. *)
Definition execute (j : job) (storage : StorageService.t) :
    reply * StorageService.t :=
  match j with
  | Find first_number second_number operation =>
      let '(o, s) := StorageService.find first_number second_number operation storage
      in (Found o, s)
  | Save record =>
      let '(o, s) := StorageService.save record storage in (Saved o, s)
  end.

(** ** The state of the object and of its thread

    [worker_] is not joinable, or the thread is inside [thread_main]: before
    the initialisation is done, before it takes a job, while it runs one, or
    returned.  The storage service is a local variable of the thread; [world]
    is the database outside of it.  The future of a job is identified by a
    ticket, the number of jobs enqueued before it. *)
Inductive phase : Type :=
  | NoThread (w : world)
  | Initializing (w : world)
  | Waiting (storage : StorageService.t)
  | Executing (ticket : nat) (j : job) (storage : StorageService.t)
  | Returned (w : world).

Record t : Type := mk {
  database_connection_string : string;
  jobs : list (nat * job);
  stopping : bool;
  worker : phase;
  init_promise : option (outcome exn unit);
  replies : gmap nat reply;
  tickets : nat
}.

Definition make (database_connection_string : string) (w : world) : t :=
  mk database_connection_string [] false (NoThread w) None ∅ 0.

Definition set_worker (p : phase) (self : t) : t :=
  mk (database_connection_string self) (jobs self) (stopping self) p
    (init_promise self) (replies self) (tickets self).
Definition set_jobs (js : list (nat * job)) (self : t) : t :=
  mk (database_connection_string self) js (stopping self) (worker self)
    (init_promise self) (replies self) (tickets self).
Definition set_stopping (b : bool) (self : t) : t :=
  mk (database_connection_string self) (jobs self) b (worker self)
    (init_promise self) (replies self) (tickets self).
Definition set_init_promise (o : option (outcome exn unit)) (self : t) : t :=
  mk (database_connection_string self) (jobs self) (stopping self) (worker self)
    o (replies self) (tickets self).
Definition set_reply (ticket : nat) (r : reply) (self : t) : t :=
  mk (database_connection_string self) (jobs self) (stopping self) (worker self)
    (init_promise self) (<[ticket := r]> (replies self)) (tickets self).

(** ** The worker thread *)

(** The locals of [thread_main] up to [initialize], and their destructors when it
    throws. *)
Definition open_storage (connection_string : string) :
    prog exn world StorageService.t := λ w,
  match PostgresConnection.connect connection_string w with
  | (Ret connection, w1) =>
      match StorageService.initialize (StorageService.mk ∅ connection w1) with
      | (Ret _, s) => (Ret s, StorageService.server s)
      | (Throw e, s) => (Throw e, StorageService.destroy s)
      | (Undef, s) => (Undef, StorageService.server s)
      end
  | (Throw e, w1) => (Throw e, w1)
  | (Undef, w1) => (Undef, w1)
  end.

(** The next move of [thread_main]; [None] where the thread is blocked on the
    condition, has returned or does not exist.  Behind the loop the storage
    service is destroyed. *)
Definition thread_main (self : t) : option t :=
  match worker self with
  | NoThread _ => None
  | Initializing w =>
      let '(o, w1) := open_storage (database_connection_string self) w in
      Some match o with
      | Ret s => set_init_promise (Some (Ret ())) (set_worker (Waiting s) self)
      | Throw e => set_init_promise (Some (Throw e)) (set_worker (Returned w1) self)
      | Undef => set_init_promise (Some Undef) (set_worker (Returned w1) self)
      end
  | Waiting s =>
      match jobs self with
      | (ticket, j) :: rest =>
          Some (set_jobs rest (set_worker (Executing ticket j s) self))
      | [] =>
          if stopping self
          then Some (set_worker (Returned (StorageService.destroy s)) self)
          else None
      end
  | Executing ticket j s =>
      let '(r, s') := execute j s in
      Some (set_reply ticket r (set_worker (Waiting s') self))
  | Returned _ => None
  end.

(** ** The calls of the other threads *)

(** [enqueue], with the promise of the job: the ticket of its future. *)
Definition enqueue (j : job) : prog exn t nat := λ self,
  if stopping self
  then (Throw (StdException "storage worker is stopping"), self)
  else (Ret (tickets self),
        mk (database_connection_string self) (jobs self ++ [(tickets self, j)])
          (stopping self) (worker self) (init_promise self) (replies self)
          (S (tickets self))).

(** [find] and [save] up to [future.get()], which waits for the reply. *)
Definition find (first_number : Z) (second_number : option Z)
    (operation : string) : prog exn t nat :=
  enqueue (Find first_number second_number operation).

Definition save (record : OperationRecord.t) : prog exn t nat :=
  enqueue (Save record).

Definition future (ticket : nat) (self : t) : option reply :=
  replies self !! ticket.

(** [start] up to [init_future.get()].  Assigning a new thread to [worker_]
    while it is joinable ends the program ([Undef]). *)
Definition start : prog exn t unit := λ self,
  let self := set_stopping false self in
  match worker self with
  | NoThread w =>
      (Ret (), set_init_promise None (set_worker (Initializing w) self))
  | _ => (Undef, self)
  end.

(** [stop] up to [join]. *)
Definition request_stop (self : t) : t := set_stopping true self.

(** [worker_.join()] once the thread has returned; [None] while it waits. *)
Definition join (self : t) : option t :=
  match worker self with
  | NoThread _ => Some self
  | Returned w => Some (set_worker (NoThread w) self)
  | _ => None
  end.

(** ** Runs *)

Inductive event : Type :=
  | Worked
  | Enqueued (j : job)
  | Refused (j : job)
  | StopRequested.

Inductive step : event → t → t → Prop :=
  | step_worker w w' : thread_main w = Some w' → step Worked w w'
  | step_enqueue j n w w' : enqueue j w = (Ret n, w') → step (Enqueued j) w w'
  | step_refuse j e w w' : enqueue j w = (Throw e, w') → step (Refused j) w w'
  | step_stop w : step StopRequested w (request_stop w).

Inductive run : list event → t → t → Prop :=
  | run_nil w : run [] w w
  | run_snoc es e w w' w'' : run es w w' → step e w' w'' → run (es ++ [e]) w w''.

(** The worker thread on its own, as far as it gets. *)
Fixpoint drain (fuel : nat) (self : t) : t :=
  match fuel with
  | O => self
  | S fuel =>
      match thread_main self with
      | Some self' => drain fuel self'
      | None => self
      end
  end.

(** ** The specification: one call after the other *)

Fixpoint replay (js : list job) (s : StorageService.t) :
    list reply * StorageService.t :=
  match js with
  | [] => ([], s)
  | j :: rest =>
      let '(r, s1) := execute j s in
      let '(rs, s2) := replay rest s1 in (r :: rs, s2)
  end.

(** The jobs that a run accepted, in the order of their critical sections. *)
Definition accepted (es : list event) : list job :=
  omap (λ e, match e with Enqueued j => Some j | _ => None end) es.
End storage_worker.
End StorageWorker.
