(* ===== verification/WorkerCorrect.v ===== *)
(** * The storage worker is sequential

    Whatever the network threads do, the worker thread answers the accepted jobs
    one after the other in the order of their acceptance, all of them, and ends
    after a request to stop. *)

From stdpp Require Import base tactics strings list gmap.
From S2P Require Import Prelude.
From S2P Require Import Types.
From S2P Require Import CppString.
From S2P Require Import OperationKey.
From S2P Require Import CacheRepository.
From S2P Require Import Postgres.
From S2P Require Import OperationStorage.
From S2P Require Import StorageService.
From S2P Require Import StorageWorker.
Import Libpq.
Import StorageWorker.

(** Jobs with consecutive tickets. *)
Fixpoint number {A} (n : nat) (js : list A) : list (nat * A) :=
  match js with
  | [] => []
  | j :: rest => (n, j) :: number (S n) rest
  end.

Lemma number_snoc {A} n (js : list A) j :
  number n (js ++ [j]) = number n js ++ [(n + length js, j)]%nat.
Proof.
  revert n. induction js as [|j' js IH]; intros n; simpl.
  - by rewrite Nat.add_0_r.
  - rewrite IH. by rewrite Nat.add_succ_r.
Qed.

Section correct.
Context `{lib : Libpq.Library}.

Lemma replay_length js s : length (replay js s).1 = length js.
Proof.
  revert s. induction js as [|j js IH]; intros s; [done|]. simpl.
  destruct (execute j s) as [r s1]. specialize (IH s1).
  destruct (replay js s1); simpl in *. by rewrite IH.
Qed.

Lemma replay_app js1 js2 s :
  replay (js1 ++ js2) s =
    ((replay js1 s).1 ++ (replay js2 (replay js1 s).2).1,
     (replay js2 (replay js1 s).2).2).
Proof.
  revert s. induction js1 as [|j js1 IH]; intros s; simpl.
  - by destruct (replay js2 s).
  - destruct (execute j s) as [r s1]. rewrite IH.
    by destruct (replay js1 s1).
Qed.

(** The state after [start] returned. *)
Definition ready (connection_string : string) (s : StorageService.t) : t :=
  mk connection_string [] false (Waiting s) (Some (Ret ())) ∅ 0.

(** A state of a thread that was ready on [s0] and for which the jobs [h] were
    accepted: those in [completed] are answered, the others are in the thread's
    hands or in the queue. *)
Inductive reached (s0 : StorageService.t) (h : list job) (w : t) : Prop :=
  | reached_state completed :
      tickets w = length h →
      (∀ i, replies w !! i = (replay completed s0).1 !! i) →
      match worker w with
      | Waiting s =>
          s = (replay completed s0).2 ∧
          ∃ rest, h = completed ++ rest ∧ jobs w = number (length completed) rest
      | Executing n j s =>
          s = (replay completed s0).2 ∧ n = length completed ∧
          ∃ rest, h = completed ++ j :: rest ∧
                  jobs w = number (S (length completed)) rest
      | Returned v =>
          v = StorageService.destroy (replay completed s0).2 ∧
          h = completed ∧ jobs w = [] ∧ stopping w = true
      | NoThread _ | Initializing _ => False
      end →
      reached s0 h w.

Lemma ready_reached cs s : reached s [] (ready cs s).
Proof.
  apply (reached_state _ _ _ []); simpl; [done|intros i; by rewrite lookup_empty|].
  split; [done|]. by exists [].
Qed.

Lemma thread_main_reached s0 h w w' :
  reached s0 h w → thread_main w = Some w' → reached s0 h w'.
Proof.
  intros [completed Ht Hr Hp]. destruct w as [cs js st p ip rs n]; simpl in *.
  unfold thread_main; simpl.
  destruct p as [v|v|s|k j s|v]; [done|done| | |done].
  - destruct Hp as (-> & rest & -> & ->).
    destruct rest as [|j rest]; simpl; intros Hw; simplify_eq.
    + destruct st; simplify_eq. apply (reached_state _ _ _ completed); simpl; auto.
      rewrite app_nil_r. auto.
    + apply (reached_state _ _ _ completed); simpl; eauto 6.
  - destruct Hp as (-> & -> & rest & -> & ->).
    destruct (execute j _) as [r s'] eqn:He. intros [= <-].
    assert (replay (completed ++ [j]) s0 = ((replay completed s0).1 ++ [r], s'))
      as Hrep by (rewrite replay_app; simpl; by rewrite He).
    apply (reached_state _ _ _ (completed ++ [j])); simpl; [done| |].
    + intros i. rewrite Hrep; simpl. rewrite <-(replay_length completed s0).
      destruct (decide (i = length (replay completed s0).1)) as [->|Hi].
      * by rewrite lookup_insert_eq, list_lookup_middle.
      * rewrite lookup_insert_ne by done. rewrite Hr.
        destruct (decide (i < length (replay completed s0).1)%nat).
        -- by rewrite lookup_app_l.
        -- rewrite !lookup_ge_None_2; [done| |lia]. rewrite length_app; simpl. lia.
    + rewrite Hrep; simpl. split; [done|]. exists rest.
      rewrite <-app_assoc, length_app; simpl. by rewrite Nat.add_1_r.
Qed.

Lemma enqueue_reached s0 h w j n w' :
  reached s0 h w → enqueue j w = (Ret n, w') →
  reached s0 (h ++ [j]) w' ∧ n = length h.
Proof.
  intros [completed Ht Hr Hp]. unfold enqueue.
  destruct w as [cs js st p ip rs k]; simpl in *.
  destruct st; [done|]. intros [= <- <-]. split; [|done].
  apply (reached_state _ _ _ completed); simpl; [rewrite length_app; simpl; lia|done|].
  destruct p as [v|v|s|t j' s|v]; [done|done| | |naive_solver].
  - destruct Hp as (-> & rest & -> & ->). split; [done|].
    exists (rest ++ [j]). rewrite number_snoc, app_assoc.
    by rewrite Ht, length_app.
  - destruct Hp as (-> & -> & rest & -> & ->). split_and!; [done..|].
    exists (rest ++ [j]). rewrite number_snoc, <-app_assoc; simpl.
    rewrite Ht, length_app; simpl. split; [done|]. do 3 f_equal. lia.
Qed.

Lemma request_stop_reached s0 h w : reached s0 h w → reached s0 h (request_stop w).
Proof.
  intros [completed Ht Hr Hp]. apply (reached_state _ _ _ completed); simpl; auto.
  destruct (worker w); naive_solver.
Qed.

(** A reply is the one of the accepted jobs called one after the other. *)
Lemma reached_future s0 h w ticket r :
  reached s0 h w → future ticket w = Some r →
  (replay h s0).1 !! ticket = Some r ∧ (ticket < length h)%nat.
Proof.
  intros [completed _ Hr Hp]. unfold future. rewrite Hr. intros Hi.
  assert (∃ rest, h = completed ++ rest) as [rest ->].
  { destruct (worker w); try done.
    - destruct Hp as (_ & rest & -> & _). by exists rest.
    - destruct Hp as (_ & _ & rest & -> & _). by eexists.
    - destruct Hp as (_ & -> & _). exists []. by rewrite app_nil_r. }
  assert ((replay (completed ++ rest) s0).1 !! ticket = Some r) as Hh
    by (rewrite replay_app; by apply lookup_app_l_Some).
  split; [done|]. apply lookup_lt_Some in Hh. by rewrite replay_length in Hh.
Qed.

Lemma accepted_snoc es e :
  accepted (es ++ [e]) =
    accepted es ++ match e with Enqueued j => [j] | _ => [] end.
Proof. unfold accepted. rewrite omap_app. by destruct e. Qed.

Lemma run_reached s0 cs es w :
  run es (ready cs s0) w → reached s0 (accepted es) w.
Proof.
  remember (ready cs s0) as w0 eqn:Hw0. induction 1 as [|es e w w' w'' Hrun IH Hstep];
    subst.
  - apply ready_reached.
  - specialize (IH eq_refl). rewrite accepted_snoc.
    destruct Hstep as [w w' Hm|j n w w' He|j e w w' He|w]; rewrite ?app_nil_r.
    + by eapply thread_main_reached.
    + by eapply enqueue_reached.
    + unfold enqueue in He. destruct (stopping w); by simplify_eq.
    + by apply request_stop_reached.
Qed.

(** ** Termination of the thread's work *)

(** The moves the thread can make without the other threads. *)
Definition moves (w : t) : nat :=
  2 * length (jobs w) +
  match worker w with
  | Waiting _ => 1
  | Executing _ _ _ => 2
  | Initializing _ => 2
  | NoThread _ | Returned _ => 0
  end.

Lemma thread_main_moves w w' :
  thread_main w = Some w' → (moves w' < moves w)%nat.
Proof.
  unfold thread_main, moves. destruct w as [cs js st p ip rs k]; simpl.
  destruct p as [v|v|s|t j s|v]; intros Hm; simplify_eq/=.
  - destruct (open_storage cs v) as [[s|e|] v1]; simplify_eq; simpl; lia.
  - destruct js as [|[n j] js]; [destruct st|]; simplify_eq; simpl; lia.
  - destruct (execute j s) as [r s']. simplify_eq; simpl; lia.
Qed.

Lemma drain_blocked fuel w :
  (moves w ≤ fuel)%nat → thread_main (drain fuel w) = None.
Proof.
  revert w. induction fuel as [|fuel IH]; intros w Hf; simpl.
  - destruct (thread_main w) as [w'|] eqn:Hm; [|done].
    apply thread_main_moves in Hm. lia.
  - destruct (thread_main w) as [w'|] eqn:Hm; [|done].
    apply IH. apply thread_main_moves in Hm. lia.
Qed.

Lemma drain_reached s0 h fuel w : reached s0 h w → reached s0 h (drain fuel w).
Proof.
  revert w. induction fuel as [|fuel IH]; intros w Hw; simpl; [done|].
  destruct (thread_main w) as [w'|] eqn:Hm; [|done].
  apply IH. by eapply thread_main_reached.
Qed.

Lemma thread_main_stopping w w' :
  thread_main w = Some w' → stopping w' = stopping w.
Proof.
  unfold thread_main. destruct w as [cs js st p ip rs k]; simpl.
  destruct p as [v|v|s|t j s|v]; intros Hm; simplify_eq/=.
  - by destruct (open_storage cs v) as [[s|e|] v1]; simplify_eq.
  - by destruct js as [|[n j] js]; [destruct st|]; simplify_eq.
  - destruct (execute j s) as [r s']. by simplify_eq.
Qed.

Lemma drain_stopping fuel w : stopping (drain fuel w) = stopping w.
Proof.
  revert w. induction fuel as [|fuel IH]; intros w; simpl; [done|].
  destruct (thread_main w) as [w'|] eqn:Hm; [|done].
  rewrite IH. by apply thread_main_stopping.
Qed.

Lemma blocked_reached s0 h w :
  reached s0 h w → thread_main w = None →
  (∀ i, replies w !! i = (replay h s0).1 !! i) ∧
  worker w = if stopping w then Returned (StorageService.destroy (replay h s0).2)
             else Waiting (replay h s0).2.
Proof.
  intros [completed Ht Hr Hp]. unfold thread_main.
  destruct w as [cs js st p ip rs k]; simpl in *.
  destruct p as [v|v|s|t j s|v]; [done|done| | |].
  - destruct Hp as (-> & [|j rest] & -> & ->); simpl; [|done].
    rewrite app_nil_r. by destruct st.
  - by destruct (execute j s).
  - by destruct Hp as (-> & -> & -> & ->).
Qed.
End correct.

(** ** Theorems *)

Section theorems.
Context `{lib : Libpq.Library}.

(** C14: the worker is linearizable.  In every run of the worker thread and any
    number of network threads, each reply that was given is the one that the
    storage service gives when the accepted jobs are called one after the other
    in the order of their acceptance, and jobs are answered in that order: a job
    is not answered before the jobs accepted before it. *)
Theorem worker_linearizable cs s0 es w :
  run es (ready cs s0) w →
  (∀ ticket r, future ticket w = Some r →
     (replay (accepted es) s0).1 !! ticket = Some r) ∧
  (∀ earlier later, (earlier < later)%nat → future later w ≠ None →
     future earlier w ≠ None).
Proof.
  intros Hrun. destruct (run_reached _ _ _ _ Hrun) as [completed _ Hr Hp].
  assert (∃ rest, accepted es = completed ++ rest) as [rest Hh].
  { destruct (worker w); try done.
    - destruct Hp as (_ & rest & -> & _). by exists rest.
    - destruct Hp as (_ & _ & rest & -> & _). by eexists.
    - destruct Hp as (_ & -> & _). exists []. by rewrite app_nil_r. }
  unfold future. split.
  - intros i r. rewrite Hr, Hh, replay_app; simpl. intros Hi.
    by apply lookup_app_l_Some.
  - intros i j Hij. rewrite !Hr, !lookup_ge_None. lia.
Qed.

(** C15: every accepted job is answered.  From any state of a run the worker
    thread comes, in a number of moves that the queue bounds and without any help
    of the other threads, to a state in which all accepted jobs have their
    replies, and in which it has closed the storage and returned when a stop was
    requested and waits for jobs otherwise. *)
Theorem worker_answers_all cs s0 es w :
  run es (ready cs s0) w →
  let w' := drain (2 * length (jobs w) + 2) w in
  let expected := replay (accepted es) s0 in
  (∀ ticket, future ticket w' = expected.1 !! ticket) ∧
  (∀ ticket, (ticket < length (accepted es))%nat → future ticket w' ≠ None) ∧
  worker w' = if stopping w then Returned (StorageService.destroy expected.2)
              else Waiting expected.2.
Proof.
  intros Hrun w' expected. apply run_reached in Hrun.
  assert (thread_main w' = None) as Hb.
  { apply drain_blocked. destruct Hrun as [completed _ _ Hp]. unfold moves.
    destruct (worker w); try done; lia. }
  destruct (blocked_reached s0 (accepted es) w') as [Hf Hw];
    [by apply drain_reached|done|].
  unfold future. split_and!; [done| |].
  - intros i Hi. rewrite Hf, lookup_ge_None, replay_length. lia.
  - rewrite Hw. unfold w'. by rewrite drain_stopping.
Qed.

Lemma run_stopping es w w' :
  run es w w' → stopping w = true → stopping w' = true ∧ accepted es = [].
Proof.
  induction 1 as [|es e w w' w'' _ IH Hstep]; [done|]. intros Hs.
  destruct (IH Hs) as [Hs' Ha]. rewrite accepted_snoc, Ha.
  destruct Hstep as [w' w'' Hm|j n w' w'' He|j e w' w'' He|w']; simpl.
  - by rewrite (thread_main_stopping _ _ Hm).
  - unfold enqueue in He. by rewrite Hs' in He.
  - unfold enqueue in He. rewrite Hs' in He. by simplify_eq.
  - done.
Qed.

(** Nothing is accepted after a stop was requested: in every run from a
    state in which [stop] was called, no job is accepted, a call of [find] or
    [save] throws the exception that says so and leaves the worker as it is. *)
Lemma worker_stop_refuses w es w' :
  run es (request_stop w) w' →
  accepted es = [] ∧
  (∀ a x op, find a x op w' = (Throw (StdException "storage worker is stopping"), w')) ∧
  (∀ r, save r w' = (Throw (StdException "storage worker is stopping"), w')).
Proof.
  intros Hrun. destruct (run_stopping _ _ _ Hrun eq_refl) as [Hs Ha].
  unfold find, save, enqueue. by rewrite Hs.
Qed.

Lemma returned_forever es w w' v :
  run es w w' → worker w = Returned v → replies w = ∅ →
  worker w' = Returned v ∧ replies w' = ∅.
Proof.
  induction 1 as [|es e w w' w'' _ IH Hstep]; [done|]. intros Hw Hr.
  destruct (IH Hw Hr) as [Hw' Hr'].
  destruct Hstep as [w' w'' Hm|j n w' w'' He|j e w' w'' He|w']; [..|done].
  - unfold thread_main in Hm. by rewrite Hw' in Hm.
  - unfold enqueue in He. by destruct (stopping w'); simplify_eq.
  - unfold enqueue in He. by destruct (stopping w'); simplify_eq.
Qed.

(** C16: starting the worker.  [start] on a new worker leaves the thread before
    its initialisation; the thread's first move opens the storage.  When that
    succeeds, [init_future.get()] returns and the worker is ready; when it
    throws, [init_future.get()] throws the same exception, the thread has
    returned, and whoever calls [find] or [save] then is accepted but never
    answered: [stopping_] still says that the worker runs.  A second [start]
    before the thread is joined ends the program. *)
Theorem worker_start cs w :
  ∃ w1, start (make cs w) = (Ret (), w1) ∧
  (∀ s v, open_storage cs w = (Ret s, v) → thread_main w1 = Some (ready cs s)) ∧
  (∀ e v, open_storage cs w = (Throw e, v) →
     ∃ w2, thread_main w1 = Some w2 ∧ init_promise w2 = Some (Throw e) ∧
       worker w2 = Returned v ∧
       (∀ a x op, (find a x op w2).1 = Ret 0%nat) ∧
       ∀ es w3 ticket, run es w2 w3 → future ticket w3 = None) ∧
  (∀ w2, match worker w2 with NoThread _ => False | _ => True end →
     (start w2).1 = Undef).
Proof.
  eexists. split; [reflexivity|]. split_and!.
  - intros s v Ho. unfold thread_main; simpl. by rewrite Ho.
  - intros e v Ho. unfold thread_main; simpl. rewrite Ho.
    eexists. split_and!; [done..|].
    intros es w3 ticket Hrun. unfold future.
    destruct (returned_forever _ _ _ v Hrun eq_refl eq_refl) as [_ ->].
    apply lookup_empty.
  - intros w2 Hw. unfold start; simpl. by destruct (worker w2).
Qed.
End theorems.

(** ** Witnesses *)

Definition up_server : TableServer.state := TableServer.mk_state true [].

Definition ready_on_table : t (lib := TableServer.library) :=
  ready (lib := TableServer.library) "host=localhost"
    (StorageService.mk (H := TableServer.library) ∅ (Some ()) up_server).

(** A save and a find are accepted, the worker runs the first. *)
Definition demo_events : list (event) :=
  [Enqueued (Save sum_record); Worked; Enqueued (Find 2 (Some 1) "add"); Worked;
   StopRequested; Refused (Find 0 None "fact")].

(** The steps are executable. *)
Definition perform `{lib : Libpq.Library} (e : event) (w : t) : option t :=
  match e with
  | Worked => thread_main w
  | Enqueued j => match enqueue j w with (Ret _, w') => Some w' | _ => None end
  | Refused j => match enqueue j w with (Throw _, w') => Some w' | _ => None end
  | StopRequested => Some (request_stop w)
  end.

Fixpoint perform_all `{lib : Libpq.Library} (es : list event) (w : t) : option t :=
  match es with
  | [] => Some w
  | e :: rest => w' ← perform e w; perform_all rest w'
  end.

Lemma perform_step `{lib : Libpq.Library} e w w' : perform e w = Some w' → step e w w'.
Proof.
  destruct e as [|j|j|]; simpl.
  - by constructor.
  - destruct (enqueue j w) as [[n|e|] w1] eqn:He; intros; simplify_eq.
    by econstructor.
  - destruct (enqueue j w) as [[n|e|] w1] eqn:He; intros; simplify_eq.
    by econstructor.
  - intros [= <-]. constructor.
Qed.

Lemma run_cons `{lib : Libpq.Library} e es w w' w'' :
  step e w w' → run es w' w'' → run (e :: es) w w''.
Proof.
  intros Hs. induction 1 as [w'|es e' w' w1 w2 _ IH Hs'].
  - apply (run_snoc [] e w w w'); [constructor|done].
  - rewrite app_comm_cons. econstructor; [by apply IH|done].
Qed.

Lemma perform_all_run `{lib : Libpq.Library} es w w' :
  perform_all es w = Some w' → run es w w'.
Proof.
  revert w. induction es as [|e es IH]; simpl; intros w Hw.
  - injection Hw as ->. constructor.
  - apply bind_Some in Hw as (w1 & H1 & H2).
    eapply run_cons; [by apply perform_step|by apply IH].
Qed.

Definition demo_end : t (lib := TableServer.library) :=
  default ready_on_table (perform_all demo_events ready_on_table).

Lemma demo_run : run demo_events ready_on_table demo_end.
Proof.
  assert (bool_decide (perform_all demo_events ready_on_table = None) = false) as Hd
    by (vm_compute; reflexivity).
  apply perform_all_run. unfold demo_end.
  by destruct (perform_all demo_events ready_on_table).
Qed.

Example worker_linearizable_witness :
  future 0 demo_end = Some (Saved (Ret ())) ∧
  (replay (accepted demo_events)
     (StorageService.mk (H := TableServer.library) ∅ (Some ()) up_server)).1
    !! 0%nat = Some (Saved (Ret ())).
Proof.
  assert (future 0 demo_end = Some (Saved (Ret ()))) as Hf
    by (vm_compute; reflexivity).
  split; [exact Hf|].
  exact (proj1 (worker_linearizable "host=localhost" _ demo_events demo_end demo_run)
    0%nat _ Hf).
Defined.

Example worker_answers_all_witness :
  future 1 (drain (2 * length (jobs demo_end) + 2) demo_end) =
    Some (Found (Ret (Some sum_record))).
Proof.
  etransitivity; [exact (proj1 (worker_answers_all "host=localhost" _ demo_events
    demo_end demo_run) 1%nat)|vm_compute; reflexivity].
Defined.

Example worker_stop_refuses_witness :
  (save sum_record (request_stop ready_on_table)).1 =
    Throw (StdException "storage worker is stopping").
Proof.
  exact (f_equal fst (proj2 (proj2 (worker_stop_refuses ready_on_table []
    (request_stop ready_on_table) (run_nil _))) sum_record)).
Defined.
