(* ===== verification/Resources.v ===== *)
(** * The results and connections of [libpq] are released

    [PostgresResult] and [PostgresConnection] own what [libpq] hands out through
    [unique_ptr]s with deleters.  Any library is here run with a ledger of what
    it has handed out: what the storage and its thread hold at each moment,
    whatever the library answers. *)

From stdpp Require Import base tactics strings list gmap.
From S2P Require Import Prelude.
From S2P Require Import Types.
From S2P Require Import CppString.
From S2P Require Import OperationKey.
From S2P Require Import CacheRepository.
From S2P Require Import Postgres.
From S2P Require Import OperationStorage.
From S2P Require Import StorageService.
From S2P Require Import StorageWorker.
From S2P Require Import WorkerCorrect.
Import Libpq.

(** ** The ledger *)

Module Ledger.
(** The number of things handed out, which names the next one; the results and
    the connections that are not released; and whether something was released
    that was not held, or a statement sent on a connection that was closed. *)
Record t : Type := mk {
  issued : nat;
  results : gset nat;
  connections : gset nat;
  misused : bool
}.

Definition new_result (l : t) : t :=
  mk (S (issued l)) ({[issued l]} ∪ results l) (connections l) (misused l).
Definition new_connection (l : t) : t :=
  mk (S (issued l)) (results l) ({[issued l]} ∪ connections l) (misused l).
Definition clear_result (n : nat) (l : t) : t :=
  mk (issued l) (results l ∖ {[n]}) (connections l)
    (misused l || bool_decide (n ∉ results l)).
Definition close_connection (n : nat) (l : t) : t :=
  mk (issued l) (results l) (connections l ∖ {[n]})
    (misused l || bool_decide (n ∉ connections l)).
Definition use_connection (n : nat) (l : t) : t :=
  mk (issued l) (results l) (connections l)
    (misused l || bool_decide (n ∉ connections l)).

(** Names are not used before they are issued. *)
Definition wf (l : t) : Prop :=
  ∀ n, n ∈ results l ∪ connections l → (n < issued l)%nat.

(** The same things are held. *)
Record balanced (l l' : t) : Prop := mk_balanced {
  balanced_issued : (issued l ≤ issued l')%nat;
  balanced_results : results l' = results l;
  balanced_connections : connections l' = connections l;
  balanced_misused : misused l' = misused l
}.

#[export] Instance balanced_preorder : PreOrder balanced.
Proof.
  split; [by split|]. intros l1 l2 l3 [] []. split; [lia|congruence..].
Qed.

Lemma balanced_wf l l' : balanced l l' → wf l → wf l'.
Proof.
  intros [Hi Hr Hc _] Hw n. rewrite Hr, Hc. intros Hn. specialize (Hw n Hn). lia.
Qed.

Lemma used_balanced n l : n ∈ connections l → balanced l (use_connection n l).
Proof.
  intros Hn. split; [done..|]; simpl. rewrite bool_decide_false by auto.
  apply orb_false_r.
Qed.

Lemma cleared_balanced l : wf l → balanced l (clear_result (issued l) (new_result l)).
Proof.
  intros Hw. assert (issued l ∉ results l) as Hn.
  { intros Hin. apply (Nat.lt_irrefl (issued l)), Hw. set_solver. }
  split; simpl; [lia|set_solver|done|]. rewrite bool_decide_false by set_solver.
  apply orb_false_r.
Qed.

Lemma closed_balanced l l' :
  wf l → balanced (new_connection l) l' →
  balanced l (close_connection (issued l) l').
Proof.
  intros Hw [Hi Hr Hc Hm]. simpl in *. assert (issued l ∉ connections l) as Hn.
  { intros Hin. apply (Nat.lt_irrefl (issued l)), Hw. set_solver. }
  split; simpl; [lia|done|set_solver|]. rewrite bool_decide_false by set_solver.
  by rewrite Hm, orb_false_r.
Qed.

Lemma new_connection_wf l : wf l → wf (new_connection l).
Proof.
  intros Hw n Hn. simpl in *. destruct (decide (n = issued l)) as [->|Hne]; [lia|].
  assert (n < issued l)%nat by (apply Hw; set_solver). lia.
Qed.
End Ledger.
Import Ledger.

(** Any library with a ledger. *)
Definition tracked (L : Library) : Library := {|
  world := @world L * Ledger.t;
  pg_conn := nat * @pg_conn L;
  pg_result := nat * @pg_result L;
  CONNECTION_OK := CONNECTION_OK;
  PGRES_COMMAND_OK := PGRES_COMMAND_OK;
  PGRES_TUPLES_OK := PGRES_TUPLES_OK;
  PQconnectdb cs w :=
    let '(c, w') := PQconnectdb cs w.1 in
    match c with
    | Some c => (Some (issued w.2, c), (w', new_connection w.2))
    | None => (None, (w', w.2))
    end;
  PQstatus c w := PQstatus c.2 w.1;
  PQerrorMessage c w := PQerrorMessage c.2 w.1;
  PQexec c sql w :=
    let '(r, w') := PQexec c.2 sql w.1 in
    let l := use_connection c.1 w.2 in
    match r with
    | Some r => (Some (issued l, r), (w', new_result l))
    | None => (None, (w', l))
    end;
  PQexecParams c sql ps w :=
    let '(r, w') := PQexecParams c.2 sql ps w.1 in
    let l := use_connection c.1 w.2 in
    match r with
    | Some r => (Some (issued l, r), (w', new_result l))
    | None => (None, (w', l))
    end;
  PQresultStatus r := PQresultStatus r.2;
  PQresultErrorMessage r := PQresultErrorMessage r.2;
  PQresStatus := PQresStatus;
  PQntuples r := PQntuples r.2;
  PQnfields r := PQnfields r.2;
  PQgetisnull r := PQgetisnull r.2;
  PQgetvalue r := PQgetvalue r.2;
  PQclear r w := (PQclear r.2 w.1, clear_result r.1 w.2);
  PQfinish c w := (PQfinish c.2 w.1, close_connection c.1 w.2)
|}.

(** What the lemmas use of such a library. *)
Class Tracked `{lib : Library} : Type := {
  ledger : world → Ledger.t;
  connection_name : pg_conn → nat;
  result_name : pg_result → nat;
  connect_ledger cs w :
    match PQconnectdb cs w with
    | (Some c, w') => connection_name c = issued (ledger w) ∧
                      ledger w' = new_connection (ledger w)
    | (None, w') => ledger w' = ledger w
    end;
  answer_ledger c w f :
    f = PQexec ∨ (∃ ps, f = λ c sql, PQexecParams c sql ps) →
    ∀ sql, let l := use_connection (connection_name c) (ledger w) in
      match f c sql w with
      | (Some r, w') => result_name r = issued l ∧ ledger w' = new_result l
      | (None, w') => ledger w' = l
      end;
  clear_ledger r w : ledger (PQclear r w) = clear_result (result_name r) (ledger w);
  finish_ledger c w :
    ledger (PQfinish c w) = close_connection (connection_name c) (ledger w)
}.

#[export] Instance tracked_tracked L : Tracked (lib := tracked L).
Proof.
  refine {| ledger := snd : @world (tracked L) → _; connection_name := fst : @pg_conn (tracked L) → _;
            result_name := fst : @pg_result (tracked L) → _ |}.
  - intros cs w. simpl. by destruct (PQconnectdb cs w.1) as [[c|] w'].
  - intros c w f [->|[ps ->]] sql; simpl.
    + by destruct (PQexec c.2 sql w.1) as [[r|] w'].
    + by destruct (PQexecParams c.2 sql ps w.1) as [[r|] w'].
  - done.
  - done.
Defined.

(** ** The operations of the PostgreSQL layer *)

Section operations.
Context `{lib : Library} `{tracks : !Tracked}.

(** The connection is open. *)
Definition opened_as (n : nat) (self : PostgresConnection.t) : Prop :=
  ∃ c, self = Some c ∧ connection_name c = n.

Definition holds (n : nat) (w : world) : Prop :=
  wf (ledger w) ∧ n ∈ connections (ledger w).

Lemma balanced_holds n w w' :
  balanced (ledger w) (ledger w') → holds n w → holds n w'.
Proof.
  intros Hb [Hw Hn]. split; [by eapply balanced_wf|]. by rewrite (balanced_connections _ _ Hb).
Qed.

(** A statement on an open connection creates a result, or throws. *)
Lemma statement_ledger n self sql f w :
  opened_as n self → holds n w →
  (f = PQexec ∨ ∃ ps, f = λ c sql, PQexecParams c sql ps) →
  match (_ ← PostgresConnection.ensure_connected self;
         PostgresConnection.call self (λ c, f c sql)) w with
  | (Ret r, w') => ∃ res l, r = Some res ∧ balanced (ledger w) l ∧
      result_name res = issued l ∧ ledger w' = new_result l
  | (Throw _, w') => balanced (ledger w) (ledger w')
  | (Undef, _) => False
  end.
Proof.
  intros (c & -> & <-) [Hw Hn] Hf.
  unfold mbind, prog_bind, PostgresConnection.ensure_connected.
  destruct (negb _); [reflexivity|]. simpl. unfold mbind, prog_bind.
  pose proof (answer_ledger c w f Hf sql) as Hl. simpl in Hl.
  pose proof (used_balanced _ _ Hn) as Hb.
  destruct (f c sql w) as [[res|] w']; simpl.
  - destruct Hl as [Hres Hl]. by exists res, (use_connection (connection_name c) (ledger w)).
  - by rewrite Hl.
Qed.

(** The result is cleared behind its scope. *)
Lemma scoped_statement {A} n self sql f (body : PostgresResult.t → prog exn world A) w :
  opened_as n self → holds n w →
  (f = PQexec ∨ ∃ ps, f = λ c sql, PQexecParams c sql ps) →
  (∀ r w, (body r w).2 = w ∧ (body r w).1 ≠ Undef) →
  balanced (ledger w) (ledger ((r ← (_ ← PostgresConnection.ensure_connected self;
                                     PostgresConnection.call self (λ c, f c sql));
                                scoped (PostgresResult.destroy r) (body r)) w).2).
Proof.
  intros Hself Hh Hf Hbody. pose proof (statement_ledger n self sql f w Hself Hh Hf) as Hst.
  set (call := _ ← _; _) in *. unfold mbind, prog_bind.
  destruct (call w) as [[r|e|] w1]; [|exact Hst|done].
  destruct Hst as (res & l & -> & Hb & Hname & Hl).
  destruct (Hbody (Some res) w1) as [Hw Hdef]. unfold scoped.
  assert (balanced (ledger w) (ledger (PQclear res w1))) as Hc.
  { rewrite clear_ledger, Hl, Hname. etransitivity; [exact Hb|]. apply cleared_balanced.
    eapply balanced_wf; [exact Hb|apply Hh]. }
  destruct (body (Some res) w1) as [o w2]; simpl in Hw; subst w2. by destruct o.
Qed.

(** A body that only reads the result. *)
Lemma lift_reads {A} P (o : outcome exn A) (w : world) :
  fails_with P o → (lift o w).2 = w ∧ (lift o w).1 ≠ Undef.
Proof. intros Ho. split; [done|]. by destruct o. Qed.

Lemma init_schema_balanced n self w :
  opened_as n self → holds n w →
  balanced (ledger w) (ledger (PostgresRepository.init_schema self w).2).
Proof.
  intros Hself Hh. apply (scoped_statement n self (c_str create_sql) PQexec); [done|done|by left|].
  intros r v. eapply lift_reads, fails_expect_status.
Qed.

Lemma save_balanced n record self w :
  opened_as n self → holds n w →
  balanced (ledger w) (ledger (PostgresRepository.save record self w).2).
Proof.
  intros Hself Hh.
  apply (scoped_statement n self (c_str insert_sql) (λ c sql, PQexecParams c sql
    (fmap (M := option) c_str <$> PostgresRepository.params record)));
    [done|done|right; by eexists|].
  intros r v. eapply lift_reads, fails_expect_status.
Qed.

Lemma load_history_balanced n self w :
  opened_as n self → holds n w →
  balanced (ledger w) (ledger (PostgresRepository.load_history self w).2).
Proof.
  intros Hself Hh. apply (scoped_statement n self (c_str select_sql) PQexec); [done|done|by left|].
  intros r v.
  pose proof (fails_expect_status PGRES_TUPLES_OK "PGRES_TUPLES_OK" r) as He.
  pose proof (fails_row_count r) as Hc.
  unfold mbind, prog_bind, lift. unfold PostgresResult.expect_tuples_ok.
  destruct (PostgresResult.expect_status _ _ r) as [[]|e|]; [|done|done].
  destruct (PostgresResult.row_count r) as [count|e|]; [|done|done].
  pose proof (fails_reserve count) as Hv.
  destruct (PostgresRepository.reserve count) as [[]|e|]; [|done|done].
  split; [done|]. pose proof (fails_load_rows (Z.to_nat count) 0 r) as Hl.
  by destruct (PostgresRepository.load_rows _ r 0).
Qed.

(** The connection of a constructor that throws is closed. *)
Lemma connect_ledger_cases cs w :
  wf (ledger w) →
  match PostgresConnection.connect cs w with
  | (Ret self, w') => opened_as (issued (ledger w)) self ∧
                      ledger w' = new_connection (ledger w)
  | (Throw _, w') => balanced (ledger w) (ledger w')
  | (Undef, _) => False
  end.
Proof.
  intros Hw. unfold PostgresConnection.connect, mbind, prog_bind, unwinding,
    PostgresConnection.ensure_connected.
  pose proof (connect_ledger (c_str cs) w) as Hc.
  destruct (PQconnectdb (c_str cs) w) as [[c|] w1]; simpl.
  - destruct Hc as [Hname Hl]. case_bool_decide; simpl.
    + split; [by exists c|done].
    + rewrite finish_ledger, Hname, Hl. by apply closed_balanced.
  - by rewrite Hc.
Qed.
End operations.

(** ** The storage service and its thread *)

Section worker.
Context `{lib : Library} `{tracks : !Tracked}.

(** Nothing is held. *)
Record clean (l : Ledger.t) : Prop := mk_clean {
  clean_results : results l = ∅;
  clean_connections : connections l = ∅;
  clean_misused : misused l = false
}.

(** One connection is held. *)
Record connected_as (n : nat) (l : Ledger.t) : Prop := mk_connected_as {
  connected_results : results l = ∅;
  connected_connection : connections l = {[n]};
  connected_misused : misused l = false;
  connected_issued : (n < issued l)%nat
}.

(** A service with its own connection and no result. *)
Definition owns_connection (s : StorageService.t) : Prop :=
  ∃ n, opened_as n (StorageService.postgres_repository s) ∧
       connected_as n (ledger (StorageService.server s)).

Lemma connected_holds n w : connected_as n (ledger w) → holds n w.
Proof.
  intros [Hr Hc _ Hi]. split; [|set_solver]. intros k. rewrite Hr, Hc. set_solver.
Qed.

Lemma connected_balanced n l l' : connected_as n l → balanced l l' → connected_as n l'.
Proof. intros [] []. split; [congruence..|lia]. Qed.

Lemma clean_wf l : clean l → wf l.
Proof. intros [Hr Hc _] n. rewrite Hr, Hc. set_solver. Qed.

Lemma clean_balanced l l' : clean l → balanced l l' → clean l'.
Proof. intros [] []. split; congruence. Qed.

(** A call of the repository by a service. *)
Lemma postgres_owns {A} (call : PostgresConnection.t → prog exn world A) s :
  (∀ n self w, opened_as n self → holds n w →
     balanced (ledger w) (ledger (call self w).2)) →
  owns_connection s → owns_connection (StorageService.postgres call s).2.
Proof.
  intros Hcall (n & Hself & Hc). exists n. unfold StorageService.postgres.
  pose proof (Hcall n _ _ Hself (connected_holds _ _ Hc)) as Hb.
  destruct (call _ _) as [o w]; simpl in *. split; [done|].
  by eapply connected_balanced.
Qed.

Lemma set_cache_owns c s : owns_connection s → owns_connection (StorageService.set_cache c s).
Proof. done. Qed.

Lemma initialize_owns s : owns_connection s → owns_connection (StorageService.initialize s).2.
Proof.
  intros Hs. unfold StorageService.initialize, mbind, prog_bind.
  pose proof (postgres_owns PostgresRepository.init_schema s init_schema_balanced Hs) as H1.
  destruct (StorageService.postgres PostgresRepository.init_schema s) as [[[]|e|] s1];
    [|done|done].
  pose proof (postgres_owns PostgresRepository.load_history s1 load_history_balanced H1) as H2.
  by destruct (StorageService.postgres PostgresRepository.load_history s1) as [[h|e|] s2].
Qed.

Lemma execute_owns j s : owns_connection s → owns_connection (StorageWorker.execute j s).2.
Proof.
  intros Hs. destruct j as [a x op|r]; [done|]. unfold StorageWorker.execute, StorageService.save.
  set (s' := StorageService.set_cache
    (CacheRepository.put r (StorageService.cache_repository s)) s).
  pose proof (postgres_owns (PostgresRepository.save r) s'
    (λ n, save_balanced n r) (set_cache_owns _ _ Hs)) as H.
  unfold mbind, prog_bind, modify. fold s'.
  by destruct (StorageService.postgres (PostgresRepository.save r) s').
Qed.

Lemma destroy_clean s : owns_connection s → clean (ledger (StorageService.destroy s)).
Proof.
  intros (n & (c & Hself & Hname) & [Hr Hc Hm Hi]).
  unfold StorageService.destroy. rewrite Hself; simpl. rewrite finish_ledger, Hname.
  split; simpl; [done|set_solver|]. rewrite Hm, bool_decide_false by set_solver. done.
Qed.

Lemma open_storage_owns cs w :
  clean (ledger w) →
  match StorageWorker.open_storage cs w with
  | (Ret s, _) => owns_connection s
  | (Throw _, w') => clean (ledger w')
  | (Undef, _) => False
  end.
Proof.
  intros Hw. pose proof (connect_ledger_cases cs w (clean_wf _ Hw)) as Hc.
  unfold StorageWorker.open_storage.
  destruct (PostgresConnection.connect cs w) as [[self|e|] w1]; [|by eapply clean_balanced|done].
  destruct Hc as [Hself Hl]. set (s := StorageService.mk ∅ self w1).
  assert (owns_connection s) as Hs.
  { exists (issued (ledger w)). split; [done|]. simpl. rewrite Hl. destruct Hw as [Hr Hc Hm].
    split; simpl; [done|rewrite Hc; set_solver|done|lia]. }
  pose proof (initialize_owns s Hs) as Hi. pose proof (fails_initialize s) as Hv.
  destruct (StorageService.initialize s) as [[[]|e|] s']; simpl in *; [done|..|done].
  by apply destroy_clean.
Qed.

(** What the storage thread holds: one connection while it serves, and nothing
    before and afterwards. *)
Definition phase_holds (p : StorageWorker.phase) : Prop :=
  match p with
  | StorageWorker.Waiting s | StorageWorker.Executing _ _ s => owns_connection s
  | StorageWorker.NoThread w | StorageWorker.Initializing w | StorageWorker.Returned w =>
      clean (ledger w)
  end.

Lemma thread_main_holds w w' :
  StorageWorker.thread_main w = Some w' →
  phase_holds (StorageWorker.worker w) → phase_holds (StorageWorker.worker w').
Proof.
  unfold StorageWorker.thread_main.
  destruct (StorageWorker.worker w) as [v|v|s|n j s|v]; intros Hw Hp; simplify_eq.
  - pose proof (open_storage_owns (StorageWorker.database_connection_string w) v Hp) as Ho.
    destruct (StorageWorker.open_storage _ v) as [[s|e|] v']; simplify_eq; done.
  - destruct (StorageWorker.jobs w) as [|[n j] rest]; simplify_eq; [|done].
    destruct (StorageWorker.stopping w); simplify_eq. by apply destroy_clean.
  - pose proof (execute_owns j s Hp) as He.
    destruct (StorageWorker.execute j s); simplify_eq. done.
Qed.

Lemma enqueue_holds j w o w' :
  StorageWorker.enqueue j w = (o, w') →
  phase_holds (StorageWorker.worker w) → phase_holds (StorageWorker.worker w').
Proof. unfold StorageWorker.enqueue. by destruct (StorageWorker.stopping w); intros; simplify_eq. Qed.

Lemma start_holds w o w' :
  StorageWorker.start w = (o, w') →
  phase_holds (StorageWorker.worker w) → phase_holds (StorageWorker.worker w').
Proof.
  unfold StorageWorker.start, StorageWorker.set_stopping; simpl.
  by destruct (StorageWorker.worker w) eqn:Hw; intros; simplify_eq; simpl; rewrite ?Hw.
Qed.

Lemma join_holds w w' :
  StorageWorker.join w = Some w' →
  phase_holds (StorageWorker.worker w) → phase_holds (StorageWorker.worker w').
Proof.
  unfold StorageWorker.join.
  by destruct (StorageWorker.worker w) eqn:Hw; intros; simplify_eq; simpl; rewrite ?Hw.
Qed.
End worker.
