(* ===== verification/WorkerStorage.v ===== *)
(** * The storage worker as a storage

    What a network thread sees of [StorageWorker::find] and [save]: a storage
    that answers at once and refuses every call after a stop.  The view meets
    the laws of [IOperationStorage], so that the theorems on the request handler
    hold on it, and the worker refines it. *)

From stdpp Require Import base tactics strings list gmap.
From S2P Require Import Prelude.
From S2P Require Import Types.
From S2P Require Import CppString.
From S2P Require Import OperationKey.
From S2P Require Import CacheRepository.
From S2P Require Import Postgres.
From S2P Require Import OperationStorage.
From S2P Require Import StorageService.
From S2P Require Import StorageWorker.
From S2P Require Import WorkerCorrect.
Import Libpq.

(** ** The view *)

Module WorkerView.
Section worker_view.
Context `{lib : Libpq.Library}.

Record t : Type := mk { service : StorageService.t; stopped : bool }.

Definition stopping_error : exn := StdException "storage worker is stopping".

Definition guarded {A} (m : prog exn StorageService.t A) : prog exn t A := λ v,
  if stopped v then (Throw stopping_error, v)
  else let '(o, s) := m (service v) in (o, mk s false).

Definition find (first_number : Z) (second_number : option Z)
    (operation : string) : prog exn t (option OperationRecord.t) :=
  guarded (StorageService.find first_number second_number operation).

Definition save (record : OperationRecord.t) : prog exn t unit :=
  guarded (StorageService.save record).

#[export] Instance storage : IOperationStorage t := {|
  OperationStorage.find := find;
  OperationStorage.save := save
|}.

#[export] Instance laws : StorageLaws t.
Proof.
  refine {| records v := records (service v) |}.
  - intros a x op [s []]; simpl; [split; [done|left; by eexists]|].
    exact (find_law a x op s).
  - intros r [s []].
    + split; [done|right; split; [done|discriminate]].
    + pose proof (save_law r s) as Hs. cbn [OperationStorage.save storage].
      unfold save, guarded. cbn [stopped service].
      change (OperationStorage.save r s) with (StorageService.save r s) in Hs.
      by destruct (StorageService.save r s) as [o s'].
Defined.

#[export] Instance reliable `{doc : !Documented} : ReliableStorage t.
Proof.
  refine {| serving v := stopped v = false ∧ serving (service v) |}.
  - intros a x op [s []] [? Hs]; [done|]. simpl in *. split; [done|].
    exact (proj2 (reliable_find a x op s Hs)).
  - intros r [s []] [? Hs] Hr; [done|].
    pose proof (reliable_save r s Hs Hr) as Hsave.
    cbn [OperationStorage.save storage]. unfold save, guarded.
    cbn [stopped service] in *.
    change (OperationStorage.save r s) with (StorageService.save r s) in Hsave.
    destruct (StorageService.save r s) as [o s']. naive_solver.
Defined.
End worker_view.
End WorkerView.
#[export] Existing Instance WorkerView.storage.
#[export] Existing Instance WorkerView.laws.
#[export] Existing Instance WorkerView.reliable.

(** ** A call of a network thread

    [find] or [save] up to the end of [future.get()]: the job is enqueued and
    the thread waits while the worker thread works; [None] when no reply will
    come. *)

Section calls.
Context `{lib : Libpq.Library}.

Definition await {A} (read : StorageWorker.reply → option (outcome exn A))
    (call : prog exn StorageWorker.t nat) (w : StorageWorker.t) :
    option (outcome exn A) * StorageWorker.t :=
  match call w with
  | (Ret ticket, w1) =>
      let w2 := StorageWorker.drain (2 * length (StorageWorker.jobs w1) + 2) w1 in
      (StorageWorker.future ticket w2 ≫= read, w2)
  | (Throw e, w1) => (Some (Throw e), w1)
  | (Undef, w1) => (Some Undef, w1)
  end.

Definition read_found (r : StorageWorker.reply) :
    option (outcome exn (option OperationRecord.t)) :=
  match r with
  | StorageWorker.Found o => Some o
  | StorageWorker.Saved _ => None
  end.

Definition read_saved (r : StorageWorker.reply) : option (outcome exn unit) :=
  match r with
  | StorageWorker.Saved o => Some o
  | StorageWorker.Found _ => None
  end.

(** The view of a worker that was ready on [s0] and accepted [h]. *)
Definition view (s0 : StorageService.t) (h : list StorageWorker.job)
    (w : StorageWorker.t) : WorkerView.t :=
  WorkerView.mk (StorageWorker.replay h s0).2 (StorageWorker.stopping w).

Lemma await_reached {A} (read : StorageWorker.reply → option (outcome exn A))
    j s0 h w (m : prog exn StorageService.t A) (wrap : outcome exn A → StorageWorker.reply) :
  reached s0 h w →
  (∀ o, read (wrap o) = Some o) →
  (∀ s, StorageWorker.execute j s = (wrap (m s).1, (m s).2)) →
  ∃ h', reached s0 h' (await read (StorageWorker.enqueue j) w).2 ∧
    (await read (StorageWorker.enqueue j) w).1 =
      Some (WorkerView.guarded m (view s0 h w)).1 ∧
    view s0 h' (await read (StorageWorker.enqueue j) w).2 =
      (WorkerView.guarded m (view s0 h w)).2.
Proof.
  intros Hw Hread Hj. unfold await.
  destruct (StorageWorker.enqueue j w) as [[n|e|] w1] eqn:He.
  - destruct (enqueue_reached s0 h w j n w1 Hw He) as [Hw1 ->].
    assert (StorageWorker.stopping w = false ∧ StorageWorker.stopping w1 = false)
      as [Hs Hs1].
    { unfold StorageWorker.enqueue in He.
      destruct (StorageWorker.stopping w); by simplify_eq. }
    exists (h ++ [j]). set (w2 := StorageWorker.drain _ w1). simpl.
    assert (reached s0 (h ++ [j]) w2) as Hw2 by by apply drain_reached.
    assert (StorageWorker.thread_main w2 = None) as Hb.
    { apply drain_blocked. destruct Hw1 as [completed _ _ Hp]. unfold moves.
      destruct (StorageWorker.worker w1); try done; lia. }
    destruct (blocked_reached _ _ _ Hw2 Hb) as [Hf _].
    unfold view, WorkerView.guarded, StorageWorker.future; simpl.
    rewrite Hs. replace (StorageWorker.stopping w2) with false
      by (unfold w2; by rewrite drain_stopping).
    rewrite Hf, replay_app; simpl. rewrite Hj.
    destruct (m (StorageWorker.replay h s0).2) as [o s']; simpl.
    split_and!; [done| |done].
    rewrite list_lookup_middle by by rewrite replay_length.
    by rewrite <-Hread.
  - unfold StorageWorker.enqueue in He.
    destruct (StorageWorker.stopping w) eqn:Hs; simplify_eq.
    exists h. unfold view, WorkerView.guarded; simpl. by rewrite Hs.
  - unfold StorageWorker.enqueue in He.
    by destruct (StorageWorker.stopping w).
Qed.

(** The worker refines its view.  On a worker that was ready, whatever jobs
    are still queued, a call of [find] or [save] by a network thread comes back,
    with the outcome of the same call on the view (the storage service after all
    jobs accepted before, or the refusal after a stop), and leaves a worker
    whose view is the one after that call. *)
Lemma worker_refines_view s0 h w :
  reached s0 h w →
  (∀ a x op, ∃ h',
     let '(o, w') := await read_found (StorageWorker.find a x op) w in
     let '(o', v') := WorkerView.find a x op (view s0 h w) in
     reached s0 h' w' ∧ o = Some o' ∧ view s0 h' w' = v') ∧
  (∀ r, ∃ h',
     let '(o, w') := await read_saved (StorageWorker.save r) w in
     let '(o', v') := WorkerView.save r (view s0 h w) in
     reached s0 h' w' ∧ o = Some o' ∧ view s0 h' w' = v').
Proof.
  intros Hw. split.
  - intros a x op.
    destruct (await_reached read_found (StorageWorker.Find a x op) s0 h w
      (StorageService.find a x op) StorageWorker.Found Hw) as (h' & H1 & H2 & H3);
      [done|done|].
    exists h'. unfold StorageWorker.find, WorkerView.find.
    destruct (await read_found _ w), (WorkerView.guarded _ _). by simpl in *.
  - intros r.
    destruct (await_reached read_saved (StorageWorker.Save r) s0 h w
      (StorageService.save r) StorageWorker.Saved Hw) as (h' & H1 & H2 & H3);
      [done| |].
    { intros s; simpl. by destruct (StorageService.save r s). }
    exists h'. unfold StorageWorker.save, WorkerView.save.
    destruct (await read_saved _ w), (WorkerView.guarded _ _). by simpl in *.
Qed.
End calls.

Example worker_refines_view_witness :
  ∃ w', await read_saved (StorageWorker.save sum_record) ready_on_table =
    (Some (Ret ()), w').
Proof.
  pose proof (proj2 (worker_refines_view _ [] ready_on_table
    (ready_reached "host=localhost" _)) sum_record) as (h' & Hs).
  assert (bool_decide ((WorkerView.save sum_record (view
    (StorageService.mk (H := TableServer.library) ∅ (Some ()) up_server) []
    ready_on_table)).1 = Ret ()) = true) as E by (vm_compute; reflexivity).
  apply bool_decide_eq_true in E.
  destruct (await _ _ _) as [o w']. exists w'.
  destruct (WorkerView.save _ _) as [o' v']. simpl in E. subst o'.
  by destruct Hs as (_ & -> & _).
Defined.
