(* ===== verification/ServerSystem.v ===== *)
(** * The server's threads together

    Network threads that run [handle], each blocked on the future of its
    current storage call ([StorageWorker::find] and [save] in
    [server/src/storage-worker.cpp]), the worker thread behind the queue, and a
    thread that may call [stop]: any interleaving of their critical sections. *)

From stdpp Require Import base tactics strings list gmap relations.
From S2P Require Import Prelude.
From S2P Require Import Types.
From S2P Require Import CppString.
From S2P Require Import Abacus.
From S2P Require Import OperationKey.
From S2P Require Import Postgres.
From S2P Require Import OperationStorage.
From S2P Require Import StorageService.
From S2P Require Import RequestHandler.
From S2P Require Import HandlerConcurrent.
From S2P Require Import StorageWorker.
From S2P Require Import WorkerStorage.

Module ServerSystem.
Section system.
Context `{lib : Libpq.Library}.
Context `{protocol : Protocol.Library} `{math : CalculatorMath.Library}.
Variable steady_clock : nat → Z.

(** A call of [handle], and the future it waits for. *)
Record client : Type := mk_client { request : thread; waiting : option nat }.

Record t : Type := mk { clients : gmap nat client; storage_ : StorageWorker.t }.

(** [storage_->find] and [storage_->save] up to [future.get()]. *)
Definition post (c : storage_call) : prog exn StorageWorker.t nat :=
  match c with
  | FindCall a x op => StorageWorker.find a x op
  | SaveCall r => StorageWorker.save r
  end.

(** What [future.get()] returns or throws. *)
Definition received (r : StorageWorker.reply) : storage_reply :=
  match r with
  | StorageWorker.Found o => FindReply o
  | StorageWorker.Saved o => SaveReply o
  end.

(** The call of [post] throws. *)
Definition thrown_reply (c : storage_call) (e : exn) : storage_reply :=
  match c with
  | FindCall _ _ _ => FindReply (Throw e)
  | SaveCall _ => SaveReply (Throw e)
  end.

Definition add_reply (r : storage_reply) (h : thread) : thread :=
  mk_thread (request_json h) (reads h) (replies h ++ [r]).

(** The moves of the server's own threads. *)
Inductive move : t → t → Prop :=
  | move_post i h c ticket cs w w' :
      cs !! i = Some (mk_client h None) → next_call steady_clock h = Some c →
      post c w = (Ret ticket, w') →
      move (mk cs w) (mk (<[i := mk_client h (Some ticket)]> cs) w')
  | move_refused i h c e cs w w' :
      cs !! i = Some (mk_client h None) → next_call steady_clock h = Some c →
      post c w = (Throw e, w') →
      move (mk cs w)
        (mk (<[i := mk_client (add_reply (thrown_reply c e) h) None]> cs) w')
  | move_get i h ticket r cs w :
      cs !! i = Some (mk_client h (Some ticket)) →
      StorageWorker.future ticket w = Some r →
      move (mk cs w) (mk (<[i := mk_client (add_reply (received r) h) None]> cs) w)
  | move_worker cs w w' :
      StorageWorker.thread_main w = Some w' → move (mk cs w) (mk cs w').

(** What happens to the server: its own moves, a request that arrives, and a
    call of [stop]. *)
Inductive step : t → t → Prop :=
  | step_move s s' : move s s' → step s s'
  | step_arrive i json n cs w :
      cs !! i = None →
      step (mk cs w) (mk (<[i := mk_client (mk_thread json n []) None]> cs) w)
  | step_stop cs w : step (mk cs w) (mk cs (StorageWorker.request_stop w)).

(** A request whose handler is done. *)
Definition done_client (c : client) : Prop :=
  waiting c = None ∧ next_call steady_clock (request c) = None.

(** ** The specification: a storage that answers at once

    The pool of [HandlerConcurrent] on the view of the worker, in which a stop
    may be requested at any time. *)

Inductive atomic_step : pool (S := WorkerView.t) → pool (S := WorkerView.t) → Prop :=
  | atomic_pool p p' : pool_step steady_clock p p' → atomic_step p p'
  | atomic_stop ts v :
      atomic_step (ts, v) (ts, WorkerView.mk (WorkerView.service v) true).

(** The request as the specification sees it: a call that is posted is
    answered, with the reply that the worker will give. *)
Definition answered_request (expected : list StorageWorker.reply) (c : client) :
    thread :=
  match waiting c ≫= λ ticket, expected !! ticket with
  | Some r => add_reply (received r) (request c)
  | None => request c
  end.
End system.
End ServerSystem.
