(* ===== verification/SystemCorrect.v ===== *)
(** * The server's threads answer right

    The composed system refines a storage that answers at once, and answers each
    request right. *)

From stdpp Require Import base tactics strings list gmap relations.
From S2P Require Import Prelude.
From S2P Require Import Types.
From S2P Require Import CppString.
From S2P Require Import Checker.
From S2P Require Import Abacus.
From S2P Require Import OperationKey.
From S2P Require Import CacheRepository.
From S2P Require Import Postgres.
From S2P Require Import OperationStorage.
From S2P Require Import StorageService.
From S2P Require Import RequestHandler.
From S2P Require Import LineProtocol.
From S2P Require Import HandlerSafety.
From S2P Require Import HandlerCorrect.
From S2P Require Import HandlerTheorems.
From S2P Require Import Restart.
From S2P Require Import HandlerConcurrent.
From S2P Require Import HandlerFailing.
From S2P Require Import StorageWorker.
From S2P Require Import WorkerCorrect.
From S2P Require Import WorkerStorage.
From S2P Require Import ServerSystem.
Import Protocol.
Import RequestHandler.
Import ServerSystem.

(** ** The system refines the atomic storage *)

Section refinement.
Context `{lib : Libpq.Library}.
Context `{protocol : Protocol.Library} `{math : CalculatorMath.Library}.
Variable steady_clock : nat → Z.
Variable s0 : StorageService.t.

(** The jobs [h] were accepted; each waiting client has the ticket of one. *)
Record linked (h : list StorageWorker.job) (s : ServerSystem.t) : Prop := mk_linked {
  linked_worker : reached s0 h (storage_ s);
  linked_tickets i c ticket :
    clients s !! i = Some c → waiting c = Some ticket → (ticket < length h)%nat
}.

(** What the specification sees of a state. *)
Definition abstract (h : list StorageWorker.job) (s : ServerSystem.t) :
    pool (S := WorkerView.t) :=
  (answered_request (StorageWorker.replay h s0).1 <$> clients s,
   view s0 h (storage_ s)).

Definition job_of (c : storage_call) : StorageWorker.job :=
  match c with
  | FindCall a x op => StorageWorker.Find a x op
  | SaveCall r => StorageWorker.Save r
  end.

Lemma post_enqueue c w : post c w = StorageWorker.enqueue (job_of c) w.
Proof. by destruct c. Qed.

(** The atomic call does what the worker will do. *)
Lemma execute_view c v :
  execute c v =
    if WorkerView.stopped v then (thrown_reply c WorkerView.stopping_error, v)
    else let '(r, s) := StorageWorker.execute (job_of c) (WorkerView.service v) in
         (received r, WorkerView.mk s false).
Proof.
  destruct v as [s []], c as [a x op|r]; simpl; try reflexivity.
  unfold WorkerView.save, WorkerView.guarded; simpl.
  by destruct (StorageService.save r s).
Qed.

(** A further job changes no earlier reply. *)
Lemma answered_request_snoc h j c :
  (∀ ticket, waiting c = Some ticket → (ticket < length h)%nat) →
  answered_request (StorageWorker.replay (h ++ [j]) s0).1 c =
  answered_request (StorageWorker.replay h s0).1 c.
Proof.
  intros Ht. unfold answered_request.
  destruct (waiting c) as [ticket|]; simpl; [|done].
  rewrite replay_app; simpl. rewrite lookup_app_l; [done|].
  rewrite replay_length. by apply Ht.
Qed.

Lemma abstract_post h j s i r w' :
  linked h s →
  (answered_request (StorageWorker.replay (h ++ [j]) s0).1 <$>
     <[i := mk_client r (Some (length h))]> (clients s)) =
  <[i := answered_request (StorageWorker.replay (h ++ [j]) s0).1
           (mk_client r (Some (length h)))]> (abstract h (mk (clients s) w')).1.
Proof.
  intros [_ Ht]. rewrite fmap_insert. f_equal. simpl.
  apply map_fmap_ext. intros i' c Hc. apply answered_request_snoc. eauto.
Qed.

Lemma replay_last h j :
  (StorageWorker.replay (h ++ [j]) s0).1 !! length h =
    Some (StorageWorker.execute j (StorageWorker.replay h s0).2).1 ∧
  (StorageWorker.replay (h ++ [j]) s0).2 =
    (StorageWorker.execute j (StorageWorker.replay h s0).2).2.
Proof.
  rewrite replay_app; simpl. destruct (StorageWorker.execute j _) as [r s]; simpl.
  split; [|done]. rewrite lookup_app_r; rewrite replay_length; [|lia].
  by rewrite Nat.sub_diag.
Qed.
Lemma enqueue_stopping j w n w' :
  StorageWorker.enqueue j w = (Ret n, w') →
  StorageWorker.stopping w = false ∧ StorageWorker.stopping w' = false.
Proof. unfold StorageWorker.enqueue. by destruct (StorageWorker.stopping w) eqn:?; intros; simplify_eq. Qed.

Lemma post_refines h s i r c ticket w' :
  linked h s → clients s !! i = Some (mk_client r None) →
  next_call steady_clock r = Some c → post c (storage_ s) = (Ret ticket, w') →
  let s' := mk (<[i := mk_client r (Some ticket)]> (clients s)) w' in
  linked (h ++ [job_of c]) s' ∧
  atomic_step steady_clock (abstract h s) (abstract (h ++ [job_of c]) s').
Proof.
  intros Hl Hi Hc. rewrite post_enqueue. intros He s'.
  destruct (enqueue_reached s0 h _ _ _ _ (linked_worker _ _ Hl) He) as [Hw ->].
  destruct (enqueue_stopping _ _ _ _ He) as [Hstop Hstop'].
  destruct (replay_last h (job_of c)) as [Hreply Hstate]. split.
  - split; [done|]. simpl. intros i' c' ticket. rewrite length_app; simpl.
    intros [[<- <-]|[_ Hc']]%lookup_insert_Some; simpl.
    + intros [= <-]. lia.
    + intros Ht. pose proof (linked_tickets _ _ Hl _ _ _ Hc' Ht). lia.
  - apply atomic_pool. unfold abstract at 2. cbn [clients storage_ s'].
    rewrite (abstract_post _ _ s _ _ (storage_ s)) by done.
    unfold answered_request at 1; cbn [waiting request]; simpl. rewrite Hreply.
    apply (step_call _ i r c).
    + rewrite lookup_fmap, Hi. done.
    + done.
    + rewrite execute_view. cbn [WorkerView.stopped view]. rewrite Hstop.
      cbn [WorkerView.service view].
      rewrite (surjective_pairing (StorageWorker.execute _ _)).
      unfold view. by rewrite Hstate, Hstop'.
Qed.

Lemma refused_refines h s i r c e w' :
  linked h s → clients s !! i = Some (mk_client r None) →
  next_call steady_clock r = Some c → post c (storage_ s) = (Throw e, w') →
  let s' := mk (<[i := mk_client (add_reply (thrown_reply c e) r) None]> (clients s)) w' in
  linked h s' ∧ atomic_step steady_clock (abstract h s) (abstract h s').
Proof.
  intros Hl Hi Hc. rewrite post_enqueue. unfold StorageWorker.enqueue.
  destruct (StorageWorker.stopping (storage_ s)) eqn:Hstop; [|done].
  intros [= <- <-]. split.
  - split; [apply Hl|]. simpl. intros i' c' ticket.
    intros [[<- <-]|[_ Hc']]%lookup_insert_Some; [done|]. by eapply linked_tickets.
  - apply atomic_pool. unfold abstract. cbn [clients storage_].
    rewrite fmap_insert. apply (step_call _ i r c).
    + by rewrite lookup_fmap, Hi.
    + done.
    + rewrite execute_view. cbn [WorkerView.stopped view]. by rewrite Hstop.
Qed.

Lemma get_refines h s i r ticket reply :
  linked h s → clients s !! i = Some (mk_client r (Some ticket)) →
  StorageWorker.future ticket (storage_ s) = Some reply →
  let s' := mk (<[i := mk_client (add_reply (received reply) r) None]> (clients s))
              (storage_ s) in
  linked h s' ∧ abstract h s' = abstract h s.
Proof.
  intros Hl Hi Hf s'. split.
  - split; [apply Hl|]. simpl. intros i' c' ticket'.
    intros [[<- <-]|[_ Hc']]%lookup_insert_Some; [done|]. by eapply linked_tickets.
  - unfold abstract. cbn [clients storage_ s']. f_equal. rewrite fmap_insert.
    apply insert_id. rewrite lookup_fmap, Hi; simpl.
    destruct (reached_future _ _ _ _ _ (linked_worker _ _ Hl) Hf) as [Hr _].
    unfold answered_request; simpl. by rewrite Hr.
Qed.

Lemma worker_refines h s w' :
  linked h s → StorageWorker.thread_main (storage_ s) = Some w' →
  linked h (mk (clients s) w') ∧ abstract h (mk (clients s) w') = abstract h s.
Proof.
  intros Hl Hw. split.
  - split; [|apply Hl]. eapply thread_main_reached; [apply Hl|exact Hw].
  - unfold abstract, view; simpl. by rewrite (thread_main_stopping _ _ Hw).
Qed.

(** Each step of the system is a step of the specification, or none. *)
Lemma step_refines h s s' :
  linked h s → step steady_clock s s' →
  ∃ h', linked h' s' ∧ rtc (atomic_step steady_clock) (abstract h s) (abstract h' s').
Proof.
  intros Hl Hstep. revert Hl.
  destruct Hstep as [s s' Hmove|i json n cs w Hi|cs w].
  - destruct Hmove as [i r c ticket cs w w' Hi Hc Hp|i r c e cs w w' Hi Hc Hp
      |i r ticket reply cs w Hi Hf|cs w w' Hw]; intros Hl.
    + destruct (post_refines h (mk cs w) i r c ticket w') as [? ?]; [done..|].
      eauto using rtc_once.
    + destruct (refused_refines h (mk cs w) i r c e w') as [? ?]; [done..|].
      eauto using rtc_once.
    + destruct (get_refines h (mk cs w) i r ticket reply) as [? Ha]; [done..|].
      exists h. split; [done|]. cbn in Ha. rewrite Ha. apply rtc_refl.
    + destruct (worker_refines h (mk cs w) w') as [? Ha]; [done..|].
      exists h. split; [done|]. cbn in Ha. rewrite Ha. apply rtc_refl.
  - intros Hl. exists h. split.
    + split; [apply Hl|]. simpl. intros i' c' ticket.
      intros [[<- <-]|[_ Hc']]%lookup_insert_Some; [done|]. by eapply linked_tickets.
    + apply rtc_once, atomic_pool. unfold abstract; simpl. rewrite fmap_insert.
      apply HandlerConcurrent.step_arrive. by rewrite lookup_fmap, Hi.
  - intros Hl. exists h. split.
    + split; [by apply request_stop_reached, Hl|apply Hl].
    + apply rtc_once, atomic_stop.
Qed.

Lemma run_refines h s s' :
  linked h s → rtc (step steady_clock) s s' →
  ∃ h', linked h' s' ∧ rtc (atomic_step steady_clock) (abstract h s) (abstract h' s').
Proof.
  intros Hl Hrun. revert h Hl.
  induction Hrun as [s|s s1 s' Hstep _ IH]; intros h Hl; [by eauto using rtc_refl|].
  destruct (step_refines h s s1 Hl Hstep) as (h1 & Hl1 & Ha1).
  destruct (IH h1 Hl1) as (h' & Hl' & Ha'). exists h'. split; [done|]. by etransitivity.
Qed.

(** The server when its storage thread is ready and no request arrived. *)
Definition started (cs : string) : ServerSystem.t := mk ∅ (ready cs s0).

Lemma started_linked cs : linked [] (started cs).
Proof.
  split; [apply ready_reached|]. intros i c ticket Hi. simpl in Hi.
  by rewrite lookup_empty in Hi.
Qed.

Lemma started_abstract cs : abstract [] (started cs) = (∅, WorkerView.mk s0 false).
Proof. unfold abstract; simpl. by rewrite fmap_empty. Qed.
End refinement.

(** ** The atomic storage is honest, and refuses calls only after a stop *)

Definition stop_failures (fails : exn → Prop) (e : exn) : Prop :=
  fails e ∨ e = WorkerView.stopping_error.

Section atomic.
Context `{lib : Libpq.Library}.
Context `{protocol : Protocol.Library} `{total : !Protocol.Total}.
Context `{math : CalculatorMath.Library} `{symmetric : !CalculatorMath.Symmetric}.
(** How the storage service may fail. *)
Context {fails : exn → Prop} {asks : storage_call → Prop}
  `{service_honest : !HonestStorage StorageService.t fails asks}.
Variable steady_clock : nat → Z.

Abbreviation stop_fails := (stop_failures fails).

Lemma stop_fails_std : std_failures stop_fails.
Proof. intros e [He| ->]; [by apply honest_fails|right; by eexists]. Qed.

Lemma fails_stop_fails e : fails e → stop_fails e.
Proof. by left. Qed.

Lemma stop_honest m : honest stop_fails m → honest fails m.
Proof.
  intros Hm k r Hr. destruct (Hm k r Hr) as [?|(c & what & [Hf|[=]] & ?)]; [by left|].
  right. by exists c, what.
Qed.

Record view_ok (p : pool (S := WorkerView.t)) : Prop := mk_view_ok {
  view_available : available (WorkerView.service p.2);
  view_honest : honest fails (records p.2);
  view_threads : map_Forall (λ _, honest_thread stop_fails) p.1;
  view_calm : WorkerView.stopped p.2 = false → map_Forall (λ _, honest_thread fails) p.1
}.

(** A call before the stop. *)
Lemma called_view_ok i t c r ts v v' :
  view_ok (ts, v) → WorkerView.stopped v = false → ts !! i = Some t →
  next_call steady_clock t = Some c → execute c v = (r, v') →
  view_ok (<[i := mk_thread (request_json t) (reads t) (replies t ++ [r])]> ts, v').
Proof.
  intros [Hs Hm Hts Hcalm] Hst Hi Hc He. specialize (Hcalm Hst). simpl in *.
  pose proof (Hcalm i t Hi) as Ht.
  rewrite execute_view, Hst in He.
  destruct (honest_execute c (WorkerView.service v) Hs (honest_asks _ _ _ Ht Hc))
    as [Hs' Hcall].
  assert (execute c (WorkerView.service v) =
    (received (StorageWorker.execute (job_of c) (WorkerView.service v)).1,
     (StorageWorker.execute (job_of c) (WorkerView.service v)).2)) as Hexe.
  { destruct c as [a x op|rec]; simpl; [done|].
    by destruct (StorageService.save rec (WorkerView.service v)). }
  rewrite Hexe in Hs', Hcall.
  destruct (StorageWorker.execute (job_of c) (WorkerView.service v)) as [r' s'].
  simpl in *. injection He as <- <-.
  destruct (honest_step steady_clock fails honest_fails t c _ _ _ Hm Ht Hc Hcall)
    as [Hm' Ht'].
  split; simpl; [done|done|..]; [|intros _]; (apply map_Forall_insert_2; [|done]).
  - by apply (honest_thread_weaken fails); [apply fails_stop_fails|].
  - done.
Qed.

(** A call after the stop. *)
Lemma refused_view_ok i t c ts v :
  view_ok (ts, v) → WorkerView.stopped v = true → ts !! i = Some t →
  next_call steady_clock t = Some c →
  view_ok (<[i := add_reply (thrown_reply c WorkerView.stopping_error) t]> ts, v).
Proof.
  intros [Hs Hm Hts Hcalm] Hst Hi Hc. simpl in *.
  split; simpl; [done|done| |by rewrite Hst].
  apply map_Forall_insert_2; [|done].
  eapply (honest_step steady_clock stop_fails stop_fails_std t c _ (records v) (records v));
    [|exact (Hts i t Hi)|exact Hc|].
  - intros k r Hr. apply (honest_record_weaken fails); [apply fails_stop_fails|].
    exact (Hm k r Hr).
  - destruct c as [a x op|r]; simpl.
    + split; [right; eexists; split; [by right|done]|done].
    + split; [constructor; by right|by right].
Qed.

Lemma atomic_view_ok p p' : atomic_step steady_clock p p' → view_ok p → view_ok p'.
Proof.
  intros [p1 p2 Hstep|ts v].
  - destruct Hstep as [i json n ts v Hi|i t c r ts v v' Hi Hc He]; intros Hp.
    + destruct Hp as [Hs Hm Hts Hcalm].
      split; simpl in *; [done|done|..]; [|intros Hst];
        (apply map_Forall_insert_2; [by apply honest_new|auto]).
    + destruct (WorkerView.stopped v) eqn:Hst.
      * rewrite execute_view, Hst in He. injection He as <- <-.
        by apply refused_view_ok.
      * by eapply called_view_ok.
  - intros [Hs Hm Hts Hcalm]. by split.
Qed.

Lemma run_view_ok p p' : rtc (atomic_step steady_clock) p p' → view_ok p → view_ok p'.
Proof. induction 1; eauto using atomic_view_ok. Qed.

(** ** Invariant of the system *)

Definition system_ok (s0 : StorageService.t) (s : ServerSystem.t) : Prop :=
  ∃ h, linked s0 h s ∧ view_ok (abstract s0 h s).

Lemma run_system_ok s0 s s' :
  rtc (step steady_clock) s s' → system_ok s0 s → system_ok s0 s'.
Proof.
  intros Hrun (h & Hl & Hv).
  destruct (run_refines steady_clock s0 h s s' Hl Hrun) as (h' & Hl' & Hrun').
  exists h'. split; [done|]. by eapply run_view_ok.
Qed.

Lemma started_system_ok s0 cs :
  available s0 → honest fails (records s0) → system_ok s0 (started s0 cs).
Proof.
  intros Hs Hm. exists []. split; [apply started_linked|].
  rewrite started_abstract. split; simpl; [done|done|apply map_Forall_empty|].
  intros _. apply map_Forall_empty.
Qed.

(** The client is told that the storage is stopping. *)
Definition refused_result (t : thread) : Prop :=
  ∃ req, parse_request (request_json t) = inr req ∧
    result_of steady_clock t =
      Ret (render (set_timing_info (timing_at steady_clock (reads t))
        (failure_for (Protocol.request_id req) WorkerView.stopping_error))).

Lemma stop_failed_result t :
  failed_result steady_clock stop_fails t →
  failed_result steady_clock fails t ∨ refused_result t.
Proof.
  intros (req & response & Hp & [e [He| ->]|c what [Hf|[=]]] & Hr).
  - left. exists req, (failure_for (Protocol.request_id req) e).
    split_and!; [done|by constructor|done].
  - right. by exists req.
  - left. eexists req, _. split_and!; [done|by eapply failed_before|done].
Qed.

(** A handler that is done is right, or reports a failure of the storage. *)
Lemma done_honest s0 s i c :
  system_ok s0 s → clients s !! i = Some c → done_client steady_clock c →
  right_result steady_clock (request c) ∨
  failed_result steady_clock fails (request c) ∨
  (StorageWorker.stopping (storage_ s) = true ∧ refused_result (request c)).
Proof.
  intros (h & _ & [_ _ Hts Hcalm]) Hi [Hwait Hdone].
  destruct c as [r waits]; simpl in *; subst waits.
  assert ((abstract s0 h s).1 !! i = Some r) as Hr
    by (simpl; by rewrite lookup_fmap, Hi).
  assert (∀ P, std_failures P → honest_thread P r →
    right_result steady_clock r ∨ failed_result steady_clock P r) as Hend.
  { intros P HP Ht. by destruct (honest_thread_cases steady_clock P HP r Ht)
      as [[_ ?]|??????|????????|???????????]; [|congruence..]. }
  destruct (StorageWorker.stopping (storage_ s)) eqn:Hst.
  - destruct (Hend stop_fails stop_fails_std (Hts i r Hr)) as [?|Hf]; [by left|right].
    destruct (stop_failed_result r Hf); auto.
  - destruct (Hend fails honest_fails (Hcalm eq_refl i r Hr)); auto.
Qed.
End atomic.

(** ** On a reliable database *)

Section reliable.
Context `{lib : Libpq.Library} `{doc : !Documented}.
Context `{protocol : Protocol.Library} `{total : !Protocol.Total}.
Context `{math : CalculatorMath.Library} `{codes : !CalculatorMath.Codes}
  `{safe : !CalculatorMath.Safe} `{symmetric : !CalculatorMath.Symmetric}.
Variable steady_clock : nat → Z.

Lemma started_reliable_ok s0 cs :
  serving s0 → sound (records s0) →
  system_ok (service_honest := reliable_honest) s0 (started s0 cs).
Proof. intros Hs Hm. by apply started_system_ok, sound_honest. Qed.

(** A handler that is done is right, or was refused after a stop. *)
Lemma done_right s0 s i c :
  system_ok (service_honest := reliable_honest) s0 s →
  clients s !! i = Some c → done_client steady_clock c →
  right_result steady_clock (request c) ∨
  (StorageWorker.stopping (storage_ s) = true ∧
   refused_result steady_clock (request c)).
Proof.
  intros Hok Hi Hdone.
  destruct (done_honest steady_clock s0 s i c Hok Hi Hdone) as [?|[Hf|?]]; auto.
  by destruct (no_failed_result steady_clock (request c)).
Qed.
End reliable.
