(* ===== verification/SystemLive.v ===== *)
(** * The server's threads answer every request

    Whatever the database, the arithmetic and the protocol library answer: each
    move of the server's threads brings the answers nearer, and as long as one is
    missing there is a move. *)

From stdpp Require Import base tactics strings list gmap relations.
From S2P Require Import Prelude.
From S2P Require Import Types.
From S2P Require Import CppString.
From S2P Require Import Abacus.
From S2P Require Import OperationKey.
From S2P Require Import Postgres.
From S2P Require Import OperationStorage.
From S2P Require Import StorageService.
From S2P Require Import RequestHandler.
From S2P Require Import HandlerConcurrent.
From S2P Require Import HandlerCalls.
From S2P Require Import StorageWorker.
From S2P Require Import WorkerCorrect.
From S2P Require Import WorkerStorage.
From S2P Require Import ServerSystem.
From S2P Require Import SystemCorrect.
Import Protocol.
Import RequestHandler.
Import ServerSystem.

Section live.
Context `{lib : Libpq.Library}.
Context `{protocol : Protocol.Library} `{math : CalculatorMath.Library}.
Variable steady_clock : nat → Z.

(** ** The replies of a request are those of its calls *)

Definition calls_ok (p : pool (S := WorkerView.t)) : Prop :=
  map_Forall (λ _ t, conforming (replies t)) p.1.

Lemma execute_matches c (v : WorkerView.t) : matches_call c (execute c v).1.
Proof.
  destruct c as [a x op|r]; simpl.
  - by destruct (WorkerView.find a x op v).
  - by destruct (WorkerView.save r v).
Qed.

Lemma atomic_calls_ok p p' : atomic_step steady_clock p p' → calls_ok p → calls_ok p'.
Proof.
  intros [p1 p2 Hstep|ts v] Hp; [|exact Hp]. revert Hp.
  destruct Hstep as [i json n ts v Hi|i t c r ts v v' Hi Hc He]; intros Hts;
    unfold calls_ok; simpl; (apply map_Forall_insert_2; [|exact Hts]); simpl.
  - apply conforming_none.
  - eapply conforming_snoc; [exact (Hts i t Hi)|exact Hc|].
    pose proof (execute_matches c v) as Hm. by rewrite He in Hm.
Qed.

(** ** The invariant *)

Definition system_live (s0 : StorageService.t) (s : ServerSystem.t) : Prop :=
  ∃ h, linked s0 h s ∧ calls_ok (abstract s0 h s).

Lemma run_system_live s0 s s' :
  rtc (step steady_clock) s s' → system_live s0 s → system_live s0 s'.
Proof.
  intros Hrun (h & Hl & Hc).
  destruct (run_refines steady_clock s0 h s s' Hl Hrun) as (h' & Hl' & Hrun').
  exists h'. split; [done|]. revert Hc. clear -Hrun'.
  induction Hrun'; eauto using atomic_calls_ok.
Qed.

Lemma started_system_live s0 cs : system_live s0 (started s0 cs).
Proof.
  exists []. split; [apply started_linked|]. rewrite started_abstract.
  apply map_Forall_empty.
Qed.

(** A client that waits for nothing. *)
Lemma idle_calls s0 s i r c :
  system_live s0 s → clients s !! i = Some (mk_client r None) →
  next_call steady_clock r = Some c → (length (replies r) < 3)%nat.
Proof.
  intros (h & _ & Hts) Hi. eapply conforming_calls.
  apply (Hts i). simpl. by rewrite lookup_fmap, Hi.
Qed.

(** A client that waits has a reply to come. *)
Lemma waiting_calls s0 s i r ticket :
  system_live s0 s → clients s !! i = Some (mk_client r (Some ticket)) →
  (length (replies r) < 3)%nat ∧
  (StorageWorker.thread_main (storage_ s) = None →
   StorageWorker.future ticket (storage_ s) ≠ None).
Proof.
  intros (h & [Hw Hticket] & Hts) Hi.
  specialize (Hticket i _ ticket Hi eq_refl).
  assert (is_Some ((StorageWorker.replay h s0).1 !! ticket)) as [reply Hr]
    by (apply lookup_lt_is_Some; by rewrite replay_length).
  split.
  - assert ((abstract s0 h s).1 !! i = Some (add_reply (received reply) r)) as Ha.
    { simpl. rewrite lookup_fmap, Hi. simpl. unfold answered_request; simpl.
      by rewrite Hr. }
    specialize (Hts i _ Ha). simpl in Hts. apply conforming_length in Hts.
    rewrite length_app in Hts; simpl in Hts. lia.
  - intros Hb. destruct (blocked_reached _ _ _ Hw Hb) as [Hf _].
    unfold StorageWorker.future. by rewrite Hf, Hr.
Qed.

(** ** Every move brings the answers nearer *)

(** An upper bound of the moves that a client still makes: posting a call,
    which costs the worker two moves, and taking the reply, at most three
    times. *)
Definition client_weight (c : client) : nat :=
  match waiting c with
  | None => 5 * (3 - length (replies (request c)))
  | Some _ => 5 * (3 - length (replies (request c))) - 3
  end.

Definition work (s : ServerSystem.t) : nat :=
  total_weight client_weight (clients s) + moves (storage_ s).

Lemma enqueue_moves j w n w' :
  StorageWorker.enqueue j w = (Ret n, w') → moves w' = (moves w + 2)%nat.
Proof.
  unfold StorageWorker.enqueue, moves. destruct (StorageWorker.stopping w); [done|].
  intros [= <- <-]; simpl. rewrite length_app; simpl. lia.
Qed.

Lemma move_work s0 s s' :
  system_live s0 s → move steady_clock s s' → (work s' < work s)%nat.
Proof.
  intros Hok Hmove. revert Hok. unfold work.
  destruct Hmove as [i r c ticket cs w w' Hi Hc Hp|i r c e cs w w' Hi Hc Hp
    |i r ticket reply cs w Hi Hf|cs w w' Hw]; intros Hok; cbn [clients storage_].
  - pose proof (idle_calls s0 _ i r c Hok Hi Hc) as Hlen.
    rewrite post_enqueue in Hp. apply enqueue_moves in Hp.
    pose proof (total_weight_insert client_weight cs i _ (mk_client r (Some ticket)) Hi)
      as Hsum. unfold client_weight at 2 4 in Hsum. cbn [waiting request] in Hsum. lia.
  - pose proof (idle_calls s0 _ i r c Hok Hi Hc) as Hlen.
    assert (w' = w) as ->.
    { rewrite post_enqueue in Hp. unfold StorageWorker.enqueue in Hp.
      destruct (StorageWorker.stopping w); by simplify_eq. }
    pose proof (total_weight_insert client_weight cs i _
      (mk_client (add_reply (thrown_reply c e) r) None) Hi) as Hsum.
    unfold client_weight at 2 4 in Hsum.
    cbn [waiting request replies add_reply] in Hsum.
    rewrite length_app in Hsum; cbn [length] in Hsum. lia.
  - destruct (waiting_calls s0 _ i r ticket Hok Hi) as [Hlen _].
    pose proof (total_weight_insert client_weight cs i _
      (mk_client (add_reply (received reply) r) None) Hi) as Hsum.
    unfold client_weight at 2 4 in Hsum.
    cbn [waiting request replies add_reply] in Hsum.
    rewrite length_app in Hsum; cbn [length] in Hsum. lia.
  - apply thread_main_moves in Hw. lia.
Qed.

Lemma moves_bounded s0 n s s' :
  system_live s0 s → nsteps (move steady_clock) n s s' → (n + work s' ≤ work s)%nat.
Proof.
  intros Hok Hrun. revert Hok.
  induction Hrun as [s|n s s1 s' Hmove _ IH]; intros Hok; [done|].
  pose proof (move_work s0 s s1 Hok Hmove).
  assert (system_live s0 s1) as Hok1
    by (eapply run_system_live; [by apply rtc_once, step_move|done]).
  specialize (IH Hok1). lia.
Qed.

#[export] Instance done_client_dec c : Decision (done_client steady_clock c).
Proof.
  unfold done_client. destruct (waiting c) as [?|]; [by right; intros [? _]|].
  destruct (next_call steady_clock (request c)); [by right; intros [_ ?]|by left].
Defined.

(** A client that is not done moves, unless it waits for the worker. *)
Lemma client_moves s0 s i c :
  system_live s0 s → StorageWorker.thread_main (storage_ s) = None →
  clients s !! i = Some c → ¬ done_client steady_clock c →
  ∃ s', move steady_clock s s'.
Proof.
  destruct s as [cs w], c as [r [ticket|]]; cbn [clients storage_];
    intros Hok Hw Hi Hdone.
  - destruct (waiting_calls s0 _ i r ticket Hok Hi) as [_ Hf].
    destruct (StorageWorker.future ticket w) as [reply|] eqn:Hr;
      [|by destruct (Hf Hw)].
    eexists. by eapply move_get.
  - destruct (next_call steady_clock r) as [c|] eqn:Hc; [|by destruct Hdone].
    destruct (post c w) as [[ticket|e|] w'] eqn:Hp.
    + eexists. by eapply move_post.
    + eexists. by eapply move_refused.
    + rewrite post_enqueue in Hp. unfold StorageWorker.enqueue in Hp.
      by destruct (StorageWorker.stopping w).
Qed.

(** A move is left, or the worker is idle and every request is answered. *)
Lemma system_progress s0 s :
  system_live s0 s →
  (∃ s', move steady_clock s s') ∨
  (StorageWorker.thread_main (storage_ s) = None ∧
   map_Forall (λ _, done_client steady_clock) (clients s)).
Proof.
  intros Hok. destruct (StorageWorker.thread_main (storage_ s)) as [w'|] eqn:Hw.
  { left. destruct s as [cs w]. eexists. by apply move_worker. }
  destruct (decide (map_Forall (λ _, done_client steady_clock) (clients s)))
    as [|Hno]; [by right|left].
  apply map_not_Forall in Hno as (i & c & Hi & Hdone); [|intros; apply _].
  by eapply client_moves.
Qed.

Lemma moves_system_live s0 s s' :
  system_live s0 s → rtc (move steady_clock) s s' → system_live s0 s'.
Proof.
  intros Hok Hrun. eapply run_system_live; [|exact Hok].
  eapply rtc_subrel; [|exact Hrun]. intros. by apply step_move.
Qed.

(** Some schedule answers every request. *)
Lemma system_finishes s0 s :
  system_live s0 s →
  ∃ s', rtc (move steady_clock) s s' ∧
    StorageWorker.thread_main (storage_ s') = None ∧
    map_Forall (λ _, done_client steady_clock) (clients s').
Proof.
  remember (work s) as n eqn:Hn. revert s Hn.
  induction (lt_wf n) as [n _ IH]. intros s -> Hok.
  destruct (system_progress s0 s Hok) as [[s1 Hmove]|[? ?]];
    [|by exists s; split; [apply rtc_refl|split]].
  destruct (IH (work s1) (move_work s0 s s1 Hok Hmove) s1 eq_refl) as (s' & Hrun & Hend).
  - eapply moves_system_live; [exact Hok|by apply rtc_once].
  - exists s'. split; [by eapply rtc_l|done].
Qed.

End live.
