(* ===== verification/SystemMemory.v ===== *)
(** * What the server's threads remember

    A request that is checked and handled to its end has its key in the storage,
    where it stays; and a request whose key was there when the storage was opened
    is answered from the cache. *)

From stdpp Require Import base tactics strings list gmap relations.
From S2P Require Import Prelude.
From S2P Require Import Types.
From S2P Require Import CppString.
From S2P Require Import Checker.
From S2P Require Import Abacus.
From S2P Require Import OperationKey.
From S2P Require Import CacheRepository.
From S2P Require Import Postgres.
From S2P Require Import OperationStorage.
From S2P Require Import StorageService.
From S2P Require Import RequestHandler.
From S2P Require Import HandlerSafety.
From S2P Require Import HandlerCorrect.
From S2P Require Import HandlerConcurrent.
From S2P Require Import HandlerFailing.
From S2P Require Import StorageWorker.
From S2P Require Import WorkerCorrect.
From S2P Require Import WorkerStorage.
From S2P Require Import ServerSystem.
From S2P Require Import SystemCorrect.
Import Protocol.
Import RequestHandler.
Import ServerSystem.

(** ** Calls and the keys of a storage *)

(** The key that a call is about. *)
Definition call_key (c : storage_call) : outcome exn string :=
  match c with
  | FindCall a x op => OperationKey.make a x op
  | SaveCall r => Ret (OperationRecord.cache_key r)
  end.

(** A reply that shows its key to be in the storage: a hit, or a [save] that came
    back. *)
Definition shows_key (r : storage_reply) : Prop :=
  match r with
  | FindReply (Ret (Some _)) | SaveReply (Ret _) => True
  | _ => False
  end.

Section keys.
Context {S : Type} `{storage : !IOperationStorage S} `{laws : !StorageLaws S}.

Definition keys (s : S) : gset string := dom (records s).

Lemma execute_keys c s : keys s ⊆ keys (execute c s).2.
Proof.
  unfold keys. destruct c as [a x op|r]; simpl.
  - destruct (find_law a x op s) as [Hrec _].
    destruct (OperationStorage.find a x op s); simpl in *. by rewrite Hrec.
  - destruct (save_law r s) as [_ Hrec].
    destruct (OperationStorage.save r s) as [o s']; simpl in *.
    destruct Hrec as [->|[-> _]]; [set_solver|done].
Qed.

Lemma execute_shows c k s :
  call_key c = Ret k → shows_key (execute c s).1 → k ∈ keys (execute c s).2.
Proof.
  unfold keys. destruct c as [a x op|r]; simpl.
  - intros Hk. destruct (find_law a x op s) as [Hrec Ho].
    destruct (OperationStorage.find a x op s) as [o s']; simpl in *. rewrite Hrec.
    destruct Ho as [[e ->]| ->]; [done|]. rewrite Hk; simpl.
    destruct (records s !! k) as [r|] eqn:Hr; [|done]. intros _.
    by apply elem_of_dom.
  - intros [= <-]. destruct (save_law r s) as [_ Hrec].
    destruct (OperationStorage.save r s) as [o s']; simpl in *.
    destruct Hrec as [->|[_ Hno]]; [set_solver|]. by destruct o as [[]|e|].
Qed.

(** A key that is there is not missed. *)
Lemma execute_no_miss c k s :
  call_key c = Ret k → k ∈ keys s → (execute c s).1 ≠ FindReply (Ret None).
Proof.
  unfold keys. intros Hk Hin. destruct c as [a x op|r]; simpl in *.
  - destruct (find_law a x op s) as [_ Ho].
    destruct (OperationStorage.find a x op s) as [o s']; simpl in *.
    destruct Ho as [[e ->]| ->]; [done|]. rewrite Hk; simpl.
    apply elem_of_dom in Hin as [r ->]. done.
  - by destruct (OperationStorage.save r s).
Qed.
End keys.

(** ** One thread *)

Section threads.
Context `{protocol : Protocol.Library} `{total : !Protocol.Total}.
Context `{math : CalculatorMath.Library} `{symmetric : !CalculatorMath.Symmetric}.
Variable steady_clock : nat → Z.

(** A thread's calls are about the key of its request. *)
Lemma honest_call_key fails t c req d k :
  std_failures fails → honest_thread fails t → next_call steady_clock t = Some c →
  parse_request (request_json t) = inr req → to_calculator_data req = Ret d →
  request_key d = Ret k → call_key c = Ret k.
Proof.
  intros Hstd Ht Hc Hp Hd Hk.
  destruct (honest_thread_cases steady_clock fails Hstd t Ht)
    as [[Hend _]|req' d' Hp' Hd' Hr Hn|req' d' k' Hp' Hd' Hk' _ Hr Hn
       |req' d' k' v code what Hp' Hd' Hk' _ _ _ Hr Hn]; [congruence|..];
    rewrite Hn in Hc; injection Hc as <-;
    assert (req' = req) as -> by congruence; assert (d' = d) as -> by congruence;
    simpl; [exact Hk|congruence..].
Qed.

(** What is known of a thread on a storage that held the keys [held] at first and
    holds the keys [now]. *)
Definition thread_memory (held now : gset string) (t : thread) : Prop :=
  ∀ req d k, parse_request (request_json t) = inr req →
    to_calculator_data req = Ret d → request_key d = Ret k →
    (∀ r, r ∈ replies t → shows_key r → k ∈ now) ∧
    (k ∈ held → FindReply (Ret None) ∉ replies t).

(** The response is a cached one. *)
Definition cached_result (t : thread) (req : CalculationRequest) (d : CalculatorData) :
    Prop :=
  ∃ response,
    result_of steady_clock t =
      Ret (render (set_timing_info (timing_at steady_clock (reads t))
        (set_result_source CACHE response))) ∧
    (operands req ≠ [] →
     answers (Protocol.request_id req) d (set_result_source CACHE response)).

Lemma hit_cached t req d k r :
  parse_request (request_json t) = inr req → to_calculator_data req = Ret d →
  request_key d = Ret k → sound_record k r → replies t = [FindReply (Ret (Some r))] →
  cached_result t req d.
Proof.
  intros Hp Hd Hk Hrec Hr. destruct (to_calculator_data_request _ _ Hd) as (Hq & _ & Hf & _).
  destruct (answer_from_cache_right (S := script) steady_clock (reads t)
    (Protocol.request_id req) d k r (mk_script [] None) Hq Hk Hrec)
    as (? & f' & Hrun & _ & [response ->] & Ha).
  exists response. split; [|by intros Hops; apply Ha, Hf].
  unfold result_of, handled. rewrite Hr, (run_found (storage := script_storage)
    steady_clock (request_json t) (reads t) (mk_script [FindReply (Ret (Some r))] None)
    (mk_script [] None) req d (Ret (Some r)) Hp Hd eq_refl).
  unfold after_lookup. by rewrite (try_ret _ _ _ _ _ Hrun).
Qed.

(** What a handler that is done leaves and answers, on a storage that does not
    fail. *)
Definition request_memory (held now : gset string) (t : thread) : Prop :=
  ∀ req d k, parse_request (request_json t) = inr req →
    to_calculator_data req = Ret d → request_key d = Ret k →
    (check_arguments d = Ret () → k ∈ now) ∧ (k ∈ held → cached_result t req d).

Lemma done_memory held now t :
  honest_thread no_failure t → next_call steady_clock t = None →
  thread_memory held now t → request_memory held now t.
Proof.
  intros Ht Hdone Hmem req d k Hp Hd Hk. destruct (Hmem req d k Hp Hd Hk) as [Hnow Hheld].
  destruct Ht as [Hr|req' d' found Hp' Hd' Hfound Hr|req' d' k' o Hp' Hd' Hk' Hc Ho Hr
    |? ? ? ? ? ? ? _ _ _ _ _ [] _ _].
  - by rewrite (new_thread_call steady_clock t req d Hp Hd Hr) in Hdone.
  - assert (req' = req) as -> by congruence. assert (d' = d) as -> by congruence.
    destruct Hfound as [e He|e []|k' r Hk' [Hrec|(? & ? & [] & _)]|k' Hk'].
    + congruence.
    + assert (k' = k) as -> by congruence. split.
      * intros _. apply (Hnow (FindReply (Ret (Some r)))); [|done]. rewrite Hr. by left.
      * intros _. by eapply hit_cached.
    + assert (k' = k) as -> by congruence. split.
      * intros Hc. by rewrite (found_thread_call steady_clock t req d k Hp Hd Hk Hc Hr) in Hdone.
      * intros Hin. destruct (Hheld Hin). rewrite Hr. by left.
  - assert (req' = req) as -> by congruence. assert (d' = d) as -> by congruence. split.
    + intros _. destruct Ho as [|e []]. apply (Hnow (SaveReply (Ret ()))); [|done].
      rewrite Hr. right. by left.
    + intros Hin. destruct (Hheld Hin). rewrite Hr. by left.
Qed.

Lemma request_memory_mono held now now' t :
  now ⊆ now' → request_memory held now t → request_memory held now' t.
Proof.
  intros Hsub Hmem req d k Hp Hd Hk. destruct (Hmem req d k Hp Hd Hk) as [Hnow Hc].
  split; [|done]. intros Hchk. by apply Hsub, Hnow.
Qed.

Lemma thread_memory_mono held now now' t :
  now ⊆ now' → thread_memory held now t → thread_memory held now' t.
Proof.
  intros Hsub Hmem req d k Hp Hd Hk. destruct (Hmem req d k Hp Hd Hk) as [Hnow Hc].
  split; [|done]. intros r Hr Hs. by apply Hsub, (Hnow r).
Qed.

Lemma new_memory held now json n : thread_memory held now (mk_thread json n []).
Proof.
  intros req d k _ _ _; simpl. split; [|intros _]; [by intros r ?%not_elem_of_nil|].
  apply not_elem_of_nil.
Qed.
End threads.

(** ** The storage that answers at once *)

Section atomic.
Context `{lib : Libpq.Library}.
Context `{protocol : Protocol.Library} `{total : !Protocol.Total}.
Context `{math : CalculatorMath.Library} `{symmetric : !CalculatorMath.Symmetric}.
Context {fails : exn → Prop} {asks : storage_call → Prop}
  `{service_honest : !HonestStorage StorageService.t fails asks}.
Variable steady_clock : nat → Z.
(** The keys that the storage held at some time, and the threads of that time. *)
Variable held : gset string.
Variable old : gset nat.

Record pool_memory (p : pool (S := WorkerView.t)) : Prop := mk_pool_memory {
  memory_held : held ⊆ keys p.2;
  memory_old : old ⊆ dom p.1;
  memory_threads i t : p.1 !! i = Some t → i ∉ old → thread_memory held (keys p.2) t
}.

Lemma call_memory i t c ts v :
  view_ok (fails := fails) (ts, v) → pool_memory (ts, v) → ts !! i = Some t →
  next_call steady_clock t = Some c →
  pool_memory (<[i := mk_thread (request_json t) (reads t)
                        (replies t ++ [(execute c v).1])]> ts, (execute c v).2).
Proof.
  intros Hv [Hheld Hold Hts] Hi Hc. cbn [fst snd] in *.
  pose proof (execute_keys c v) as Hsub.
  split; cbn [fst snd]; [set_solver|set_solver|].
  intros j u [[<- <-]|[_ Hj]]%lookup_insert_Some Hnew.
  - intros req d k Hp Hd Hk. simpl in Hp |- *.
    pose proof (honest_call_key steady_clock _ t c req d k stop_fails_std
      (view_threads _ Hv i t Hi) Hc Hp Hd Hk) as Hkey.
    destruct (Hts i t Hi Hnew req d k Hp Hd Hk) as [Hnow Hmiss]. split.
    + intros r [Hr| ->%list_elem_of_singleton]%elem_of_app Hs.
      * apply Hsub. by apply (Hnow r).
      * by eapply execute_shows.
    + intros Hin [?|Heq%list_elem_of_singleton]%elem_of_app; [by apply Hmiss|].
      symmetry in Heq. revert Heq. apply (execute_no_miss c k v Hkey). by apply Hheld.
  - eapply thread_memory_mono; [exact Hsub|by eapply Hts].
Qed.

Lemma atomic_memory p p' :
  atomic_step steady_clock p p' → view_ok (fails := fails) p → pool_memory p →
  pool_memory p' ∧ keys p.2 ⊆ keys p'.2.
Proof.
  intros [p1 p2 Hstep|ts v]; [|by intros _ [? ?]].
  destruct Hstep as [i json n ts v Hi|i t c r ts v v' Hi Hc He]; intros Hv Hm.
  - split; [|done]. destruct Hm as [Hheld Hold Hts].
    split; cbn [fst snd] in *; [done|set_solver|].
    intros j u [[<- <-]|[_ Hj]]%lookup_insert_Some Hnew; [apply new_memory|eauto].
  - pose proof (call_memory i t c ts v Hv Hm Hi Hc) as Hm'.
    pose proof (execute_keys c v) as Hsub. rewrite He in Hm', Hsub. done.
Qed.

Lemma atomics_memory p p' :
  rtc (atomic_step steady_clock) p p' → view_ok (fails := fails) p → pool_memory p →
  view_ok (fails := fails) p' ∧ pool_memory p' ∧ keys p.2 ⊆ keys p'.2.
Proof.
  induction 1 as [p|p p1 p' Hstep _ IH]; intros Hv Hm; [done|].
  destruct (atomic_memory p p1 Hstep Hv Hm) as [Hm1 Hsub].
  destruct IH as (? & ? & ?); [by eapply atomic_view_ok|done|].
  split_and!; [done..|by etransitivity].
Qed.

(** ** The system *)

(** The keys that the storage has once the jobs [js] are done. *)
Definition keys_after (s0 : StorageService.t) (js : list StorageWorker.job) : gset string :=
  keys (StorageWorker.replay js s0).2.

Record system_memory (s0 : StorageService.t) (js : list StorageWorker.job)
    (h : ServerSystem.t) : Prop := mk_system_memory {
  system_linked : linked s0 js h;
  system_view : view_ok (fails := fails) (abstract s0 js h);
  system_pool : pool_memory (abstract s0 js h)
}.

Lemma step_memory s0 js h h' :
  system_memory s0 js h → step steady_clock h h' →
  ∃ js', system_memory s0 js' h' ∧ keys_after s0 js ⊆ keys_after s0 js'.
Proof.
  intros [Hl Hv Hm] Hstep.
  destruct (step_refines steady_clock s0 js h h' Hl Hstep) as (js' & Hl' & Hrun).
  destruct (atomics_memory _ _ Hrun Hv Hm) as (Hv' & Hm' & Hsub).
  exists js'. split; [by split|exact Hsub].
Qed.

Lemma steps_memory s0 js h h' :
  system_memory s0 js h → rtc (step steady_clock) h h' →
  ∃ js', system_memory s0 js' h' ∧ keys_after s0 js ⊆ keys_after s0 js'.
Proof.
  intros Hm Hrun. revert js Hm.
  induction Hrun as [h|h h1 h' Hstep _ IH]; intros js Hm; [by exists js|].
  destruct (step_memory s0 js h h1 Hm Hstep) as (js1 & Hm1 & Hsub).
  destruct (IH js1 Hm1) as (js' & Hm' & Hsub'). exists js'. split; [done|].
  by etransitivity.
Qed.

Lemma started_memory s0 cs :
  available s0 → honest fails (records s0) → held ⊆ dom (records s0) → old = ∅ →
  system_memory s0 [] (started s0 cs).
Proof.
  intros Hs Hh Hheld ->. split; [apply started_linked|..]; rewrite started_abstract.
  - split; simpl; [done|done|apply map_Forall_empty|intros _; apply map_Forall_empty].
  - split; simpl; [done|set_solver|]. intros i t. by rewrite lookup_empty.
Qed.
End atomic.

(** From any moment on: the keys of that moment are held. *)
Lemma memory_from `{lib : Libpq.Library} `{protocol : Protocol.Library}
    `{total : !Protocol.Total} `{math : CalculatorMath.Library}
    `{symmetric : !CalculatorMath.Symmetric} {fails : exn → Prop}
    {asks : storage_call → Prop}
    `{service_honest : !HonestStorage StorageService.t fails asks} held old s0 js h :
  system_memory (fails := fails) held old s0 js h →
  system_memory (fails := fails) (keys_after s0 js) (dom (clients h)) s0 js h.
Proof.
  intros [Hl Hv _]. split; [done|done|]. split; simpl; [done|by rewrite dom_fmap|].
  intros i t Hi Hnew. destruct Hnew. apply elem_of_dom_2 in Hi. by rewrite dom_fmap in Hi.
Qed.

(** A request that was handled before any stop, on a storage that does not fail. *)
Lemma done_client_memory `{lib : Libpq.Library} `{protocol : Protocol.Library}
    `{total : !Protocol.Total} `{math : CalculatorMath.Library}
    `{symmetric : !CalculatorMath.Symmetric} {asks : storage_call → Prop}
    `{service_honest : !HonestStorage StorageService.t no_failure asks}
    steady_clock held old s0 js h i c :
  system_memory (fails := no_failure) held old s0 js h →
  clients h !! i = Some c → i ∉ old → done_client steady_clock c →
  StorageWorker.stopping (storage_ h) = false →
  request_memory steady_clock held (keys_after s0 js) (request c).
Proof.
  intros [Hl Hv Hm] Hi Hnew [Hwait Hdone] Hst. destruct c as [r waits]; simpl in *; subst waits.
  assert ((abstract s0 js h).1 !! i = Some r) as Hr
    by (simpl; by rewrite lookup_fmap, Hi).
  apply done_memory; [|exact Hdone|exact (memory_threads _ _ _ Hm i r Hr Hnew)].
  exact (view_calm _ Hv Hst i r Hr).
Qed.
