(* ===== verification/SystemTheorems.v ===== *)
(** * Theorems on the server's threads

    What the composed system of [ServerSystem] promises, and concrete runs of
    it. *)

From stdpp Require Import base tactics strings list gmap relations.
From S2P Require Import Prelude.
From S2P Require Import Types.
From S2P Require Import CppString.
From S2P Require Import Checker.
From S2P Require Import Abacus.
From S2P Require Import OperationKey.
From S2P Require Import CacheRepository.
From S2P Require Import Postgres.
From S2P Require Import OperationStorage.
From S2P Require Import StorageService.
From S2P Require Import RequestHandler.
From S2P Require Import LineProtocol.
From S2P Require Import HandlerSafety.
From S2P Require Import HandlerCorrect.
From S2P Require Import HandlerTheorems.
From S2P Require Import Restart.
From S2P Require Import HandlerConcurrent.
From S2P Require Import HandlerFailing.
From S2P Require Import StorageOutage.
From S2P Require Import StorageWorker.
From S2P Require Import WorkerCorrect.
From S2P Require Import WorkerStorage.
From S2P Require Import ServerSystem.
From S2P Require Import SystemCorrect.
From S2P Require Import SystemLive.
Import Protocol.
Import RequestHandler.
Import ServerSystem.

Section theorems.
Context `{lib : Libpq.Library} `{doc : !Documented}.
Context `{protocol : Protocol.Library} `{total : !Protocol.Total}.
Context `{math : CalculatorMath.Library} `{codes : !CalculatorMath.Codes}
  `{safe : !CalculatorMath.Safe} `{symmetric : !CalculatorMath.Symmetric}.
Variable steady_clock : nat → Z.

(** C10: the queue and its thread are an atomic storage.  Every run of network
    threads that post their calls to the queue and wait for the futures, of the
    worker thread and of calls of [stop], has a run of the specification, in
    which each call is answered at once by the storage service, or refused once a
    stop was requested, that ends with the same requests: a request that waits
    for nothing has received the same replies, and a reply that is there for one
    that waits is the one it received. *)
Theorem server_refines_atomic cs s0 s :
  rtc (step steady_clock) (started s0 cs) s →
  ∃ ts v, rtc (atomic_step steady_clock) (∅, WorkerView.mk s0 false) (ts, v) ∧
    WorkerView.stopped v = StorageWorker.stopping (storage_ s) ∧
    dom ts = dom (clients s) ∧
    ∀ i r waits, clients s !! i = Some (mk_client r waits) →
      match waits with
      | None => ts !! i = Some r
      | Some ticket => ∀ reply,
          StorageWorker.future ticket (storage_ s) = Some reply →
          ts !! i = Some (add_reply (received reply) r)
      end.
Proof.
  intros Hrun.
  destruct (run_refines steady_clock s0 [] (started s0 cs) s (started_linked s0 cs) Hrun)
    as (h & Hl & Hatomic).
  rewrite started_abstract in Hatomic. do 2 eexists. split; [exact Hatomic|].
  split_and!; [done|by rewrite dom_fmap_L|].
  intros i r [ticket|] Hi; [intros reply Hf|]; rewrite lookup_fmap, Hi; simpl; [|done].
  destruct (reached_future _ _ _ _ _ (linked_worker _ _ _ Hl) Hf) as [Hr _].
  unfold answered_request; simpl. by rewrite Hr.
Qed.

(** C9: the running server is right.  From a storage thread that is ready on a
    service whose connection is available and whose records are sound, under any
    interleaving of arriving requests, storage calls, moves of the worker thread
    and calls of [stop]: a handler that is done has answered its request with the
    value or the error status of the request's checks and calculation; only when
    a stop was requested it may instead have answered [INTERNAL_ERROR] with the
    message that the storage is stopping. *)
Theorem server_requests_right cs s0 s i c :
  serving s0 → sound (records s0) →
  rtc (step steady_clock) (started s0 cs) s →
  clients s !! i = Some c → done_client steady_clock c →
  right_result steady_clock (request c) ∨
  (StorageWorker.stopping (storage_ s) = true ∧
   refused_result steady_clock (request c)).
Proof.
  intros Hs Hm Hrun. apply done_right with s0.
  eapply run_system_ok; [exact Hrun|by apply started_reliable_ok].
Qed.

(** A running server whose database fails is never wrong.  Whatever libpq
    and the database answer, from records that are right or hold a storage failure,
    and under any interleaving: a handler that is done has answered its request
    right, or has reported [STORAGE_ERROR], for a failure of its own [save] or for
    one that was filed before; only when a stop was requested it may also have
    reported that the storage is stopping. *)
Lemma server_never_wrong cs s0 s i c :
  honest storage_failure (records s0) →
  rtc (step steady_clock) (started s0 cs) s →
  clients s !! i = Some c → done_client steady_clock c →
  right_result steady_clock (request c) ∨
  failed_result steady_clock storage_failure (request c) ∨
  (StorageWorker.stopping (storage_ s) = true ∧
   refused_result steady_clock (request c)).
Proof.
  intros Hm Hrun. apply (done_honest (service_honest := failing_service_honest)) with s0.
  eapply run_system_ok; [exact Hrun|by apply started_system_ok].
Qed.

(** C11: the running server answers every request, and shuts down, whatever the
    database, the arithmetic and the protocol library answer and whatever they
    throw.  From any state of a run the moves of the server's own threads, in
    whatever order they are scheduled, come to an end; and as long as a request
    that arrived is not answered, or the worker thread has not returned after a
    stop, so that [join] in [stop] waits, there is another move. *)
Theorem server_answers_all cs s0 s :
  rtc (step steady_clock) (started s0 cs) s →
  (∃ bound, ∀ n s', nsteps (move steady_clock) n s s' → (n ≤ bound)%nat) ∧
  ∀ s', rtc (move steady_clock) s s' →
    (∃ s'', move steady_clock s' s'') ∨
    ((∀ i c, clients s' !! i = Some c → done_client steady_clock c) ∧
     if StorageWorker.stopping (storage_ s')
     then is_Some (StorageWorker.join (storage_ s'))
     else ∃ st, StorageWorker.worker (storage_ s') = StorageWorker.Waiting st).
Proof.
  intros Hrun.
  assert (system_live s0 s) as Hok
    by (eapply run_system_live; [exact Hrun|apply started_system_live]).
  split.
  - exists (work s). intros n s' Hn.
    pose proof (moves_bounded steady_clock s0 n s s' Hok Hn). lia.
  - intros s' Hmoves. pose proof (moves_system_live _ _ _ _ Hok Hmoves) as Hok'.
    destruct (system_progress steady_clock s0 s' Hok') as [?|[Hb Hdone]];
      [by left|right]. split; [done|].
    destruct Hok' as (h & [Hw _] & _).
    destruct (blocked_reached _ _ _ Hw Hb) as [_ Hworker].
    destruct (StorageWorker.stopping (storage_ s')); [|by eexists].
    unfold StorageWorker.join. rewrite Hworker. by eexists.
Qed.
End theorems.

(** ** Runs by hand *)

Inductive turn : Type :=
  | Arrive (i : nat) (json : string) (n : nat)
  | Post (i : nat)
  | Get (i : nat)
  | Work
  | Stop.

Section turns.
Context `{lib : Libpq.Library}.
Context `{protocol : Protocol.Library} `{math : CalculatorMath.Library}.
Variable steady_clock : nat → Z.

Definition system_turn (e : turn) (s : ServerSystem.t) : option ServerSystem.t :=
  let '(mk cs w) := s in
  match e with
  | Arrive i json n =>
      match cs !! i with
      | None => Some (mk (<[i := mk_client (mk_thread json n []) None]> cs) w)
      | Some _ => None
      end
  | Post i =>
      match cs !! i with
      | Some (mk_client h None) =>
          c ← next_call steady_clock h;
          match post c w with
          | (Ret ticket, w') => Some (mk (<[i := mk_client h (Some ticket)]> cs) w')
          | (Throw e, w') =>
              Some (mk (<[i := mk_client (add_reply (thrown_reply c e) h) None]> cs) w')
          | (Undef, _) => None
          end
      | _ => None
      end
  | Get i =>
      match cs !! i with
      | Some (mk_client h (Some ticket)) =>
          r ← StorageWorker.future ticket w;
          Some (mk (<[i := mk_client (add_reply (received r) h) None]> cs) w)
      | _ => None
      end
  | Work => w' ← StorageWorker.thread_main w; Some (mk cs w')
  | Stop => Some (mk cs (StorageWorker.request_stop w))
  end.

Fixpoint system_turns (es : list turn) (s : ServerSystem.t) : option ServerSystem.t :=
  match es with
  | [] => Some s
  | e :: rest => s' ← system_turn e s; system_turns rest s'
  end.

Lemma system_turn_step e s s' : system_turn e s = Some s' → step steady_clock s s'.
Proof.
  destruct s as [cs w], e as [i json n|i|i| |]; simpl.
  - destruct (cs !! i) eqn:Hi; [done|]. intros [= <-]. by constructor.
  - destruct (cs !! i) as [[h [|]]|] eqn:Hi; [done| |done].
    intros (c & Hc & Hp)%bind_Some. apply step_move.
    destruct (post c w) as [[ticket|e|] w'] eqn:Hpost; simplify_eq;
      [by eapply move_post|by eapply move_refused].
  - destruct (cs !! i) as [[h [ticket|]]|] eqn:Hi; [|done..].
    intros (r & Hr & Hs)%bind_Some. simplify_eq. apply step_move. by eapply move_get.
  - intros (w' & Hw & Hs)%bind_Some. simplify_eq. by apply step_move, move_worker.
  - intros [= <-]. apply step_stop.
Qed.

Lemma system_turns_run es s s' : system_turns es s = Some s' → rtc (step steady_clock) s s'.
Proof.
  revert s. induction es as [|e es IH]; simpl; intros s Hs; [by simplify_eq|].
  apply bind_Some in Hs as (s1 & H1 & H2).
  eapply rtc_l; [by eapply system_turn_step|by apply IH].
Qed.
End turns.

(** Two requests that both miss the cache; a stop is requested when only the
    first has filed its record. *)
Definition demo_turns : list turn :=
  [Arrive 0 "+2,3" 0; Arrive 1 "+3,2" 2; Post 0; Post 1; Work; Work; Work; Work;
   Get 1; Get 0; Post 0; Stop; Post 1; Work; Work; Get 0; Work].

Definition demo_storage : StorageService.t (H := TableServer.library) :=
  StorageService.mk (H := TableServer.library) ∅ (Some ()) empty_database.

Definition demo_system : option (ServerSystem.t (lib := TableServer.library)) :=
  system_turns (lib := TableServer.library) (protocol := LineProtocol.library)
    (math := SafeMath.library) clock_1ms demo_turns
    (started (lib := TableServer.library) demo_storage EmptyString).

Definition result_text (i : nat) : option string :=
  s ← demo_system; c ← clients s !! i;
  match result_of (protocol := LineProtocol.library) (math := SafeMath.library)
          clock_1ms (request c) with
  | Ret text => Some text
  | _ => None
  end.

Example demo_results :
  (result_text 0, result_text 1) = (Some "OK 5 calculated", Some "INTERNAL_ERROR").
Proof. vm_compute. reflexivity. Qed.

Abbreviation demo_step := (step (lib := TableServer.library)
  (protocol := LineProtocol.library) (math := SafeMath.library) clock_1ms).

Abbreviation demo_move := (move (lib := TableServer.library)
  (protocol := LineProtocol.library) (math := SafeMath.library) clock_1ms).

Abbreviation demo_started :=
  (started (lib := TableServer.library) demo_storage EmptyString).

Lemma demo_serving : serving (ReliableStorage := service_reliable
  (lib := TableServer.library) (doc := TableServer.documented)) demo_storage.
Proof. reflexivity. Qed.

Lemma demo_sound : sound (math := SafeMath.library)
  (records (StorageLaws := service_laws (lib := TableServer.library)) demo_storage).
Proof. exact (sound_empty (H := SafeMath.library)). Qed.

Lemma system_run : ∃ s, demo_system = Some s ∧ rtc demo_step demo_started s.
Proof.
  assert (match demo_system with Some _ => true | None => false end = true) as Hs
    by (vm_compute; reflexivity).
  destruct demo_system as [s|] eqn:Hd; [|discriminate].
  exists s. split; [reflexivity|].
  exact (system_turns_run (lib := TableServer.library)
    (protocol := LineProtocol.library) (math := SafeMath.library) clock_1ms
    demo_turns _ _ Hd).
Qed.

Example server_refines_atomic_witness :
  ∃ s ts v, demo_system = Some s ∧
    rtc (atomic_step (lib := TableServer.library)
      (protocol := LineProtocol.library) (math := SafeMath.library) clock_1ms)
      (∅, WorkerView.mk demo_storage false) (ts, v) ∧
    dom ts = dom (clients s).
Proof.
  destruct system_run as (s & Hs & Hrun).
  destruct (server_refines_atomic clock_1ms EmptyString demo_storage s Hrun)
    as (ts & v & Hatomic & _ & Hdom & _).
  exists s, ts, v. exact (conj Hs (conj Hatomic Hdom)).
Defined.

(** A client of a concrete run whose handler is done. *)
Definition client_done (c : client) : bool :=
  match waiting c, next_call (protocol := LineProtocol.library)
          (math := SafeMath.library) clock_1ms (request c) with
  | None, None => true
  | _, _ => false
  end.

Definition turns_client (es : list turn)
    (s0 : StorageService.t (H := TableServer.library)) (i : nat) : option client :=
  s ← system_turns (lib := TableServer.library) (protocol := LineProtocol.library)
        (math := SafeMath.library) clock_1ms es
        (started (lib := TableServer.library) s0 EmptyString);
  clients s !! i.

Lemma turns_done es s0 i :
  match turns_client es s0 i with Some c => client_done c | None => false end = true →
  ∃ s c, system_turns (lib := TableServer.library) (protocol := LineProtocol.library)
      (math := SafeMath.library) clock_1ms es (started s0 EmptyString) = Some s ∧
    rtc demo_step (started s0 EmptyString) s ∧ clients s !! i = Some c ∧
    done_client (protocol := LineProtocol.library) (math := SafeMath.library)
      clock_1ms c.
Proof.
  unfold turns_client.
  destruct (system_turns clock_1ms es (started s0 EmptyString)) as [s|] eqn:Hs; [|done].
  simpl. destruct (clients s !! i) as [c|] eqn:Hc; [|done]. intros Hdone.
  exists s, c. split_and!; [done|by eapply system_turns_run|done|].
  unfold client_done in Hdone. split.
  - by destruct (waiting c).
  - revert Hdone. by destruct (waiting c), (next_call _ _).
Qed.

Lemma demo_done : ∃ s c, demo_system = Some s ∧ rtc demo_step demo_started s ∧
  clients s !! 1%nat = Some c ∧
  done_client (protocol := LineProtocol.library) (math := SafeMath.library) clock_1ms c.
Proof. apply turns_done. vm_compute. reflexivity. Qed.

Example server_requests_right_witness :
  ∃ s c, demo_system = Some s ∧ clients s !! 1%nat = Some c ∧
    (right_result (protocol := LineProtocol.library) (total := LineProtocol.total)
       (math := SafeMath.library) clock_1ms (request c) ∨
     (StorageWorker.stopping (storage_ s) = true ∧
      refused_result (protocol := LineProtocol.library) (total := LineProtocol.total)
        (math := SafeMath.library)
        clock_1ms (request c))).
Proof.
  destruct demo_done as (s & c & Hs & Hrun & Hc & Hdone).
  exists s, c. split; [exact Hs|]. split; [exact Hc|].
  exact (server_requests_right (doc := TableServer.documented)
    (total := LineProtocol.total) (codes := SafeMath.codes) (safe := SafeMath.safe)
    (symmetric := SafeMath.symmetric) clock_1ms EmptyString demo_storage s 1 c
    demo_serving demo_sound Hrun Hc Hdone).
Defined.

Example server_answers_all_witness :
  ∃ s bound, demo_system = Some s ∧
    ∀ n s', nsteps demo_move n s s' → (n ≤ bound)%nat.
Proof.
  destruct system_run as (s & Hs & Hrun).
  destruct (server_answers_all clock_1ms EmptyString demo_storage s Hrun)
    as [[bound Hb] _].
  exists s, bound. exact (conj Hs Hb).
Defined.

(** ** A run on a database that is lost *)

Definition down_storage : StorageService.t (H := TableServer.library) :=
  StorageService.mk (H := TableServer.library) ∅ (Some ())
    (TableServer.mk_state false []).

Definition down_turns : list turn :=
  [Arrive 0 "+2,3" 0; Post 0; Work; Work; Get 0; Post 0; Work; Work; Get 0;
   Post 0; Work; Work; Get 0; Arrive 1 "+3,2" 2; Post 1; Work; Work; Get 1].

Definition down_system : option (ServerSystem.t (lib := TableServer.library)) :=
  system_turns (lib := TableServer.library) (protocol := LineProtocol.library)
    (math := SafeMath.library) clock_1ms down_turns
    (started (lib := TableServer.library) down_storage EmptyString).

Definition down_text (i : nat) : option string :=
  s ← down_system; c ← clients s !! i;
  match result_of (protocol := LineProtocol.library) (math := SafeMath.library)
          clock_1ms (request c) with
  | Ret text => Some text
  | _ => None
  end.

(** The first request calculates a value and cannot file it; the second finds the
    failure that the first filed. *)
Example down_results :
  (down_text 0, down_text 1) = (Some "STORAGE_ERROR", Some "STORAGE_ERROR cache").
Proof. vm_compute. reflexivity. Qed.

Example server_never_wrong_witness :
  ∃ s c, down_system = Some s ∧ clients s !! 1%nat = Some c ∧
    (right_result (protocol := LineProtocol.library) (total := LineProtocol.total)
       (math := SafeMath.library) clock_1ms (request c) ∨
     failed_result (protocol := LineProtocol.library) (total := LineProtocol.total)
       (math := SafeMath.library) clock_1ms storage_failure (request c) ∨
     (StorageWorker.stopping (storage_ s) = true ∧
      refused_result (protocol := LineProtocol.library) (total := LineProtocol.total)
        (math := SafeMath.library) clock_1ms (request c))).
Proof.
  destruct (turns_done down_turns down_storage 1) as (s & c & Hs & Hrun & Hc & Hdone);
    [vm_compute; reflexivity|].
  exists s, c. split; [exact Hs|]. split; [exact Hc|].
  exact (server_never_wrong (total := LineProtocol.total)
    (symmetric := SafeMath.symmetric) clock_1ms EmptyString down_storage s 1 c
    (sound_honest (math := SafeMath.library) storage_failure _
       (sound_empty (H := SafeMath.library))) Hrun Hc Hdone).
Defined.
