(* ===== verification/ServerConfig.v ===== *)
(** * [Server::ServerConfig] ([server/src/server-config.cpp])

    The settings of the server, from their defaults, a file of [key=value]
    lines and the environment, and the connection string they make for libpq.
    The file system and the environment are parameters: [files path] is the
    content of a file that can be opened, [environment name] the text behind
    [std::getenv]. *)

From stdpp Require Import base tactics strings list.
From Stdlib Require Import Ascii String.
From S2P Require Import Prelude.
From S2P Require Import Types.
From S2P Require Import CppString.

(** ** Texts *)

(** The white space of [trim], smaller than that of [std::isspace]. *)
Definition is_space (ch : ascii) : bool :=
  bool_decide (ch = " "%char) || bool_decide (ch = "009"%char)
  || bool_decide (ch = "010"%char) || bool_decide (ch = "013"%char).

(** The first [erase] of [trim]. *)
Fixpoint erase_front (value : string) : string :=
  match value with
  | String ch rest => if is_space ch then erase_front rest else value
  | EmptyString => EmptyString
  end.

(** The second: from behind the last character that is no space. *)
Fixpoint erase_back (value : string) : string :=
  match value with
  | EmptyString => EmptyString
  | String ch rest =>
      match erase_back rest with
      | EmptyString => if is_space ch then EmptyString else String ch EmptyString
      | kept => String ch kept
      end
  end.

Definition trim (value : string) : string := erase_back (erase_front value).

Definition front (s : string) : option ascii := String.get 0 s.
Definition back (s : string) : option ascii :=
  String.get (String.length s - 1) s.

Definition double_quote : ascii := "034"%char.
Definition single_quote : ascii := "'"%char.
Definition backslash : ascii := "\"%char.

Definition unquote (value : string) : string :=
  let value := trim value in
  if bool_decide (2 ≤ String.length value)%nat &&
     ((bool_decide (front value = Some double_quote) &&
       bool_decide (back value = Some double_quote)) ||
      (bool_decide (front value = Some single_quote) &&
       bool_decide (back value = Some single_quote)))
  then String.substring 1 (String.length value - 2) value
  else value.

(** [s.find(ch)], as the texts before and behind the character. *)
Fixpoint find_char (ch : ascii) (s : string) : option (string * string) :=
  match s with
  | EmptyString => None
  | String c rest =>
      if bool_decide (c = ch) then Some (EmptyString, rest)
      else match find_char ch rest with
           | Some (before, after) => Some (String c before, after)
           | None => None
           end
  end.

(** The lines that [std::getline] reads until it fails: the line feeds are
    dropped, and a text behind the last one is a line when it is not empty. *)
Fixpoint getlines (s : string) : list string :=
  match s with
  | EmptyString => []
  | String c rest =>
      if bool_decide (c = "010"%char) then EmptyString :: getlines rest
      else match getlines rest with
           | [] => [String c EmptyString]
           | line :: lines => String c line :: lines
           end
  end.

(** The characters that [libpq_escape_value] writes for one character. *)
Definition escape_char (ch : ascii) : string :=
  if bool_decide (ch = backslash) || bool_decide (ch = single_quote)
  then String backslash (String ch EmptyString)
  else String ch EmptyString.

Fixpoint escape (value : string) : string :=
  match value with
  | EmptyString => EmptyString
  | String ch rest => escape_char ch +:+ escape rest
  end.

Definition libpq_escape_value (value : string) : string :=
  String single_quote (escape value) +:+ String single_quote EmptyString.

Definition parse_uint16 (value field_name : string) : outcome exn Z :=
  parsed ← stoul value;
  if bool_decide (parsed > 65535)
  then Throw (StdException (field_name +:+ " is out of uint16 range"))
  else Ret parsed.

(** ** The settings *)

Module ServerConfig.

Record t : Type := mk {
  host : string;
  port : Z;
  worker_threads : Z;
  max_message_size : Z;
  log_file : string;
  database_host : string;
  database_port : Z;
  database_name : string;
  database_user : string;
  database_password : string;
  database_password_file : string;
  explicit_database_connection_string : string
}.

#[export] Instance eq_dec : EqDecision t.
Proof. solve_decision. Defined.

Definition default : t := {|
  host := "0.0.0.0";
  port := 5555;
  worker_threads := 4;
  max_message_size := 64 * 1024;
  log_file := "/var/log/console-calculator/server.log";
  database_host := "localhost";
  database_port := 5432;
  database_name := "console_calculator";
  database_user := "admin";
  database_password := EmptyString;
  database_password_file := "/run/secrets/cc_db_password";
  explicit_database_connection_string := EmptyString
|}.

Definition set_host (v : string) (c : t) : t :=
  let 'mk _ p w m l dh dp dn du dw df ds := c in mk v p w m l dh dp dn du dw df ds.
Definition set_port (v : Z) (c : t) : t :=
  let 'mk h _ w m l dh dp dn du dw df ds := c in mk h v w m l dh dp dn du dw df ds.
Definition set_worker_threads (v : Z) (c : t) : t :=
  let 'mk h p _ m l dh dp dn du dw df ds := c in mk h p v m l dh dp dn du dw df ds.
Definition set_max_message_size (v : Z) (c : t) : t :=
  let 'mk h p w _ l dh dp dn du dw df ds := c in mk h p w v l dh dp dn du dw df ds.
Definition set_log_file (v : string) (c : t) : t :=
  let 'mk h p w m _ dh dp dn du dw df ds := c in mk h p w m v dh dp dn du dw df ds.
Definition set_database_host (v : string) (c : t) : t :=
  let 'mk h p w m l _ dp dn du dw df ds := c in mk h p w m l v dp dn du dw df ds.
Definition set_database_port (v : Z) (c : t) : t :=
  let 'mk h p w m l dh _ dn du dw df ds := c in mk h p w m l dh v dn du dw df ds.
Definition set_database_name (v : string) (c : t) : t :=
  let 'mk h p w m l dh dp _ du dw df ds := c in mk h p w m l dh dp v du dw df ds.
Definition set_database_user (v : string) (c : t) : t :=
  let 'mk h p w m l dh dp dn _ dw df ds := c in mk h p w m l dh dp dn v dw df ds.
Definition set_database_password (v : string) (c : t) : t :=
  let 'mk h p w m l dh dp dn du _ df ds := c in mk h p w m l dh dp dn du v df ds.
Definition set_database_password_file (v : string) (c : t) : t :=
  let 'mk h p w m l dh dp dn du dw _ ds := c in mk h p w m l dh dp dn du dw v ds.
Definition set_explicit_database_connection_string (v : string) (c : t) : t :=
  let 'mk h p w m l dh dp dn du dw df _ := c in mk h p w m l dh dp dn du dw df v.

Definition apply_key_value (config : t) (key value : string) : outcome exn t :=
  if bool_decide (key = "host") then Ret (set_host value config)
  else if bool_decide (key = "port") then
    v ← parse_uint16 value "port"; Ret (set_port v config)
  else if bool_decide (key = "worker_threads") then
    v ← stoi value; Ret (set_worker_threads v config)
  else if bool_decide (key = "max_message_size") then
    v ← stoull value; Ret (set_max_message_size v config)
  else if bool_decide (key = "log_file") then Ret (set_log_file value config)
  else if bool_decide (key = "database_host") then
    Ret (set_database_host value config)
  else if bool_decide (key = "database_port") then
    v ← parse_uint16 value "database_port"; Ret (set_database_port v config)
  else if bool_decide (key = "database_name") then
    Ret (set_database_name value config)
  else if bool_decide (key = "database_user") then
    Ret (set_database_user value config)
  else if bool_decide (key = "database_password") then
    Ret (set_database_password value config)
  else if bool_decide (key = "database_password_file") then
    Ret (set_database_password_file value config)
  else if bool_decide (key = "database_connection_string") then
    Ret (set_explicit_database_connection_string value config)
  else Ret config.

(** The body of the loop of [from_file] up to [apply_key_value]: the key and
    the value of a line, [None] where the loop continues. *)
Definition read_line (line : string) : option (string * string) :=
  let line :=
    match find_char "#" line with
    | Some (before, _) => before
    | None => line
    end in
  let line := trim line in
  if bool_decide (line = EmptyString) then None
  else match find_char "=" line with
       | None => None
       | Some (before, after) => Some (trim before, unquote after)
       end.

Fixpoint apply_lines (lines : list string) (config : t) : outcome exn t :=
  match lines with
  | [] => Ret config
  | line :: rest =>
      config' ← match read_line line with
                | Some (key, value) => apply_key_value config key value
                | None => Ret config
                end;
      apply_lines rest config'
  end.

Section server_config.
Variable files : string → option string.
Variable environment : string → option string.

Definition read_text_file (path : string) : string :=
  match files path with
  | None => EmptyString
  | Some text => trim text
  end.

Definition environment_value (name : string) : option string :=
  match environment name with
  | None => None
  | Some value =>
      if bool_decide (value = EmptyString) then None else Some value
  end.

Definition database_connection_string (self : t) : string :=
  if negb (bool_decide (explicit_database_connection_string self = EmptyString))
  then explicit_database_connection_string self
  else
    let password :=
      if bool_decide (database_password self = EmptyString)
         && negb (bool_decide (database_password_file self = EmptyString))
      then read_text_file (database_password_file self)
      else database_password self in
    "host=" +:+ libpq_escape_value (database_host self) +:+
    " port=" +:+ to_string (database_port self) +:+
    " dbname=" +:+ libpq_escape_value (database_name self) +:+
    " user=" +:+ libpq_escape_value (database_user self) +:+
    (if negb (bool_decide (password = EmptyString))
     then " password=" +:+ libpq_escape_value password
     else EmptyString).

Definition from_file (path : string) : outcome exn t :=
  match files path with
  | None => Ret default
  | Some text => apply_lines (getlines text) default
  end.

(** One [if (const char* value = environment_value(name))] of
    [from_environment_and_file]. *)
Definition override (name : string) (set : string → t → outcome exn t)
    (config : t) : outcome exn t :=
  match environment_value name with
  | Some value => set value config
  | None => Ret config
  end.

Definition set_text (set : string → t → t) (value : string) (config : t) :
    outcome exn t := Ret (set value config).

Definition set_number (parse : string → outcome exn Z) (set : Z → t → t)
    (value : string) (config : t) : outcome exn t :=
  v ← parse value; Ret (set v config).

Definition from_environment_and_file (path : string) : outcome exn t :=
  config ← from_file path;
  config ← override "CC_SERVER_HOST" (set_text set_host) config;
  config ← override "CC_SERVER_PORT"
    (set_number (λ value, parse_uint16 value "CC_SERVER_PORT") set_port) config;
  config ← override "CC_SERVER_WORKER_THREADS"
    (set_number stoi set_worker_threads) config;
  config ← override "CC_SERVER_MAX_MESSAGE_SIZE"
    (set_number stoull set_max_message_size) config;
  config ← override "CC_SERVER_LOG_FILE" (set_text set_log_file) config;
  config ← override "CC_DB_HOST" (set_text set_database_host) config;
  config ← override "CC_DB_PORT"
    (set_number (λ value, parse_uint16 value "CC_DB_PORT") set_database_port)
    config;
  config ← override "CC_DB_NAME" (set_text set_database_name) config;
  config ← override "CC_DB_USER" (set_text set_database_user) config;
  config ← override "CC_DB_PASSWORD" (set_text set_database_password) config;
  config ← override "CC_DB_PASSWORD_FILE"
    (set_text set_database_password_file) config;
  override "CC_DB_CONNECTION_STRING"
    (set_text set_explicit_database_connection_string) config.
End server_config.
End ServerConfig.

(** ** Trimming *)

Fixpoint all_spaces (s : string) : bool :=
  match s with
  | EmptyString => true
  | String ch rest => is_space ch && all_spaces rest
  end.

(** Neither the first nor the last character is a space. *)
Definition edge_free (s : string) : bool :=
  match front s, back s with
  | Some first, Some last => negb (is_space first) && negb (is_space last)
  | _, _ => true
  end.

Lemma back_cons c c' s : back (String c (String c' s)) = back (String c' s).
Proof. unfold back. simpl. by rewrite Nat.sub_0_r. Qed.

Lemma back_app s c t : back (s +:+ String c t) = back (String c t).
Proof.
  induction s as [|c1 s IH]; [done|]. rewrite string_app_cons, <-IH.
  destruct s; [exact (back_cons _ _ _)|]. by rewrite string_app_cons, back_cons.
Qed.

Lemma erase_front_app l s : all_spaces l = true → erase_front (l +:+ s) = erase_front s.
Proof.
  induction l as [|c l IH]; [done|]. rewrite string_app_cons; simpl.
  intros [-> Hl]%andb_true_iff. by apply IH.
Qed.

Lemma erase_front_split s :
  ∃ l, s = l +:+ erase_front s ∧ all_spaces l = true.
Proof.
  induction s as [|c s (l & Hs & Hl)]; simpl; [by exists EmptyString|].
  destruct (is_space c) eqn:Hc; [|by exists EmptyString].
  exists (String c l). rewrite string_app_cons, <-Hs; simpl. by rewrite Hc, Hl.
Qed.

Lemma erase_front_head s c t : erase_front s = String c t → is_space c = false.
Proof.
  induction s as [|c1 s IH]; simpl; [done|].
  destruct (is_space c1) eqn:?; [done|]. by intros [= <- _].
Qed.

Lemma erase_back_spaces r : all_spaces r = true → erase_back r = EmptyString.
Proof.
  induction r as [|c r IH]; simpl; [done|].
  intros [Hc Hr]%andb_true_iff. by rewrite IH, Hc.
Qed.

Lemma erase_back_app s r : all_spaces r = true → erase_back (s +:+ r) = erase_back s.
Proof.
  intros Hr. induction s as [|c s IH]; [by apply erase_back_spaces|].
  rewrite string_app_cons; simpl. by rewrite IH.
Qed.

Lemma erase_back_split s :
  ∃ r, s = erase_back s +:+ r ∧ all_spaces r = true.
Proof.
  induction s as [|c s (r & Hs & Hr)]; simpl; [by exists EmptyString|].
  destruct (erase_back s) as [|c' s'] eqn:He.
  - destruct (is_space c) eqn:Hc.
    + exists (String c r). simpl. rewrite Hc, Hr. by rewrite Hs at 1.
    + exists r. by rewrite Hs at 1.
  - exists r. rewrite !string_app_cons, <-string_app_cons. by rewrite <-Hs.
Qed.

Lemma erase_back_last s c : back (erase_back s) = Some c → is_space c = false.
Proof.
  induction s as [|c1 s IH]; simpl; [done|].
  destruct (erase_back s) as [|c' s'] eqn:He.
  - destruct (is_space c1) eqn:Hc; [done|]. by intros [= <-].
  - by rewrite back_cons.
Qed.

Lemma erase_back_clean s :
  (∀ c, back s = Some c → is_space c = false) → erase_back s = s.
Proof.
  induction s as [|c s IH]; simpl; [done|]. intros Hb.
  destruct s as [|c' s]; [by rewrite (Hb c)|].
  rewrite IH; [done|]. intros c1 H1. apply Hb. by rewrite back_cons.
Qed.

Lemma trim_spaces l s r :
  all_spaces l = true → all_spaces r = true → edge_free s = true →
  trim (l +:+ s +:+ r) = s.
Proof.
  intros Hl Hr Hs. unfold trim. rewrite erase_front_app by done.
  destruct s as [|c s].
  - destruct (erase_front_split r) as (l' & Hsplit & _).
    apply erase_back_spaces. clear Hl Hs.
    assert (∀ u v, all_spaces (u +:+ v) = true → all_spaces v = true) as Hsuf.
    { intros u v. induction u as [|cu u IH]; [done|].
      rewrite string_app_cons; simpl. intros [_ ?]%andb_true_iff. auto. }
    apply (Hsuf l'). change (EmptyString +:+ r) with r. by rewrite <-Hsplit.
  - unfold edge_free in Hs. change (front (String c s)) with (Some c) in Hs.
    destruct (back (String c s)) as [last|] eqn:Hb.
    + apply andb_true_iff in Hs as [Hc%negb_true_iff Hlast%negb_true_iff].
      rewrite string_app_cons; simpl. rewrite Hc, <-string_app_cons.
      rewrite erase_back_app by done. apply erase_back_clean.
      intros c' Hc'. congruence.
    + exfalso. clear -Hb. revert c Hb.
      induction s as [|c' s IH]; intros c; [done|]. rewrite back_cons. apply IH.
Qed.

Lemma trim_split s :
  ∃ l r, s = l +:+ trim s +:+ r ∧ all_spaces l = true ∧ all_spaces r = true ∧
         edge_free (trim s) = true.
Proof.
  destruct (erase_front_split s) as (l & Hl & Hspl).
  destruct (erase_back_split (erase_front s)) as (r & Hr & Hspr).
  exists l, r. split_and!; [|done|done|].
  - unfold trim. by rewrite <-Hr.
  - unfold edge_free, trim.
    destruct (front (erase_back (erase_front s))) as [c|] eqn:Hf; [|done].
    destruct (back (erase_back (erase_front s))) as [c'|] eqn:Hb; [|done].
    rewrite (erase_back_last _ _ Hb). simpl. rewrite andb_true_r.
    destruct (erase_back (erase_front s)) as [|c1 t] eqn:He; [done|].
    injection Hf as ->. rewrite string_app_cons in Hr.
    by rewrite (erase_front_head _ _ _ Hr).
Qed.

(** [trim] removes the white space around a text and nothing else: its
    result neither begins nor ends with a space, tab, line feed or carriage
    return, and it is the only such text that the argument surrounds with these
    characters. *)
Lemma trim_correct s :
  (∃ l r, s = l +:+ trim s +:+ r ∧ all_spaces l = true ∧ all_spaces r = true) ∧
  edge_free (trim s) = true ∧
  (∀ l t r, s = l +:+ t +:+ r → all_spaces l = true → all_spaces r = true →
     edge_free t = true → t = trim s).
Proof.
  destruct (trim_split s) as (l & r & Hs & Hl & Hr & He).
  split_and!; [by exists l, r|done|].
  intros l' t r' -> Hl' Hr' Ht. by rewrite trim_spaces.
Qed.

Lemma parse_uint16_bounds value field_name n :
  parse_uint16 value field_name = Ret n → 0 ≤ n ≤ 65535.
Proof.
  unfold parse_uint16.
  destruct (stoul value) as [p|e|] eqn:Hp; simpl; [|done..].
  apply read_unsigned_bounds in Hp. case_bool_decide; [done|].
  intros [= <-]. lia.
Qed.

Lemma parse_uint16_to_string n field_name :
  - ULONG_MAX ≤ n ≤ ULONG_MAX →
  parse_uint16 (to_string n) field_name =
    if bool_decide (n mod 2 ^ 64 ≤ 65535) then Ret (n mod 2 ^ 64)
    else Throw (StdException (field_name +:+ " is out of uint16 range")).
Proof.
  intros Hn. unfold parse_uint16, stoul, read_unsigned.
  rewrite read_number_to_string.
  rewrite bool_decide_true by (unfold ULONG_MAX in *; simpl; lia).
  rewrite signed_abs. simpl. repeat case_bool_decide; try done; lia.
Qed.

(** C37: [parse_uint16] on decimal texts: a port number is read back, a larger
    number that [unsigned long] can hold is refused with the name of the field,
    and a negative number is first reduced modulo 2^64; whatever is returned for
    any text fits 16 bits. *)
Theorem parse_uint16_correct value field_name :
  (∀ n, parse_uint16 value field_name = Ret n → 0 ≤ n ≤ 65535) ∧
  (∀ n, - ULONG_MAX ≤ n ≤ ULONG_MAX → value = to_string n →
     parse_uint16 value field_name =
       if bool_decide (n mod 2 ^ 64 ≤ 65535) then Ret (n mod 2 ^ 64)
       else Throw (StdException (field_name +:+ " is out of uint16 range"))).
Proof.
  split; [intros n; apply parse_uint16_bounds|].
  intros n Hn ->. by apply parse_uint16_to_string.
Qed.

Example parse_uint16_correct_witness :
  parse_uint16 (to_string 5555) "port" = Ret 5555 ∧
  parse_uint16 (to_string (-1)) "port" =
    Throw (StdException "port is out of uint16 range") ∧
  parse_uint16 (to_string (1 - 2 ^ 64)) "port" = Ret 1.
Proof.
  split_and!.
  - exact (proj2 (parse_uint16_correct (to_string 5555) "port") 5555
      ltac:(unfold ULONG_MAX; lia) eq_refl).
  - exact (proj2 (parse_uint16_correct (to_string (-1)) "port") (-1)
      ltac:(unfold ULONG_MAX; lia) eq_refl).
  - exact (proj2 (parse_uint16_correct (to_string (1 - 2 ^ 64)) "port")
      (1 - 2 ^ 64) ltac:(unfold ULONG_MAX; lia) eq_refl).
Defined.
