(* ===== verification/ConnectionString.v ===== *)
(** * The connection string

    [ServerConfig::database_connection_string] against the syntax that libpq
    documents for its keyword/value connection strings. *)

From stdpp Require Import base tactics strings list.
From Stdlib Require Import Ascii.
From S2P Require Import Prelude.
From S2P Require Import Types.
From S2P Require Import CppString.
From S2P Require Import ServerConfig.
Import ServerConfig.

(** ** The documented syntax

    Settings are [keyword = value] pairs separated by spaces, spaces around the
    equal sign are optional; a value in single quotes may hold any text, with a
    backslash before a quote or a backslash; a value without quotes ends at a
    space.  [read] reads a text one character at a time, from between two
    settings or from inside one; [None] is a syntax error. *)

Inductive position : Type :=
  | Between
  | InKeyword (keyword : string)
  | BeforeEqual (keyword : string)
  | AfterEqual (keyword : string)
  | InQuotes (keyword value : string)
  | InQuotesEscaped (keyword value : string)
  | Bare (keyword value : string)
  | BareEscaped (keyword value : string).

Definition settings : Type := list (string * string).

Definition snoc (s : string) (c : ascii) : string := s +:+ String c EmptyString.

Fixpoint read (p : position) (s : string) : option settings :=
  match p, s with
  | Between, EmptyString => Some []
  | Between, String c rest =>
      if is_c_space c then read Between rest
      else read (InKeyword (String c EmptyString)) rest
  | InKeyword _, EmptyString => None
  | InKeyword k, String c rest =>
      if bool_decide (c = "="%char) then read (AfterEqual k) rest
      else if is_c_space c then read (BeforeEqual k) rest
      else read (InKeyword (snoc k c)) rest
  | BeforeEqual _, EmptyString => None
  | BeforeEqual k, String c rest =>
      if bool_decide (c = "="%char) then read (AfterEqual k) rest
      else if is_c_space c then read (BeforeEqual k) rest
      else None
  | AfterEqual k, EmptyString => Some [(k, EmptyString)]
  | AfterEqual k, String c rest =>
      if is_c_space c then read (AfterEqual k) rest
      else if bool_decide (c = single_quote) then read (InQuotes k EmptyString) rest
      else if bool_decide (c = backslash) then read (BareEscaped k EmptyString) rest
      else read (Bare k (String c EmptyString)) rest
  | InQuotes _ _, EmptyString => None
  | InQuotes k v, String c rest =>
      if bool_decide (c = single_quote) then cons (k, v) <$> read Between rest
      else if bool_decide (c = backslash) then read (InQuotesEscaped k v) rest
      else read (InQuotes k (snoc v c)) rest
  | InQuotesEscaped _ _, EmptyString => None
  | InQuotesEscaped k v, String c rest => read (InQuotes k (snoc v c)) rest
  | Bare k v, EmptyString => Some [(k, v)]
  | Bare k v, String c rest =>
      if is_c_space c then cons (k, v) <$> read Between rest
      else if bool_decide (c = backslash) then read (BareEscaped k v) rest
      else read (Bare k (snoc v c)) rest
  | BareEscaped k v, EmptyString => Some [(k, v)]
  | BareEscaped k v, String c rest => read (Bare k (snoc v c)) rest
  end.

Definition read_conninfo : string → option settings := read Between.

(** ** Reading back what the server writes *)

Lemma snoc_app v c s : snoc v c +:+ s = v +:+ String c s.
Proof. unfold snoc. by rewrite string_app_assoc. Qed.

Lemma escape_cons c s : escape (String c s) = escape_char c +:+ escape s.
Proof. done. Qed.

Lemma read_escaped k v value rest :
  read (InQuotes k v) (escape value +:+ String single_quote rest) =
  cons (k, v +:+ value) <$> read Between rest.
Proof.
  revert v. induction value as [|c value IH]; intros v.
  - by rewrite string_app_nil_r.
  - rewrite escape_cons. unfold escape_char.
    rewrite <-(snoc_app v c value).
    destruct (decide (c = backslash)) as [->|Hb]; [by rewrite <-IH|].
    destruct (decide (c = single_quote)) as [->|Hq]; [by rewrite <-IH|].
    rewrite !(bool_decide_false _ Hb), !(bool_decide_false _ Hq); simpl.
    by rewrite (bool_decide_false _ Hb), (bool_decide_false _ Hq), <-IH.
Qed.

Lemma read_quoted k value rest :
  read (AfterEqual k) (libpq_escape_value value +:+ rest) =
  cons (k, value) <$> read Between rest.
Proof.
  unfold libpq_escape_value. rewrite string_app_assoc, !string_app_cons.
  change (EmptyString +:+ rest) with rest. simpl.
  by rewrite read_escaped.
Qed.

(** A character that ends no bare value. *)
Lemma digit_bare c :
  is_digit c = true →
  is_c_space c = false ∧ c ≠ single_quote ∧ c ≠ backslash.
Proof. by destruct c as [[] [] [] [] [] [] [] []]; vm_compute. Qed.

Lemma read_digits_bare k v digits rest :
  all_digits digits = true →
  read (Bare k v) (digits +:+ String " " rest) =
  cons (k, v +:+ digits) <$> read Between rest.
Proof.
  revert v. induction digits as [|c digits IH]; intros v.
  - intros _. by rewrite string_app_nil_r.
  - intros [Hc Hd]%andb_true_iff.
    destruct (digit_bare c Hc) as (Hs & _ & Hb).
    rewrite string_app_cons; simpl. rewrite Hs, (bool_decide_false _ Hb).
    rewrite IH by done. by rewrite snoc_app.
Qed.

Lemma read_number_bare k z rest :
  read (AfterEqual k) (to_string z +:+ String " " rest) =
  cons (k, to_string z) <$> read Between rest.
Proof.
  destruct (to_string_cases z) as (digits & Hd & Hs & _ & ->).
  case_bool_decide.
  - rewrite string_app_cons; simpl. by rewrite read_digits_bare.
  - destruct digits as [|c digits]; [done|]. simpl in Hs, Hd.
    apply andb_true_iff in Hd as [Hc Hd].
    destruct (digit_bare c Hc) as (Hsp & Hq & Hb).
    rewrite string_app_cons; simpl.
    rewrite Hsp, (bool_decide_false _ Hb), (bool_decide_false _ Hq).
    by rewrite read_digits_bare.
Qed.

Lemma read_host s : read Between ("host=" +:+ s) = read (AfterEqual "host") s.
Proof. done. Qed.
Lemma read_port s : read Between (" port=" +:+ s) = read (AfterEqual "port") s.
Proof. done. Qed.
Lemma read_dbname s : read Between ("dbname=" +:+ s) = read (AfterEqual "dbname") s.
Proof. done. Qed.
Lemma read_user s : read Between (" user=" +:+ s) = read (AfterEqual "user") s.
Proof. done. Qed.
Lemma read_password s :
  read Between (" password=" +:+ s) = read (AfterEqual "password") s.
Proof. done. Qed.

(** The password that is sent: the configured one, else the trimmed content of
    the password file. *)
Definition effective_password (files : string → option string)
    (config : ServerConfig.t) : string :=
  if bool_decide (database_password config = EmptyString) then
    if bool_decide (database_password_file config = EmptyString) then EmptyString
    else from_option id EmptyString (trim <$> files (database_password_file config))
  else database_password config.

Definition configured_settings (files : string → option string)
    (config : ServerConfig.t) : settings :=
  [("host", database_host config);
   ("port", to_string (database_port config));
   ("dbname", database_name config);
   ("user", database_user config)] ++
  (if bool_decide (effective_password files config = EmptyString) then []
   else [("password", effective_password files config)]).

(** C25: the connection string says what the configuration says.  Without an
    explicit connection string, the documented syntax reads back exactly the
    configured host, port, database and user, and the password when there is
    one (the configured password, else the trimmed content of its file): no text
    in a value can end the value early or add a setting. *)
Theorem connection_string_roundtrip files config :
  explicit_database_connection_string config = EmptyString →
  read_conninfo (database_connection_string files config) =
    Some (configured_settings files config).
Proof.
  intros Hexp. unfold database_connection_string.
  rewrite bool_decide_true by done; cbn [negb].
  replace (if _ && _ then _ else _) with (effective_password files config)
    by (unfold effective_password, read_text_file;
        by repeat case_bool_decide; simpl; try destruct (files _)).
  unfold configured_settings, read_conninfo.
  set (password := effective_password files config).
  rewrite read_host, read_quoted.
  replace (" dbname=" +:+ _) with (String " " ("dbname=" +:+
    libpq_escape_value (database_name config) +:+
    " user=" +:+ libpq_escape_value (database_user config) +:+
    (if negb (bool_decide (password = EmptyString))
     then " password=" +:+ libpq_escape_value password
     else EmptyString))) by done.
  rewrite read_port, read_number_bare, read_dbname, read_quoted, read_user,
    read_quoted.
  case_bool_decide; [done|]; cbn [negb].
  rewrite <-(string_app_nil_r (libpq_escape_value password)).
  by rewrite read_password, read_quoted.
Qed.

Example connection_string_roundtrip_witness :
  let config := set_database_user "o'hara" default in
  let files := λ path : string,
    if bool_decide (path = "/run/secrets/cc_db_password")
    then Some "  a\ b' host=evil  " else None in
  read_conninfo (database_connection_string files config) =
    Some [("host", "localhost"); ("port", "5432");
          ("dbname", "console_calculator"); ("user", "o'hara");
          ("password", "a\ b' host=evil")].
Proof.
  intros config files.
  exact (connection_string_roundtrip files config eq_refl).
Defined.
