(* ===== verification/ConfigFile.v ===== *)
(** * The configuration file and the environment

    What [ServerConfig::from_file] and [from_environment_and_file] make of the
    lines of a file and of the environment, field by field. *)

From stdpp Require Import base tactics strings list.
From Stdlib Require Import Ascii.
From S2P Require Import Prelude.
From S2P Require Import Types.
From S2P Require Import CppString.
From S2P Require Import ServerConfig.
Import ServerConfig.

(** ** Fields

    A field of the settings is a text, or a number with the conversion that
    reads it. *)

Inductive field : Type :=
  | Text (get : ServerConfig.t → string)
  | Number (parse : string → outcome exn Z) (get : ServerConfig.t → Z).

Definition uint16 (name value : string) : outcome exn Z := parse_uint16 value name.

(** The keys of a file. *)
Definition file_fields : list (string * field) :=
  [("host", Text host);
   ("port", Number (uint16 "port") port);
   ("worker_threads", Number stoi worker_threads);
   ("max_message_size", Number stoull max_message_size);
   ("log_file", Text log_file);
   ("database_host", Text database_host);
   ("database_port", Number (uint16 "database_port") database_port);
   ("database_name", Text database_name);
   ("database_user", Text database_user);
   ("database_password", Text database_password);
   ("database_password_file", Text database_password_file);
   ("database_connection_string", Text explicit_database_connection_string)].

(** The variables of the environment, for the same fields in the same order. *)
Definition environment_fields : list (string * field) :=
  [("CC_SERVER_HOST", Text host);
   ("CC_SERVER_PORT", Number (uint16 "CC_SERVER_PORT") port);
   ("CC_SERVER_WORKER_THREADS", Number stoi worker_threads);
   ("CC_SERVER_MAX_MESSAGE_SIZE", Number stoull max_message_size);
   ("CC_SERVER_LOG_FILE", Text log_file);
   ("CC_DB_HOST", Text database_host);
   ("CC_DB_PORT", Number (uint16 "CC_DB_PORT") database_port);
   ("CC_DB_NAME", Text database_name);
   ("CC_DB_USER", Text database_user);
   ("CC_DB_PASSWORD", Text database_password);
   ("CC_DB_PASSWORD_FILE", Text database_password_file);
   ("CC_DB_CONNECTION_STRING", Text explicit_database_connection_string)].

(** The field of [new] is what the text [value] says, or what it was in [old]. *)
Definition assigned (f : field) (value : option string) (old new : ServerConfig.t) :
    Prop :=
  match f, value with
  | Text get, Some text => get new = text
  | Text get, None => get new = get old
  | Number parse get, Some text => parse text = Ret (get new)
  | Number parse get, None => get new = get old
  end.

(** A number of [fields] that cannot be read from its text. *)
Inductive misread (fields : list (string * field)) (value : string → string → Prop)
    (e : exn) : Prop :=
  | misread_number name parse get text :
      (name, Number parse get) ∈ fields → value name text →
      parse text = Throw e → misread fields value e.

Lemma assigned_trans f v1 v2 c1 c2 c3 :
  assigned f v1 c1 c2 → assigned f v2 c2 c3 →
  assigned f (match v2 with Some v => Some v | None => v1 end) c1 c3.
Proof. destruct f, v1, v2; simpl; congruence. Qed.

(** ** The file *)

(** The last value that assignments give a key. *)
Fixpoint last_value (key : string) (assignments : list (string * string)) :
    option string :=
  match assignments with
  | [] => None
  | (k, v) :: rest =>
      match last_value key rest with
      | Some v' => Some v'
      | None => if bool_decide (k = key) then Some v else None
      end
  end.

Lemma uint16_defined name value : uint16 name value ≠ Undef.
Proof.
  unfold uint16, parse_uint16, stoul, read_unsigned.
  repeat (case_match; simplify_eq/=); try done.
Qed.

Lemma stoi_defined value : stoi value ≠ Undef.
Proof. unfold stoi. by repeat case_match. Qed.

Lemma stoull_defined value : stoull value ≠ Undef.
Proof. unfold stoull, read_unsigned. by repeat case_match. Qed.

(** Reads the number of a field: the new value, or the misread one. *)
Ltac read_field parse value defined :=
  let E := fresh "E" in
  pose proof (defined : parse value ≠ Undef);
  destruct (parse value) as [?|?|] eqn:E; [| |done].

Ltac in_table :=
  first [apply list_elem_of_here | apply list_elem_of_further; in_table].

(** One assignment sets its field and no other, or is a number that cannot be
    read. *)
Lemma apply_key_value_cases c key value :
  (∃ c', apply_key_value c key value = Ret c' ∧
     Forall (λ '(name, f),
       assigned f (if bool_decide (key = name) then Some value else None) c c')
       file_fields) ∨
  (∃ e, apply_key_value c key value = Throw e ∧
     misread file_fields (λ name text, name = key ∧ text = value) e).
Proof.
  destruct c as [h p w m l dh dp dn du dw df ds].
  unfold apply_key_value.
  repeat match goal with
  | |- context [if bool_decide (key = ?k) then _ else _] =>
      destruct (decide (key = k)) as [->|];
      [ rewrite (bool_decide_true (k = k)) by done
      | rewrite (bool_decide_false (key = k)) by done ]
  end.
  all: try match goal with
  | |- context [parse_uint16 ?v ?n] =>
      change (parse_uint16 v n) with (uint16 n v);
      read_field (uint16 n) v (uint16_defined n v)
  | |- context [stoi ?v] => read_field stoi v (stoi_defined v)
  | |- context [stoull ?v] => read_field stoull v (stoull_defined v)
  end.
  all: try match goal with
  | E : _ = Throw ?e |- _ => right; exists e; split; [done|];
      econstructor; cycle 1; [done|exact E|in_table]
  end.
  all: left; eexists; split; [reflexivity|].
  all: unfold file_fields; repeat apply List.Forall_cons; try apply List.Forall_nil.
  all: cbv beta iota.
  all: first [ reflexivity | assumption
             | by rewrite bool_decide_false | by rewrite bool_decide_true ].
Qed.

(** The assignments of the lines of a file. *)
Definition assignments (lines : list string) : list (string * string) :=
  omap read_line lines.

Lemma apply_lines_cases lines c :
  (∃ c', apply_lines lines c = Ret c' ∧
     Forall (λ '(name, f), assigned f (last_value name (assignments lines)) c c')
       file_fields) ∨
  (∃ e, apply_lines lines c = Throw e ∧
     misread file_fields (λ name text, (name, text) ∈ assignments lines) e).
Proof.
  revert c. induction lines as [|line lines IH]; intros c.
  - left. exists c. split; [done|]. apply Forall_forall. by intros [name []] _.
  - unfold assignments in *. simpl.
    destruct (read_line line) as [[key value]|]; simpl; [|apply IH].
    destruct (apply_key_value_cases c key value)
      as [(c1 & -> & H1)|(e & -> & [name parse get text Hin [-> ->] He])]; simpl.
    + destruct (IH c1) as [(c2 & -> & H2)|(e & -> & [name parse get text Hin Ht He])].
      * left. exists c2. split; [done|]. rewrite Forall_forall in H1, H2 |- *.
        intros [name f] Hin. specialize (H1 _ Hin). specialize (H2 _ Hin).
        exact (assigned_trans _ _ _ _ _ _ H1 H2).
      * right. exists e. split; [done|].
        econstructor; [exact Hin| |exact He]. by right.
    + right. exists e. split; [done|].
      econstructor; [exact Hin| |exact He]. by left.
Qed.

(** C26: [from_file], field by field: without a file the result is the default;
    otherwise every field holds what the last line that assigns its key says, or
    its default, whatever other lines, comments and unknown keys the file holds;
    the only failure is a number that some line assigns and that cannot be read,
    with the exception of its conversion. *)
Theorem from_file_correct files path :
  match files path with
  | None => from_file files path = Ret default
  | Some text =>
      let assigned_lines := assignments (getlines text) in
      (∃ c, from_file files path = Ret c ∧
         Forall (λ '(name, f), assigned f (last_value name assigned_lines) default c)
           file_fields) ∨
      (∃ e, from_file files path = Throw e ∧
         misread file_fields (λ name text, (name, text) ∈ assigned_lines) e)
  end.
Proof.
  unfold from_file. destruct (files path) as [text|]; [|done].
  apply apply_lines_cases.
Qed.

(** ** The environment *)

(** The overrides of [from_environment_and_file], in their order. *)
Definition overrides : list (string * (string → ServerConfig.t → outcome exn ServerConfig.t)) :=
  [("CC_SERVER_HOST", set_text set_host);
   ("CC_SERVER_PORT", set_number (uint16 "CC_SERVER_PORT") set_port);
   ("CC_SERVER_WORKER_THREADS", set_number stoi set_worker_threads);
   ("CC_SERVER_MAX_MESSAGE_SIZE", set_number stoull set_max_message_size);
   ("CC_SERVER_LOG_FILE", set_text set_log_file);
   ("CC_DB_HOST", set_text set_database_host);
   ("CC_DB_PORT", set_number (uint16 "CC_DB_PORT") set_database_port);
   ("CC_DB_NAME", set_text set_database_name);
   ("CC_DB_USER", set_text set_database_user);
   ("CC_DB_PASSWORD", set_text set_database_password);
   ("CC_DB_PASSWORD_FILE", set_text set_database_password_file);
   ("CC_DB_CONNECTION_STRING", set_text set_explicit_database_connection_string)].

Section environment.
Variable environment : string → option string.

Abbreviation value_of := (environment_value environment).

Fixpoint apply_overrides (os : list (string * (string → ServerConfig.t → outcome exn ServerConfig.t)))
    (c : ServerConfig.t) : outcome exn ServerConfig.t :=
  match os with
  | [] => Ret c
  | (name, set) :: rest =>
      c' ← override environment name set c; apply_overrides rest c'
  end.

Lemma from_environment_overrides files path :
  from_environment_and_file files environment path =
    (c ← from_file files path; apply_overrides overrides c).
Proof.
  unfold from_environment_and_file, mbind, outcome_bind, overrides; simpl.
  destruct (from_file files path) as [c|e|]; [|done..].
  unfold mbind, outcome_bind, uint16.
  repeat match goal with
  | |- context [match override environment ?n ?s ?c with _ => _ end] =>
      destruct (override environment n s c) as [?|?|]; [|done..]
  end; done.
Qed.

(** One override sets its field and no other. *)
Lemma override_cases name set c :
  (name, set) ∈ overrides →
  (∃ c', override environment name set c = Ret c' ∧
     Forall (λ '(name', f),
       assigned f (if bool_decide (name = name') then value_of name' else None) c c')
       environment_fields) ∨
  (∃ e, override environment name set c = Throw e ∧
     misread environment_fields (λ name text, value_of name = Some text) e).
Proof.
  destruct c as [h p w m l dh dp dn du dw df ds].
  unfold overrides. rewrite !elem_of_cons, elem_of_nil.
  intros Hin. repeat destruct Hin as [Hin|Hin]; [simplify_eq..|done].
  all: unfold override.
  all: match goal with |- context [value_of ?n] => destruct (value_of n) as [text|] eqn:Hv end.
  all: unfold set_text, set_number.
  all: try match goal with
  | |- context [uint16 ?n ?v] => read_field (uint16 n) v (uint16_defined n v)
  | |- context [stoi ?v] => read_field stoi v (stoi_defined v)
  | |- context [stoull ?v] => read_field stoull v (stoull_defined v)
  end.
  all: try match goal with
  | E : _ = Throw ?e |- _ => right; exists e; split; [done|];
      econstructor; cycle 1; [exact Hv|exact E|in_table]
  end.
  all: left; eexists; split; [reflexivity|].
  all: unfold environment_fields; repeat apply List.Forall_cons; try apply List.Forall_nil.
  all: cbv beta iota.
  all: first [ by rewrite bool_decide_false
             | rewrite bool_decide_true by done; rewrite Hv; first [reflexivity|assumption] ].
Qed.

(** The value of a variable that one of the overrides [names] reads. *)
Definition value_in (names : list string) (name : string) : option string :=
  if bool_decide (name ∈ names) then value_of name else None.

Lemma value_in_cons n names name :
  value_in (n :: names) name =
    match value_in names name with
    | Some v => Some v
    | None => if bool_decide (n = name) then value_of name else None
    end.
Proof.
  unfold value_in.
  destruct (decide (n = name)) as [->|Hn].
  - rewrite (bool_decide_true (name = name)), (bool_decide_true (name ∈ name :: _));
      [|by left|done].
    case_bool_decide; [|done]. by destruct (value_of name).
  - rewrite (bool_decide_false (n = name)) by done.
    rewrite (bool_decide_ext (name ∈ n :: names) (name ∈ names)) by (rewrite elem_of_cons; naive_solver).
    case_bool_decide; [|done]. by destruct (value_of name).
Qed.

Lemma apply_overrides_cases os c :
  os ⊆ overrides →
  (∃ c', apply_overrides os c = Ret c' ∧
     Forall (λ '(name, f), assigned f (value_in (os.*1) name) c c')
       environment_fields) ∨
  (∃ e, apply_overrides os c = Throw e ∧
     misread environment_fields (λ name text, value_of name = Some text) e).
Proof.
  revert c. induction os as [|[name set] os IH]; intros c Hos.
  - left. exists c. split; [done|]. apply Forall_forall. by intros [name []] _.
  - simpl. destruct (override_cases name set c) as [(c1 & -> & H1)|(e & -> & He)];
      [by apply Hos; left| |right; by exists e]. simpl.
    destruct (IH c1) as [(c2 & -> & H2)|(e & -> & He)];
      [by intros o Ho; apply Hos; right| |right; by exists e].
    left. exists c2. split; [done|]. rewrite Forall_forall in H1, H2 |- *.
    intros [name' f] Hin. specialize (H1 _ Hin). specialize (H2 _ Hin). simpl in *.
    rewrite value_in_cons. exact (assigned_trans _ _ _ _ _ _ H1 H2).
Qed.

(** C27: the environment overrides the file, field by field: when the file can
    be read, every field of the result is what its environment variable says when
    that variable is set and not empty, and what the file (or the default) says
    otherwise; the only failures are those of the file and of a number that a set
    variable holds and that cannot be read. *)
Theorem environment_overrides_file files path :
  (∃ c0 c, from_file files path = Ret c0 ∧
     from_environment_and_file files environment path = Ret c ∧
     Forall (λ '(name, f), assigned f (value_of name) c0 c) environment_fields) ∨
  (∃ e, from_environment_and_file files environment path = Throw e ∧
     (from_file files path = Throw e ∨
      misread environment_fields (λ name text, value_of name = Some text) e)).
Proof.
  rewrite from_environment_overrides.
  assert ((∃ c0, from_file files path = Ret c0) ∨ ∃ e, from_file files path = Throw e)
    as [[c0 Hf]|[e Hf]].
  { unfold from_file. destruct (files path) as [text|]; [|by left; eexists].
    destruct (apply_lines_cases (getlines text) default) as [(c & -> & _)|(e & -> & _)];
      eauto. }
  - rewrite Hf. cbn [mbind outcome_bind].
    destruct (apply_overrides_cases overrides c0) as [(c & -> & Hc)|(e & -> & He)];
      [done|left; exists c0, c; split_and!; [done..|]|right; eauto].
    rewrite Forall_forall in Hc |- *. intros [name f] Hin. specialize (Hc _ Hin).
    unfold value_in in Hc. rewrite bool_decide_true in Hc; [done|].
    apply (list_elem_of_fmap_2 fst) in Hin. exact Hin.
  - right. exists e. rewrite Hf. split; [done|by left].
Qed.
End environment.
