(* ===== verification/ConfigTypes.v ===== *)
(** * The types of a configuration

    The numbers of every configuration that can be read are values of the C++
    types that hold them; and the configuration file of the repository holds the
    defaults. *)

From stdpp Require Import base tactics strings list.
From Stdlib Require Import Ascii.
From S2P Require Import Prelude.
From S2P Require Import Types.
From S2P Require Import CppString.
From S2P Require Import ServerConfig.
From S2P Require Import ConfigFile.
Import ServerConfig.

(** [std::uint16_t], [int] and [std::size_t]. *)
Record well_typed (c : t) : Prop := mk_well_typed {
  port_range : 0 ≤ port c ≤ 65535;
  worker_threads_range : in_int (worker_threads c);
  max_message_size_range : 0 ≤ max_message_size c ≤ ULONG_MAX;
  database_port_range : 0 ≤ database_port c ≤ 65535
}.

(** A value in [P], or an exception that [main] catches with its message. *)
Definition yields {A} (P : A → Prop) (o : outcome exn A) : Prop :=
  match o with
  | Ret a => P a
  | Throw (StdException _) => True
  | _ => False
  end.

Create HintDb typed.

Lemma yields_bind {A B} (P : A → Prop) (Q : B → Prop) (m : outcome exn A)
    (k : A → outcome exn B) :
  yields P m → (∀ a, P a → yields Q (k a)) → yields Q (m ≫= k).
Proof. destruct m as [a|[]|]; simpl; auto. Qed.

Lemma stoul_yields value : yields (λ n, 0 ≤ n ≤ ULONG_MAX) (stoul value).
Proof.
  destruct (stoul value) as [n|e|] eqn:H; simpl; [by eapply read_unsigned_bounds| |];
    unfold stoul, read_unsigned in H; repeat case_match; by simplify_eq.
Qed.

Lemma stoull_yields value : yields (λ n, 0 ≤ n ≤ ULONG_MAX) (stoull value).
Proof.
  destruct (stoull value) as [n|e|] eqn:H; simpl; [by eapply read_unsigned_bounds| |];
    unfold stoull, read_unsigned in H; repeat case_match; by simplify_eq.
Qed.

Lemma stoi_yields value : yields in_int (stoi value).
Proof.
  destruct (stoi value) as [n|e|] eqn:H; simpl; [by eapply stoi_in_int| |];
    unfold stoi in H; repeat case_match; by simplify_eq.
Qed.

Lemma uint16_yields value name : yields (λ n, 0 ≤ n ≤ 65535) (parse_uint16 value name).
Proof.
  eapply yields_bind; [apply stoul_yields|]. intros n [? _]; simpl.
  case_bool_decide; simpl; [done|lia].
Qed.

(** A setter of a number within the range of its field. *)
Lemma set_yields (P : Z → Prop) (parse : outcome exn Z) (set : Z → t → t) c :
  yields P parse → (∀ n, P n → well_typed (set n c)) →
  yields well_typed (v ← parse; Ret (set v c)).
Proof. intros Hp Hset. by eapply yields_bind. Qed.
#[export] Hint Resolve stoul_yields stoull_yields stoi_yields uint16_yields : typed.

Lemma default_well_typed : well_typed default.
Proof. split; by apply (bool_decide_unpack _). Qed.

(** Settings of a field leave the others. *)
Ltac set_field :=
  match goal with
  | H : well_typed ?c |- _ => destruct c, H; by split
  end.

Lemma apply_key_value_typed c key value :
  well_typed c → yields well_typed (apply_key_value c key value).
Proof.
  intros Hc. unfold apply_key_value.
  repeat (case_bool_decide;
    [first [eapply set_yields; [eauto with typed|]; intros n Hn; simpl in Hn|simpl];
     set_field|]).
  done.
Qed.

Lemma apply_lines_typed lines c :
  well_typed c → yields well_typed (apply_lines lines c).
Proof.
  revert c. induction lines as [|line lines IH]; intros c Hc; simpl; [done|].
  eapply yields_bind; [|apply IH].
  destruct (read_line line) as [[key value]|]; [by apply apply_key_value_typed|done].
Qed.

Section environment.
Variable environment : string → option string.

Definition typed_override (o : string * (string → t → outcome exn t)) : Prop :=
  ∀ value c, well_typed c → yields well_typed (o.2 value c).

Lemma text_override name set :
  (∀ v c, well_typed c → well_typed (set v c)) →
  typed_override (name, set_text set).
Proof. intros Hset v c Hc. exact (Hset v c Hc). Qed.

Lemma number_override P name parse set :
  (∀ value, yields P (parse value)) →
  (∀ v c, P v → well_typed c → well_typed (set v c)) →
  typed_override (name, set_number parse set).
Proof. intros Hp Hset v c Hc. apply (set_yields P); auto. Qed.

Lemma overrides_typed : Forall typed_override overrides.
Proof.
  unfold overrides, uint16.
  repeat apply List.Forall_cons; try apply List.Forall_nil;
    first [ apply text_override; intros v c Hc; set_field
          | eapply number_override; [auto with typed|]; intros v c Hv Hc;
            simpl in Hv; set_field ].
Qed.

Lemma apply_overrides_typed os c :
  Forall typed_override os → well_typed c →
  yields well_typed (apply_overrides environment os c).
Proof.
  intros Hos. revert c. induction Hos as [|[name set] os Hset _ IH]; intros c Hc; simpl;
    [done|].
  eapply yields_bind; [|exact IH].
  unfold override. destruct (environment_value environment name); [by apply Hset|done].
Qed.

(** C23: every configuration is well typed.  Whatever the file and the
    environment hold, a configuration that is read has ports of 16 bits, an
    [int] of threads and a [std::size_t] as the size limit, so that no value is
    changed by the type of the member that stores it; where reading fails, it is
    with a [std::exception], which [main] reports. *)
Theorem configuration_well_typed files path :
  match from_environment_and_file files environment path with
  | Ret c =>
      0 ≤ port c ≤ 65535 ∧ in_int (worker_threads c) ∧
      0 ≤ max_message_size c ≤ ULONG_MAX ∧ 0 ≤ database_port c ≤ 65535
  | Throw (StdException _) => True
  | _ => False
  end.
Proof.
  assert (yields well_typed (from_environment_and_file files environment path)) as H.
  { rewrite from_environment_overrides.
    eapply yields_bind; [|intros c; apply apply_overrides_typed, overrides_typed].
    unfold from_file. destruct (files path); [apply apply_lines_typed|];
      apply default_well_typed. }
  destruct (from_environment_and_file _ _ _) as [c|[]|]; try done.
  by destruct H.
Qed.
End environment.

(** ** The configuration file of the repository ([config/server.conf]) *)

Definition lines_text (lines : list string) : string :=
  String.concat (String "010"%char EmptyString) lines.

Definition server_conf : string := lines_text [
  "# ConsoleCalculatorServer configuration";
  "# Lines use key=value format. Environment variables override selected values.";
  EmptyString;
  "host=0.0.0.0";
  "port=5555";
  "worker_threads=4";
  "max_message_size=65536";
  "log_file=/var/log/console-calculator/server.log";
  EmptyString;
  "# PostgreSQL/libpq settings.";
  "# The final libpq connection string is built by the server from these fields.";
  "# For local Docker/devcontainer runs, the password is read from Docker secret:";
  "#   secrets/cc_db_password.txt -> /run/secrets/cc_db_password";
  "#";
  "# Environment overrides:";
  "#   CC_DB_HOST";
  "#   CC_DB_PORT";
  "#   CC_DB_NAME";
  "#   CC_DB_USER";
  "#   CC_DB_PASSWORD";
  "#   CC_DB_PASSWORD_FILE";
  "#   CC_DB_CONNECTION_STRING  # full explicit override, highest priority";
  EmptyString;
  "database_host=localhost";
  "database_port=5432";
  "database_name=console_calculator";
  "database_user=admin";
  "database_password_file=/run/secrets/cc_db_password"
].

(** The shipped file holds the defaults of the class. *)
Example shipped_configuration path :
  from_file (λ _, Some server_conf) path = Ret default.
Proof. vm_compute. reflexivity. Qed.
