(* ===== verification/ConfigRoundtrip.v ===== *)
(** * Writing a configuration file and reading it back

    A reference printer of configuration files, whose texts [from_file] reads
    back, and the one character that quotes do not protect. *)

From stdpp Require Import base tactics strings list.
From Stdlib Require Import Ascii String.
From S2P Require Import Prelude.
From S2P Require Import Types.
From S2P Require Import CppString.
From S2P Require Import ServerConfig.
Import ServerConfig.

(** ** Texts without a character *)

Fixpoint free_of (ch : ascii) (s : string) : bool :=
  match s with
  | EmptyString => true
  | String c rest => negb (bool_decide (c = ch)) && free_of ch rest
  end.

Lemma free_of_app ch s t : free_of ch (s +:+ t) = free_of ch s && free_of ch t.
Proof.
  induction s as [|c s IH]; [done|].
  rewrite string_app_cons; simpl. by rewrite IH, andb_assoc.
Qed.

Lemma find_char_free ch s : free_of ch s = true → find_char ch s = None.
Proof.
  induction s as [|c s IH]; simpl; [done|].
  intros [->%negb_true_iff Hs]%andb_true_iff. by rewrite IH.
Qed.

Lemma find_char_first ch s rest :
  free_of ch s = true → find_char ch (s +:+ String ch rest) = Some (s, rest).
Proof.
  induction s as [|c s IH]; [intros _; simpl; by rewrite bool_decide_true|].
  rewrite string_app_cons; simpl.
  intros [->%negb_true_iff Hs]%andb_true_iff. by rewrite IH.
Qed.

Lemma getlines_line line rest :
  free_of "010" line = true →
  getlines (line +:+ String "010" rest) = line :: getlines rest.
Proof.
  induction line as [|c line IH]; [done|].
  rewrite string_app_cons; simpl.
  intros [->%negb_true_iff Hs]%andb_true_iff. by rewrite IH.
Qed.

Lemma all_digits_free ch s :
  is_digit ch = false → all_digits s = true → free_of ch s = true.
Proof.
  intros Hch. induction s as [|c s IH]; simpl; [done|].
  intros [Hc Hs]%andb_true_iff.
  rewrite bool_decide_false by (by intros ->; rewrite Hc in Hch). by apply IH.
Qed.

Lemma to_string_free ch z :
  is_digit ch = false → ch ≠ "-"%char → free_of ch (to_string z) = true.
Proof.
  intros Hch Hm. destruct (to_string_cases z) as (d & Hd & _ & _ & ->).
  case_bool_decide; simpl; [rewrite bool_decide_false by done|];
    by apply all_digits_free.
Qed.

(** ** Unquoting *)

Lemma edge_free_trim s : edge_free s = true → trim s = s.
Proof.
  intros Hs. rewrite <-(string_app_nil_r s) at 1.
  by apply (trim_spaces EmptyString s EmptyString).
Qed.

Lemma back_snoc s c : back (s +:+ String c EmptyString) = Some c.
Proof. by rewrite back_app. Qed.

Lemma substring_prefix s t : String.substring 0 (String.length s) (s +:+ t) = s.
Proof.
  induction s as [|c s IH]; [by destruct t|].
  rewrite string_app_cons. simpl. by rewrite IH.
Qed.

Definition quoted (v : string) : string :=
  String double_quote (v +:+ String double_quote EmptyString).

Lemma quoted_edge_free v : edge_free (quoted v) = true.
Proof.
  unfold edge_free, quoted. rewrite <-string_app_cons, back_snoc. done.
Qed.

Lemma length_snoc s c :
  String.length (s +:+ String c EmptyString) = S (String.length s).
Proof. induction s as [|c' s IH]; [done|]. rewrite string_app_cons; simpl. by rewrite IH. Qed.

Lemma unquote_quoted v : unquote (quoted v) = v.
Proof.
  unfold unquote. rewrite (edge_free_trim _ (quoted_edge_free v)).
  unfold quoted. rewrite <-string_app_cons, back_snoc, string_app_cons.
  simpl String.length. rewrite length_snoc. cbn [front String.get].
  rewrite !(bool_decide_true (Some double_quote = Some double_quote)) by done.
  rewrite bool_decide_true by lia. cbn [andb orb String.substring].
  replace (S (S (String.length v)) - 2)%nat with (String.length v) by lia.
  apply substring_prefix.
Qed.

Lemma to_string_edge z :
  ∃ first last, front (to_string z) = Some first ∧ back (to_string z) = Some last ∧
    (is_digit first = true ∨ first = "-"%char) ∧ is_digit last = true.
Proof.
  destruct (to_string_cases z) as (d & Hd & Hs & _ & ->).
  assert (∃ last, back d = Some last ∧ is_digit last = true) as (last & Hb & Hl).
  { destruct d as [|c d]; [done|]. clear Hs. revert c Hd.
    induction d as [|c' d IH]; intros c; simpl.
    - rewrite andb_true_r. by exists c.
    - intros [_ Hd]%andb_true_iff. rewrite back_cons. by apply IH. }
  destruct d as [|c d]; [done|].
  case_bool_decide.
  - exists "-"%char, last. rewrite back_cons. auto.
  - exists c, last. auto.
Qed.

Lemma digit_edge c :
  is_digit c = true ∨ c = "-"%char →
  is_space c = false ∧ c ≠ double_quote ∧ c ≠ single_quote.
Proof.
  intros [Hc| ->]; [|done]. revert Hc.
  by destruct c as [[] [] [] [] [] [] [] []]; vm_compute.
Qed.

Lemma to_string_edge_free z : edge_free (to_string z) = true.
Proof.
  destruct (to_string_edge z) as (f & l & Hf & Hl & Hfd & Hld).
  unfold edge_free. rewrite Hf, Hl.
  destruct (digit_edge f Hfd) as [-> _].
  by destruct (digit_edge l (or_introl Hld)) as [-> _].
Qed.

Lemma unquote_number z : unquote (to_string z) = to_string z.
Proof.
  unfold unquote. rewrite (edge_free_trim _ (to_string_edge_free z)).
  destruct (to_string_edge z) as (f & l & Hf & Hl & Hfd & _).
  destruct (digit_edge f Hfd) as (_ & Hd & Hs). rewrite Hf.
  rewrite !(bool_decide_false (Some f = Some _)) by congruence.
  by rewrite andb_false_r.
Qed.

(** ** Lines *)

(** A key that can be told from the rest of its line. *)
Definition is_key (key : string) : bool :=
  free_of "#" key && free_of "=" key && free_of "010" key && edge_free key
  && negb (bool_decide (key = EmptyString)).

(** A text behind an equal sign that the line keeps as it is. *)
Definition is_text (v : string) : bool :=
  free_of "#" v && free_of "010" v && edge_free v
  && negb (bool_decide (v = EmptyString)).

Definition assignment (key v : string) : string := key +:+ String "=" v.

Lemma is_key_split key :
  is_key key = true →
  free_of "#" key = true ∧ free_of "=" key = true ∧ free_of "010" key = true ∧
  edge_free key = true ∧ key ≠ EmptyString.
Proof.
  unfold is_key. rewrite !andb_true_iff, negb_true_iff, bool_decide_eq_false. tauto.
Qed.

Lemma is_text_split v :
  is_text v = true →
  free_of "#" v = true ∧ free_of "010" v = true ∧ edge_free v = true ∧
  v ≠ EmptyString.
Proof.
  unfold is_text. rewrite !andb_true_iff, negb_true_iff, bool_decide_eq_false. tauto.
Qed.

Lemma back_some c s : ∃ last, back (String c s) = Some last.
Proof.
  revert c. induction s as [|c' s IH]; intros c; [by exists c|].
  rewrite back_cons. apply IH.
Qed.

Lemma assignment_edge_free key v :
  edge_free key = true → key ≠ EmptyString → edge_free v = true →
  v ≠ EmptyString → edge_free (assignment key v) = true.
Proof.
  unfold edge_free, assignment. intros Hk Hk0 Hv Hv0.
  destruct key as [|k key]; [done|]. destruct v as [|c v]; [done|].
  destruct (back_some k key) as [kl Hkl]. destruct (back_some c v) as [vl Hvl].
  rewrite back_app, back_cons. rewrite Hkl in Hk. rewrite Hvl in Hv |- *.
  simpl in *. apply andb_true_iff in Hk as [-> _], Hv as [_ ->]. done.
Qed.

Lemma read_line_assignment key v :
  is_key key = true → is_text v = true →
  read_line (assignment key v) = Some (key, unquote v).
Proof.
  intros (Hk1 & Hk2 & _ & Hk4 & Hk5)%is_key_split (Hv1 & _ & Hv3 & Hv4)%is_text_split.
  unfold read_line. rewrite find_char_free.
  2: { unfold assignment. rewrite free_of_app, Hk1; simpl. by rewrite Hv1. }
  rewrite (edge_free_trim (assignment key v)) by by apply assignment_edge_free.
  rewrite bool_decide_false.
  2: { by destruct key. }
  unfold assignment. rewrite find_char_first by done. by rewrite edge_free_trim.
Qed.

(** A file of assignments, one on a line. *)
Fixpoint render_entries (entries : list (string * string)) : string :=
  match entries with
  | [] => EmptyString
  | (key, v) :: rest => assignment key v +:+ String "010" (render_entries rest)
  end.

Definition entry_ok (e : string * string) : bool := is_key e.1 && is_text e.2.

Lemma getlines_render entries :
  forallb entry_ok entries = true →
  omap read_line (getlines (render_entries entries)) =
  prod_map id unquote <$> entries.
Proof.
  induction entries as [|[key v] entries IH]; [done|].
  simpl. intros [[Hk Hv]%andb_true_iff He]%andb_true_iff; simpl in *.
  rewrite getlines_line.
  - simpl. rewrite read_line_assignment by done. f_equal. exact (IH He).
  - apply is_key_split in Hk as (_ & _ & Hk & _). apply is_text_split in Hv as (_ & Hv & _).
    unfold assignment. rewrite free_of_app, Hk. done.
Qed.

(** ** A file for a configuration *)

Definition entries (c : ServerConfig.t) : list (string * string) :=
  [("host", quoted (host c));
   ("port", to_string (port c));
   ("worker_threads", to_string (worker_threads c));
   ("max_message_size", to_string (max_message_size c));
   ("log_file", quoted (log_file c));
   ("database_host", quoted (database_host c));
   ("database_port", to_string (database_port c));
   ("database_name", quoted (database_name c));
   ("database_user", quoted (database_user c));
   ("database_password", quoted (database_password c));
   ("database_password_file", quoted (database_password_file c));
   ("database_connection_string",
     quoted (explicit_database_connection_string c))].

Definition render (c : ServerConfig.t) : string := render_entries (entries c).

Definition texts (c : ServerConfig.t) : list string :=
  [host c; log_file c; database_host c; database_name c; database_user c;
   database_password c; database_password_file c;
   explicit_database_connection_string c].

(** The numbers have the width of their C++ types, and no text holds a number
    sign or a line feed. *)
Definition storable (c : ServerConfig.t) : Prop :=
  0 ≤ port c ≤ 65535 ∧ 0 ≤ database_port c ≤ 65535 ∧
  in_int (worker_threads c) ∧ 0 ≤ max_message_size c ≤ ULONG_MAX ∧
  Forall (λ v, free_of "#" v && free_of "010" v = true) (texts c).

Lemma is_text_quoted v :
  free_of "#" v && free_of "010" v = true → is_text (quoted v) = true.
Proof.
  intros [H1 H2]%andb_true_iff. unfold is_text. rewrite quoted_edge_free.
  unfold quoted; simpl. by rewrite !free_of_app, H1, H2.
Qed.

Lemma is_text_number z : is_text (to_string z) = true.
Proof.
  unfold is_text. rewrite !to_string_free, to_string_edge_free by done.
  rewrite bool_decide_false; [done|]. intros H.
  destruct (to_string_edge z) as (f & _ & Hf & _). by rewrite H in Hf.
Qed.

Lemma entries_ok c :
  Forall (λ v, free_of "#" v && free_of "010" v = true) (texts c) →
  forallb entry_ok (entries c) = true.
Proof.
  intros Ht. unfold texts in Ht. rewrite !Forall_cons in Ht.
  destruct Ht as (H1 & H2 & H3 & H4 & H5 & H6 & H7 & H8 & _).
  unfold entries, entry_ok. cbn [forallb fst snd].
  by rewrite !is_text_number, !is_text_quoted by done.
Qed.

Lemma parse_uint16_port n name :
  0 ≤ n ≤ 65535 → parse_uint16 (to_string n) name = Ret n.
Proof.
  intros Hn. rewrite parse_uint16_to_string by (unfold ULONG_MAX; lia).
  rewrite Z.mod_small by lia. by rewrite bool_decide_true by lia.
Qed.

Lemma apply_assignments lines c :
  apply_lines lines c =
  (fix go (es : list (string * string)) (c : ServerConfig.t) :=
     match es with
     | [] => Ret c
     | (key, value) :: rest => c' ← apply_key_value c key value; go rest c'
     end) (omap read_line lines) c.
Proof.
  revert c. induction lines as [|line lines IH]; intros c; [done|].
  simpl. destruct (read_line line) as [[key value]|]; simpl; [|apply IH].
  by destruct (apply_key_value c key value); simpl.
Qed.

(** C28: a configuration survives a file: the file that [render] writes for
    any configuration whose texts hold no number sign and no line feed (but
    possibly quotes, equal signs and spaces at their ends) is read back by
    [from_file] as that configuration. *)
Theorem config_file_roundtrip files path c :
  storable c → files path = Some (render c) → from_file files path = Ret c.
Proof.
  intros (Hp & Hdp & Hw & Hm & Ht) Hfile. unfold from_file.
  rewrite Hfile, apply_assignments.
  unfold render. rewrite getlines_render by by apply entries_ok.
  destruct c as [h p w m l dh dp dn du dw df ds]; simpl in *.
  rewrite !unquote_quoted, !unquote_number.
  unfold apply_key_value; simpl.
  rewrite !parse_uint16_port, stoi_to_string by done; simpl.
  unfold stoull. by rewrite read_unsigned_to_string.
Qed.

Example config_file_roundtrip_witness :
  let c := set_database_password " a='b' "
             (set_worker_threads (-1) (set_port 80 default)) in
  from_file (λ _, Some (render c)) "server.conf" = Ret c.
Proof.
  intros c. apply (config_file_roundtrip _ _ c); [|reflexivity].
  split_and!; try by apply (bool_decide_unpack _).
Defined.

(** C38: quotes do not protect a number sign: of a line [key="a#b"] only the
    part before the number sign is kept, opening quote included, because the
    comment is cut before the value is unquoted. *)
Theorem quoted_hash_truncated key a b :
  is_key key = true → is_text (String double_quote a) = true →
  back (String double_quote a) ≠ Some double_quote →
  read_line (assignment key (quoted (a +:+ String "#" b))) =
    Some (key, String double_quote a).
Proof.
  intros (Hk1 & Hk2 & _ & Hk4 & Hk5)%is_key_split (Ht1 & _ & Ht3 & Ht4)%is_text_split Hb.
  unfold read_line.
  replace (assignment key (quoted (a +:+ String "#" b))) with
    (assignment key (String double_quote a) +:+
     String "#" (b +:+ String double_quote EmptyString)).
  2: { unfold assignment, quoted.
       by rewrite !string_app_assoc, !string_app_cons. }
  rewrite find_char_first.
  2: { unfold assignment. rewrite free_of_app, Hk1. exact Ht1. }
  rewrite (edge_free_trim (assignment _ _)) by by apply assignment_edge_free.
  rewrite bool_decide_false by by destruct key.
  unfold assignment. rewrite find_char_first by done.
  rewrite (edge_free_trim key) by done. unfold unquote.
  rewrite edge_free_trim by done.
  rewrite (bool_decide_false (back _ = Some double_quote)) by done.
  rewrite (bool_decide_false (front _ = Some single_quote)) by done.
  by rewrite !andb_false_r.
Qed.

Example quoted_hash_truncated_witness :
  read_line (assignment "database_password" (quoted "pass#word")) =
    Some ("database_password", String double_quote "pass").
Proof.
  exact (quoted_hash_truncated "database_password" "pass" "word" eq_refl eq_refl
    ltac:(discriminate)).
Defined.
