(* ===== verification/TcpServer.v ===== *)
(** * [Server::TcpJsonServer] ([server/src/tcp-json-server.cpp])

    A session reads lines and writes one response line for each; the server
    accepts sessions between [start] and [stop].  Boost.Asio runs the completion
    handlers: the handlers are functions of the session, and the conditions
    under which Asio calls them, as its documentation states them, are the
    premises of the step relation. *)

From stdpp Require Import base tactics strings list gmap.
From Stdlib Require Import Ascii.
From S2P Require Import Prelude.
From S2P Require Import Types.
From S2P Require Import CppString.
From S2P Require Import ServerConfig.

Definition line_feed : ascii := "010"%char.
Definition carriage_return : ascii := "013"%char.

(** [boost::system::error_code], as far as the code tells errors apart. *)
Inductive error_code : Type :=
  | eof
  | operation_aborted
  | other_error (message : string).

(** [std::getline] on the stream buffer: the line, and what stays. *)
Definition getline (buffer : string) : string * string :=
  match find_char line_feed buffer with
  | Some (line, rest) => (line, rest)
  | None => (buffer, EmptyString)
  end.

(** Dropping the last character when it is a carriage return. *)
Fixpoint strip_cr (request : string) : string :=
  match request with
  | EmptyString => EmptyString
  | String c rest =>
      if bool_decide (rest = EmptyString) && bool_decide (c = carriage_return)
      then EmptyString else String c (strip_cr rest)
  end.

Module Session.

(** What the session waits for: a line, the end of a write, or nothing more.
    The socket is closed by [close] and, with the last reference to the session,
    by its destructor. *)
Inductive activity : Type :=
  | Reading
  | Writing (output : string)
  | Closed.

Record t : Type := mk {
  buffer_ : string;
  max_message_size_ : Z;
  doing : activity
}.

(** [start]: the first [do_read]. *)
Definition start (max_message_size : Z) : t :=
  mk EmptyString max_message_size Reading.

Definition do_read (self : t) : t :=
  mk (buffer_ self) (max_message_size_ self) Reading.
Definition do_write (response : string) (self : t) : t :=
  mk (buffer_ self) (max_message_size_ self) (Writing response).
Definition close (self : t) : t :=
  mk (buffer_ self) (max_message_size_ self) Closed.
Definition set_buffer (b : string) (self : t) : t :=
  mk b (max_message_size_ self) (doing self).

Section session.
Context {E H : Type}.
(** [request_handler_->handle], on the state that the handlers share. *)
Variable handle : string → prog E H string.

(** An exception of [handle] leaves the completion handler, and with it the
    thread that runs it. *)
Definition on_read (error : option error_code) (bytes_transferred : Z)
    (self : t) : prog E H t := λ h,
  match error with
  | Some _ => (Ret (close self), h)
  | None =>
      if bool_decide (bytes_transferred > max_message_size_ self)
      then (Ret (close self), h)
      else
        let '(line, rest) := getline (buffer_ self) in
        let request := strip_cr line in
        match handle request h with
        | (Ret response, h') =>
            (Ret (do_write (response +:+ String line_feed EmptyString)
                    (set_buffer rest self)), h')
        | (Throw e, h') => (Throw e, h')
        | (Undef, h') => (Undef, h')
        end
  end.

Definition on_written (error : option error_code) (self : t) : t :=
  match error with
  | Some _ => close self
  | None => do_read self
  end.

(** One completion, or one read inside of [async_read_until]: what arrived from
    the client before it, what was sent to the client with it.
    [async_read_until] succeeds when the buffer, with the bytes that arrived,
    holds a line feed, and counts the bytes up to and with the first one; as
    long as there is none, it puts the bytes into the buffer, an
    [asio::streambuf] without a maximal size, and reads on; it may fail at any
    time, as may a write. *)
Inductive step (h : H) : string → option string → t → t → H → Prop :=
  | step_read received line rest self self' h' :
      doing self = Reading →
      find_char line_feed (buffer_ self +:+ received) = Some (line, rest) →
      on_read None (Z.of_nat (String.length line) + 1)
        (set_buffer (buffer_ self +:+ received) self) h = (Ret self', h') →
      step h received None self self' h'
  | step_received received self :
      doing self = Reading →
      find_char line_feed (buffer_ self +:+ received) = None →
      step h received None self (set_buffer (buffer_ self +:+ received) self) h
  | step_read_failed received error n self self' h' :
      doing self = Reading →
      on_read (Some error) n
        (set_buffer (buffer_ self +:+ received) self) h = (Ret self', h') →
      step h received None self self' h'
  | step_written output self :
      doing self = Writing output →
      step h EmptyString (Some output) self (on_written None self) h
  | step_write_failed error output self :
      doing self = Writing output →
      step h EmptyString None self (on_written (Some error) self) h.
End session.
End Session.

(** The calls of [start] that may throw, in their order. *)
Inductive asio_call : Type :=
  | MakeAddress
  | Open
  | SetOption
  | Bind
  | Listen
  | LocalEndpoint.

(** A call that is made on the open acceptor. *)
Definition behind_open (c : asio_call) : bool :=
  match c with MakeAddress | Open => false | _ => true end.

Module TcpJsonServer.
Section server.
(** What is kept of a session, and the state behind the request handler. *)
Context {C H : Type}.
Variable of_session : Session.t → C.

(** The server object with the sessions it started, by their number.
    [acceptor_open] is the state of [acceptor_] and [accepting] says that an
    [async_accept] is under way; [close_posted] is the handler that [stop] posts,
    as long as it waits for a thread.  A thread of [workers_] runs handlers until
    [io_context_.stop()]; [io_stopped] says that it was called. *)
Record t : Type := mk {
  config_ : ServerConfig.t;
  running_ : bool;
  acceptor_open : bool;
  accepting : bool;
  close_posted : bool;
  io_stopped : bool;
  workers_ : nat;
  bound_port_ : Z;
  sessions : gmap nat C;
  handler_state : H
}.

Definition make (config : ServerConfig.t) (request_handler : option H) :
    outcome exn t :=
  match request_handler with
  | None => Throw (StdException "request_handler must not be null")
  | Some h => Ret (mk config false false false false false 0 0 ∅ h)
  end.

Definition set_sessions (cs : gmap nat C) (self : t) : t :=
  mk (config_ self) (running_ self) (acceptor_open self) (accepting self)
    (close_posted self) (io_stopped self) (workers_ self) (bound_port_ self) cs
    (handler_state self).
Definition set_handler_state (h : H) (self : t) : t :=
  mk (config_ self) (running_ self) (acceptor_open self) (accepting self)
    (close_posted self) (io_stopped self) (workers_ self) (bound_port_ self)
    (sessions self) h.

(** The number of threads of [workers_]. *)
Definition thread_count (config : ServerConfig.t) : Z :=
  Z.max 1 (ServerConfig.worker_threads config).

(** [start]; [listen] is what Asio makes of its calls on the acceptor, open or
    not, with the address and the port: the port it is bound to, or the call
    that throws.  [running_] is set before; no catch undoes anything. *)
Definition start (listen : bool → string → Z → (asio_call * exn) + Z) :
    prog exn t unit := λ self,
  if running_ self then (Ret (), self)
  else
    let config := config_ self in
    match listen (acceptor_open self) (ServerConfig.host config)
            (ServerConfig.port config) with
    | inr port =>
        (Ret (), mk config true true true (close_posted self) (io_stopped self)
                   (Z.to_nat (thread_count config)) port
                   (sessions self) (handler_state self))
    | inl (c, e) =>
        (Throw e, mk config true (acceptor_open self || behind_open c)
                    (accepting self) (close_posted self) (io_stopped self)
                    (workers_ self) (bound_port_ self) (sessions self)
                    (handler_state self))
    end.

(** The parts of [stop]: [running_.exchange(false)]; the post of the handler that
    closes the acceptor; [io_context_.stop()], after which no handler begins; and,
    when the handlers that began are over, the end of the last [join]. *)
Definition exchange_running (self : t) : t :=
  mk (config_ self) false (acceptor_open self) (accepting self) (close_posted self)
    (io_stopped self) (workers_ self) (bound_port_ self) (sessions self)
    (handler_state self).
Definition post_close (self : t) : t :=
  mk (config_ self) (running_ self) (acceptor_open self) (accepting self) true
    (io_stopped self) (workers_ self) (bound_port_ self) (sessions self)
    (handler_state self).
Definition io_stop (self : t) : t :=
  mk (config_ self) (running_ self) (acceptor_open self) (accepting self)
    (close_posted self) true (workers_ self) (bound_port_ self) (sessions self)
    (handler_state self).
Definition join_workers (self : t) : t :=
  mk (config_ self) (running_ self) (acceptor_open self) (accepting self)
    (close_posted self) (io_stopped self) 0 (bound_port_ self) (sessions self)
    (handler_state self).

(** The posted handler: the acceptor is closed, and its [async_accept] aborted,
    whose own handler does nothing more because [running_] is not set. *)
Definition close_acceptor (self : t) : t :=
  mk (config_ self) (running_ self) false false false (io_stopped self)
    (workers_ self) (bound_port_ self) (sessions self) (handler_state self).

(** It runs when a thread takes it before the [io_context_] is stopped. *)
Definition run_posted (self : t) : t :=
  if close_posted self && negb (io_stopped self) && bool_decide (workers_ self ≠ 0%nat)
  then close_acceptor self else self.

(** [stop]: after it no thread runs a handler.  [in_time] says whether a thread
    takes the posted handler between the post and [io_context_.stop()]. *)
Definition stop (in_time : bool) (self : t) : t :=
  if running_ self then
    let posted := post_close (exchange_running self) in
    join_workers (io_stop (if in_time then run_posted posted else posted))
  else self.

(** The completion of [async_accept] with a connection of number [id]. *)
Definition on_accept (id : nat) (error : option error_code) (self : t) : t :=
  if negb (running_ self) then
    mk (config_ self) (running_ self) (acceptor_open self) false (close_posted self)
      (io_stopped self) (workers_ self) (bound_port_ self) (sessions self)
      (handler_state self)
  else
    match error with
    | None =>
        set_sessions
          (<[id := of_session
                     (Session.start (ServerConfig.max_message_size (config_ self)))]>
             (sessions self)) self
    | Some _ => self
    end.
End server.
Arguments t : clear implicits.
End TcpJsonServer.
