(* ===== verification/TcpCorrect.v ===== *)
(** * Sessions answer their lines

    The responses of a session are those of the lines that the client sent, one
    for each and in their order, however the bytes arrive and whatever other
    sessions do between two requests. *)

From stdpp Require Import base tactics strings list gmap.
From Stdlib Require Import Ascii.
From S2P Require Import Prelude.
From S2P Require Import Types.
From S2P Require Import CppString.
From S2P Require Import ServerConfig.
From S2P Require Import TcpServer.
Import Session.

(** ** Lines *)

Definition ended (line : string) : string :=
  line +:+ String line_feed EmptyString.

Fixpoint unlines (lines : list string) : string :=
  match lines with
  | [] => EmptyString
  | line :: rest => ended line +:+ unlines rest
  end.

Lemma unlines_snoc lines line : unlines (lines ++ [line]) = unlines lines +:+ ended line.
Proof.
  induction lines as [|l lines IH]; simpl.
  - by rewrite string_app_nil_r.
  - by rewrite IH, string_app_assoc.
Qed.

Lemma find_char_split ch s line rest :
  find_char ch s = Some (line, rest) → s = line +:+ String ch rest.
Proof.
  revert line. induction s as [|c s IH]; intros line; simpl; [done|].
  case_bool_decide as Hc; [by intros [= <- <-]; subst|].
  destruct (find_char ch s) as [[l r]|]; [|done]. intros [= <- <-].
  rewrite string_app_cons. by rewrite <-(IH l eq_refl).
Qed.

Lemma find_char_before ch s line rest :
  find_char ch s = Some (line, rest) → find_char ch line = None.
Proof.
  revert line. induction s as [|c s IH]; intros line; simpl; [done|].
  case_bool_decide as Hc; [by intros [= <- <-]|].
  destruct (find_char ch s) as [[l r]|]; [|done]. intros [= <- <-]. simpl.
  by rewrite (bool_decide_false _ Hc), (IH l eq_refl).
Qed.

Lemma unlines_end lines received rest line rest' :
  received = unlines lines +:+ rest → rest = line +:+ String line_feed rest' →
  received = unlines (lines ++ [line]) +:+ rest'.
Proof.
  intros -> ->. rewrite unlines_snoc. unfold ended.
  by rewrite !string_app_assoc, string_app_cons.
Qed.

Section sessions.
Context {E H : Type}.
Variable handle : string → prog E H string.
(** The states of the handlers between two requests. *)
Variable Inv : H → Prop.

(** The life of a session with the bytes the client sent and the lines that
    were sent to it; between two completions the other sessions may change the
    state of the handlers. *)
Inductive session_run (max_message_size : Z) :
    string → list string → Session.t → Prop :=
  | session_started :
      session_run max_message_size EmptyString [] (Session.start max_message_size)
  | session_step received sent s h chunk output s' h' :
      session_run max_message_size received sent s →
      Inv h → Session.step handle h chunk output s s' h' →
      session_run max_message_size (received +:+ chunk)
        (sent ++ option_list output) s'.

(** A response that the handler gives to a line without its end. *)
Definition answered (line response : string) : Prop :=
  ∃ h, Inv h ∧ (handle (strip_cr line) h).1 = Ret response.

(** A request of an accepted size and its response. *)
Definition exchange (max_message_size : Z) (x : string * string) : Prop :=
  find_char line_feed x.1 = None ∧
  Z.of_nat (String.length x.1) + 1 ≤ max_message_size ∧
  answered x.1 x.2.

Definition responses (log : list (string * string)) : list string :=
  (λ x, ended x.2) <$> log.

(** What a session did so far: the exchanges, with what was sent of them. *)
Inductive progress (max_message_size : Z) (received : string)
    (sent : list string) (s : Session.t) : list (string * string) → Prop :=
  | progress_made log rest :
      max_message_size_ s = max_message_size →
      Forall (exchange max_message_size) log →
      received = unlines log.*1 +:+ rest →
      match doing s with
      | Reading => sent = responses log ∧ buffer_ s = rest
      | Writing output => sent ++ [output] = responses log ∧ buffer_ s = rest
      | Closed => sent = responses log ∨ ∃ output, sent ++ [output] = responses log
      end →
      progress max_message_size received sent s log.

Lemma on_read_cases n (s s' : Session.t) h h' :
  on_read handle None n s h = (Ret s', h') →
  (n > max_message_size_ s ∧ s' = close s ∧ h' = h) ∨
  (n ≤ max_message_size_ s ∧
   ∃ response, handle (strip_cr (getline (buffer_ s)).1) h = (Ret response, h') ∧
     s' = do_write (ended response) (set_buffer (getline (buffer_ s)).2 s)).
Proof.
  unfold on_read. case_bool_decide as Hn.
  - intros [= <- <-]. auto.
  - destruct (getline (buffer_ s)) as [line rest]; simpl.
    destruct (handle (strip_cr line) h) as [[response|e|] h1]; intros; simplify_eq.
    right. split; [lia|]. by exists response.
Qed.

(** A completion adds at most one exchange, with the handler's state [h]. *)
Lemma step_progress max_message_size received sent s log h chunk output s' h' :
  progress max_message_size received sent s log → Inv h →
  Session.step handle h chunk output s s' h' →
  ∃ new, progress max_message_size (received +:+ chunk)
           (sent ++ option_list output) s' (log ++ option_list new) ∧
    ∀ x, new = Some x → (handle (strip_cr x.1) h).1 = Ret x.2.
Proof.
  intros Hp Hh Hstep. revert Hp.
  destruct Hstep as [chunk1 line rest' s1 s2 h2 Hd Hf Hon|chunk1 s1 Hd Hf
    |chunk1 err n s1 s2 h2 Hd Hon
    |output1 s1 Hd|err output1 s1 Hd];
    intros [log1 rest Hmax Hlog Hrec Hdoing]; rewrite Hd in Hdoing; simpl;
    rewrite ?app_nil_r, ?string_app_nil_r; destruct Hdoing as [Hsent Hbuf].
  - apply on_read_cases in Hon as [(Hn & -> & ->)|(Hn & response & Hr & ->)];
      simpl in *.
    + exists None. split; [|done]. rewrite app_nil_r.
      eapply (progress_made _ _ _ _ _ (rest +:+ chunk1)); simpl; auto.
      by rewrite Hrec, string_app_assoc.
    + unfold getline in Hr |- *. rewrite Hf in Hr |- *; simpl in *.
      exists (Some (line, response)). split; [|intros x [= <-]; simpl; by rewrite Hr].
      eapply (progress_made _ _ _ _ _ rest'); simpl; [done| | |].
      * apply Forall_app. split; [done|]. apply Forall_singleton. split_and!.
        -- by apply find_char_before in Hf.
        -- simpl. lia.
        -- exists h. simpl. by rewrite Hr.
      * rewrite fmap_app. apply find_char_split in Hf.
        eapply unlines_end; [|exact Hf]. by rewrite Hrec, Hbuf, string_app_assoc.
      * split; [|done]. unfold responses. by rewrite fmap_app, Hsent.
  - exists None. split; [|done]. rewrite app_nil_r.
    eapply (progress_made _ _ _ _ _ (rest +:+ chunk1)); simpl; auto.
    + by rewrite Hrec, string_app_assoc.
    + by rewrite Hd, Hbuf.
  - simpl in Hon. injection Hon as <- <-. exists None. split; [|done]. rewrite app_nil_r.
    eapply (progress_made _ _ _ _ _ (rest +:+ chunk1)); simpl; auto.
    by rewrite Hrec, string_app_assoc.
  - exists None. split; [|done]. rewrite app_nil_r.
    by eapply (progress_made _ _ _ _ _ rest).
  - exists None. split; [|done]. rewrite app_nil_r.
    eapply (progress_made _ _ _ _ _ rest); simpl; eauto.
Qed.

Lemma session_progress max_message_size received sent s :
  session_run max_message_size received sent s →
  ∃ log, progress max_message_size received sent s log.
Proof.
  induction 1 as [|received sent s h chunk output s' h' _ [log IH] Hh Hstep].
  - exists []. by apply (progress_made _ _ _ _ _ EmptyString).
  - destruct (step_progress _ _ _ _ _ _ _ _ _ _ IH Hh Hstep) as (new & Hp & _).
    by eexists.
Qed.
End sessions.

(** ** Lines of the received bytes *)

Lemma getlines_ended line rest :
  find_char line_feed line = None →
  getlines (ended line +:+ rest) = line :: getlines rest.
Proof.
  unfold ended. induction line as [|c line IH]; [done|]. intros Hf. simpl in Hf.
  case_bool_decide as Hc; [done|].
  destruct (find_char line_feed line) as [[]|]; [done|].
  rewrite !string_app_cons; simpl. unfold line_feed in *.
  rewrite (bool_decide_false _ Hc). by rewrite IH.
Qed.

Lemma getlines_unlines lines rest :
  Forall (λ line, find_char line_feed line = None) lines →
  getlines (unlines lines +:+ rest) = lines ++ getlines rest.
Proof.
  induction 1 as [|line lines Hl _ IH]; simpl; [done|].
  by rewrite string_app_assoc, getlines_ended, IH.
Qed.

Section theorems.
Context {E H : Type}.
Variable handle : string → prog E H string.
Variable Inv : H → Prop.

(** What [progress] says of the observable parts of a session. *)
Lemma progress_log max_message_size received sent s log :
  progress handle Inv max_message_size received sent s log →
  ∃ rest,
    received = unlines log.*1 +:+ rest ∧
    log.*1 = take (length log) (getlines received) ∧
    Forall (exchange handle Inv max_message_size) log ∧
    sent `prefix_of` responses log ∧ (length log ≤ length sent + 1)%nat ∧
    (doing s = Reading → sent = responses log ∧ buffer_ s = rest).
Proof.
  intros [log' rest Hmax Hlog Hrec Hdoing].
  exists rest. split_and!; [done| |done|..].
  - rewrite Hrec, getlines_unlines.
    + rewrite take_app_le, take_ge by (by rewrite length_fmap). done.
    + apply Forall_fmap. eapply Forall_impl; [exact Hlog|]. by intros x [? _].
  - destruct (doing s) as [|output|].
    + by destruct Hdoing as [-> _].
    + destruct Hdoing as [<- _]. by apply prefix_app_r.
    + destruct Hdoing as [->|[output <-]]; [done|by apply prefix_app_r].
  - rewrite <-(length_fmap (λ x, ended x.2) log').
    change (fmap (λ x, ended x.2) log') with (responses log').
    destruct (doing s) as [|output|].
    + destruct Hdoing as [-> _]. lia.
    + destruct Hdoing as [<- _]. rewrite length_app; simpl. lia.
    + destruct Hdoing as [->|[output <-]]; [lia|rewrite length_app; simpl; lia].
  - intros Hd. by rewrite Hd in Hdoing.
Qed.

Lemma session_log max_message_size received sent s :
  session_run handle Inv max_message_size received sent s →
  ∃ log rest,
    received = unlines log.*1 +:+ rest ∧
    log.*1 = take (length log) (getlines received) ∧
    Forall (exchange handle Inv max_message_size) log ∧
    sent `prefix_of` responses log ∧ (length log ≤ length sent + 1)%nat ∧
    (doing s = Reading → sent = responses log ∧ buffer_ s = rest).
Proof.
  intros Hrun. destruct (session_progress _ _ _ _ _ _ Hrun) as [log Hp].
  exists log. by apply progress_log.
Qed.

(** C22: a session answers its lines.  Whatever arrives in whatever pieces, and
    whatever the other sessions do to the handlers in between, what was sent are
    responses to the first lines of the received bytes, one line for each and in
    their order, each given by the handler to that line without its end and only
    for a line of an accepted size; at most one response is still to be sent; and
    while the session waits for a line nothing is missing: all answers are out
    and the rest of the bytes is in the buffer. *)
Theorem session_answers_lines max_message_size received sent s :
  session_run handle Inv max_message_size received sent s →
  ∃ log rest,
    received = unlines log.*1 +:+ rest ∧
    log.*1 = take (length log) (getlines received) ∧
    Forall (exchange handle Inv max_message_size) log ∧
    sent `prefix_of` responses log ∧ (length log ≤ length sent + 1)%nat ∧
    (doing s = Reading → sent = responses log ∧ buffer_ s = rest).
Proof. apply session_log. Qed.

(** What a completed line does. *)
Lemma find_char_app_None ch s t :
  find_char ch s = None → find_char ch (s +:+ t) =
    match find_char ch t with
    | Some (line, rest) => Some (s +:+ line, rest)
    | None => None
    end.
Proof.
  induction s as [|c s IH]; intros Hs.
  - by destruct (find_char ch t) as [[]|] eqn:Ht; rewrite ?Ht.
  - simpl in Hs. case_bool_decide as Hc; [done|].
    destruct (find_char ch s) as [[]|]; [done|].
    rewrite string_app_cons; simpl. rewrite (bool_decide_false _ Hc), IH by done.
    by destruct (find_char ch t) as [[]|].
Qed.

(** C24: the size limit.  A session that waits for a line keeps whatever arrives
    without a line feed, however much it is and whatever [max_message_size] says;
    when the line feed arrives, a line that is too large closes the session,
    without a call of the handler and without an answer. *)
Theorem session_size_limit max_message_size received sent s h text :
  Inv h → session_run handle Inv max_message_size received sent s →
  doing s = Reading →
  find_char line_feed (buffer_ s) = None → find_char line_feed text = None →
  let s' := set_buffer (buffer_ s +:+ text) s in
  session_run handle Inv max_message_size (received +:+ text) sent s' ∧
  (max_message_size ≤ Z.of_nat (String.length (buffer_ s')) →
   ∀ output s'' h'',
     Session.step handle h (String line_feed EmptyString) output s' s'' h'' →
     doing s'' = Closed ∧ output = None ∧ h'' = h).
Proof.
  intros Hh Hrun Hd Hbuf Htext s'. split.
  - rewrite <-(app_nil_r sent).
    eapply (session_step _ _ _ _ _ _ _ _ None); [done|exact Hh|].
    apply Session.step_received; [done|]. by rewrite find_char_app_None, Htext.
  - intros Hlong output s'' h'' Hstep.
    assert (find_char line_feed (buffer_ s') = None) as Hs'
      by (unfold s'; simpl; by rewrite find_char_app_None, Htext).
    destruct (session_progress _ _ _ _ _ _ Hrun) as [log [log' rest Hmax _ _ _]].
    assert (doing s' = Reading) as Hd' by done.
    assert (max_message_size_ s' = max_message_size) as Hm by done.
    clearbody s'. revert Hs' Hlong Hd' Hm.
    remember (String line_feed EmptyString) as chunk eqn:Hchunk.
    destruct Hstep as [chunk line rest' s1 s2 h2 _ Hf Hon|chunk s1 _ Hf
      |chunk err n s1 s2 h2 _ Hon|output1 s1 Hd1|err output1 s1 Hd1];
      intros Hs' Hlong Hd' Hm; subst; [..|congruence|congruence].
    + rewrite find_char_app_None in Hf by done. simpl in Hf.
      injection Hf as <- <-. unfold on_read in Hon. simpl in Hon.
      rewrite string_app_nil_r, bool_decide_true in Hon by lia.
      by injection Hon as <- <-.
    + by rewrite find_char_app_None in Hf.
    + simpl in Hon. by injection Hon as <- <-.
Qed.

Hypothesis handle_answers : ∀ request,
  ∃ h response h', Inv h ∧ handle request h = (Ret response, h').

Lemma string_length_app s t :
  String.length (s +:+ t) = (String.length s + String.length t)%nat.
Proof. induction s as [|c s IH]; [done|]. rewrite string_app_cons; simpl. by rewrite IH. Qed.

(** A session catches up.  When every request can be answered, a session that
    waits for a line gets, without any further byte from the client, to where the
    buffer holds no complete line and every complete line is answered, or to a
    line that is too large, on which it closes. *)
Lemma session_continues max_message_size received sent s :
  session_run handle Inv max_message_size received sent s →
  doing s = Reading →
  ∃ sent' s', session_run handle Inv max_message_size received sent' s' ∧
    match find_char line_feed (buffer_ s') with
    | None => doing s' = Reading
    | Some (line, _) =>
        doing s' = Closed ∧
        Z.of_nat (String.length line) + 1 > max_message_size_ s'
    end.
Proof.
  remember (String.length (buffer_ s)) as n eqn:Hn.
  revert sent s Hn. induction (lt_wf n) as [n _ IH]. intros sent s -> Hrun Hd.
  destruct (find_char line_feed (buffer_ s)) as [[line rest]|] eqn:Hf.
  2: { exists sent, s. by rewrite Hf. }
  assert (buffer_ s +:+ EmptyString = buffer_ s) as Hnil by apply string_app_nil_r.
  assert (set_buffer (buffer_ s +:+ EmptyString) s = s) as Hs
    by (rewrite Hnil; by destruct s).
  set (bytes := Z.of_nat (String.length line) + 1).
  destruct (handle_answers (strip_cr line)) as (h & response & h' & Hh & Hr).
  destruct (decide (bytes > max_message_size_ s)) as [Hbig|Hsmall].
  - exists sent, (close s). simpl. rewrite Hf. split; [|done].
    rewrite <-(app_nil_r sent), <-(string_app_nil_r received).
    eapply (session_step _ _ _ _ _ _ _ _ None); [done|exact Hh|].
    eapply Session.step_read; [done|by rewrite Hnil|].
    rewrite Hs. unfold on_read. by rewrite bool_decide_true.
  - set (s1 := do_write (ended response) (set_buffer rest s)).
    assert (session_run handle Inv max_message_size received sent s1) as Hrun1.
    { rewrite <-(app_nil_r sent), <-(string_app_nil_r received).
      eapply (session_step _ _ _ _ _ _ _ _ None); [done|exact Hh|].
      eapply Session.step_read; [done|by rewrite Hnil|].
      rewrite Hs. unfold on_read. rewrite bool_decide_false by done.
      unfold getline. by rewrite Hf, Hr. }
    eapply (IH (String.length rest)) with (s := do_read s1); [|done| |done].
    + apply find_char_split in Hf. rewrite Hf, string_length_app; simpl. lia.
    + rewrite <-(string_app_nil_r received).
      eapply (session_step _ _ _ _ _ s1 h EmptyString (Some (ended response)));
        [done|exact Hh|].
      by apply (Session.step_written handle h (ended response) s1).
Qed.

End theorems.

(** ** A session of one line *)

Lemma find_char_ended line :
  find_char line_feed line = None →
  find_char line_feed (ended line) = Some (line, EmptyString).
Proof.
  unfold ended. induction line as [|c line IH]; [done|]. intros Hf. simpl in Hf.
  case_bool_decide as Hc; [done|].
  destruct (find_char line_feed line) as [[]|]; [done|].
  rewrite string_app_cons; simpl. rewrite (bool_decide_false _ Hc).
  by rewrite IH.
Qed.

Lemma one_line_run {E H} (handle : string → prog E H string) (Inv : H → Prop)
    max_message_size line response h :
  Inv h → find_char line_feed line = None →
  Z.of_nat (String.length line) + 1 ≤ max_message_size →
  (handle (strip_cr line) h).1 = Ret response →
  session_run handle Inv max_message_size (ended line) [ended response]
    (Session.start max_message_size).
Proof.
  intros Hh Hf Hn Hr.
  destruct (handle (strip_cr line) h) as [o h'] eqn:Hrun. simpl in Hr. subst o.
  set (s1 := Session.mk EmptyString max_message_size (Writing (ended response))).
  assert (session_run handle Inv max_message_size (ended line) [] s1) as H1.
  { apply (session_step handle Inv max_message_size EmptyString []
      (Session.start max_message_size) h (ended line) None s1 h');
      [constructor|done|].
    eapply Session.step_read; [done|by apply find_char_ended|].
    unfold on_read. simpl. rewrite bool_decide_false by lia.
    unfold getline. simpl. change (EmptyString +:+ ended line) with (ended line).
    by rewrite find_char_ended, Hrun. }
  rewrite <-(string_app_nil_r (ended line)).
  apply (session_step handle Inv max_message_size (ended line) [] s1 h EmptyString
    (Some (ended response)) (Session.start max_message_size) h); [done|done|].
  by apply (Session.step_written handle h (ended response) s1).
Qed.

(** A handler that echoes. *)
Definition echo (request : string) : prog exn unit string := λ h, (Ret request, h).

Example session_answers_lines_witness :
  ∃ log, [ended "1+2"] `prefix_of` responses log ∧
         log.*1 = take (length log) (getlines (ended ("1+2" +:+ String "013" EmptyString))).
Proof.
  destruct (session_answers_lines echo (λ _, True) 65536
    (ended ("1+2" +:+ String "013" EmptyString)) [ended "1+2"] (Session.start 65536)
    (one_line_run echo (λ _, True) 65536 ("1+2" +:+ String "013" EmptyString) "1+2" ()
       I eq_refl ltac:(vm_compute; discriminate) eq_refl))
    as (log & rest & _ & Hl & _ & Hp & _).
  exists log. split; [exact Hp|exact Hl].
Defined.

(** ** Starting and stopping the server *)

Section lifecycle.
Context {H : Type}.
Implicit Types (config : ServerConfig.t) (h : H).

(** The documentation of [basic_socket_acceptor::open]: an acceptor that is open
    cannot be opened ([error::already_open]). *)
Definition opens_once (listen : bool → string → Z → (asio_call * exn) + Z) : Prop :=
  ∀ host port, match listen true host port with
               | inl (c, _) => behind_open c = false
               | inr _ => False
               end.

Abbreviation server := (TcpJsonServer.t Session.t H).
Implicit Types (v : server).

Lemma stop_running in_time v :
  TcpJsonServer.running_ v = true →
  let v' := TcpJsonServer.stop in_time v in
  TcpJsonServer.config_ v' = TcpJsonServer.config_ v ∧
  TcpJsonServer.running_ v' = false ∧ TcpJsonServer.workers_ v' = 0%nat ∧
  TcpJsonServer.io_stopped v' = true ∧
  TcpJsonServer.sessions v' = TcpJsonServer.sessions v ∧
  TcpJsonServer.handler_state v' = TcpJsonServer.handler_state v ∧
  TcpJsonServer.acceptor_open v' =
    TcpJsonServer.acceptor_open v &&
      negb (in_time && negb (TcpJsonServer.io_stopped v) &&
            bool_decide (TcpJsonServer.workers_ v ≠ 0%nat)).
Proof.
  intros Hr. unfold TcpJsonServer.stop, TcpJsonServer.run_posted. rewrite Hr; simpl.
  destruct in_time; simpl; [|by rewrite andb_true_r].
  destruct (TcpJsonServer.io_stopped v); simpl; [by rewrite andb_true_r|].
  case_bool_decide; simpl; [by rewrite andb_false_r|by rewrite andb_true_r].
Qed.

Lemma start_io_stopped listen v :
  TcpJsonServer.io_stopped (TcpJsonServer.start listen v).2 =
  TcpJsonServer.io_stopped v.
Proof.
  unfold TcpJsonServer.start. destruct (TcpJsonServer.running_ v); [done|].
  by destruct (listen _ _ _) as [[]|].
Qed.

Lemma start_open listen v :
  opens_once listen → TcpJsonServer.running_ v = false →
  TcpJsonServer.acceptor_open v = true →
  ∃ e, (TcpJsonServer.start listen v).1 = Throw e.
Proof.
  intros Hl Hr Ho. unfold TcpJsonServer.start. rewrite Hr, Ho.
  specialize (Hl (ServerConfig.host (TcpJsonServer.config_ v))
                (ServerConfig.port (TcpJsonServer.config_ v))).
  destruct (listen _ _ _) as [[c e]|port]; [by exists e|done].
Qed.

(** C39: starting and stopping the server.  A server whose address can be bound
    runs after [start] with the bound port, an open acceptor and as many threads as
    configured, but at least one; a second [start] changes nothing; after [stop] it
    has no threads, a second [stop] changes nothing and no connection gets a session
    any more.  [stop] only posts the close of the acceptor: when a thread takes it
    before the [io_context] stops, a later [start] returns, but its threads end at
    once, because nothing restarts the [io_context]; when none does, the acceptor is
    still open and a later [start] throws.  When the address cannot be used, [start]
    throws, and from then on every further [start] returns without an exception
    although no thread runs and nothing was bound, because [running_] was set before
    the address was tried.  A [stop] allows the next attempt, on an acceptor that no
    thread can have closed: it throws too, whatever can be bound by then, if the
    acceptor had been opened when the first one failed. *)
Theorem server_start_stop config h listen :
  opens_once listen →
  let initial : server :=
    TcpJsonServer.mk config false false false false false 0 0 ∅ h in
  let host := ServerConfig.host config in
  let port := ServerConfig.port config in
  TcpJsonServer.make config (Some h) = Ret initial ∧
  (∀ bound, listen false host port = inr bound →
     ∃ started, TcpJsonServer.start listen initial = (Ret (), started) ∧
       TcpJsonServer.running_ started = true ∧
       TcpJsonServer.accepting started = true ∧
       TcpJsonServer.io_stopped started = false ∧
       TcpJsonServer.bound_port_ started = bound ∧
       Z.of_nat (TcpJsonServer.workers_ started) =
         Z.max 1 (ServerConfig.worker_threads config) ∧
       (∀ listen', TcpJsonServer.start listen' started = (Ret (), started)) ∧
       ∀ in_time, let stopped := TcpJsonServer.stop in_time started in
         TcpJsonServer.running_ stopped = false ∧
         TcpJsonServer.workers_ stopped = 0%nat ∧
         (∀ in_time', TcpJsonServer.stop in_time' stopped = stopped) ∧
         (∀ id error, TcpJsonServer.sessions
            (TcpJsonServer.on_accept (λ s, s) id error stopped) =
          TcpJsonServer.sessions started) ∧
         TcpJsonServer.acceptor_open stopped = negb in_time ∧
         TcpJsonServer.io_stopped (TcpJsonServer.start listen stopped).2 = true ∧
         if in_time then (TcpJsonServer.start listen stopped).1 = Ret ()
         else ∃ e, (TcpJsonServer.start listen stopped).1 = Throw e) ∧
  (∀ c e, listen false host port = inl (c, e) →
     ∃ failed, TcpJsonServer.start listen initial = (Throw e, failed) ∧
       TcpJsonServer.workers_ failed = 0%nat ∧
       TcpJsonServer.accepting failed = false ∧
       (∀ listen', TcpJsonServer.start listen' failed = (Ret (), failed)) ∧
       ∀ in_time, let stopped := TcpJsonServer.stop in_time failed in
         TcpJsonServer.acceptor_open stopped = behind_open c ∧
         ∀ listen', opens_once listen' →
           if behind_open c
           then ∃ e', (TcpJsonServer.start listen' stopped).1 = Throw e'
           else (TcpJsonServer.start listen' stopped).1 =
                (TcpJsonServer.start listen' initial).1).
Proof.
  intros Hl initial host port. subst host port. split_and!; [done| |].
  - intros bound Hb. unfold TcpJsonServer.start at 1; simpl. rewrite Hb.
    eexists. split; [done|]. set (started := TcpJsonServer.mk _ _ _ _ _ _ _ _ _ _).
    split_and!; [done..| |done|].
    { simpl. unfold TcpJsonServer.thread_count. lia. }
    intros in_time. set (stopped := TcpJsonServer.stop in_time started).
    destruct (stop_running in_time started eq_refl)
      as (Hcf & Hr & Hw & Hio & Hs & _ & Ho); fold stopped in Hcf, Hr, Hw, Hio, Hs, Ho.
    assert (TcpJsonServer.acceptor_open stopped = negb in_time) as Hopen.
    { rewrite Ho; simpl. rewrite bool_decide_true, !andb_true_r; [done|].
      unfold TcpJsonServer.thread_count. lia. }
    split_and!; [done|done| | |done| |].
    + intros in_time'. unfold TcpJsonServer.stop at 1. by rewrite Hr.
    + intros id error. unfold TcpJsonServer.on_accept. rewrite Hr. exact Hs.
    + rewrite start_io_stopped. exact Hio.
    + destruct in_time; [|by apply start_open].
      unfold TcpJsonServer.start. rewrite Hr, Hopen, Hcf; simpl.
      by rewrite Hb.
  - intros c e Hb. unfold TcpJsonServer.start at 1; simpl. rewrite Hb.
    eexists. split; [done|]. set (failed := TcpJsonServer.mk _ _ _ _ _ _ _ _ _ _).
    split_and!; [done..|].
    intros in_time. set (stopped := TcpJsonServer.stop in_time failed).
    destruct (stop_running in_time failed eq_refl)
      as (Hcf & Hr & _ & _ & _ & _ & Ho); fold stopped in Hcf, Hr, Ho.
    assert (TcpJsonServer.acceptor_open stopped = behind_open c) as Hopen
      by (rewrite Ho; by destruct (behind_open c), in_time).
    split; [done|]. intros listen' Hl'.
    destruct (behind_open c) eqn:Hc; [by apply start_open|].
    unfold TcpJsonServer.start. rewrite Hr, Hopen, Hcf; simpl.
    by destruct (listen' _ _ _) as [[]|].
Qed.
End lifecycle.

Example session_size_limit_witness :
  session_run echo (λ _, True) 3 "12345" []
    (Session.mk "12345" 3 Session.Reading) ∧
  ∀ output s'' h'',
    Session.step echo () (String line_feed EmptyString) output
      (Session.mk "12345" 3 Session.Reading) s'' h'' →
    Session.doing s'' = Session.Closed.
Proof.
  destruct (session_size_limit echo (λ _, True) 3 EmptyString [] (Session.start 3)
    tt "12345" I (session_started echo (λ _, True) 3) eq_refl eq_refl eq_refl)
    as [Hrun Hclosed].
  split; [exact Hrun|]. intros output s'' h'' Hstep.
  refine (proj1 (Hclosed _ output s'' h'' Hstep)). vm_compute. discriminate.
Defined.

(** An Asio that binds every port, to an acceptor that is closed. *)
Definition any_acceptor (is_open : bool) (host : string) (port : Z) :
    (asio_call * exn) + Z :=
  if is_open then inl (Open, StdException "open: Already open") else inr port.

Definition stopped_server : TcpJsonServer.t Session.t unit :=
  TcpJsonServer.mk ServerConfig.default false false false false false 0 0 ∅ tt.

Example server_start_stop_witness :
  ∃ started, TcpJsonServer.start any_acceptor stopped_server = (Ret (), started) ∧
    TcpJsonServer.workers_ started = 4%nat ∧
    (TcpJsonServer.start any_acceptor (TcpJsonServer.stop true started)).1 = Ret () ∧
    ∃ e, (TcpJsonServer.start any_acceptor (TcpJsonServer.stop false started)).1 = Throw e.
Proof.
  destruct (proj1 (proj2 (server_start_stop ServerConfig.default tt any_acceptor
    (λ host port, eq_refl))) (ServerConfig.port ServerConfig.default) eq_refl)
    as (started & Hs & _ & _ & _ & _ & Hw & _ & Hstop).
  exists started. split; [exact Hs|]. split.
  - apply Nat2Z.inj. exact Hw.
  - destruct (Hstop true) as (_ & _ & _ & _ & _ & _ & H1).
    destruct (Hstop false) as (_ & _ & _ & _ & _ & _ & H2).
    exact (conj H1 H2).
Defined.
