(* ===== verification/ServerCorrect.v ===== *)
(** * From bytes to values

    The sessions of the server on top of the request handler: what a client
    reads for the lines it sent. *)

From stdpp Require Import base tactics strings list gmap.
From Stdlib Require Import Ascii.
From S2P Require Import Prelude.
From S2P Require Import Types.
From S2P Require Import CppString.
From S2P Require Import Checker.
From S2P Require Import Abacus.
From S2P Require Import OperationKey.
From S2P Require Import CacheRepository.
From S2P Require Import OperationStorage.
From S2P Require Import RequestHandler.
From S2P Require Import LineProtocol.
From S2P Require Import HandlerSafety.
From S2P Require Import HandlerCorrect.
From S2P Require Import HandlerTheorems.
From S2P Require Import ServerConfig.
From S2P Require Import TcpServer.
From S2P Require Import TcpCorrect.
Import Protocol.
Import RequestHandler.

Section server.
Context {S : Type} `{storage : !IOperationStorage S} `{laws : !StorageLaws S}
  `{reliable : !ReliableStorage S}.
Context `{protocol : Protocol.Library} `{total : !Protocol.Total}.
Context `{math : CalculatorMath.Library} `{codes : !CalculatorMath.Codes}
  `{safe : !CalculatorMath.Safe} `{symmetric : !CalculatorMath.Symmetric}.
Variable steady_clock : nat → Z.

(** [request_handler_->handle] on the shared storage; every call reads the
    clock twice. *)
Definition serve (request : string) : prog (thrown ProtocolError) (S * nat) string :=
  λ '(s, n), let '(o, s') := run steady_clock request n s in (o, (s', n + 2)%nat).

Definition serving_sound (h : S * nat) : Prop :=
  serving h.1 ∧ sound (records h.1).

Lemma serve_total request h :
  serving_sound h →
  ∃ response h', serve request h = (Ret response, h') ∧ serving_sound h'.
Proof.
  destruct h as [s n]. intros [Hs Hm]; simpl in *.
  destruct (run_sound steady_clock request n s Hs Hm)
    as (text & s' & -> & Hs' & Hm' & _).
  exists text, (s', n + 2)%nat. by repeat split.
Qed.

(** What a response text says to a line. *)
Definition right_response (line text : string) : Prop :=
  ∀ req d, parse_request (strip_cr line) = inr req →
    to_calculator_data req = Ret d → operands req ≠ [] →
    ∃ response timing, text = render (set_timing_info timing response) ∧
      answers (Protocol.request_id req) d response.

Lemma answered_right line text :
  answered serve serving_sound line text → right_response line text.
Proof.
  intros ([s n] & [Hs Hm] & Hr) req d Hp Hd Hops. simpl in *.
  destruct (run_served steady_clock (strip_cr line) n s req d Hs Hm Hp Hd Hops)
    as (text' & s' & Hrun & [response Ha -> _ _ _ _ _ _]).
  rewrite Hrun in Hr; simpl in Hr. injection Hr as <-. by do 2 eexists.
Qed.

(** Sessions on a storage that is called directly are right.  Over a reliable storage that
    starts sound, a session sends, for the first lines it received, in their
    order and one for each, response texts that are right: for a line that parses
    to a request with operands in the range of [int], the text of a response with
    the value, or the error status, of the request's checks and calculation.
    Nothing a client sends ends the thread that serves it: every complete line of
    an accepted size can be answered. *)
Lemma direct_sessions_right max_message_size received sent session h :
  serving_sound h →
  session_run serve serving_sound max_message_size received sent session →
  (∃ log : list (string * string),
     log.*1 = take (length log) (getlines received) ∧
     Forall (λ '(line, text), right_response line text) log ∧
     sent `prefix_of` responses log) ∧
  (Session.doing session = Session.Reading →
   ∃ sent' session',
     session_run serve serving_sound max_message_size received sent' session' ∧
     match find_char line_feed (Session.buffer_ session') with
     | None => Session.doing session' = Session.Reading
     | Some (line, _) => Session.doing session' = Session.Closed
     end).
Proof.
  intros Hh Hrun. split.
  - destruct (session_log _ _ _ _ _ _ Hrun) as (log & _ & _ & Hl & Hx & Hp & _).
    exists log. split_and!; [done| |done].
    eapply Forall_impl; [exact Hx|]. intros [line text] (_ & _ & Ha).
    by apply answered_right.
  - intros Hd.
    destruct (session_continues serve serving_sound) with (2 := Hrun)
      as (sent' & session' & Hrun' & Hend); [|done|].
    { intros request. destruct (serve_total request h Hh) as (response & h' & Hr & _).
      by exists h, response, h'. }
    exists sent', session'. split; [done|].
    by destruct (find_char _ _) as [[line rest]|]; [destruct Hend|].
Qed.
End server.
