(* ===== verification/ServerSessions.v ===== *)
(** * From bytes to values on the running server

    The sessions of [TcpServer] whose lines are handled by the threads of
    [ServerSystem]: what a client reads for the lines it sent, when every storage
    call goes through the queue and a stop may come at any time. *)

From stdpp Require Import base tactics strings list gmap relations.
From Stdlib Require Import Ascii.
From S2P Require Import Prelude.
From S2P Require Import Types.
From S2P Require Import CppString.
From S2P Require Import Checker.
From S2P Require Import Abacus.
From S2P Require Import OperationKey.
From S2P Require Import CacheRepository.
From S2P Require Import Postgres.
From S2P Require Import OperationStorage.
From S2P Require Import StorageService.
From S2P Require Import RequestHandler.
From S2P Require Import LineProtocol.
From S2P Require Import HandlerSafety.
From S2P Require Import HandlerCorrect.
From S2P Require Import HandlerTheorems.
From S2P Require Import Restart.
From S2P Require Import HandlerConcurrent.
From S2P Require Import HandlerFailing.
From S2P Require Import StorageWorker.
From S2P Require Import WorkerCorrect.
From S2P Require Import WorkerStorage.
From S2P Require Import ServerSystem.
From S2P Require Import SystemCorrect.
From S2P Require Import SystemLive.
From S2P Require Import SystemTheorems.
From S2P Require Import ServerConfig.
From S2P Require Import TcpServer.
From S2P Require Import TcpCorrect.
From S2P Require Import ServerCorrect.
Import Protocol.
Import RequestHandler.
Import ServerSystem.

Section server.
Context `{lib : Libpq.Library} `{doc : !Documented}.
Context `{protocol : Protocol.Library} `{total : !Protocol.Total}.
Context `{math : CalculatorMath.Library} `{codes : !CalculatorMath.Codes}
  `{safe : !CalculatorMath.Safe} `{symmetric : !CalculatorMath.Symmetric}.
Variable steady_clock : nat → Z.

(** A move of the server's threads leaves a request's text alone, and requests no
    stop. *)
Lemma move_keeps s s' :
  move steady_clock s s' →
  StorageWorker.stopping (storage_ s') = StorageWorker.stopping (storage_ s) ∧
  ∀ i c, clients s !! i = Some c → ∃ c', clients s' !! i = Some c' ∧
    request_json (request c') = request_json (request c).
Proof.
  assert (∀ (cs : gmap nat client) i c c', cs !! i = Some c →
    request_json (request c') = request_json (request c) →
    ∀ j d, cs !! j = Some d → ∃ d', <[i := c']> cs !! j = Some d' ∧
      request_json (request d') = request_json (request d)) as Hkeep.
  { intros cs i c c' Hi Hc j d Hj. destruct (decide (j = i)) as [->|Hne].
    - exists c'. rewrite lookup_insert_eq. split; [done|]. congruence.
    - exists d. by rewrite lookup_insert_ne. }
  destruct 1 as [i r c ticket cs w w' Hi _ Hp|i r c e cs w w' Hi _ Hp
    |i r ticket reply cs w Hi _|cs w w' Hw]; cbn [storage_ clients].
  - split; [|by eapply Hkeep]. rewrite post_enqueue in Hp.
    unfold StorageWorker.enqueue in Hp. by destruct (StorageWorker.stopping w) eqn:?; simplify_eq.
  - split; [|by eapply Hkeep]. rewrite post_enqueue in Hp.
    unfold StorageWorker.enqueue in Hp. by destruct (StorageWorker.stopping w) eqn:?; simplify_eq.
  - split; [done|by eapply Hkeep].
  - split; [by apply thread_main_stopping|eauto].
Qed.

Lemma moves_keep s s' :
  rtc (move steady_clock) s s' →
  StorageWorker.stopping (storage_ s') = StorageWorker.stopping (storage_ s) ∧
  ∀ i c, clients s !! i = Some c → ∃ c', clients s' !! i = Some c' ∧
    request_json (request c') = request_json (request c).
Proof.
  induction 1 as [s|s s1 s' Hmove _ [IHs IHc]]; [by eauto|].
  destruct (move_keeps s s1 Hmove) as [Hs Hc]. split; [congruence|].
  intros i c Hi. destruct (Hc i c Hi) as (c1 & Hi1 & H1).
  destruct (IHc i c1 Hi1) as (c' & Hi' & H'). exists c'. split; [done|congruence].
Qed.

Section service.
Variable cs : string.
Variable s0 : StorageService.t.
(** Whether a stop may have been requested. *)
Variable stopped : bool.

(** A request that the running server handled to its end. *)
Definition handled_request (c : client) : Prop :=
  ∃ s i, rtc (step steady_clock) (started s0 cs) s ∧
    clients s !! i = Some c ∧ done_client steady_clock c ∧
    (StorageWorker.stopping (storage_ s) = true → stopped = true).

(** [request_handler_->handle] on the running server: the call comes back with
    the result of a request of that text that was handled to its end. *)
Definition serve_running (request_text : string) :
    prog (thrown ProtocolError) client string := λ c,
  if decide (request_json (request c) = request_text)
  then (result_of steady_clock (request c), c) else (Undef, c).

(** What a refused client reads. *)
Definition refused_response (line text : string) : Prop :=
  ∃ req timing, parse_request (strip_cr line) = inr req ∧
    text = render (set_timing_info timing (failure_of
      (response_id (Protocol.request_id req)) INTERNAL_ERROR
      "storage worker is stopping")).

(** A request of any text can be handled to the end, without a stop. *)
Lemma some_handled request_text :
  ∃ c s i, request_json (request c) = request_text ∧
    rtc (step steady_clock) (started s0 cs) s ∧ clients s !! i = Some c ∧
    done_client steady_clock c ∧ StorageWorker.stopping (storage_ s) = false.
Proof.
  set (c0 := mk_client (mk_thread request_text 0 []) None).
  set (s1 := ServerSystem.mk {[0%nat := c0]} (ready cs s0)).
  assert (step steady_clock (started s0 cs) s1) as Harrive.
  { unfold s1. rewrite <-insert_empty. by apply ServerSystem.step_arrive. }
  destruct (system_finishes steady_clock s0 s1) as (s & Hmoves & _ & Hall).
  { eapply run_system_live; [by apply rtc_once|apply started_system_live]. }
  destruct (moves_keep _ _ Hmoves) as [Hstop Hkeep].
  destruct (Hkeep 0%nat c0) as (c & Hi & Htext); [apply lookup_singleton_eq|].
  exists c, s, 0%nat. split_and!; [done| |done|by apply (Hall 0%nat)|by rewrite Hstop].
  eapply rtc_l; [exact Harrive|]. eapply rtc_subrel; [|exact Hmoves].
  intros. by apply step_move.
Qed.

Lemma some_request : ∃ c, handled_request c.
Proof.
  destruct (some_handled EmptyString) as (c & s & i & _ & Hrun & Hi & Hd & Hs).
  exists c, s, i. split_and!; [done..|congruence].
Qed.

Hypothesis serving_s0 : serving s0.
Hypothesis sound_s0 : sound (records s0).

(** What the running server makes of a line. *)
Lemma served_right line text :
  answered serve_running handled_request line text →
  right_response line text ∨ stopped = true ∧ refused_response line text.
Proof.
  intros (c & (s & i & Hrun & Hi & Hdone & Hstop) & Hr). unfold serve_running in Hr.
  destruct (decide _) as [Htext|]; [|done]. simpl in Hr.
  assert (system_ok (service_honest := reliable_honest) s0 s) as Hok
    by (eapply run_system_ok; [exact Hrun|by apply started_reliable_ok]).
  destruct (done_right steady_clock s0 s i c Hok Hi Hdone)
    as [(text' & Hresult & Hright)|(Hs & req & Hp & Hresult)];
    rewrite Hresult in Hr; injection Hr as <-; rewrite Htext in *.
  - left. intros req d Hp Hd Hops. destruct (Hright req d Hp Hd Hops)
      as (response & -> & Ha). by do 2 eexists.
  - right. split; [by apply Hstop|]. by do 2 eexists.
Qed.

(** Every line can be handled to the end, without a stop. *)
Lemma every_line_served request_text :
  ∃ c response c', handled_request c ∧
    serve_running request_text c = (Ret response, c').
Proof.
  destruct (some_handled request_text) as (c & s & i & Htext & Hrun & Hi & Hdone & Hs).
  assert (system_ok (service_honest := reliable_honest) s0 s) as Hok
    by (eapply run_system_ok; [exact Hrun|by apply started_reliable_ok]).
  pose proof (done_right steady_clock s0 s i c Hok Hi Hdone) as Hright.
  assert (∃ response, result_of steady_clock (request c) = Ret response) as [response Hr]
    by (destruct Hright as [(response & ? & _)|(_ & ? & _ & ?)]; by eexists).
  exists c, response, c. split.
  - exists s, i. split_and!; [done..|congruence].
  - unfold serve_running. rewrite decide_True by done. by rewrite Hr.
Qed.

(** The server is right from end to end.  From a storage thread that is ready
    on a service whose connection is available and whose records are sound, a
    session whose lines are handled by the running server, among any other
    requests, sends, for the first lines it received, in their order and one for
    each, response texts that are right: for a line that parses to a request with
    operands in the range of [int], the text of a response with the value, or the
    error status, of the request's checks and calculation.  Only when a stop was
    requested a line may be refused instead, with [INTERNAL_ERROR].  And nothing a
    client sends ends the thread that serves it: every complete line of an accepted
    size can be answered. *)
Lemma server_answers_right max_message_size received sent session :
  session_run serve_running handled_request max_message_size received sent session →
  (∃ log : list (string * string),
     log.*1 = take (length log) (getlines received) ∧
     Forall (λ '(line, text), right_response line text ∨
       stopped = true ∧ refused_response line text) log ∧
     sent `prefix_of` responses log) ∧
  (Session.doing session = Session.Reading →
   ∃ sent' session',
     session_run serve_running handled_request max_message_size received sent'
       session' ∧
     match find_char line_feed (Session.buffer_ session') with
     | None => Session.doing session' = Session.Reading
     | Some (line, _) => Session.doing session' = Session.Closed
     end).
Proof.
  intros Hrun. split.
  - destruct (session_log _ _ _ _ _ _ Hrun) as (log & _ & _ & Hl & Hx & Hp & _).
    exists log. split_and!; [done| |done].
    eapply Forall_impl; [exact Hx|]. intros [line text] (_ & _ & Ha).
    by apply served_right.
  - intros Hd.
    destruct (session_continues _ _ every_line_served _ _ _ _ Hrun Hd)
      as (sent' & session' & Hrun' & Hend).
    exists sent', session'. split; [done|].
    by destruct (find_char _ _) as [[line rest]|]; [destruct Hend|].
Qed.
End service.
End server.

(** ** A line by hand *)

Definition line_turns : list turn :=
  [Arrive 0 "+2,3" 0; Post 0; Work; Work; Get 0; Post 0; Work; Work; Get 0].

Definition line_client : option client :=
  s ← system_turns (lib := TableServer.library) (protocol := LineProtocol.library)
    (math := SafeMath.library) clock_1ms line_turns demo_started;
  if StorageWorker.stopping (storage_ s) then None else clients s !! 0%nat.

Abbreviation demo_serve := (serve_running (protocol := LineProtocol.library)
  (math := SafeMath.library) clock_1ms).

Abbreviation demo_handled := (handled_request (lib := TableServer.library)
  (protocol := LineProtocol.library) (math := SafeMath.library)
  clock_1ms EmptyString demo_storage false).

Abbreviation demo_call c := (next_call (protocol := LineProtocol.library)
  (math := SafeMath.library) clock_1ms (request c)).

Lemma line_served : ∃ c, demo_handled c ∧
  (demo_serve "+2,3" c).1 = Ret "OK 5 calculated".
Proof.
  assert (match line_client with
    | Some c =>
        match waiting c, demo_call c,
              (demo_serve "+2,3" c).1 with
        | None, None, Ret text => bool_decide (text = "OK 5 calculated")
        | _, _, _ => false
        end
    | None => false
    end = true) as Hline by (vm_compute; reflexivity).
  unfold line_client in Hline.
  destruct (system_turns (lib := TableServer.library)
    (protocol := LineProtocol.library) (math := SafeMath.library) clock_1ms
    line_turns demo_started) as [s|] eqn:Hs; [|discriminate].
  simpl in Hline. destruct (StorageWorker.stopping (storage_ s)) eqn:Hstop; [discriminate|].
  destruct (clients s !! 0%nat) as [c|] eqn:Hc; [|discriminate].
  exists c. split.
  - exists s, 0%nat. split; [exact (system_turns_run (protocol := LineProtocol.library)
      (math := SafeMath.library) clock_1ms _ _ _ Hs)|].
    split; [exact Hc|]. split; [split|].
    + destruct (waiting c); [discriminate|reflexivity].
    + destruct (waiting c), (demo_call c); [discriminate..|reflexivity].
    + rewrite Hstop. discriminate.
  - destruct (waiting c), (demo_call c); try discriminate.
    revert Hline. destruct (demo_serve "+2,3" c) as [[text|e|] c'];
      simpl; intros Hline; try discriminate.
    apply bool_decide_eq_true in Hline. by rewrite Hline.
Qed.

Lemma line_session :
  session_run demo_serve demo_handled 65536
    (ended ("+2,3" +:+ String "013" EmptyString)) [ended "OK 5 calculated"]
    (Session.start 65536).
Proof.
  destruct line_served as (c & Hc & Hr).
  apply (one_line_run demo_serve demo_handled 65536
    ("+2,3" +:+ String "013" EmptyString) "OK 5 calculated" c Hc eq_refl).
  - vm_compute. discriminate.
  - exact Hr.
Qed.

Example server_answers_right_witness :
  ∃ log : list (string * string),
    log.*1 = take (length log) ["+2,3" +:+ String "013" EmptyString] ∧
    Forall (λ '(line, text), right_response (protocol := LineProtocol.library)
      (total := LineProtocol.total) (math := SafeMath.library) line text ∨
      false = true ∧ refused_response (protocol := LineProtocol.library)
        (total := LineProtocol.total) line text) log ∧
    [ended "OK 5 calculated"] `prefix_of` responses log.
Proof.
  exact (proj1 (server_answers_right (doc := TableServer.documented)
    (protocol := LineProtocol.library) (total := LineProtocol.total)
    (math := SafeMath.library) (codes := SafeMath.codes) (safe := SafeMath.safe)
    (symmetric := SafeMath.symmetric) clock_1ms EmptyString demo_storage false
    demo_serving demo_sound 65536 _ _ _ line_session)).
Defined.
