(* ===== verification/SignalHandler.v ===== *)
(** * [Server::SignalHandler] ([server/src/signal-handler.cpp])

    A thread that waits for [SIGINT] or [SIGTERM] with [sigwait] and calls the
    callback once, against [stop] in another thread.  The accesses to the atomic
    [running_], the delivery of a signal and the callback are the steps; the two
    threads interleave freely. *)

From stdpp Require Import base tactics strings list.
From S2P Require Import Prelude.
From S2P Require Import Types.
From S2P Require Import CppString.

Module SignalHandler.

Definition SIGINT : Z := 2.
Definition SIGTERM : Z := 15.

(** Where the signal thread is: [thread_] is not joinable; at the condition of
    the loop; in [sigwait]; behind it with a signal; between the test and the
    reset of [running_]; before the callback; returned. *)
Inductive thread_phase : Type :=
  | NoThread
  | AtLoop
  | InSigwait
  | Woken (signal : Z)
  | Claiming (signal : Z)
  | Calling (signal : Z)
  | Returned.

(** Where the thread that calls [stop] is: not in [stop]; before
    [pthread_kill]; in [join]. *)
Inductive stop_phase : Type :=
  | Idle
  | Killing
  | Joining.

(** [pending] holds the blocked signals that were delivered and not yet taken;
    [called] the arguments of the callback, the last one first. *)
Record t : Type := mk {
  running_ : bool;
  thread_ : thread_phase;
  stopper : stop_phase;
  pending : list Z;
  called : list Z
}.

Definition make : t := mk false NoThread Idle [] [].

Definition set_thread (p : thread_phase) (self : t) : t :=
  mk (running_ self) p (stopper self) (pending self) (called self).
Definition set_running (b : bool) (self : t) : t :=
  mk b (thread_ self) (stopper self) (pending self) (called self).
Definition set_stopper (p : stop_phase) (self : t) : t :=
  mk (running_ self) (thread_ self) p (pending self) (called self).
Definition deliver (signal : Z) (self : t) : t :=
  mk (running_ self) (thread_ self) (stopper self) (pending self ++ [signal])
    (called self).

Definition joinable (self : t) : bool :=
  match thread_ self with NoThread => false | _ => true end.

(** [start]; [blocked] is the result of [pthread_sigmask].  Assigning to a
    joinable [thread_] ends the program ([Undef]). *)
Definition start (blocked : Z) : prog exn t unit := λ self,
  if running_ self then (Ret (), self)
  else if negb (bool_decide (blocked = 0)) then
    (Throw (StdException "failed to block service signals"), set_running false self)
  else if joinable self then (Undef, set_running true self)
  else (Ret (), set_thread AtLoop (set_running true self)).

(** The next step of [thread_main]; [None] while [sigwait] has no signal. *)
Definition thread_main (self : t) : option t :=
  match thread_ self with
  | NoThread | Returned => None
  | AtLoop =>
      Some (set_thread (if running_ self then InSigwait else Returned) self)
  | InSigwait =>
      match pending self with
      | [] => None
      | signal :: rest =>
          Some (mk (running_ self) (Woken signal) (stopper self) rest (called self))
      end
  | Woken signal =>
      Some (set_thread (if running_ self then Claiming signal else AtLoop) self)
  | Claiming signal => Some (set_thread (Calling signal) (set_running false self))
  | Calling signal =>
      Some (mk (running_ self) Returned (stopper self) (pending self)
              (signal :: called self))
  end.

(** The next step of [stop]; [None] while [join] waits. *)
Definition stop_step (self : t) : option t :=
  match stopper self with
  | Idle =>
      Some (set_stopper (if running_ self && joinable self then Killing else Joining)
              (set_running false self))
  | Killing => Some (set_stopper Joining (deliver SIGTERM self))
  | Joining =>
      match thread_ self with
      | NoThread => Some (set_stopper Idle self)
      | Returned => Some (set_stopper Idle (set_thread NoThread self))
      | _ => None
      end
  end.

(** The steps of a started handler: its thread, one that calls [stop], and the
    signals that the system delivers. *)
Inductive step : t → t → Prop :=
  | step_thread self self' : thread_main self = Some self' → step self self'
  | step_stop self self' : stop_step self = Some self' → step self self'
  | step_signal signal self :
      signal ∈ [SIGINT; SIGTERM] → step self (deliver signal self).

Inductive reachable : t → Prop :=
  | reachable_started self : start 0 make = (Ret (), self) → reachable self
  | reachable_step self self' : reachable self → step self self' → reachable self'.

(** The signal thread on its own, as far as it gets. *)
Fixpoint run_thread (fuel : nat) (self : t) : t :=
  match fuel with
  | O => self
  | S fuel =>
      match thread_main self with
      | Some self' => run_thread fuel self'
      | None => self
      end
  end.

End SignalHandler.
Import SignalHandler.

(** ** The invariant of the two threads *)

(** The callback is still to be called, is being called or was called: at most
    once in all. *)
Definition call_budget (self : t) : nat :=
  length (called self) +
  match thread_ self with
  | NoThread | Returned => 0
  | _ => 1
  end.

Definition service_signal (signal : Z) : Prop := signal ∈ [SIGINT; SIGTERM].

Definition phase_signal (p : thread_phase) : list Z :=
  match p with
  | Woken signal | Claiming signal | Calling signal => [signal]
  | _ => []
  end.

Record invariant (self : t) : Prop := mk_invariant {
  inv_budget : (call_budget self ≤ 1)%nat;
  inv_signals :
    Forall service_signal
      (pending self ++ phase_signal (thread_ self) ++ called self);
  inv_stopping : stopper self ≠ Idle → running_ self = false;
  inv_thread :
    match thread_ self with
    | NoThread | Returned | Calling _ => running_ self = false
    | AtLoop | Woken _ | Claiming _ => stopper self = Idle → running_ self = true
    | InSigwait =>
        (stopper self = Idle → running_ self = true) ∧
        (stopper self = Joining → pending self ≠ [])
    end
}.

Lemma thread_invariant self self' :
  invariant self → thread_main self = Some self' → invariant self'.
Proof.
  destruct self as [run th st pend cal]. intros [Hb Hs Hst Hth].
  unfold thread_main, call_budget in *; simpl in *.
  destruct th as [| | |signal|signal|signal|]; intros Hm; simplify_eq/=.
  - destruct run; split; unfold call_budget; simpl in *; auto with lia.
    split; [done|]. intros ->. by specialize (Hst ltac:(done)).
  - destruct pend as [|signal rest]; simplify_eq. split; simpl in *; try done.
    + apply Forall_cons in Hs as [H1 H2]. rewrite Forall_app in H2 |- *.
      destruct H2. split; [done|]. by apply Forall_cons.
    + naive_solver.
  - destruct run; split; unfold call_budget; simpl in *; auto.
    rewrite Forall_app in Hs |- *. destruct Hs as [? Hs].
    split; [done|]. by apply Forall_cons in Hs as [_ ?].
  - split; unfold call_budget; simpl in *; auto.
  - split; unfold call_budget; simpl in *; auto with lia.
Qed.

Lemma stop_invariant self self' :
  invariant self → stop_step self = Some self' → invariant self'.
Proof.
  destruct self as [run th st pend cal]. intros [Hb Hs Hst Hth].
  unfold stop_step, call_budget in *; simpl in *.
  destruct st; intros Hm; simplify_eq/=.
  - destruct run, th; split; unfold call_budget, set_running, set_stopper; simpl in *;
      auto; naive_solver.
  - split; unfold call_budget; simpl in *; auto.
    + rewrite <-app_assoc. rewrite Forall_app in Hs |- *. destruct Hs as [? Hs].
      split; [done|]. apply Forall_cons. split; [by right; left|done].
    + destruct th; try done; try (by intros; discriminate).
      split; [done|]. intros _. by destruct pend.
  - destruct th; simplify_eq; split; unfold call_budget; simpl in *; auto.
Qed.

Lemma deliver_invariant signal self :
  signal ∈ [SIGINT; SIGTERM] → invariant self → invariant (deliver signal self).
Proof.
  intros Hin [Hb Hs Hst Hth]. split; simpl; auto.
  - rewrite <-app_assoc. rewrite Forall_app in Hs |- *. destruct Hs as [? Hs].
    split; [done|]. by apply Forall_cons.
  - destruct (thread_ self); auto. destruct Hth. split; [done|].
    intros _. by destruct (pending self).
Qed.

Lemma reachable_invariant self : reachable self → invariant self.
Proof.
  induction 1 as [self Hs|self self' _ IH Hstep].
  - injection Hs as <-. split; [vm_compute; lia|apply List.Forall_nil|done|done].
  - destruct Hstep as [self self' Hm|self self' Hm|signal self Hin].
    + by eapply thread_invariant.
    + by eapply stop_invariant.
    + by apply deliver_invariant.
Qed.

(** C30: the callback is called at most once and only with [SIGINT] or
    [SIGTERM], however signals, the signal thread and [stop] interleave, and once
    it was called the handler no longer runs. *)
Theorem signal_called_once self :
  reachable self →
  (length (called self) ≤ 1)%nat ∧
  (∀ signal, signal ∈ called self → signal = SIGINT ∨ signal = SIGTERM) ∧
  (called self ≠ [] → running_ self = false).
Proof.
  intros Hr. apply reachable_invariant in Hr as [Hb Hs _ Hth].
  unfold call_budget in Hb. split_and!; [lia| |].
  - intros signal Hin. rewrite !Forall_app, !Forall_forall in Hs.
    destruct Hs as (_ & _ & Hs). specialize (Hs signal Hin).
    unfold service_signal in Hs. rewrite !elem_of_cons, elem_of_nil in Hs. tauto.
  - destruct (called self); [done|]. intros _. simpl in Hb.
    destruct (thread_ self); simpl in Hb; by try lia.
Qed.

(** C29: [stop] always comes back: its steps before [join] are never blocked,
    and when it waits in [join] the signal thread returns after at most three
    steps of its own, because the signal that [stop] sent is pending whenever the
    thread is in [sigwait]. *)
Theorem signal_stop_returns self :
  reachable self →
  match stopper self with
  | Idle | Killing => is_Some (stop_step self)
  | Joining => is_Some (stop_step (run_thread 3 self))
  end.
Proof.
  intros Hr. apply reachable_invariant in Hr as [_ _ Hst Hth].
  destruct self as [run th st pend cal]; simpl in *.
  destruct st; [by eexists|by eexists|].
  specialize (Hst ltac:(done)). subst run.
  destruct th; simpl; try by eexists.
  destruct Hth as [_ Hp]. destruct pend; [by destruct Hp|]. by eexists.
Qed.

(** A signal is answered: while the handler runs and nobody stops it, a
    pending signal leads in at most five steps of the signal thread to the call
    of the callback and to the end of the thread. *)
Lemma signal_answered self :
  reachable self → stopper self = Idle → running_ self = true →
  pending self ≠ [] →
  ∃ signal, called (run_thread 5 self) = [signal] ∧
    thread_ (run_thread 5 self) = Returned.
Proof.
  intros Hr Hst Hrun Hp. apply reachable_invariant in Hr as [Hb _ _ Hth].
  destruct self as [run th st pend cal]; simpl in *. subst st run.
  unfold call_budget in Hb; simpl in Hb.
  destruct cal; [|destruct th; simpl in *; by try lia].
  destruct pend as [|signal rest]; [done|].
  destruct th; simpl in *; try done; eexists; split; reflexivity.
Qed.

(** ** Witnesses *)

Definition started : t := set_thread AtLoop (set_running true make).

Lemma started_reachable : reachable started.
Proof. by constructor. Qed.

Definition interrupted : t := deliver SIGINT started.

Lemma interrupted_reachable : reachable interrupted.
Proof.
  eapply reachable_step; [exact started_reachable|]. apply step_signal, list_elem_of_here.
Qed.

Example signal_called_once_witness : (length (called interrupted) ≤ 1)%nat.
Proof. exact (proj1 (signal_called_once interrupted interrupted_reachable)). Defined.

(** [stop] called on the started handler, up to [join]. *)
Definition stopped_early : t := mk false AtLoop Joining [SIGTERM] [].

Lemma stopped_early_reachable : reachable stopped_early.
Proof.
  apply (reachable_step (mk false AtLoop Killing [] [])); [|by apply step_stop].
  apply (reachable_step started); [exact started_reachable|by apply step_stop].
Qed.

Example signal_stop_returns_witness : is_Some (stop_step (run_thread 3 stopped_early)).
Proof. exact (signal_stop_returns stopped_early stopped_early_reachable). Defined.

Example signal_answered_witness :
  ∃ signal, called (run_thread 5 interrupted) = [signal] ∧
    thread_ (run_thread 5 interrupted) = Returned.
Proof.
  exact (signal_answered interrupted interrupted_reachable eq_refl eq_refl
    ltac:(discriminate)).
Defined.
