(* ===== verification/Application.v ===== *)
(** * [Server::ServiceApplication] and [main] ([server/main.cpp],
    [server/src/service-application.cpp])

    The command line, the exit status, and the order in which the service
    starts and stops its components, on the normal path and when a start
    throws.  A component is seen through the calls that are made on it; what the
    calls do is modelled with the components. *)

From stdpp Require Import base tactics strings list.
From Stdlib Require Import Ascii.
From S2P Require Import Prelude.
From S2P Require Import Types.
From S2P Require Import CppString.
From S2P Require Import ServerConfig.

(** ** The command line *)

Definition is_config_flag (argument : string) : bool :=
  bool_decide (argument = "--config") || bool_decide (argument = "-c").

(** The loop of [config_path_from_args] over the arguments from [argv[index]]
    on. *)
Fixpoint scan_args (config_path : string) (args : list string) : string :=
  match args with
  | [] => config_path
  | argument :: rest =>
      if is_config_flag argument then
        match rest with
        | value :: rest' => scan_args value rest'
        | [] => config_path
        end
      else scan_args config_path rest
  end.

Definition default_config_path : string := "/etc/console-calculator/server.conf".

Definition config_path_from_args (argv : list string) : string :=
  scan_args default_config_path (tail argv).

(** ** The application *)

Module ServiceApplication.

Inductive component : Type := Signals | Storage | Server.

#[export] Instance component_eq_dec : EqDecision component.
Proof. solve_decision. Defined.

(** The calls that [run] makes, in its own frame or from destructors. *)
Inductive call : Type :=
  | InitLogger
  | Start (c : component)
  | AwaitShutdown
  | Stop (c : component)
  | ShutdownLogger.

#[export] Instance call_eq_dec : EqDecision call.
Proof. solve_decision. Defined.

Section application.
(** The exception that a call throws, if it does; the [stop] functions and
    [Logger::shutdown] are [noexcept]. *)
Variable attempt : call → option exn.

(** Computations with the sequence of the calls made so far. *)
Definition perform (c : call) : prog exn (list call) unit := λ trace,
  (match attempt c with Some e => Throw e | None => Ret () end, trace ++ [c]).

Definition perform_noexcept (c : call) : prog exn (list call) unit := λ trace,
  (Ret (), trace ++ [c]).

(** A scope that ends with the destructor of a component, which stops it. *)
Definition scope {A} (c : component) (m : prog exn (list call) A) :
    prog exn (list call) A :=
  scoped (λ trace, trace ++ [Stop c]) m.

Definition run : prog exn (list call) Z :=
  _ ← perform InitLogger;
  scope Signals (
    _ ← perform (Start Signals);
    scope Storage (
      _ ← perform (Start Storage);
      scope Server (
        _ ← perform (Start Server);
        _ ← perform_noexcept AwaitShutdown;
        _ ← perform_noexcept (Stop Server);
        _ ← perform_noexcept (Stop Storage);
        _ ← perform_noexcept (Stop Signals);
        _ ← perform_noexcept ShutdownLogger;
        mret 0))).
End application.
End ServiceApplication.
Import ServiceApplication.

(** ** [main]: the exit status and what is written to [std::cerr] *)

Definition main (files environment : string → option string)
    (run : ServerConfig.t → outcome exn Z) (argv : list string) :
    outcome exn (Z * string) :=
  let config_path := config_path_from_args argv in
  match
    (config ← ServerConfig.from_environment_and_file files environment config_path;
     run config)
  with
  | Ret status => Ret (status, EmptyString)
  | Throw (CalculatorException _ what) | Throw (StdException what) =>
      Ret (1, "Fatal server error: " +:+ what +:+ String "010" EmptyString)
  | Throw OtherException =>
      Ret (1, "Unknown fatal server error" +:+ String "010" EmptyString)
  | Undef => Undef
  end.

(** ** The options on a command line *)

(** An argument that is no flag, or a flag with its value. *)
Inductive item : Type :=
  | Other (argument : string)
  | Option (flag value : string).

Definition item_ok (i : item) : bool :=
  match i with
  | Other argument => negb (is_config_flag argument)
  | Option flag _ => is_config_flag flag
  end.

Definition item_args (i : item) : list string :=
  match i with
  | Other argument => [argument]
  | Option flag value => [flag; value]
  end.

Definition item_value (i : item) : option string :=
  match i with Other _ => None | Option _ value => Some value end.

(** Any command line is a list of items, with a last flag that lacks its
    value. *)
Fixpoint items_of (args : list string) : list item * list string :=
  match args with
  | [] => ([], [])
  | argument :: rest =>
      if is_config_flag argument then
        match rest with
        | value :: rest' =>
            let '(items, last) := items_of rest' in
            (Option argument value :: items, last)
        | [] => ([], [argument])
        end
      else
        let '(items, last) := items_of rest in (Other argument :: items, last)
  end.

Lemma scan_items items last path :
  forallb item_ok items = true → last = [] ∨ (∃ flag, last = [flag]) →
  forallb is_config_flag last = true →
  scan_args path (concat (item_args <$> items) ++ last) =
    default path (list.last (omap item_value items)).
Proof.
  intros Hok Hl Hf. revert path. induction items as [|i items IH]; intros path; simpl.
  - destruct Hl as [->|[flag ->]]; [done|]. simpl in *.
    by destruct (is_config_flag flag).
  - simpl in Hok. apply andb_true_iff in Hok as [Hi Hok].
    specialize (IH Hok). destruct i as [argument|flag value]; simpl in *.
    + apply negb_true_iff in Hi. by rewrite Hi, IH.
    + rewrite Hi, IH.
      change (list_omap item string item_value items) with (omap item_value items).
      rewrite last_cons. by destruct (list.last (omap item_value items)).
Qed.

Lemma items_of_args args :
  let '(items, last) := items_of args in
  args = concat (item_args <$> items) ++ last ∧ forallb item_ok items = true ∧
  (last = [] ∨ ∃ flag, last = [flag]) ∧ forallb is_config_flag last = true.
Proof.
  induction args as [args IH] using (well_founded_induction (Nat.lt_wf_0_projected length)).
  destruct args as [|argument rest]; [simpl; split_and!; auto|]. simpl.
  destruct (is_config_flag argument) eqn:Hf.
  - destruct rest as [|value rest']; [simpl; rewrite Hf; split_and!; eauto|].
    specialize (IH rest' ltac:(simpl; lia)).
    destruct (items_of rest') as [items last]. destruct IH as (-> & Hok & Hl & Hlf).
    simpl. rewrite Hf. split_and!; auto.
  - specialize (IH rest ltac:(simpl; lia)).
    destruct (items_of rest) as [items last]. destruct IH as (-> & Hok & Hl & Hlf).
    simpl. rewrite Hf. split_and!; auto.
Qed.

(** C32: the last complete option decides.  Every command line splits into
    arguments that are no flag, flags with the argument behind them as their
    value (whatever it is, another flag included), and possibly one last flag
    without a value; the configuration file is the value of the last complete
    flag, or the default path when there is none. *)
Theorem config_path_correct program args :
  ∃ items last,
    args = concat (item_args <$> items) ++ last ∧ forallb item_ok items = true ∧
    (last = [] ∨ ∃ flag, last = [flag] ∧ is_config_flag flag = true) ∧
    config_path_from_args (program :: args) =
      default default_config_path (list.last (omap item_value items)).
Proof.
  pose proof (items_of_args args) as Hargs.
  destruct (items_of args) as [items last]. destruct Hargs as (-> & Hok & Hl & Hf).
  exists items, last. split_and!; [done|done| |].
  - destruct Hl as [->|[flag ->]]; [by left|right]. exists flag. split; [done|].
    simpl in Hf. by destruct (is_config_flag flag).
  - by apply scan_items.
Qed.

(** ** Starting and stopping *)

(** The components that run, the last one started first.  Stopping one that
    does not run changes nothing; stopping one on which a later one still relies
    is an error ([None]). *)
Fixpoint unwind (trace : list call) (live : list component) :
    option (list component) :=
  match trace with
  | [] => Some live
  | Start c :: rest => unwind rest (c :: live)
  | Stop c :: rest =>
      match live with
      | c' :: live' =>
          if decide (c = c') then unwind rest live'
          else if decide (c ∈ live) then None
          else unwind rest live
      | [] => unwind rest []
      end
  | _ :: rest => unwind rest live
  end.

(** The exception of the first call that fails. *)
Definition first_failure (attempt : call → option exn) : option exn :=
  match attempt InitLogger, attempt (Start Signals), attempt (Start Storage),
        attempt (Start Server) with
  | Some e, _, _, _ | None, Some e, _, _ | None, None, Some e, _
  | None, None, None, Some e => Some e
  | None, None, None, None => None
  end.

Lemma application_outcome attempt :
  (ServiceApplication.run attempt []).1 =
    match first_failure attempt with Some e => Throw e | None => Ret 0 end.
Proof.
  unfold ServiceApplication.run, scope, perform, perform_noexcept, first_failure,
    mbind, prog_bind; simpl.
  by destruct (attempt InitLogger), (attempt (Start Signals)),
    (attempt (Start Storage)), (attempt (Start Server)).
Qed.

(** C31: the service stops in the order in which it started, reversed.  Whatever
    call fails, the calls of [run] and of the destructors stop every component
    that was started, the network before the storage and the storage before the
    signal thread, and leave none running; the result is 0, with the wait for the
    shutdown before the first stop, when nothing fails, and otherwise the
    exception of the first call that failed. *)
Theorem application_unwinds attempt :
  let '(o, trace) := ServiceApplication.run attempt [] in
  unwind trace [] = Some [] ∧
  o = match first_failure attempt with Some e => Throw e | None => Ret 0 end ∧
  (first_failure attempt = None →
     take 6 trace = [InitLogger; Start Signals; Start Storage; Start Server;
                     AwaitShutdown; Stop Server]) ∧
  (first_failure attempt ≠ None → AwaitShutdown ∉ trace).
Proof.
  unfold ServiceApplication.run, scope, perform, perform_noexcept, first_failure,
    mbind, prog_bind; simpl.
  destruct (attempt InitLogger), (attempt (Start Signals)),
    (attempt (Start Storage)), (attempt (Start Server)); simpl;
    (split_and!; [reflexivity|reflexivity|done|]);
    first [ by intros [] | intros _; apply (bool_decide_unpack _); reflexivity ].
Qed.

(** The text that [main] writes for an exception. *)
Definition fatal_message (e : exn) : string :=
  match exn_what e with
  | Some what => "Fatal server error: " +:+ what +:+ String "010" EmptyString
  | None => "Unknown fatal server error" +:+ String "010" EmptyString
  end.

(** The exit status of the program: 0 and nothing on [std::cerr] after an
    orderly shutdown; 1 and the message of the exception when the configuration
    cannot be read or a component does not start. *)
Lemma main_exit_status files environment attempt argv :
  main files environment (λ _, (ServiceApplication.run attempt []).1) argv =
  match ServerConfig.from_environment_and_file files environment
          (config_path_from_args argv) with
  | Ret config =>
      match first_failure attempt with
      | None => Ret (0, EmptyString)
      | Some e => Ret (1, fatal_message e)
      end
  | Throw e => Ret (1, fatal_message e)
  | Undef => Undef
  end.
Proof.
  pose proof (application_outcome attempt) as Hrun. unfold main.
  destruct (ServerConfig.from_environment_and_file _ _ _) as [config|e|]; simpl.
  - rewrite Hrun. destruct (first_failure attempt) as [[]|]; done.
  - by destruct e.
  - done.
Qed.
