(* ===== verification/Shutdown.v ===== *)
(** * The main thread and the signal thread

    [ServiceApplication::run] ([server/src/service-application.cpp]) from its
    first call to its end, against the signal thread: it starts and stops the
    [SignalHandler], and waits on the condition that the handler's callback
    fulfils. *)

From stdpp Require Import base tactics strings list relations.
From S2P Require Import Prelude.
From S2P Require Import Types.
From S2P Require Import SignalHandler.
From S2P Require Import Application.
Import ServiceApplication.

Module Shutdown.
Section shutdown.
(** Which calls fail. *)
Variable attempt : call → option exn.

(** The calls that the main thread still makes, and the signal handler.  The
    variable [stopping] of [run] is set by the callback and never reset: it says
    that the callback was called. *)
Record t : Type := mk { todo : list call; signals : SignalHandler.t }.

Definition initial : t :=
  mk (ServiceApplication.run attempt []).2 SignalHandler.make.

(** [signal_handler.start()], with what [pthread_sigmask] returns. *)
Definition start_signals (h : SignalHandler.t) : SignalHandler.t :=
  (SignalHandler.start
     (match attempt (Start Signals) with Some _ => 1 | None => 0 end) h).2.

(** Calls that do not touch the signal handler and return. *)
Definition is_plain (c : call) : bool :=
  match c with
  | AwaitShutdown | Start Signals | Stop Signals => false
  | _ => true
  end.

Definition stop_returned (h : SignalHandler.t) : bool :=
  match SignalHandler.stopper h with SignalHandler.Idle => true | _ => false end.

(** The moves of the two threads: a call of the main thread, the end of its wait
    once [stopping] is set, a step of its call of [stop], and a step of the
    signal thread. *)
Inductive move : t → t → Prop :=
  | move_call c rest h : is_plain c = true → move (mk (c :: rest) h) (mk rest h)
  | move_start rest h :
      move (mk (Start Signals :: rest) h) (mk rest (start_signals h))
  | move_wait rest h :
      SignalHandler.called h ≠ [] → move (mk (AwaitShutdown :: rest) h) (mk rest h)
  | move_stop rest h h' :
      SignalHandler.stop_step h = Some h' →
      move (mk (Stop Signals :: rest) h)
        (mk (if stop_returned h' then rest else Stop Signals :: rest) h')
  | move_thread cs h h' :
      SignalHandler.thread_main h = Some h' → move (mk cs h) (mk cs h').

(** With the signals that the system delivers to the process. *)
Inductive step : t → t → Prop :=
  | step_move s s' : move s s' → step s s'
  | step_signal signal cs h :
      signal ∈ [SignalHandler.SIGINT; SignalHandler.SIGTERM] →
      step (mk cs h) (mk cs (SignalHandler.deliver signal h)).
End shutdown.
End Shutdown.
Import Shutdown.

(** ** Termination *)

Definition call_weight (c : call) : nat :=
  match c with Start Signals => 6 | Stop Signals => 4 | _ => 1 end.

Definition stopper_weight (h : SignalHandler.t) : nat :=
  match SignalHandler.stopper h with
  | SignalHandler.Idle => 2
  | SignalHandler.Killing => 1
  | SignalHandler.Joining => 0
  end.

Definition thread_weight (h : SignalHandler.t) : nat :=
  match SignalHandler.thread_ h with
  | SignalHandler.NoThread | SignalHandler.Returned => 0
  | SignalHandler.AtLoop => if SignalHandler.running_ h then 5 else 1
  | SignalHandler.InSigwait => if SignalHandler.running_ h then 4 else 3
  | SignalHandler.Woken _ => if SignalHandler.running_ h then 3 else 2
  | SignalHandler.Claiming _ => 2
  | SignalHandler.Calling _ => 1
  end.

Definition moves_left (s : Shutdown.t) : nat :=
  sum_list_with call_weight (todo s) + stopper_weight (signals s) +
  thread_weight (signals s).

Lemma thread_main_weight h h' :
  SignalHandler.thread_main h = Some h' →
  (thread_weight h' < thread_weight h)%nat ∧ stopper_weight h' = stopper_weight h.
Proof.
  destruct h as [run th st pend cal]. unfold SignalHandler.thread_main; simpl.
  destruct th; [done|..|done]; intros Hm.
  all: try (destruct pend; [done|]).
  all: injection Hm as <-; split; [|done].
  all: unfold thread_weight; simpl; destruct run; simpl; lia.
Qed.

Lemma stop_step_weight h h' :
  SignalHandler.stop_step h = Some h' →
  (thread_weight h' ≤ thread_weight h)%nat ∧
  (stopper_weight h' < stopper_weight h + if stop_returned h' then 4 else 0)%nat.
Proof.
  destruct h as [run th st pend cal]. unfold SignalHandler.stop_step; simpl.
  destruct st; intros Hm; [injection Hm as <-..|].
  - unfold thread_weight, stopper_weight, stop_returned; simpl.
    destruct run, th; simpl; lia.
  - unfold thread_weight, stopper_weight, stop_returned; simpl. lia.
  - destruct th; simplify_eq; unfold thread_weight, stopper_weight, stop_returned;
      simpl; lia.
Qed.

Lemma start_weight attempt h :
  (stopper_weight (start_signals attempt h) = stopper_weight h)%nat ∧
  (thread_weight (start_signals attempt h) ≤ thread_weight h + 5)%nat.
Proof.
  destruct h as [run th st pend cal].
  unfold start_signals, SignalHandler.start, SignalHandler.joinable; simpl.
  destruct run, (attempt (Start Signals)), th;
    unfold thread_weight, stopper_weight; simpl; lia.
Qed.

Lemma move_moves_left attempt s s' :
  move attempt s s' → (moves_left s' < moves_left s)%nat.
Proof.
  intros [c rest h Hc|rest h|rest h _|rest h h' Hs|cs h h' Hm];
    unfold moves_left; simpl.
  - destruct c as [|[]| |[]|]; simpl in *; try done; lia.
  - destruct (start_weight attempt h) as [-> ?]. lia.
  - lia.
  - destruct (stop_step_weight h h' Hs) as [? ?].
    destruct (stop_returned h'); simpl; lia.
  - destruct (thread_main_weight h h' Hm) as [? ->]. lia.
Qed.

Lemma moves_end attempt n s s' :
  nsteps (move attempt) n s s' → (n + moves_left s' ≤ moves_left s)%nat.
Proof.
  induction 1 as [s|n s s1 s' Hmove _ IH]; [done|].
  apply move_moves_left in Hmove. lia.
Qed.

(** ** The invariant of the two threads *)

(** What the order of the remaining calls promises. *)
Fixpoint orderly (cs : list call) : bool :=
  match cs with
  | [] => true
  | c :: rest =>
      orderly rest &&
      match c with
      | Start Signals =>
          bool_decide (Stop Signals ∈ rest) && bool_decide (Start Signals ∉ rest)
      | AwaitShutdown =>
          bool_decide (Stop Signals ∈ rest) && bool_decide (Start Signals ∉ rest)
      | Stop Signals =>
          bool_decide (AwaitShutdown ∉ rest) && bool_decide (Start Signals ∉ rest)
      | _ => true
      end
  end.

Section lifecycle.
Variable attempt : call → option exn.

Record lifecycle (s : Shutdown.t) : Prop := mk_lifecycle {
  life_order : orderly (todo s) = true;
  life_handler : invariant (signals s);
  life_before : Start Signals ∈ todo s →
    SignalHandler.thread_ (signals s) = SignalHandler.NoThread ∧
    SignalHandler.stopper (signals s) = SignalHandler.Idle ∧
    SignalHandler.called (signals s) = [];
  life_stopping : SignalHandler.stopper (signals s) ≠ SignalHandler.Idle →
    ∃ rest, todo s = Stop Signals :: rest;
  life_waiting : AwaitShutdown ∈ todo s →
    attempt (Start Signals) = None ∧
    (Start Signals ∉ todo s →
       SignalHandler.thread_ (signals s) ≠ SignalHandler.NoThread ∧
       (SignalHandler.thread_ (signals s) = SignalHandler.Returned →
          SignalHandler.called (signals s) ≠ []));
  life_stopped : Stop Signals ∉ todo s →
    SignalHandler.thread_ (signals s) = SignalHandler.NoThread
}.

Lemma make_invariant : invariant SignalHandler.make.
Proof. split; [vm_compute; lia|apply List.Forall_nil|done|done]. Qed.

Lemma initial_trace :
  orderly (todo (initial attempt)) = true ∧
  (AwaitShutdown ∈ todo (initial attempt) ↔ first_failure attempt = None).
Proof.
  unfold initial, ServiceApplication.run, scope, perform, perform_noexcept,
    first_failure, mbind, prog_bind; simpl.
  destruct (attempt InitLogger), (attempt (Start Signals)),
    (attempt (Start Storage)), (attempt (Start Server)); simpl;
    (split; [reflexivity|]);
    (split; [intros H; try done; exfalso; revert H; apply (bool_decide_unpack _); reflexivity
            |intros H; try done; apply (bool_decide_unpack _); reflexivity]).
Qed.

Lemma first_failure_signals : first_failure attempt = None → attempt (Start Signals) = None.
Proof. unfold first_failure. by repeat case_match. Qed.

Lemma initial_lifecycle : lifecycle (initial attempt).
Proof.
  destruct initial_trace as [Ho Hw].
  split; simpl; [done|apply make_invariant|done|done| |done].
  intros Hin. apply Hw in Hin. split; [by apply first_failure_signals|].
  intros Hno. exfalso. apply Hno. revert Hin.
  unfold ServiceApplication.run, scope, perform, perform_noexcept,
    first_failure, mbind, prog_bind; simpl.
  destruct (attempt InitLogger), (attempt (Start Signals)),
    (attempt (Start Storage)), (attempt (Start Server)); simpl; try done.
  intros _. apply (bool_decide_unpack _). reflexivity.
Qed.
Lemma plain_elem c x rest :
  is_plain c = true → is_plain x = false → (x ∈ c :: rest ↔ x ∈ rest).
Proof.
  intros Hc Hx. rewrite elem_of_cons. split; [|auto]. intros [->|]; congruence.
Qed.

Lemma orderly_tail c rest : orderly (c :: rest) = true → orderly rest = true.
Proof. by intros [? _]%andb_true_iff. Qed.

Lemma orderly_head c rest :
  orderly (c :: rest) = true →
  match c with
  | Start Signals | AwaitShutdown => Stop Signals ∈ rest ∧ (Start Signals ∉ rest)
  | Stop Signals => (AwaitShutdown ∉ rest) ∧ (Start Signals ∉ rest)
  | _ => True
  end.
Proof.
  intros [_ H]%andb_true_iff.
  destruct c as [|[]| |[]|]; try done; apply andb_true_iff in H;
    by rewrite !bool_decide_eq_true in H.
Qed.

Lemma call_lifecycle c rest h :
  is_plain c = true → lifecycle (mk (c :: rest) h) → lifecycle (mk rest h).
Proof.
  intros Hc [Ho Hh Hb Hs Hw He]; cbn [todo signals] in *.
  split; simpl; [by eapply orderly_tail|done|..].
  - intros Hin. by apply Hb, plain_elem.
  - intros Hst. destruct (Hs Hst) as [? [= -> _]]. done.
  - intros Hin. rewrite !plain_elem in Hw by done. auto.
  - intros Hin. apply He. by rewrite plain_elem.
Qed.

Lemma start_signals_started h :
  SignalHandler.thread_ h = SignalHandler.NoThread →
  SignalHandler.running_ h = false →
  start_signals attempt h =
    match attempt (Start Signals) with
    | None => SignalHandler.set_thread SignalHandler.AtLoop
                (SignalHandler.set_running true h)
    | Some _ => SignalHandler.set_running false h
    end.
Proof.
  destruct h; simpl. intros -> ->. unfold start_signals.
  by destruct (attempt (Start Signals)).
Qed.

Lemma start_lifecycle rest h :
  lifecycle (mk (Start Signals :: rest) h) →
  lifecycle (mk rest (start_signals attempt h)).
Proof.
  intros [Ho Hh Hb _ Hw _]; cbn [todo signals] in *.
  destruct (orderly_head _ _ Ho) as [Hstop Hstart].
  destruct Hb as (Hth & Hst & Hcal); [by left|].
  assert (SignalHandler.running_ h = false) as Hrun
    by (pose proof (inv_thread _ Hh) as Hi; rewrite Hth in Hi; exact Hi).
  rewrite (start_signals_started h Hth Hrun).
  apply orderly_tail in Ho.
  destruct h as [run th st pend cal]; simpl in *; subst.
  destruct Hh as [_ Hsig _ _]; simpl in Hsig.
  split; simpl; [done| |done|..].
  - destruct (attempt (Start Signals)); split; try done; vm_compute; lia.
  - by destruct (attempt (Start Signals)).
  - intros Hin. destruct Hw as [-> _]; [by right|]. done.
  - done.
Qed.

Lemma wait_lifecycle rest h :
  lifecycle (mk (AwaitShutdown :: rest) h) → lifecycle (mk rest h).
Proof.
  intros [Ho Hh Hb Hs Hw He]; cbn [todo signals] in *.
  destruct (orderly_head _ _ Ho) as [Hstop Hstart].
  split; simpl; [by eapply orderly_tail|done|done|..].
  - intros Hst. by destruct (Hs Hst).
  - intros Hin. destruct Hw as [? Hw]; [by right|]. split; [done|].
    intros _. apply Hw. rewrite elem_of_cons. naive_solver.
  - done.
Qed.

Lemma stop_lifecycle rest h h' :
  SignalHandler.stop_step h = Some h' → lifecycle (mk (Stop Signals :: rest) h) →
  lifecycle (mk (if stop_returned h' then rest else Stop Signals :: rest) h').
Proof.
  intros Hstop [Ho Hh _ _ _ _]; cbn [todo signals] in *.
  destruct (orderly_head _ _ Ho) as [Hwait Hstart].
  pose proof (stop_invariant _ _ Hh Hstop) as Hh'.
  assert (SignalHandler.stopper h' = SignalHandler.Idle →
    SignalHandler.thread_ h' = SignalHandler.NoThread) as Hidle.
  { revert Hstop. destruct h as [run th st pend cal].
    unfold SignalHandler.stop_step; simpl.
    destruct st; [intros [= <-]; simpl; by case_match|by intros [= <-]|].
    by destruct th; intros ?; simplify_eq. }
  unfold stop_returned.
  destruct (SignalHandler.stopper h') eqn:Hst; split; simpl; rewrite ?Hst;
    try done; try (by eapply orderly_tail); try (by eauto).
  all: try (intros [|]%elem_of_cons; done).
  all: intros Hno; exfalso; apply Hno; by left.
Qed.

Lemma thread_lifecycle cs h h' :
  SignalHandler.thread_main h = Some h' → lifecycle (mk cs h) → lifecycle (mk cs h').
Proof.
  intros Hm [Ho Hh Hb Hs Hw He]; cbn [todo signals] in *.
  pose proof (thread_invariant _ _ Hh Hm) as Hh'.
  assert (SignalHandler.thread_ h ≠ SignalHandler.NoThread) as Hth
    by (intros Hth; unfold SignalHandler.thread_main in Hm; by rewrite Hth in Hm).
  assert (SignalHandler.stopper h' = SignalHandler.stopper h) as Hst.
  { revert Hm. destruct h as [run th st pend cal].
    unfold SignalHandler.thread_main; simpl.
    destruct th, pend; intros ?; by simplify_eq. }
  split; simpl; rewrite ?Hst; [done|done| |done| |].
  - intros Hin. by destruct (Hb Hin).
  - intros Hin. destruct (Hw Hin) as [Ha _]. split; [done|]. intros _.
    assert (SignalHandler.stopper h = SignalHandler.Idle) as Hidle.
    { destruct (SignalHandler.stopper h) eqn:?; [done|..];
        (destruct Hs as [rest ->]; [done|];
         destruct (orderly_head _ _ Ho); by apply elem_of_cons in Hin as [|]). }
    revert Hm. pose proof (inv_thread _ Hh) as Hi. revert Hi Hidle.
    destruct h as [run th st pend cal]. unfold SignalHandler.thread_main; simpl.
    destruct th as [| | |signal|signal|signal|]; intros Hi Hidle Hm.
    + done.
    + injection Hm as <-; simpl. by rewrite Hi.
    + destruct pend; [done|]. by injection Hm as <-.
    + injection Hm as <-; simpl. by rewrite Hi.
    + by injection Hm as <-.
    + by injection Hm as <-.
    + done.
  - intros Hno. by destruct Hth; apply He.
Qed.

Lemma move_lifecycle s s' : move attempt s s' → lifecycle s → lifecycle s'.
Proof.
  destruct 1;
    eauto using call_lifecycle, start_lifecycle, wait_lifecycle, stop_lifecycle,
      thread_lifecycle.
Qed.

Lemma step_lifecycle s s' : step attempt s s' → lifecycle s → lifecycle s'.
Proof.
  destruct 1 as [s s' Hmove|signal cs h Hin]; [by apply move_lifecycle|].
  intros [Ho Hh Hb Hs Hw He]. split; auto. by apply deliver_invariant.
Qed.

Lemma run_lifecycle s s' : rtc (step attempt) s s' → lifecycle s → lifecycle s'.
Proof. induction 1; eauto using step_lifecycle. Qed.
End lifecycle.

(** ** The service until and after a signal *)

Section service.
Variable attempt : call → option exn.

(** No signal has reached the process. *)
Record quiet (s : Shutdown.t) : Prop := mk_quiet {
  quiet_life : lifecycle attempt s;
  quiet_waits : AwaitShutdown ∈ todo s;
  quiet_pending : SignalHandler.pending (signals s) = [];
  quiet_phase : phase_signal (SignalHandler.thread_ (signals s)) = [];
  quiet_called : SignalHandler.called (signals s) = []
}.

Lemma start_signals_quiet h :
  phase_signal (SignalHandler.thread_ h) = [] →
  SignalHandler.pending (start_signals attempt h) = SignalHandler.pending h ∧
  SignalHandler.called (start_signals attempt h) = SignalHandler.called h ∧
  phase_signal (SignalHandler.thread_ (start_signals attempt h)) = [].
Proof.
  destruct h as [run th st pend cal].
  unfold start_signals, SignalHandler.start, SignalHandler.joinable; simpl.
  by destruct run, (attempt (Start Signals)), th.
Qed.

Lemma thread_main_quiet h h' :
  SignalHandler.thread_main h = Some h' →
  SignalHandler.pending h = [] → phase_signal (SignalHandler.thread_ h) = [] →
  SignalHandler.pending h' = [] ∧ phase_signal (SignalHandler.thread_ h') = [] ∧
  SignalHandler.called h' = SignalHandler.called h.
Proof.
  destruct h as [run th st pend cal]. unfold SignalHandler.thread_main; simpl.
  intros Hm -> Hp. destruct th; try done; injection Hm as <-; simpl. by destruct run.
Qed.

Lemma move_quiet s s' : move attempt s s' → quiet s → quiet s'.
Proof.
  intros Hmove Hq. pose proof (move_lifecycle _ _ _ Hmove (quiet_life _ Hq)) as Hlife.
  revert Hq Hlife.
  destruct Hmove as [c rest h Hc|rest h|rest h Hcal|rest h h' Hs|cs h h' Hm];
    intros [Hl Hw Hp Hph Hca] Hlife; cbn [todo signals] in *.
  - split; cbn [todo signals]; try done. by rewrite plain_elem in Hw.
  - destruct (start_signals_quiet h Hph) as (Hp' & Hca' & Hph').
    split; cbn [todo signals]; rewrite ?Hp', ?Hca'; try done.
    by apply elem_of_cons in Hw as [|].
  - done.
  - destruct (orderly_head _ _ (life_order _ _ Hl)) as [Hno _].
    by apply elem_of_cons in Hw as [|].
  - destruct (thread_main_quiet h h' Hm Hp Hph) as (? & ? & Hcal).
    split; cbn [todo signals]; by rewrite ?Hcal.
Qed.

Lemma run_quiet s s' : rtc (move attempt) s s' → quiet s → quiet s'.
Proof. induction 1; eauto using move_quiet. Qed.

(** A signal was delivered and waits, is being handled or was handled. *)
Definition noisy (s : Shutdown.t) : Prop :=
  SignalHandler.pending (signals s) ++
    phase_signal (SignalHandler.thread_ (signals s)) ++
    SignalHandler.called (signals s) ≠ [].

Lemma not_noisy s :
  ¬ noisy s →
  SignalHandler.pending (signals s) = [] ∧ SignalHandler.called (signals s) = [].
Proof.
  unfold noisy. intros Hq.
  destruct (SignalHandler.pending (signals s)); [split; [done|]|by destruct Hq].
  destruct (SignalHandler.called (signals s)); [done|]. destruct Hq. simpl.
  by intros [_ ?]%app_nil.
Qed.

Lemma thread_main_noisy h h' :
  SignalHandler.thread_main h = Some h' →
  (∀ signal, SignalHandler.thread_ h = SignalHandler.Woken signal →
     SignalHandler.running_ h = true) →
  SignalHandler.pending h ++ phase_signal (SignalHandler.thread_ h) ++
    SignalHandler.called h ≠ [] →
  SignalHandler.pending h' ++ phase_signal (SignalHandler.thread_ h') ++
    SignalHandler.called h' ≠ [].
Proof.
  destruct h as [run th st pend cal]. unfold SignalHandler.thread_main; simpl.
  destruct th as [| | |signal|signal|signal|]; intros Hm Hrun Hn; try done.
  - injection Hm as <-; simpl. by destruct run.
  - destruct pend; [done|]. injection Hm as <-; simpl. by destruct pend.
  - rewrite (Hrun signal eq_refl) in Hm. by injection Hm as <-.
  - by injection Hm as <-.
  - injection Hm as <-; simpl. by destruct pend.
Qed.

(** A move that leaves the main thread before the end of its wait loses no
    signal. *)
Lemma move_noisy s s' :
  move attempt s s' → lifecycle attempt s → AwaitShutdown ∈ todo s' →
  AwaitShutdown ∈ todo s ∧ (noisy s → noisy s').
Proof.
  intros Hmove. unfold noisy.
  destruct Hmove as [c rest h Hc|rest h|rest h Hcal|rest h h' Hs|cs h h' Hm];
    intros [Ho Hh Hb Hst Hw He] Hin; cbn [todo signals] in *.
  - split; [by right|done].
  - split; [by right|]. destruct Hb as (Hth & _); [by left|].
    destruct (start_signals_quiet h) as (-> & -> & ->); [by rewrite Hth|].
    by rewrite Hth.
  - split; [by right|done].
  - destruct (orderly_head _ _ Ho) as [Hno _]. exfalso.
    destruct (stop_returned h'); [done|]. by apply elem_of_cons in Hin as [|].
  - split; [done|]. apply thread_main_noisy; [done|]. intros signal Hth.
    pose proof (inv_thread _ Hh) as Hi. rewrite Hth in Hi. apply Hi.
    destruct (SignalHandler.stopper h) eqn:?; [done|..];
      (destruct Hst as [rest ->]; [done|];
       destruct (orderly_head _ _ Ho); by apply elem_of_cons in Hin as [|]).
Qed.

Lemma run_noisy s s' :
  rtc (move attempt) s s' → lifecycle attempt s → AwaitShutdown ∈ todo s' →
  AwaitShutdown ∈ todo s ∧ (noisy s → noisy s').
Proof.
  induction 1 as [s|s s1 s' Hmove _ IH]; [done|]. intros Hl Hin.
  destruct (IH (move_lifecycle _ _ _ Hmove Hl) Hin) as [Hin1 Hn1].
  destruct (move_noisy s s1 Hmove Hl Hin1) as [? ?]. auto.
Qed.

(** The wait does not end before the callback was called. *)
Lemma step_waits s s' :
  step attempt s s' → lifecycle attempt s →
  AwaitShutdown ∈ todo s ∨ SignalHandler.called (signals s) ≠ [] →
  AwaitShutdown ∈ todo s' ∨ SignalHandler.called (signals s') ≠ [].
Proof.
  destruct 1 as [s s' Hmove|signal cs h Hin]; [|done].
  destruct Hmove as [c rest h Hc|rest h|rest h Hcal|rest h h' Hs|cs h h' Hm];
    intros [Ho _ Hb _ _ _]; cbn [todo signals] in *; intros [Hin|Hcal']; auto.
  - left. by rewrite plain_elem in Hin.
  - left. by apply elem_of_cons in Hin as [|].
  - exfalso. apply Hcal'. apply Hb. by left.
  - destruct (orderly_head _ _ Ho) as [Hno _]. by apply elem_of_cons in Hin as [|].
  - right. revert Hs. destruct h as [run th st pend cal].
    unfold SignalHandler.stop_step; simpl.
    destruct st; [intros [= <-]; by destruct run|by intros [= <-]|].
    by destruct th; intros ?; simplify_eq.
  - right. revert Hm. destruct h as [run th st pend cal].
    unfold SignalHandler.thread_main; simpl.
    by destruct th, pend; intros Hm; simplify_eq.
Qed.

Lemma run_waits s s' :
  rtc (step attempt) s s' → lifecycle attempt s →
  AwaitShutdown ∈ todo s ∨ SignalHandler.called (signals s) ≠ [] →
  AwaitShutdown ∈ todo s' ∨ SignalHandler.called (signals s') ≠ [].
Proof. induction 1; eauto using step_waits, step_lifecycle. Qed.

(** No call comes back. *)
Lemma run_todo s s' c : rtc (step attempt) s s' → c ∈ todo s' → c ∈ todo s.
Proof.
  induction 1 as [s|s s1 s' Hstep _ IH]; [done|]. intros Hin. specialize (IH Hin).
  revert IH. destruct Hstep as [s s1 Hmove|]; [|done].
  destruct Hmove as [d rest h _|rest h|rest h _|rest h h' _|cs h h' _]; simpl; [by right..| |done].
  destruct (stop_returned h'); [by right|done].
Qed.

(** Where no move is left. *)
Lemma lifecycle_blocked s :
  lifecycle attempt s → (∀ s', ¬ move attempt s s') →
  (todo s = [] ∧ SignalHandler.thread_ (signals s) = SignalHandler.NoThread) ∨
  ((∃ rest, todo s = AwaitShutdown :: rest) ∧
   SignalHandler.thread_ (signals s) = SignalHandler.InSigwait ∧ ¬ noisy s).
Proof.
  destruct s as [cs h]. intros [Ho Hh _ _ Hw He] Hno; cbn [todo signals] in *.
  assert (SignalHandler.thread_main h = None) as Hm.
  { destruct (SignalHandler.thread_main h) as [h'|] eqn:Hm; [|done].
    exfalso. eapply Hno. by apply move_thread. }
  destruct cs as [|c rest].
  { left. split; [done|]. apply He. by intros ?%elem_of_nil. }
  destruct (is_plain c) eqn:Hc; [exfalso; eapply Hno; by apply move_call|].
  pose proof (orderly_head _ _ Ho) as Hhead.
  destruct c as [|[]| |[]|]; try done.
  - exfalso. eapply Hno. apply move_start.
  - right. split; [by exists rest|].
    destruct (SignalHandler.called h) as [|signal cal] eqn:Hcal.
    2: { exfalso. eapply Hno. apply move_wait. by rewrite Hcal. }
    destruct Hw as [_ Hw]; [by left|].
    destruct Hw as [Hth Hret]; [rewrite elem_of_cons; naive_solver|].
    revert Hm. unfold noisy. destruct h as [run th st pend cal'].
    unfold SignalHandler.thread_main. simpl in *. subst cal'.
    destruct th; try done; [|by destruct Hret].
    destruct pend; [|done]. intros _. split; [done|]. by intros [].
  - exfalso. destruct (SignalHandler.stop_step h) as [h'|] eqn:Hs.
    { eapply Hno. by apply move_stop. }
    pose proof (inv_thread _ Hh) as Hi. revert Hs Hm Hi.
    destruct h as [run th st pend cal].
    unfold SignalHandler.stop_step, SignalHandler.thread_main; simpl.
    destruct st; [done..|]. destruct th; try done; [].
    intros _ Hp [_ Hne]. destruct pend; [by apply Hne|done].
Qed.

(** The service runs until a signal and ends after one.  Whatever calls
    fail, from any state of the main thread and the signal thread: their own
    moves come to an end in whatever order they are scheduled; where they do,
    either [run] has made all its calls, the stops of every component among them,
    and the signal thread is joined; or [run] waits for the shutdown, the signal
    thread waits in [sigwait], and no signal was delivered before.  So a delivered
    signal ends the service, and before one is delivered, a service that started
    stays at its wait. *)
Lemma service_ends_by_signal s :
  rtc (step attempt) (initial attempt) s →
  (∃ bound, ∀ n s', nsteps (move attempt) n s s' → (n ≤ bound)%nat) ∧
  (∀ s', rtc (move attempt) s s' → (∀ s'', ¬ move attempt s' s'') →
     (todo s' = [] ∧ SignalHandler.thread_ (signals s') = SignalHandler.NoThread) ∨
     ((∃ rest, todo s' = AwaitShutdown :: rest) ∧
      SignalHandler.thread_ (signals s') = SignalHandler.InSigwait ∧
      SignalHandler.pending (signals s) = [] ∧
      SignalHandler.called (signals s) = [])) ∧
  (first_failure attempt = None → rtc (move attempt) (initial attempt) s →
     AwaitShutdown ∈ todo s).
Proof.
  intros Hrun.
  assert (lifecycle attempt s) as Hl
    by (eapply run_lifecycle; [exact Hrun|apply initial_lifecycle]).
  split_and!.
  - exists (moves_left s). intros n s' Hn. apply moves_end in Hn. lia.
  - intros s' Hmoves Hno.
    assert (lifecycle attempt s') as Hl'.
    { eapply run_lifecycle; [|exact Hl].
      eapply rtc_subrel; [|exact Hmoves]. intros. by apply step_move. }
    destruct (lifecycle_blocked s' Hl' Hno) as [?|([rest Htodo] & Hth & Hquiet)];
      [by left|right].
    split; [by exists rest|]. split; [done|].
    destruct (run_noisy s s' Hmoves Hl) as [_ Hn]; [rewrite Htodo; by left|].
    apply not_noisy. auto.
  - intros Hfail Hmoves. apply quiet_waits. eapply run_quiet; [exact Hmoves|].
    split; [apply initial_lifecycle|by apply initial_trace|done..].
Qed.
End service.

(** The service waits, and [SIGINT] was delivered. *)
Definition interrupted_service : Shutdown.t :=
  mk [AwaitShutdown; Stop Server; Stop Storage; Stop Signals; ShutdownLogger;
      Stop Server; Stop Storage; Stop Signals]
    (SignalHandler.deliver SignalHandler.SIGINT
       (start_signals (λ _, None) SignalHandler.make)).

Lemma interrupted_service_run :
  rtc (step (λ _, None)) (initial (λ _, None)) interrupted_service.
Proof.
  eapply rtc_l; [by apply step_move, move_call|].
  eapply rtc_l; [apply step_move, move_start|].
  do 2 (eapply rtc_l; [by apply step_move, move_call|]).
  apply rtc_once, step_signal. by left.
Qed.

Example service_ends_by_signal_witness :
  ∃ bound, ∀ n s', nsteps (move (λ _, None)) n interrupted_service s' →
    (n ≤ bound)%nat.
Proof.
  exact (proj1 (service_ends_by_signal (λ _, None) interrupted_service
    interrupted_service_run)).
Defined.
