(* ===== verification/Service.v ===== *)
(** * The whole service

    [ServiceApplication::run] ([server/src/service-application.cpp]) with all of
    its threads: the main thread makes the calls of [Application] on the real
    components, the signal thread of [SignalHandler], the storage thread of
    [StorageWorker], and the network threads of [TcpJsonServer], which run the
    completion handlers of any number of [Session]s and in them the request
    handlers of [ServerSystem]. *)

From stdpp Require Import base tactics strings list gmap relations.
From S2P Require Import Prelude.
From S2P Require Import Types.
From S2P Require Import CppString.
From S2P Require Import Abacus.
From S2P Require Import Postgres.
From S2P Require Import StorageService.
From S2P Require Import RequestHandler.
From S2P Require Import HandlerConcurrent.
From S2P Require Import StorageWorker.
From S2P Require Import ServerSystem.
From S2P Require Import ServerConfig.
From S2P Require Import TcpServer.
From S2P Require Import ServerSessions.
From S2P Require Import SignalHandler.
From S2P Require Import Application.
From S2P Require Import Shutdown.
Import RequestHandler.
Import ServiceApplication.

Module Service.

(** A session with the call of [handle] that one of its completion handlers is
    in: the request, and the bytes that completed its line.  [incoming] and
    [outgoing] are what the client sent and was sent. *)
Record connection : Type := mk_connection {
  session : Session.t;
  calling : option (nat * string);
  incoming : string;
  outgoing : list string
}.

Definition new_connection (s : Session.t) : connection :=
  mk_connection s None EmptyString [].

Definition is_busy (c : connection) : bool :=
  match calling c with Some _ => true | None => false end.

Abbreviation server_t := (TcpJsonServer.t connection ServerSystem.t).

Section service.
Context `{lib : Libpq.Library}.
Context `{protocol : Protocol.Library} `{math : CalculatorMath.Library}.
Variable steady_clock : nat → Z.
Variable config : ServerConfig.t.
(** What [config.database_connection_string()] gives, and the database. *)
Variable connection_string : string.
Variable database : Libpq.world.
(** How [Logger::init] fails, if it does; what [pthread_sigmask] returns; and
    what Asio makes of the acceptor and its address, as in
    [TcpJsonServer.start]. *)
Variable logger_error : option exn.
Variable mask_result : Z.
Variable listen : bool → string → Z → (asio_call * exn) + Z.

(** Which calls of the main thread throw. *)
Definition attempt (c : call) : option exn :=
  match c with
  | InitLogger => logger_error
  | Start Signals =>
      if bool_decide (mask_result = 0) then None
      else Some (StdException "failed to block service signals")
  | Start Storage =>
      match (StorageWorker.open_storage connection_string database).1 with
      | Throw e => Some e
      | _ => None
      end
  | Start Server =>
      match listen false (ServerConfig.host config) (ServerConfig.port config) with
      | inl (_, e) => Some e
      | inr _ => None
      end
  | _ => None
  end.

(** The calls that the main thread still makes, and the components. *)
Record t : Type := mk {
  todo : list call;
  signals : SignalHandler.t;
  server : server_t
}.

Definition initial : t :=
  mk (ServiceApplication.run attempt []).2 SignalHandler.make
    (TcpJsonServer.mk config false false false false false 0 0 ∅
       (ServerSystem.mk ∅ (StorageWorker.make connection_string database))).

Definition storage_of (v : server_t) : StorageWorker.t :=
  ServerSystem.storage_ (TcpJsonServer.handler_state v).

Definition set_storage (w : StorageWorker.t) (v : server_t) : server_t :=
  TcpJsonServer.set_handler_state
    (ServerSystem.mk (ServerSystem.clients (TcpJsonServer.handler_state v)) w) v.

Definition set_connection (id : nat) (c : connection) (v : server_t) : server_t :=
  TcpJsonServer.set_sessions (<[id := c]> (TcpJsonServer.sessions v)) v.

(** The completion handlers that run now. *)
Definition busy_count (v : server_t) : nat :=
  size (filter (λ '(_, c), is_busy c = true) (TcpJsonServer.sessions v)).

(** A thread is free for a completion handler. *)
Definition io_runs (v : server_t) : Prop :=
  (busy_count v < TcpJsonServer.workers_ v)%nat ∧ TcpJsonServer.io_stopped v = false.

(** A session that waits for a line has one, of an accepted size, with the bytes
    [chunk] that arrived: its [on_read] calls [handle]. *)
Inductive begin_line (id : nat) (chunk : string) (v : server_t) : server_t → Prop :=
  | begin_handle c line rest k n :
      io_runs v → TcpJsonServer.sessions v !! id = Some c → calling c = None →
      Session.doing (session c) = Session.Reading →
      find_char line_feed (Session.buffer_ (session c) +:+ chunk) = Some (line, rest) →
      Z.of_nat (String.length line) + 1 ≤ Session.max_message_size_ (session c) →
      ServerSystem.clients (TcpJsonServer.handler_state v) !! k = None →
      begin_line id chunk v
        (set_connection id (mk_connection (session c) (Some (k, chunk))
                              (incoming c) (outgoing c))
           (TcpJsonServer.set_handler_state
              (ServerSystem.mk
                 (<[k := ServerSystem.mk_client
                           (mk_thread (strip_cr line) n []) None]>
                    (ServerSystem.clients (TcpJsonServer.handler_state v)))
                 (storage_of v)) v)).

(** [handle] comes back, and the rest of [on_read] writes the response. *)
Inductive answer_line (id : nat) (v : server_t) : server_t → Prop :=
  | answer_handle c k chunk request line rest s :
      TcpJsonServer.sessions v !! id = Some c → calling c = Some (k, chunk) →
      ServerSystem.clients (TcpJsonServer.handler_state v) !! k = Some request →
      ServerSystem.done_client steady_clock request →
      find_char line_feed (Session.buffer_ (session c) +:+ chunk) = Some (line, rest) →
      Session.on_read (serve_running steady_clock) None
        (Z.of_nat (String.length line) + 1)
        (Session.set_buffer (Session.buffer_ (session c) +:+ chunk) (session c))
        request = (Ret s, request) →
      answer_line id v
        (set_connection id
           (mk_connection s None (incoming c +:+ chunk) (outgoing c)) v).

(** A handler that is not called. *)
Definition no_handler (request_json : string) : prog exn unit string := lift Undef.

(** A completion that does not call [handle]. *)
Inductive session_event (id : nat) (chunk : string) (v : server_t) : server_t → Prop :=
  | session_completes c output s :
      io_runs v → TcpJsonServer.sessions v !! id = Some c → calling c = None →
      Session.step no_handler tt chunk output (session c) s tt →
      session_event id chunk v
        (set_connection id (mk_connection s None (incoming c +:+ chunk)
                              (outgoing c ++ option_list output)) v).

(** A complete line that is too large. *)
Inductive close_line (id : nat) (v : server_t) : server_t → Prop :=
  | close_large c line rest :
      io_runs v → TcpJsonServer.sessions v !! id = Some c → calling c = None →
      Session.doing (session c) = Session.Reading →
      find_char line_feed (Session.buffer_ (session c)) = Some (line, rest) →
      Session.max_message_size_ (session c) < Z.of_nat (String.length line) + 1 →
      close_line id v
        (set_connection id (mk_connection (Session.close (session c)) None
                              (incoming c) (outgoing c)) v).

(** The moves of the service's own threads.  [server.stop()] is called on a server
    whose [start] was called: the first call finds [running_] set, posts the handler
    that closes the acceptor and stops the [io_context_]; a later one finds that
    done. *)
Inductive move : t → t → Prop :=
  | main_logger c rest g v :
      c = InitLogger ∨ c = ShutdownLogger → move (mk (c :: rest) g v) (mk rest g v)
  | main_start_signals rest g v :
      move (mk (Start Signals :: rest) g v)
        (mk rest (Shutdown.start_signals attempt g) v)
  | main_start_storage rest g v w :
      StorageWorker.start (storage_of v) = (Ret (), w) →
      move (mk (Start Storage :: rest) g v)
        (mk (Start Storage :: rest) g (set_storage w v))
  | main_storage_started rest g v o :
      StorageWorker.init_promise (storage_of v) = Some o →
      move (mk (Start Storage :: rest) g v) (mk rest g v)
  | main_start_server rest g v :
      move (mk (Start Server :: rest) g v)
        (mk rest g (TcpJsonServer.start listen v).2)
  | main_wait rest g v :
      SignalHandler.called g ≠ [] → move (mk (AwaitShutdown :: rest) g v) (mk rest g v)
  | main_stop_server rest g v :
      TcpJsonServer.running_ v = true →
      move (mk (Stop Server :: rest) g v)
        (mk (Stop Server :: rest) g
           (TcpJsonServer.post_close (TcpJsonServer.exchange_running v)))
  | main_stop_io rest g v :
      TcpJsonServer.running_ v = false → TcpJsonServer.io_stopped v = false →
      move (mk (Stop Server :: rest) g v)
        (mk (Stop Server :: rest) g (TcpJsonServer.io_stop v))
  | main_join_server rest g v :
      TcpJsonServer.running_ v = false → TcpJsonServer.io_stopped v = true →
      busy_count v = 0%nat →
      move (mk (Stop Server :: rest) g v) (mk rest g (TcpJsonServer.join_workers v))
  | main_stop_storage rest g v :
      StorageWorker.stopping (storage_of v) = false →
      move (mk (Stop Storage :: rest) g v)
        (mk (Stop Storage :: rest) g
           (set_storage (StorageWorker.request_stop (storage_of v)) v))
  | main_join_storage rest g v w :
      StorageWorker.stopping (storage_of v) = true →
      StorageWorker.join (storage_of v) = Some w →
      move (mk (Stop Storage :: rest) g v) (mk rest g (set_storage w v))
  | main_stop_signals rest g g' v :
      SignalHandler.stop_step g = Some g' →
      move (mk (Stop Signals :: rest) g v)
        (mk (if Shutdown.stop_returned g' then rest else Stop Signals :: rest) g' v)
  | signal_thread cs g g' v :
      SignalHandler.thread_main g = Some g' → move (mk cs g v) (mk cs g' v)
  | handler_move cs g v h :
      ServerSystem.move steady_clock (TcpJsonServer.handler_state v) h →
      move (mk cs g v) (mk cs g (TcpJsonServer.set_handler_state h v))
  | network_begin id cs g v v' :
      begin_line id EmptyString v v' → move (mk cs g v) (mk cs g v')
  | network_answer id cs g v v' :
      answer_line id v v' → move (mk cs g v) (mk cs g v')
  | network_close id cs g v v' :
      close_line id v v' → move (mk cs g v) (mk cs g v')
  | network_posted cs g v :
      io_runs v → TcpJsonServer.close_posted v = true →
      move (mk cs g v) (mk cs g (TcpJsonServer.close_acceptor v)).

(** With what comes from outside: signals, connections, bytes, and the ends of
    reads and writes. *)
Inductive step : t → t → Prop :=
  | step_move s s' : move s s' → step s s'
  | step_signal signal cs g v :
      signal ∈ [SignalHandler.SIGINT; SignalHandler.SIGTERM] →
      step (mk cs g v) (mk cs (SignalHandler.deliver signal g) v)
  | step_accept id error cs g v :
      io_runs v → TcpJsonServer.accepting v = true →
      TcpJsonServer.sessions v !! id = None →
      step (mk cs g v) (mk cs g (TcpJsonServer.on_accept new_connection id error v))
  | step_line id chunk cs g v v' :
      begin_line id chunk v v' → step (mk cs g v) (mk cs g v')
  | step_session id chunk cs g v v' :
      session_event id chunk v v' → step (mk cs g v) (mk cs g v').
End service.
End Service.
