(* ===== verification/ServiceCorrect.v ===== *)
(** * The invariant of the whole service

    The main thread's remaining calls, the phase of the storage thread, the
    handlers in progress and the history of each session, along every run. *)

From stdpp Require Import base tactics strings list gmap relations.
From S2P Require Import Prelude.
From S2P Require Import Types.
From S2P Require Import CppString.
From S2P Require Import Abacus.
From S2P Require Import Postgres.
From S2P Require Import StorageService.
From S2P Require Import RequestHandler.
From S2P Require Import HandlerConcurrent.
From S2P Require Import StorageWorker.
From S2P Require Import WorkerCorrect.
From S2P Require Import WorkerStorage.
From S2P Require Import ServerSystem.
From S2P Require Import SystemCorrect.
From S2P Require Import SystemLive.
From S2P Require Import ServerConfig.
From S2P Require Import TcpServer.
From S2P Require Import TcpCorrect.
From S2P Require Import ServerSessions.
From S2P Require Import SignalHandler.
From S2P Require Import Application.
From S2P Require Import Shutdown.
From S2P Require Import Service.
Import RequestHandler.
Import ServiceApplication.
Import Service.

(** ** The order of the main thread's calls *)

(** The next stop of the network or of the storage is that of the network. *)
Fixpoint server_first (cs : list call) : bool :=
  match cs with
  | [] => false
  | Stop Server :: _ => true
  | Stop Storage :: _ | Start _ :: _ => false
  | _ :: rest => server_first rest
  end.

Fixpoint ordered (cs : list call) : bool :=
  match cs with
  | [] => true
  | c :: rest =>
      ordered rest &&
      match c with
      | Start Storage => bool_decide (Start Storage ∉ rest)
                         && bool_decide (Stop Storage ∈ rest)
      | Start Server => server_first rest && bool_decide (Start Storage ∉ rest)
                        && bool_decide (Start Server ∉ rest)
      | AwaitShutdown => bool_decide (Start Server ∉ rest)
      | Stop Server => bool_decide (AwaitShutdown ∉ rest)
                       && bool_decide (Start Server ∉ rest)
      | Stop Storage => bool_decide (Start Storage ∉ rest)
                        && bool_decide (Start Server ∉ rest)
      | _ => true
      end
  end.

Lemma ordered_tail c rest : ordered (c :: rest) = true → ordered rest = true.
Proof. by intros [? _]%andb_true_iff. Qed.

Lemma ordered_head c rest :
  ordered (c :: rest) = true →
  match c with
  | Start Storage => (Start Storage ∉ rest) ∧ Stop Storage ∈ rest
  | Start Server =>
      server_first rest = true ∧ (Start Storage ∉ rest) ∧ (Start Server ∉ rest)
  | AwaitShutdown => Start Server ∉ rest
  | Stop Server => (AwaitShutdown ∉ rest) ∧ (Start Server ∉ rest)
  | Stop Storage => (Start Storage ∉ rest) ∧ (Start Server ∉ rest)
  | _ => True
  end.
Proof.
  intros [_ H]%andb_true_iff.
  destruct c as [|[]| |[]|]; try done; rewrite ?andb_true_iff, !bool_decide_eq_true in H;
    naive_solver.
Qed.

Section initial.
Variable attempt : call → option exn.

Lemma initial_calls :
  let cs := (ServiceApplication.run attempt []).2 in
  ordered cs = true ∧ (Start Storage ∈ cs ∨ (Start Server ∉ cs)) ∧
  (Start Server ∈ cs → attempt (Start Storage) = None) ∧
  (AwaitShutdown ∈ cs → attempt (Start Server) = None ∧ Start Server ∈ cs).
Proof.
  unfold ServiceApplication.run, scope, perform, perform_noexcept, mbind, prog_bind; simpl.
  destruct (attempt InitLogger), (attempt (Start Signals)),
    (attempt (Start Storage)) eqn:?, (attempt (Start Server)); simpl;
    (split_and!; [reflexivity|..]); try done;
    first [ left; apply (bool_decide_unpack _); reflexivity
          | right; apply (bool_decide_unpack _); reflexivity
          | intros H; exfalso; revert H; apply (bool_decide_unpack _); reflexivity
          | split; [done|]; apply (bool_decide_unpack _); reflexivity ].
Qed.
End initial.

(** ** Opening the storage *)

Section opening.
Context `{lib : Libpq.Library}.

Lemma open_storage_defined cs w :
  fails_with history_failure (StorageWorker.open_storage cs w).1.
Proof.
  unfold StorageWorker.open_storage.
  assert (fails_with history_failure (PostgresConnection.connect cs w).1) as Hc.
  { unfold PostgresConnection.connect. apply fails_prog_bind.
    - by destruct (Libpq.PQconnectdb _ _).
    - intros c w'. apply fails_prog_bind; [|done]. rewrite unwinding_outcome.
      apply conversion_history, storage_converts, fails_ensure_connected. }
  destruct (PostgresConnection.connect cs w) as [[c|e|] w1]; simpl in *; [|done..].
  pose proof (fails_initialize (StorageService.mk ∅ c w1)) as Hi.
  by destruct (StorageService.initialize _) as [[[]|e|] s].
Qed.
End opening.

(** ** The invariant *)

Section correct.
Context `{lib : Libpq.Library}.
Context `{protocol : Protocol.Library} `{math : CalculatorMath.Library}.
Variable steady_clock : nat → Z.
Variable config : ServerConfig.t.
Variable connection_string : string.
Variable database : Libpq.world.
Variable logger_error : option exn.
Variable mask_result : Z.
Variable listen : bool → string → Z → (asio_call * exn) + Z.

Abbreviation attempt :=
  (attempt config connection_string database logger_error mask_result listen).
Abbreviation move := (Service.move steady_clock config connection_string database
  logger_error mask_result listen).
Abbreviation step := (Service.step steady_clock config connection_string database
  logger_error mask_result listen).
Abbreviation clients_of v := (ServerSystem.clients (TcpJsonServer.handler_state v)).

(** The storage service that the storage thread opens, if it does. *)
Definition opened : option StorageService.t :=
  match (StorageWorker.open_storage connection_string database).1 with
  | Ret s0 => Some s0
  | _ => None
  end.

Lemma attempt_opened : attempt (Start Storage) = None → is_Some opened.
Proof.
  unfold opened; simpl.
  pose proof (open_storage_defined connection_string database) as Hd.
  by destruct (StorageWorker.open_storage _ _).1.
Qed.

(** A state of the server's threads behind [s0]. *)
Definition ran (s0 : StorageService.t) (h : ServerSystem.t) : Prop :=
  rtc (ServerSystem.step steady_clock) (SystemCorrect.started s0 connection_string) h.

(** The storage thread before its initialisation. *)
Definition opening : StorageWorker.t :=
  StorageWorker.mk connection_string [] false (StorageWorker.Initializing database)
    None ∅ 0.

Definition all_done (h : ServerSystem.t) : Prop :=
  ∀ k c, ServerSystem.clients h !! k = Some c → ServerSystem.done_client steady_clock c.

(** The database that the storage thread leaves: it was not started, could not open
    the storage, or returned from its jobs. *)
Inductive left_by (w : Libpq.world) : Prop :=
  | left_unopened : w = database → left_by w
  | left_failed e :
      StorageWorker.open_storage connection_string database = (Throw e, w) → left_by w
  | left_served s0 h :
      opened = Some s0 → ran s0 h →
      StorageWorker.worker (ServerSystem.storage_ h) = StorageWorker.Returned w →
      left_by w.

(** The life of the storage thread, against the calls still to be made: not
    started, opening the storage, failed, serving, joined. *)
Inductive storage_phase (cs : list call) (h : ServerSystem.t) : Prop :=
  | phase_new b :
      h = ServerSystem.mk ∅ (StorageWorker.set_stopping b
            (StorageWorker.make connection_string database)) →
      (Start Storage ∈ cs ∨ (Start Server ∉ cs)) → storage_phase cs h
  | phase_opening rest :
      cs = Start Storage :: rest → Stop Storage ∈ rest →
      h = ServerSystem.mk ∅ opening → storage_phase cs h
  | phase_failed e w :
      StorageWorker.open_storage connection_string database = (Throw e, w) →
      Stop Storage ∈ cs → ServerSystem.clients h = ∅ →
      StorageWorker.worker (ServerSystem.storage_ h) = StorageWorker.Returned w →
      StorageWorker.init_promise (ServerSystem.storage_ h) = Some (Throw e) →
      storage_phase cs h
  | phase_serving s0 :
      opened = Some s0 → ran s0 h → Stop Storage ∈ cs →
      StorageWorker.init_promise (ServerSystem.storage_ h) ≠ None →
      (StorageWorker.stopping (ServerSystem.storage_ h) = true →
         (Start Storage ∉ cs) ∧ (Start Server ∉ cs)) →
      storage_phase cs h
  | phase_joined w :
      left_by w → Start Storage ∉ cs → Start Server ∉ cs →
      StorageWorker.stopping (ServerSystem.storage_ h) = true →
      StorageWorker.worker (ServerSystem.storage_ h) = StorageWorker.NoThread w →
      all_done h → storage_phase cs h.

(** A session: its history is that of a session on the running server, and the
    handler it is in has the request of its line. *)
Record connection_ok (v : server_t) (c : connection) : Prop := mk_connection_ok {
  conn_run : ∃ s0, opened = Some s0 ∧
    session_run (serve_running steady_clock)
      (handled_request steady_clock connection_string s0 false)
      (ServerConfig.max_message_size config) (incoming c) (outgoing c) (session c);
  conn_call k chunk : calling c = Some (k, chunk) →
    TcpJsonServer.workers_ v ≠ 0%nat ∧ Session.doing (session c) = Session.Reading ∧
    ∃ line rest request,
      find_char line_feed (Session.buffer_ (session c) +:+ chunk) = Some (line, rest) ∧
      Z.of_nat (String.length line) + 1 ≤ Session.max_message_size_ (session c) ∧
      clients_of v !! k = Some request ∧
      request_json (ServerSystem.request request) = strip_cr line
}.

Definition is_serving (h : ServerSystem.t) : Prop :=
  StorageWorker.stopping (ServerSystem.storage_ h) = false ∧
  ∃ s0, opened = Some s0 ∧ ran s0 h.

(** The network before and after its start, until the wait is over. *)
Record network_ok (cs : list call) (v : server_t) : Prop := mk_network_ok {
  net_before : Start Server ∈ cs →
    TcpJsonServer.running_ v = false ∧ TcpJsonServer.io_stopped v = false ∧
    TcpJsonServer.acceptor_open v = false ∧ TcpJsonServer.close_posted v = false;
  net_waiting : AwaitShutdown ∈ cs → attempt (Start Server) = None ∧
    (Start Server ∉ cs →
       TcpJsonServer.running_ v = true ∧ TcpJsonServer.accepting v = true ∧
       TcpJsonServer.workers_ v ≠ 0%nat ∧ TcpJsonServer.io_stopped v = false ∧
       TcpJsonServer.close_posted v = false)
}.

Record service_ok (s : Service.t) : Prop := mk_service_ok {
  ok_life : lifecycle attempt (Shutdown.mk (todo s) (signals s));
  ok_ordered : ordered (todo s) = true;
  ok_starts : Start Server ∈ todo s → attempt (Start Storage) = None;
  ok_config : TcpJsonServer.config_ (server s) = config;
  ok_network : network_ok (todo s) (server s);
  ok_storage : storage_phase (todo s) (TcpJsonServer.handler_state (server s));
  ok_workers : TcpJsonServer.workers_ (server s) ≠ 0%nat →
    server_first (todo s) = true ∧ is_serving (TcpJsonServer.handler_state (server s));
  ok_sessions : map_Forall (λ _, connection_ok (server s))
    (TcpJsonServer.sessions (server s));
  ok_clients k request : clients_of (server s) !! k = Some request →
    ServerSystem.done_client steady_clock request ∨
    ∃ id c chunk, TcpJsonServer.sessions (server s) !! id = Some c ∧
                  calling c = Some (k, chunk)
}.

Lemma initial_service_ok :
  service_ok (initial config connection_string database logger_error mask_result listen).
Proof.
  destruct (initial_calls attempt) as (Ho & Hin & Hs & Hw).
  split; simpl;
    [apply initial_lifecycle|done|done|done| |by apply (phase_new _ _ false)|done| |done].
  - split; simpl; [done|]. intros Hin'. by destruct (Hw Hin').
  - apply map_Forall_empty.
Qed.

(** ** The main thread's calls *)

Lemma storage_tail c rest h :
  ordered (c :: rest) = true → c ≠ Start Storage →
  (c = Start Server → attempt (Start Storage) = None) →
  c ≠ Stop Storage → storage_phase (c :: rest) h → storage_phase rest h.
Proof.
  intros Ho Hc Hserver Hc' Hph.
  assert (∀ x, x ∉ c :: rest → x ∉ rest) as Hsub by (intros x; rewrite not_elem_of_cons; naive_solver).
  destruct Hph as [b Hh Hin|rest' Hcs Hin Hh|e w Ha Hin Hcl Hw Hp|s0 Hs0 Hran Hin Hp Hst|w Hl Hs1 Hs2 Hst Hw Hd].
  - apply (phase_new _ _ b); [done|]. destruct Hin as [Hin|Hin]; [left|right; auto].
    by apply elem_of_cons in Hin as [<-|].
  - congruence.
  - eapply phase_failed; [done| |done..]. by apply elem_of_cons in Hin as [<-|].
  - eapply phase_serving; [done..| |done|].
    + by apply elem_of_cons in Hin as [<-|].
    + intros Hstop. destruct (Hst Hstop); auto.
  - eapply phase_joined; eauto.
Qed.

Lemma server_first_tail c rest :
  server_first (c :: rest) = true → c ≠ Stop Server → server_first rest = true.
Proof. by destruct c as [|[]| |[]|]. Qed.

Lemma network_tail c rest v :
  c ≠ Start Server → network_ok (c :: rest) v → network_ok rest v.
Proof.
  intros Hc [Hb Hw]. split; intros Hin.
  - apply Hb. by right.
  - destruct Hw as [Ha Hw]; [by right|]. split; [done|]. intros Hno. apply Hw.
    rewrite not_elem_of_cons. naive_solver.
Qed.

Lemma network_stopping cs v :
  (AwaitShutdown ∉ cs) ∧ (Start Server ∉ cs) → network_ok cs v.
Proof. intros [? ?]. by split. Qed.

(** The acceptor is only closed behind the wait. *)
Lemma posted_network cs v v' :
  network_ok cs v → TcpJsonServer.close_posted v = true → network_ok cs v'.
Proof.
  intros [Hb Hw] Hp.
  assert (Start Server ∉ cs) as Hno by (intros Hin; destruct (Hb Hin) as (_ & _ & _ & ?); congruence).
  apply network_stopping. split; [|done]. intros Hin.
  destruct (Hw Hin) as [_ Hup]. destruct (Hup Hno) as (_ & _ & _ & _ & ?). congruence.
Qed.

(** The main thread goes on to its next call. *)
Lemma pop_ok c rest g g' v :
  service_ok (mk (c :: rest) g v) → c ≠ Start Server → c ≠ Stop Server →
  lifecycle attempt (Shutdown.mk rest g') →
  storage_phase rest (TcpJsonServer.handler_state v) →
  service_ok (mk rest g' v).
Proof.
  intros [Hl Ho Hs Hcf Hnet Hph Hw Hses Hcl] Hc1 Hc2 Hl' Hph'; simpl in *.
  split; simpl; [done|by eapply ordered_tail| |done|by eapply network_tail|done| |done|done].
  - intros Hin. apply Hs. by right.
  - intros Hw'. destruct (Hw Hw') as [Hf ?]. split; [|done].
    by apply (server_first_tail c).
Qed.

(** A call on neither the storage nor the network. *)
Lemma pass_ok c rest g g' v :
  service_ok (mk (c :: rest) g v) →
  match c with
  | Start Storage | Start Server | Stop Storage | Stop Server => False
  | _ => True
  end →
  lifecycle attempt (Shutdown.mk rest g') → service_ok (mk rest g' v).
Proof.
  intros Hok Hc Hl. apply (pop_ok c rest g); [done|by intros ->..|done|].
  eapply storage_tail; [apply (ok_ordered _ Hok)|by intros ->..|].
  apply (ok_storage _ Hok).
Qed.

(** The signal handler changes under the same call. *)
Lemma signals_ok cs g g' v :
  service_ok (mk cs g v) → lifecycle attempt (Shutdown.mk cs g') →
  service_ok (mk cs g' v).
Proof. intros [? ? ? ? ? ? ? ? ?] ?. by split. Qed.

(** ** The storage thread behind a running server *)

Lemma ran_worker s0 h :
  ran s0 h →
  match StorageWorker.worker (ServerSystem.storage_ h) with
  | StorageWorker.NoThread _ | StorageWorker.Initializing _ => False
  | _ => True
  end.
Proof.
  intros Hrun.
  destruct (run_refines steady_clock s0 [] _ _ (started_linked s0 _) Hrun)
    as (js & [[completed _ _ Hp] _] & _).
  by destruct (StorageWorker.worker _).
Qed.

Lemma ran_step s0 h h' :
  ran s0 h → ServerSystem.step steady_clock h h' → ran s0 h'.
Proof. apply rtc_r. Qed.

(** The state of the server's threads changes while the storage serves. *)
Lemma phase_step cs h h' :
  storage_phase cs h → is_serving h → ServerSystem.step steady_clock h h' →
  StorageWorker.init_promise (ServerSystem.storage_ h') =
    StorageWorker.init_promise (ServerSystem.storage_ h) →
  StorageWorker.stopping (ServerSystem.storage_ h') = false →
  storage_phase cs h' ∧ is_serving h'.
Proof.
  intros Hph (Hst & s1 & Hs1 & Hran) Hstep Hp Hst'. split.
  2: { split; [done|]. exists s1. split; [done|]. by eapply ran_step. }
  pose proof (ran_worker _ _ Hran) as Hw.
  destruct Hph as [b -> _|rest _ _ ->|e w Ha _ _ _ _|s0 Hs0 Hran0 Hin Hprom _|w _ _ _ Hst1 _ _];
    [done|done| | |congruence].
  - exfalso. revert Hs1. unfold opened. by rewrite Ha.
  - eapply phase_serving; [exact Hs0|by eapply ran_step|done|congruence|congruence].
Qed.

Lemma move_promise h h' :
  ServerSystem.move steady_clock h h' →
  (match StorageWorker.worker (ServerSystem.storage_ h) with
   | StorageWorker.Initializing _ => False | _ => True end) →
  StorageWorker.init_promise (ServerSystem.storage_ h') =
    StorageWorker.init_promise (ServerSystem.storage_ h).
Proof.
  assert (∀ j o w w', StorageWorker.enqueue j w = (o, w') →
    StorageWorker.init_promise w' = StorageWorker.init_promise w) as Henq.
  { intros j o w w'. unfold StorageWorker.enqueue.
    by destruct (StorageWorker.stopping w); intros [= <- <-]. }
  destruct 1 as [i r c ticket cs w w' _ _ Hp|i r c e cs w w' _ _ Hp
    |i r ticket reply cs w _ _|cs w w' Hw]; cbn [ServerSystem.storage_];
    intros Hph.
  - rewrite post_enqueue in Hp. by eapply Henq.
  - rewrite post_enqueue in Hp. by eapply Henq.
  - done.
  - revert Hw. unfold StorageWorker.thread_main.
    destruct (StorageWorker.worker w) as [|?|s|n j s|]; [done|done| | |done].
    + destruct (StorageWorker.jobs w) as [|[]]; [|by intros [= <-]].
      destruct (StorageWorker.stopping w); [by intros [= <-]|done].
    + destruct (StorageWorker.execute j s). by intros [= <-].
Qed.

(** A client that changes was not done. *)
Lemma move_client h h' k c :
  ServerSystem.move steady_clock h h' →
  ServerSystem.clients h' !! k = Some c →
  ServerSystem.clients h !! k = Some c ∨
  ∃ c0, ServerSystem.clients h !! k = Some c0 ∧
        ¬ ServerSystem.done_client steady_clock c0.
Proof.
  destruct 1 as [i r d ticket cs w w' Hi Hc _|i r d e cs w w' Hi Hc _
    |i r ticket reply cs w Hi _|cs w w' _]; cbn [ServerSystem.clients]; [..|by left].
  all: intros [[<- <-]|[_ ?]]%lookup_insert_Some; [right|by left].
  all: eexists; split; [exact Hi|]; intros [? ?]; simpl in *; congruence.
Qed.

(** Where every client is done and the storage thread cannot go on, nothing
    moves. *)
Lemma all_done_blocked h h' :
  all_done h → StorageWorker.thread_main (ServerSystem.storage_ h) = None →
  ¬ ServerSystem.move steady_clock h h'.
Proof.
  intros Hd Hw Hmove. revert Hd Hw.
  destruct Hmove as [i r d ticket cs w w' Hi Hc _|i r d e cs w w' Hi Hc _
    |i r ticket reply cs w Hi _|cs w w' Hw']; cbn [ServerSystem.storage_];
    intros Hd Hw; [..|congruence].
  all: destruct (Hd i _ Hi) as [? ?]; simpl in *; congruence.
Qed.

(** The storage thread and the handlers move. *)
Lemma phase_move cs h h' :
  ServerSystem.move steady_clock h h' → storage_phase cs h → storage_phase cs h'.
Proof.
  intros Hmove Hph.
  destruct Hph as [b -> _|rest -> Hin ->|e w Ha Hin Hcl Hw Hp|s0 Hs0 Hran Hin Hp Hst|w Hl Hs1 Hs2 Hst Hw Hd].
  - by apply all_done_blocked in Hmove.
  - inversion Hmove as [i r d ticket cs' w w' Hi|i r d e cs' w w' Hi
      |i r ticket reply cs' w Hi|cs' w w' Hw]; subst; try by rewrite lookup_empty in Hi.
    revert Hw. unfold StorageWorker.thread_main; simpl.
    destruct (StorageWorker.open_storage connection_string database) as [o w1] eqn:Ho.
    pose proof (open_storage_defined connection_string database) as Hdef.
    rewrite Ho in Hdef. destruct o as [s0|e|]; [| |done]; intros [= <-].
    + eapply (phase_serving _ _ s0); [|apply rtc_refl|by right|done|done].
      unfold opened. by rewrite Ho.
    + eapply (phase_failed _ _ e w1); simpl; [by rewrite Ho|by right|done..].
  - exfalso. revert Hmove. apply all_done_blocked.
    + intros k c. by rewrite Hcl, lookup_empty.
    + unfold StorageWorker.thread_main. by rewrite Hw.
  - pose proof (ran_worker _ _ Hran) as Hw.
    assert (match StorageWorker.worker (ServerSystem.storage_ h) with
      | StorageWorker.Initializing _ => False | _ => True end) as Hi
      by by destruct (StorageWorker.worker _).
    destruct (move_keeps steady_clock h h' Hmove) as [Hst' _].
    eapply phase_serving; [exact Hs0| |exact Hin| |by rewrite Hst'].
    + eapply ran_step; [exact Hran|by apply ServerSystem.step_move].
    + by rewrite (move_promise _ _ Hmove Hi).
  - exfalso. revert Hmove. apply all_done_blocked; [done|].
    unfold StorageWorker.thread_main. by rewrite Hw.
Qed.

(** ** The connections *)

(** The clients of [v] go on in [v'] with the same requests. *)
Definition keeps_requests (v v' : server_t) : Prop :=
  ∀ k request, clients_of v !! k = Some request →
    ∃ request', clients_of v' !! k = Some request' ∧
      request_json (ServerSystem.request request') =
      request_json (ServerSystem.request request).

Lemma keeps_same v v' :
  TcpJsonServer.handler_state v' = TcpJsonServer.handler_state v → keeps_requests v v'.
Proof. intros Hh k request Hk. exists request. by rewrite Hh. Qed.

Lemma connection_keeps v v' c :
  connection_ok v c →
  (TcpJsonServer.workers_ v ≠ 0%nat → TcpJsonServer.workers_ v' ≠ 0%nat) →
  keeps_requests v v' → connection_ok v' c.
Proof.
  intros [Hrun Hcall] Hw Hk. split; [done|]. intros k chunk Hc.
  destruct (Hcall k chunk Hc) as (Hw0 & Hd & line & rest & request & Hf & Hmax & Hr & Ht).
  destruct (Hk k request Hr) as (request' & Hr' & Ht').
  split_and!; [auto|done|]. exists line, rest, request'. split_and!; [done..|congruence].
Qed.

Lemma connection_idle v v' c :
  connection_ok v c → calling c = None → connection_ok v' c.
Proof. intros [Hrun _] Hc. split; [done|congruence]. Qed.

Lemma no_workers_idle v id c :
  map_Forall (λ _, connection_ok v) (TcpJsonServer.sessions v) →
  TcpJsonServer.workers_ v = 0%nat →
  TcpJsonServer.sessions v !! id = Some c → calling c = None.
Proof.
  intros Hses Hw Hid. destruct (calling c) as [[k chunk]|] eqn:Hc; [|done].
  by destruct (conn_call _ _ (Hses id c Hid) k chunk Hc).
Qed.

Lemma no_busy_idle v id c :
  busy_count v = 0%nat → TcpJsonServer.sessions v !! id = Some c → calling c = None.
Proof.
  unfold busy_count. intros Hb%map_size_empty_inv Hid.
  destruct (calling c) as [p|] eqn:Hc; [|done].
  assert (is_busy c = true) as Hbusy by (unfold is_busy; by rewrite Hc).
  eapply map_filter_empty_not_lookup in Hb; [|exact Hbusy]. done.
Qed.

(** No handler is in progress. *)
Definition idle_server (v : server_t) : Prop :=
  ∀ id c, TcpJsonServer.sessions v !! id = Some c → calling c = None.

Lemma idle_all_done s :
  service_ok s → idle_server (server s) →
  all_done (TcpJsonServer.handler_state (server s)).
Proof.
  intros Hok Hidle k c Hk.
  destruct (ok_clients _ Hok k c Hk) as [?|(id & d & chunk & Hid & Hd)]; [done|].
  by rewrite (Hidle id d Hid) in Hd.
Qed.

Lemma stopped_idle s rest :
  service_ok s → todo s = Stop Storage :: rest →
  TcpJsonServer.workers_ (server s) = 0%nat ∧ idle_server (server s).
Proof.
  intros Hok Hcs.
  assert (TcpJsonServer.workers_ (server s) = 0%nat) as Hw.
  { destruct (decide (TcpJsonServer.workers_ (server s) = 0%nat)) as [|Hw]; [done|].
    destruct (ok_workers _ Hok Hw) as [Hf _]. by rewrite Hcs in Hf. }
  split; [done|]. intros id c. apply no_workers_idle; [apply Hok|done].
Qed.

(** ** The main thread on the network *)

(** Its calls change nothing of the sessions and the handlers. *)
Lemma server_flags_ok cs g v v' :
  service_ok (mk cs g v) →
  TcpJsonServer.config_ v' = TcpJsonServer.config_ v →
  TcpJsonServer.workers_ v' = TcpJsonServer.workers_ v →
  TcpJsonServer.sessions v' = TcpJsonServer.sessions v →
  TcpJsonServer.handler_state v' = TcpJsonServer.handler_state v →
  network_ok cs v' → service_ok (mk cs g v').
Proof.
  intros [Hl Ho Hs Hcf Hnet Hph Hw Hses Hcl] Hcf' Hw' Hses' Hh' Hnet';
    cbn [todo signals server] in *.
  split; simpl; rewrite ?Hcf', ?Hw', ?Hses', ?Hh'; try done.
  intros id c Hid. eapply connection_keeps; [by eapply Hses|congruence|by apply keeps_same].
Qed.

Lemma start_server_ok rest g v :
  service_ok (mk (Start Server :: rest) g v) →
  service_ok (mk rest g (TcpJsonServer.start listen v).2).
Proof.
  intros [Hl Ho Hs Hcf Hnet Hph Hw Hses Hcl]; cbn [todo signals server] in *.
  assert (attempt (Start Storage) = None) as Ha by (apply Hs; by left).
  destruct (ordered_head _ _ Ho) as (Hf & Hno & Hno').
  assert (is_serving (TcpJsonServer.handler_state v)) as Hserv.
  { destruct Hph as [b _ Hin|rest' Hcs _ _|e w He _ _ _ _|s0 Hs0 Hran _ Hp Hst|w _ _ Hs2 _ _ _].
    - exfalso. destruct Hin as [[?|]%elem_of_cons|Hin]; [done..|]. apply Hin. by left.
    - done.
    - simpl in Ha. by rewrite He in Ha.
    - split; [|by exists s0].
      destruct (StorageWorker.stopping _); [|done]. destruct (Hst eq_refl) as [_ Hin].
      exfalso. apply Hin. by left.
    - exfalso. apply Hs2. by left. }
  set (v' := (TcpJsonServer.start listen v).2).
  assert (TcpJsonServer.config_ v' = config ∧
    TcpJsonServer.sessions v' = TcpJsonServer.sessions v ∧
    TcpJsonServer.handler_state v' = TcpJsonServer.handler_state v ∧
    (TcpJsonServer.workers_ v ≠ 0%nat → TcpJsonServer.workers_ v' ≠ 0%nat) ∧
    network_ok rest v') as (Hcf' & Hses' & Hh' & Hw' & Hnet').
  { destruct (net_before _ _ Hnet) as (Hr & Hio & Hacc & Hpost); [by left|].
    unfold v', TcpJsonServer.start. rewrite Hr, Hcf, Hacc.
    destruct (listen _ _ _) as [[c e]|port] eqn:Hlis; simpl; split_and!; try done.
    - split; [done|]. intros Hin. destruct (net_waiting _ _ Hnet) as [Hat _]; [by right|].
      simpl in Hat. by rewrite Hlis in Hat.
    - unfold TcpJsonServer.thread_count. lia.
    - split; [done|]. intros Hin. destruct (net_waiting _ _ Hnet) as [Hat _]; [by right|].
      split; [done|]. intros _. simpl. split_and!; [done..| |done|done].
      unfold TcpJsonServer.thread_count. lia. }
  split; simpl; rewrite ?Hcf', ?Hses', ?Hh'; [..|done].
  - apply (call_lifecycle _ (Start Server)); done.
  - by eapply ordered_tail.
  - done.
  - done.
  - done.
  - by eapply storage_tail.
  - done.
  - intros id c Hid. eapply connection_keeps; [by eapply Hses|done|by apply keeps_same].
Qed.

Lemma join_server_ok rest g v :
  service_ok (mk (Stop Server :: rest) g v) →
  busy_count v = 0%nat → service_ok (mk rest g (TcpJsonServer.join_workers v)).
Proof.
  intros [Hl Ho Hs Hcf Hnet Hph Hw Hses Hcl] Hjoin; cbn [todo signals server] in *.
  assert (idle_server v) as Hidle by (intros id c; by apply no_busy_idle).
  split; simpl; [by apply (call_lifecycle _ (Stop Server))|by eapply ordered_tail| |done| | |done| |done].
  - intros Hin. apply Hs. by right.
  - by apply network_stopping, (ordered_head _ _ Ho).
  - by eapply storage_tail.
  - intros id c Hid. eapply connection_idle; [by eapply Hses|by eapply Hidle].
Qed.

Lemma stopping_network_ok rest g v v' :
  service_ok (mk (Stop Server :: rest) g v) → network_ok (Stop Server :: rest) v'.
Proof.
  intros Hok. apply network_stopping.
  destruct (ordered_head _ _ (ok_ordered _ Hok)). rewrite !not_elem_of_cons. done.
Qed.

(** ** The main thread on the storage *)

(** With no thread of the network, only the storage changes. *)
Lemma set_storage_ok cs cs' g v w :
  service_ok (mk cs g v) → idle_server v →
  lifecycle attempt (Shutdown.mk cs' g) → ordered cs' = true →
  (Start Server ∈ cs' → Start Server ∈ cs) → network_ok cs' v →
  (TcpJsonServer.workers_ v ≠ 0%nat → server_first cs' = true ∧
     is_serving (ServerSystem.mk (clients_of v) w)) →
  storage_phase cs' (ServerSystem.mk (clients_of v) w) →
  service_ok (mk cs' g (set_storage w v)).
Proof.
  intros [Hl Ho Hs Hcf Hnet Hph Hw Hses Hcl] Hidle; cbn [todo signals server] in *.
  intros Hl' Ho' Hstart Hnet' Hwork Hph'. split; simpl; auto.
  { by destruct Hnet'. }
  intros id c Hid. eapply connection_idle; [by eapply Hses|by eapply Hidle].
Qed.

Lemma start_storage_ok rest g v w :
  service_ok (mk (Start Storage :: rest) g v) →
  StorageWorker.start (storage_of v) = (Ret (), w) →
  service_ok (mk (Start Storage :: rest) g (set_storage w v)).
Proof.
  intros Hok Hstart. pose proof (ok_storage _ Hok) as Hph. cbn [todo server] in Hph.
  assert (∃ x, StorageWorker.worker (storage_of v) = StorageWorker.NoThread x) as [x Hx].
  { revert Hstart. unfold StorageWorker.start, StorageWorker.set_stopping; simpl.
    destruct (StorageWorker.worker _) as [x| | | |]; [by exists x|done..]. }
  assert (TcpJsonServer.workers_ v = 0%nat) as Hw.
  { destruct (decide (TcpJsonServer.workers_ v = 0%nat)) as [|Hw]; [done|].
    by destruct (ok_workers _ Hok Hw) as [Hf _]. }
  assert (idle_server v) as Hidle
    by (intros id c; apply no_workers_idle; [apply Hok|done]).
  eapply set_storage_ok; [exact Hok|exact Hidle|apply Hok|apply Hok|done|apply Hok|done|].
  unfold storage_of in *. destruct Hph as [b Hh Hin|rest' _ _ Hh|e y _ _ _ Hy _|s0 _ Hran _ _ _|y _ Hs1 _ _ _ _].
  - rewrite Hh in *. unfold StorageWorker.start in Hstart; simpl in Hstart.
    injection Hstart as <-. eapply phase_opening; [done| |done].
    by destruct (ordered_head _ _ (ok_ordered _ Hok)).
  - by rewrite Hh in Hx.
  - congruence.
  - apply ran_worker in Hran. by rewrite Hx in Hran.
  - exfalso. apply Hs1. by left.
Qed.

Lemma storage_started_ok rest g v o :
  service_ok (mk (Start Storage :: rest) g v) →
  StorageWorker.init_promise (storage_of v) = Some o →
  service_ok (mk rest g v).
Proof.
  intros Hok Hp. pose proof (ok_storage _ Hok) as Hph. cbn [todo server] in Hph.
  eapply pop_ok; [exact Hok|done|done| |].
  - apply (call_lifecycle _ (Start Storage)); [done|apply Hok].
  - unfold storage_of in *.
    destruct Hph as [b Hh Hin|rest' Hcs _ Hh|e y Ha Hin Hcl Hy Hp'|s0 Hs0 Hran Hin Hp' Hst|y _ Hs1 _ _ _ _].
    + by rewrite Hh in Hp.
    + by rewrite Hh in Hp.
    + eapply phase_failed; [done| |done..]. by apply elem_of_cons in Hin as [|].
    + eapply phase_serving; [done..| |done|]; [by apply elem_of_cons in Hin as [|]|].
      intros Hstop. destruct (Hst Hstop) as [H1 H2].
      rewrite !not_elem_of_cons in *. naive_solver.
    + exfalso. apply Hs1. by left.
Qed.

Lemma stop_storage_ok rest g v :
  service_ok (mk (Stop Storage :: rest) g v) →
  service_ok (mk (Stop Storage :: rest) g
                (set_storage (StorageWorker.request_stop (storage_of v)) v)).
Proof.
  intros Hok. destruct (stopped_idle _ rest Hok eq_refl) as [Hw Hidle].
  pose proof (ok_storage _ Hok) as Hph. cbn [todo server] in *.
  destruct (ordered_head _ _ (ok_ordered _ Hok)) as [Hn1 Hn2].
  eapply set_storage_ok; [exact Hok|exact Hidle|apply Hok|apply Hok|done|apply Hok|done|].
  unfold storage_of.
  assert (Start Storage ∉ Stop Storage :: rest) as Hn1'
    by (rewrite not_elem_of_cons; done).
  assert (Start Server ∉ Stop Storage :: rest) as Hn2'
    by (rewrite not_elem_of_cons; done).
  destruct Hph as [b Hh Hin|rest' Hcs _ Hh|e y Ha Hin Hcl Hy Hp|s0 Hs0 Hran Hin Hp Hst|y Hleft _ _ Hst Hy Hd].
  - rewrite Hh. apply (phase_new _ _ true); [done|by right].
  - done.
  - by eapply phase_failed.
  - eapply phase_serving; [exact Hs0| |done..].
    eapply ran_step; [exact Hran|].
    destruct (TcpJsonServer.handler_state v). apply ServerSystem.step_stop.
  - by eapply phase_joined.
Qed.

Lemma joined_left cs h w x :
  storage_phase (Stop Storage :: cs) h →
  StorageWorker.join (ServerSystem.storage_ h) = Some w →
  StorageWorker.worker w = StorageWorker.NoThread x → left_by x.
Proof.
  unfold StorageWorker.join.
  intros [b -> _|rest Hcs _ _|e y Ho _ _ Hy _|s0 Hs0 Hran _ _ _|y Hl _ _ _ Hy _].
  - intros [= <-] [= <-]. by apply left_unopened.
  - done.
  - rewrite Hy. intros [= <-] [= <-]. by eapply left_failed.
  - pose proof (ran_worker _ _ Hran) as Hw.
    destruct (StorageWorker.worker (ServerSystem.storage_ h)) eqn:Hy; [done..|].
    intros [= <-] [= <-]. by eapply left_served.
  - rewrite Hy. intros [= <-]. rewrite Hy. by intros [= <-].
Qed.

Lemma join_storage_ok rest g v w :
  service_ok (mk (Stop Storage :: rest) g v) →
  StorageWorker.stopping (storage_of v) = true →
  StorageWorker.join (storage_of v) = Some w →
  service_ok (mk rest g (set_storage w v)).
Proof.
  intros Hok Hst Hjoin. destruct (stopped_idle _ rest Hok eq_refl) as [Hw Hidle].
  pose proof (idle_all_done _ Hok Hidle) as Hd. cbn [todo server] in *.
  destruct (ordered_head _ _ (ok_ordered _ Hok)) as [Hn1 Hn2].
  assert (StorageWorker.stopping w = true ∧
    ∃ x, StorageWorker.worker w = StorageWorker.NoThread x) as [Hst' [x Hx]].
  { revert Hjoin. unfold StorageWorker.join.
    destruct (StorageWorker.worker _) as [x| | | |x] eqn:Hx; [|done..|];
      intros [= <-]; (split; [done|]); by exists x. }
  eapply set_storage_ok; [exact Hok|exact Hidle| | |by right| |done|].
  - apply (call_lifecycle _ (Stop Storage)); [done|apply Hok].
  - eapply ordered_tail, Hok.
  - by eapply network_tail, Hok.
  - eapply phase_joined; [|done..].
    eapply joined_left; [apply (ok_storage _ Hok)|exact Hjoin|exact Hx].
Qed.

(** ** The handlers *)

Lemma handler_move_ok cs g v h :
  service_ok (mk cs g v) →
  ServerSystem.move steady_clock (TcpJsonServer.handler_state v) h →
  service_ok (mk cs g (TcpJsonServer.set_handler_state h v)).
Proof.
  intros [Hl Ho Hs Hcf Hnet Hph Hw Hses Hcl] Hmove; cbn [todo signals server] in *.
  destruct (move_keeps steady_clock _ _ Hmove) as [Hst Hkeep].
  split; simpl; try done; [by destruct Hnet|..].
  - by eapply phase_move.
  - intros Hw0. destruct (Hw Hw0) as [Hf (Hst0 & s0 & Hs0 & Hran)].
    split; [done|]. split; [congruence|]. exists s0. split; [done|].
    eapply ran_step; [exact Hran|]. by apply ServerSystem.step_move.
  - intros id c Hid. eapply connection_keeps; [by eapply Hses|done|exact Hkeep].
  - intros k c Hk. destruct (move_client _ _ k c Hmove Hk) as [Hk'|(c0 & Hk' & Hnd)].
    + by eapply Hcl.
    + destruct (Hcl k c0 Hk') as [?|?]; [done|by right].
Qed.

Lemma io_runs_workers v : io_runs v → TcpJsonServer.workers_ v ≠ 0%nat.
Proof. intros [? _]. lia. Qed.

Lemma begin_line_ok id chunk cs g v v' :
  service_ok (mk cs g v) → begin_line id chunk v v' → service_ok (mk cs g v').
Proof.
  intros [Hl Ho Hs Hcf Hnet Hph Hw Hses Hcl] [c line rest k n Hio Hid Hc Hd Hf Hmax Hk];
    cbn [todo signals server] in *.
  pose proof (io_runs_workers v Hio) as Hw0. destruct (Hw Hw0) as [Hfirst Hserv].
  set (request := ServerSystem.mk_client (mk_thread (strip_cr line) n []) None).
  set (h' := ServerSystem.mk (<[k:=request]> (clients_of v)) (storage_of v)).
  assert (ServerSystem.step steady_clock (TcpJsonServer.handler_state v) h') as Hstep.
  { unfold h', storage_of. destruct (TcpJsonServer.handler_state v) as [rs w].
    by apply ServerSystem.step_arrive. }
  destruct (phase_step cs _ h' Hph Hserv Hstep) as [Hph' Hserv'];
    [done|apply Hserv|].
  assert (∀ d, connection_ok v d → connection_ok
    (set_connection id (mk_connection (session c) (Some (k, chunk)) (incoming c)
       (outgoing c)) (TcpJsonServer.set_handler_state h' v)) d) as Hkeep.
  { intros d Hd'. eapply connection_keeps; [exact Hd'|done|].
    intros k' r Hr. exists r. split; [|done]. simpl.
    rewrite lookup_insert_ne; [done|]. intros <-. by rewrite Hk in Hr. }
  split; simpl; try done; [by destruct Hnet|..].
  - apply map_Forall_insert_2.
    + split; [apply (Hses id c Hid)|]. simpl. intros k' chunk' [= <- <-].
      split_and!; [done..|]. exists line, rest, request.
      split_and!; [done..|by rewrite lookup_insert_eq|done].
    + intros id' d Hid'. apply Hkeep. by eapply Hses.
  - intros k' r [[<- <-]|[Hne Hr]]%lookup_insert_Some.
    + right. eexists id, _, chunk. by rewrite lookup_insert_eq.
    + destruct (Hcl k' r Hr) as [?|(id' & d & chunk' & Hid' & Hd')]; [by left|right].
      exists id', d, chunk'. split; [|done]. rewrite lookup_insert_ne; [done|].
      intros <-. congruence.
Qed.

(** A connection that is in no handler any more. *)
Lemma set_connection_ok cs g v id d :
  service_ok (mk cs g v) → connection_ok v d → calling d = None →
  (∀ c k chunk request, TcpJsonServer.sessions v !! id = Some c →
     calling c = Some (k, chunk) → clients_of v !! k = Some request →
     ServerSystem.done_client steady_clock request) →
  service_ok (mk cs g (set_connection id d v)).
Proof.
  intros [Hl Ho Hs Hcf Hnet Hph Hw Hses Hcl] Hd Hcall Hold; cbn [todo signals server] in *.
  split; simpl; try done; [by destruct Hnet|..].
  - apply map_Forall_insert_2; [by eapply connection_idle|].
    intros id' c Hid. eapply connection_keeps; [by eapply Hses|done|by apply keeps_same].
  - intros k r Hr. destruct (Hcl k r Hr) as [?|(id' & c & chunk & Hid & Hc)]; [by left|].
    destruct (decide (id' = id)) as [->|Hne]; [left; by eapply Hold|right].
    exists id', c, chunk. by rewrite lookup_insert_ne.
Qed.

(** One more completion of a session. *)
Lemma completion_ok v c s chunk output r :
  connection_ok v c → (∀ s0, opened = Some s0 →
    handled_request steady_clock connection_string s0 false r ∧
    Session.step (serve_running steady_clock) r chunk output (session c) s r) →
  connection_ok v (mk_connection s None (incoming c +:+ chunk)
    (outgoing c ++ option_list output)).
Proof.
  intros [(s0 & Hs0 & Hrun) _] Hstep. split; [|done]. exists s0. split; [done|].
  destruct (Hstep s0 Hs0) as [Hr ?]. by eapply session_step.
Qed.

Lemma answer_line_ok id cs g v v' :
  service_ok (mk cs g v) → answer_line steady_clock id v v' → service_ok (mk cs g v').
Proof.
  intros Hok [c k chunk request line rest s Hid Hc Hk Hdone Hf Hread].
  pose proof (ok_sessions _ Hok id c Hid) as Hcon. cbn [server] in *.
  destruct (conn_call _ _ Hcon k chunk Hc) as (Hw & Hdo & _).
  destruct (ok_workers _ Hok Hw) as (_ & Hst & s1 & Hs1 & Hran). cbn [server] in *.
  apply set_connection_ok; [done| |done|].
  - rewrite <-(app_nil_r (outgoing c)). change [] with (option_list (None (A := string))).
    eapply (completion_ok v c s chunk None request); [done|]. intros s0 Hs0.
    assert (s1 = s0) as -> by congruence. split.
    + exists (TcpJsonServer.handler_state v), k. split_and!; [done..|congruence].
    + by eapply Session.step_read.
  - intros c' k' chunk' r' Hid' Hc' Hk'. congruence.
Qed.

(** A completion that calls no handler does the same with any handler. *)
Lemma no_handler_step {E H} (handle : string → prog E H string) h chunk output s s' :
  Session.step no_handler tt chunk output s s' tt →
  Session.step handle h chunk output s s' h.
Proof.
  inversion 1 as [received line rest x x' u Hd Hf Hr|received x Hd Hf
    |received error n x x' u Hd Hr|output' x Hd|error output' x Hd]; subst.
  - eapply Session.step_read; [done..|]. revert Hr. unfold Session.on_read.
    case_bool_decide; [by intros [= <-]|].
    destruct (getline _). by intros ?.
  - by apply Session.step_received.
  - eapply (Session.step_read_failed _ _ _ error n); [done|].
    revert Hr. unfold Session.on_read. by intros [= <-].
  - by apply Session.step_written.
  - by eapply Session.step_write_failed.
Qed.

Lemma session_event_ok id chunk cs g v v' :
  service_ok (mk cs g v) → session_event id chunk v v' → service_ok (mk cs g v').
Proof.
  intros Hok [c output s Hio Hid Hc Hstep].
  pose proof (ok_sessions _ Hok id c Hid) as Hcon. cbn [server] in *.
  apply set_connection_ok; [done| |done|].
  - destruct (conn_run _ _ Hcon) as (s0 & Hs0 & _).
    destruct (some_request (lib := lib) steady_clock connection_string s0 false) as [r Hr].
    eapply completion_ok; [done|]. intros s1 Hs1. replace s1 with s0 by congruence.
    split; [exact Hr|]. by apply no_handler_step.
  - intros c' k chunk' r Hid' Hc'. congruence.
Qed.

(** Closing at a line that is too large is such a completion. *)
Lemma close_event id v v' : close_line id v v' → session_event id EmptyString v v'.
Proof.
  intros [c line rest Hio Hid Hc Hd Hf Hmax].
  replace (incoming c) with (incoming c +:+ EmptyString) by apply string_app_nil_r.
  rewrite <-(app_nil_r (outgoing c)).
  change [] with (option_list (None (A := string))).
  apply session_completes; [done..|].
  eapply Session.step_read; [done|by rewrite string_app_nil_r|].
  unfold Session.on_read. rewrite bool_decide_true by (simpl; lia).
  by destruct (session c); simpl; rewrite string_app_nil_r.
Qed.

Lemma accept_ok id error cs g v :
  service_ok (mk cs g v) → io_runs v → TcpJsonServer.sessions v !! id = None →
  service_ok (mk cs g (TcpJsonServer.on_accept new_connection id error v)).
Proof.
  intros Hok Hio Hid. unfold TcpJsonServer.on_accept.
  destruct (TcpJsonServer.running_ v) eqn:Hr; simpl.
  2: { eapply server_flags_ok; [done..|]. destruct (ok_network _ Hok) as [Hb Hw].
    cbn [todo server] in *. split; simpl; [try rewrite Hr in Hb; exact Hb|].
    intros Hin. destruct (Hw Hin) as [Ha Hw']. split; [done|]. intros Hno.
    destruct (Hw' Hno). congruence. }
  destruct error; [done|].
  apply (set_connection_ok cs g v id); [done| |done|].
  - split; [|done].
    destruct (ok_workers _ Hok (io_runs_workers _ Hio)) as (_ & _ & s0 & Hs0 & _).
    exists s0. split; [done|]. pose proof (ok_config _ Hok) as Hcf. simpl in Hcf.
    rewrite Hcf. apply session_started.
  - intros c k chunk r Hc. cbn [server] in *. congruence.
Qed.

(** ** The whole service *)

Lemma move_ok s s' : move s s' → service_ok s → service_ok s'.
Proof.
  destruct 1 as [c rest g v Hc|rest g v|rest g v w Hstart|rest g v o Hp|rest g v
    |rest g v Hcal|rest g v Hr|rest g v Hr Hio|rest g v Hr Hio Hb|rest g v Hst
    |rest g v w Hst Hj|rest g g' v Hs|cs g g' v Hm|cs g v h Hm|id cs g v v' Hb
    |id cs g v v' Ha|id cs g v v' Hcl|cs g v Hio Hpost]; intros Hok;
    pose proof (ok_life _ Hok) as Hl; cbn [todo signals] in Hl.
  - eapply pass_ok; [exact Hok|by destruct Hc as [->| ->]|].
    by apply (call_lifecycle _ c); [destruct Hc as [->| ->]|].
  - eapply pass_ok; [exact Hok|done|by apply start_lifecycle].
  - by apply start_storage_ok.
  - by eapply storage_started_ok.
  - by apply start_server_ok.
  - eapply pass_ok; [exact Hok|done|by apply (wait_lifecycle _ rest)].
  - eapply server_flags_ok; [done..|]. by eapply stopping_network_ok.
  - eapply server_flags_ok; [done..|]. by eapply stopping_network_ok.
  - by apply join_server_ok.
  - by apply stop_storage_ok.
  - by eapply join_storage_ok.
  - pose proof (stop_lifecycle _ rest g g' Hs Hl) as Hl'.
    destruct (Shutdown.stop_returned g'); [eapply pass_ok; [exact Hok|done..]|eapply signals_ok; [exact Hok|done]].
  - eapply signals_ok; [exact Hok|by eapply thread_lifecycle].
  - by apply handler_move_ok.
  - by eapply begin_line_ok.
  - by eapply answer_line_ok.
  - eapply session_event_ok; [exact Hok|by apply close_event].
  - eapply server_flags_ok; [done..|]. eapply posted_network; [apply (ok_network _ Hok)|done].
Qed.

Lemma step_ok s s' : step s s' → service_ok s → service_ok s'.
Proof.
  destruct 1 as [s s' Hmove|signal cs g v Hin|id error cs g v Hio Ha Hid
    |id chunk cs g v v' Hb|id chunk cs g v v' He]; intros Hok.
  - by eapply move_ok.
  - eapply signals_ok; [exact Hok|].
    apply (step_lifecycle _ (Shutdown.mk cs g)); [by apply Shutdown.step_signal|].
    apply (ok_life _ Hok).
  - by apply accept_ok.
  - by eapply begin_line_ok.
  - by eapply session_event_ok.
Qed.

Lemma run_ok s s' : rtc step s s' → service_ok s → service_ok s'.
Proof. induction 1; eauto using step_ok. Qed.

Lemma moves_ok s s' : rtc move s s' → service_ok s → service_ok s'.
Proof. induction 1; eauto using move_ok. Qed.
End correct.

(** The parts of the invariant, of a given state. *)
Arguments ok_life {_ _ _ _ _ _ _ _ _ _ _} _.
Arguments ok_ordered {_ _ _ _ _ _ _ _ _ _ _} _.
Arguments ok_starts {_ _ _ _ _ _ _ _ _ _ _} _.
Arguments ok_network {_ _ _ _ _ _ _ _ _ _ _} _.
Arguments ok_storage {_ _ _ _ _ _ _ _ _ _ _} _.
Arguments ok_workers {_ _ _ _ _ _ _ _ _ _ _} _.
Arguments ok_sessions {_ _ _ _ _ _ _ _ _ _ _} _.
Arguments net_waiting {_ _ _ _ _ _ _ _ _} _.
Arguments conn_run {_ _ _ _ _ _ _ _ _} _.
Arguments conn_call {_ _ _ _ _ _ _ _ _} _.
