(* ===== verification/ServiceLive.v ===== *)
(** * The whole service makes progress

    Every move of the service's threads brings it nearer to a rest, and the
    states without a move are those after the end and those at the wait of
    [run]. *)

From stdpp Require Import base tactics strings list gmap relations.
From S2P Require Import Prelude.
From S2P Require Import Types.
From S2P Require Import CppString.
From S2P Require Import Abacus.
From S2P Require Import Postgres.
From S2P Require Import StorageService.
From S2P Require Import RequestHandler.
From S2P Require Import HandlerConcurrent.
From S2P Require Import StorageWorker.
From S2P Require Import WorkerCorrect.
From S2P Require Import ServerSystem.
From S2P Require Import SystemCorrect.
From S2P Require Import SystemLive.
From S2P Require Import ServerConfig.
From S2P Require Import TcpServer.
From S2P Require Import TcpCorrect.
From S2P Require Import ServerSessions.
From S2P Require Import SignalHandler.
From S2P Require Import Application.
From S2P Require Import Shutdown.
From S2P Require Import Service.
From S2P Require Import ServiceCorrect.
Import RequestHandler.
Import ServiceApplication.
Import Service.

Section live.
Context `{lib : Libpq.Library}.
Context `{protocol : Protocol.Library} `{math : CalculatorMath.Library}.
Variable steady_clock : nat → Z.
Variable config : ServerConfig.t.
Variable connection_string : string.
Variable database : Libpq.world.
Variable logger_error : option exn.
Variable mask_result : Z.
Variable listen : bool → string → Z → (asio_call * exn) + Z.

Abbreviation attempt :=
  (attempt config connection_string database logger_error mask_result listen).
Abbreviation move := (Service.move steady_clock config connection_string database
  logger_error mask_result listen).
Abbreviation service_ok := (service_ok steady_clock config connection_string database
  logger_error mask_result listen).
Abbreviation storage_phase := (storage_phase steady_clock connection_string database).

(** ** The moves of the threads as moves of the main thread and the signal
    thread *)

Definition shutdown_of (s : Service.t) : Shutdown.t :=
  Shutdown.mk (todo s) (signals s).

Lemma move_shutdown s s' :
  move s s' →
  shutdown_of s' = shutdown_of s ∨ Shutdown.move attempt (shutdown_of s) (shutdown_of s').
Proof.
  destruct 1 as [c rest g v Hc|rest g v|rest g v w Hstart|rest g v o Hp|rest g v
    |rest g v Hcal|rest g v Hr|rest g v Hr Hio|rest g v Hr Hio Hb|rest g v Hst
    |rest g v w Hst Hj|rest g g' v Hs|cs g g' v Hm|cs g v h Hm|id cs g v v' Hb
    |id cs g v v' Ha|id cs g v v' Hcl|cs g v Hio Hpost]; try (by left); right; unfold shutdown_of; simpl.
  - apply Shutdown.move_call. by destruct Hc as [->| ->].
  - apply Shutdown.move_start.
  - by apply Shutdown.move_call.
  - by apply Shutdown.move_call.
  - by apply Shutdown.move_wait.
  - by apply Shutdown.move_call.
  - by apply Shutdown.move_call.
  - by apply Shutdown.move_stop.
  - by apply Shutdown.move_thread.
Qed.

Lemma moves_shutdown s s' :
  rtc move s s' → rtc (Shutdown.move attempt) (shutdown_of s) (shutdown_of s').
Proof.
  induction 1 as [s|s s1 s' Hmove _ IH]; [done|].
  destruct (move_shutdown s s1 Hmove) as [<-|]; [done|by eapply rtc_l].
Qed.

Lemma steps_shutdown s s' :
  rtc (Service.step steady_clock config connection_string database logger_error
         mask_result listen) s s' →
  rtc (Shutdown.step attempt) (shutdown_of s) (shutdown_of s').
Proof.
  induction 1 as [s|s s1 s' Hstep _ IH]; [done|].
  revert IH. destruct Hstep as [s s1 Hmove|signal cs g v Hin| | |]; [..|done|done|done].
  - destruct (move_shutdown s s1 Hmove) as [<-|]; [done|]. intros IH.
    eapply rtc_l; [by apply Shutdown.step_move|exact IH].
  - intros IH. eapply rtc_l; [by apply Shutdown.step_signal|exact IH].
Qed.

(** ** The measure *)

Definition flag (b : bool) : nat := if b then 1 else 0.

(** What a connection may still do without a further byte: a call of its handler,
    with all that the handler does, or the write of its response. *)
Definition connection_weight (c : connection) : nat :=
  match calling c, Session.doing (session c) with
  | Some _, _ => 1
  | None, Session.Reading => 17
  | None, _ => 0
  end.

Definition storage_weight (w : StorageWorker.t) : nat :=
  flag (negb (StorageWorker.stopping w)) +
  match StorageWorker.worker w with StorageWorker.NoThread _ => 4 | _ => 0 end.

Definition server_weight (v : server_t) : nat :=
  2 * flag (TcpJsonServer.running_ v) + flag (TcpJsonServer.close_posted v) +
  flag (negb (TcpJsonServer.io_stopped v)) +
  storage_weight (storage_of v) + SystemLive.work (TcpJsonServer.handler_state v) +
  total_weight connection_weight (TcpJsonServer.sessions v).

Definition service_weight (s : Service.t) : nat :=
  10 * moves_left (shutdown_of s) + server_weight (server s).

(** A call that is over pays for what it leaves. *)
Lemma shutdown_weight s s' :
  Shutdown.move attempt (shutdown_of s) (shutdown_of s') →
  (server_weight (server s') < server_weight (server s) + 10)%nat →
  (service_weight s' < service_weight s)%nat.
Proof. intros Hm%move_moves_left Hw. unfold service_weight. lia. Qed.

Lemma server_weight_move cs g v v' :
  (server_weight v' < server_weight v)%nat →
  (service_weight (mk cs g v') < service_weight (mk cs g v))%nat.
Proof. intros Hw. unfold service_weight, shutdown_of; simpl. lia. Qed.

(** ** The moves of the handlers and of the storage thread *)

Lemma move_storage_weight h h' :
  ServerSystem.move steady_clock h h' →
  (storage_weight (ServerSystem.storage_ h') ≤
   storage_weight (ServerSystem.storage_ h))%nat.
Proof.
  assert (∀ j o w w', StorageWorker.enqueue j w = (o, w') →
    storage_weight w' = storage_weight w) as Henq.
  { intros j o w w'. unfold StorageWorker.enqueue, storage_weight.
    destruct (StorageWorker.stopping w) eqn:Hst; intros [= <- <-]; simpl;
      by rewrite ?Hst. }
  destruct 1 as [i r c ticket cs w w' _ _ Hp|i r c e cs w w' _ _ Hp
    |i r ticket reply cs w _ _|cs w w' Hw]; cbn [ServerSystem.storage_].
  - rewrite post_enqueue in Hp. apply Henq in Hp. lia.
  - rewrite post_enqueue in Hp. apply Henq in Hp. lia.
  - done.
  - pose proof (thread_main_stopping _ _ Hw) as Hst. unfold storage_weight.
    rewrite Hst. revert Hw. unfold StorageWorker.thread_main.
    destruct (StorageWorker.worker w) as [|x|s|n j s|] eqn:Hph; [done| | | |done].
    + destruct (StorageWorker.open_storage _ x) as [[s|e|] y]; intros [= <-]; simpl; lia.
    + destruct (StorageWorker.jobs w) as [|[]]; [|intros [= <-]; simpl; lia].
      destruct (StorageWorker.stopping w) eqn:?; [intros [= <-]; simpl; lia|done].
    + destruct (StorageWorker.execute j s). intros [= <-]; simpl. lia.
Qed.

Lemma ran_live s0 h :
  ran steady_clock connection_string s0 h → system_live s0 h.
Proof. intros Hran. eapply run_system_live; [exact Hran|apply started_system_live]. Qed.

Lemma phase_move_work cs h h' :
  storage_phase cs h → ServerSystem.move steady_clock h h' →
  (SystemLive.work h' < SystemLive.work h)%nat.
Proof.
  intros Hph Hmove.
  destruct Hph as [b -> _|rest _ _ ->|e w _ _ Hcl Hw _|s0 _ Hran _ _ _|w _ _ _ _ Hw Hd].
  - by apply all_done_blocked in Hmove.
  - inversion Hmove as [i r d ticket cs' w w' Hi|i r d e cs' w w' Hi
      |i r ticket reply cs' w Hi|cs' w w' Hw]; subst; try by rewrite lookup_empty in Hi.
    apply thread_main_moves in Hw. unfold SystemLive.work.
    cbn [ServerSystem.clients ServerSystem.storage_]. lia.
  - exfalso. revert Hmove. apply all_done_blocked.
    + intros k c. by rewrite Hcl, lookup_empty.
    + unfold StorageWorker.thread_main. by rewrite Hw.
  - eapply move_work; [by eapply ran_live|done].
  - exfalso. revert Hmove. apply all_done_blocked; [done|].
    unfold StorageWorker.thread_main. by rewrite Hw.
Qed.

(** ** The moves of the main thread on the storage *)

Lemma set_storage_weight v w :
  (server_weight (set_storage w v) +
     (storage_weight (storage_of v) + moves (storage_of v)) =
   server_weight v + (storage_weight w + moves w))%nat.
Proof.
  unfold server_weight, SystemLive.work, storage_of, set_storage. simpl. lia.
Qed.

Lemma start_storage_weight w w' :
  StorageWorker.start w = (Ret (), w') →
  (storage_weight w' + moves w' < storage_weight w + moves w)%nat.
Proof.
  unfold StorageWorker.start, storage_weight, moves. simpl.
  destruct (StorageWorker.worker w); intros [= <-]; simpl.
  destruct (StorageWorker.stopping w); simpl; lia.
Qed.

Lemma join_storage_weight w w' :
  StorageWorker.join w = Some w' →
  (storage_weight w' + moves w' < storage_weight w + moves w + 10)%nat.
Proof.
  unfold StorageWorker.join, storage_weight, moves.
  destruct (StorageWorker.worker w) eqn:Hw; intros [= <-]; simpl; rewrite ?Hw; lia.
Qed.

(** ** The moves of the network threads *)

Lemma set_connection_weight v id c c' :
  TcpJsonServer.sessions v !! id = Some c →
  (server_weight (set_connection id c' v) + connection_weight c =
   server_weight v + connection_weight c')%nat.
Proof.
  intros Hid. unfold server_weight, storage_of, set_connection, TcpJsonServer.set_sessions; simpl.
  pose proof (total_weight_insert connection_weight _ id c c' Hid). lia.
Qed.

Lemma begin_line_weight id chunk v v' :
  begin_line id chunk v v' → (server_weight v' < server_weight v)%nat.
Proof.
  intros [c line rest k n Hio Hid Hc Hd Hf Hmax Hk].
  set (request := ServerSystem.mk_client (mk_thread (strip_cr line) n []) None).
  set (v1 := TcpJsonServer.set_handler_state _ v).
  assert (server_weight v1 = server_weight v + 15)%nat as Hv1.
  { unfold v1, server_weight, SystemLive.work, storage_of; simpl.
    rewrite (total_weight_insert_new client_weight _ k request Hk). simpl. lia. }
  pose proof (set_connection_weight v1 id c (mk_connection (session c) (Some (k, chunk))
    (incoming c) (outgoing c)) Hid) as Hset.
  unfold connection_weight in Hset. rewrite Hc, Hd in Hset. simpl in Hset. lia.
Qed.

Lemma answer_line_weight id v v' :
  answer_line steady_clock id v v' → (server_weight v' < server_weight v)%nat.
Proof.
  intros [c k chunk request line rest s Hid Hc Hk Hdone Hf Hread].
  pose proof (set_connection_weight v id c (mk_connection s None (incoming c +:+ chunk)
    (outgoing c)) Hid) as Hset.
  assert (Session.doing s ≠ Session.Reading) as Hs.
  { revert Hread. unfold Session.on_read. case_bool_decide; [by intros [= <-]|].
    destruct (getline _) as [line' rest'].
    destruct (serve_running _ _ _) as [[response|e|] h']; intros [= <- <-]. done. }
  unfold connection_weight in Hset. rewrite Hc in Hset. simpl in Hset.
  revert Hset Hs. destruct (Session.doing s); [done|lia..].
Qed.

Lemma close_line_weight id v v' :
  close_line id v v' → (server_weight v' < server_weight v)%nat.
Proof.
  intros [c line rest Hio Hid Hc Hd Hf Hmax].
  pose proof (set_connection_weight v id c (mk_connection (Session.close (session c))
    None (incoming c) (outgoing c)) Hid) as Hset.
  unfold connection_weight in Hset. rewrite Hc, Hd in Hset. simpl in Hset. lia.
Qed.

(** ** Every move *)

Lemma start_server_weight v :
  (server_weight (TcpJsonServer.start listen v).2 < server_weight v + 10)%nat.
Proof.
  unfold TcpJsonServer.start, server_weight, storage_of.
  destruct (TcpJsonServer.running_ v) eqn:Hr; simpl; [rewrite Hr; simpl; lia|].
  destruct (listen _ _ _) as [[]|]; simpl; rewrite ?Hr; simpl; lia.
Qed.

Lemma move_weight s s' :
  service_ok s → move s s' → (service_weight s' < service_weight s)%nat.
Proof.
  intros Hok Hmove. revert Hok.
  destruct Hmove as [c rest g v Hc|rest g v|rest g v w Hstart|rest g v o Hp|rest g v
    |rest g v Hcal|rest g v Hr|rest g v Hr Hio|rest g v Hr Hio Hb|rest g v Hst
    |rest g v w Hst Hj|rest g g' v Hs|cs g g' v Hm|cs g v h Hm|id cs g v v' Hb
    |id cs g v v' Ha|id cs g v v' Hcl|cs g v Hio Hpost]; intros Hok.
  - apply shutdown_weight; [|simpl; lia]. apply Shutdown.move_call.
    by destruct Hc as [->| ->].
  - apply shutdown_weight; [apply Shutdown.move_start|simpl; lia].
  - apply server_weight_move. pose proof (set_storage_weight v w).
    apply start_storage_weight in Hstart. lia.
  - apply shutdown_weight; [by apply Shutdown.move_call|simpl; lia].
  - apply shutdown_weight; [by apply Shutdown.move_call|]. apply start_server_weight.
  - apply shutdown_weight; [by apply Shutdown.move_wait|simpl; lia].
  - apply server_weight_move. unfold server_weight, storage_of; simpl. rewrite Hr; simpl. lia.
  - apply server_weight_move. unfold server_weight, storage_of; simpl. rewrite Hio; simpl. lia.
  - apply shutdown_weight; [by apply Shutdown.move_call|].
    unfold server_weight, storage_of; simpl. lia.
  - apply server_weight_move.
    pose proof (set_storage_weight v (StorageWorker.request_stop (storage_of v))) as Hset.
    unfold storage_weight, moves in Hset. rewrite Hst in Hset. simpl in Hset. lia.
  - apply shutdown_weight; [by apply Shutdown.move_call|].
    pose proof (set_storage_weight v w). apply join_storage_weight in Hj. simpl. lia.
  - apply shutdown_weight; [by apply Shutdown.move_stop|simpl; lia].
  - apply shutdown_weight; [by apply Shutdown.move_thread|simpl; lia].
  - apply server_weight_move.
    pose proof (phase_move_work _ _ _ (ok_storage Hok) Hm) as Hwork.
    pose proof (move_storage_weight _ _ Hm) as Hst.
    cbn [todo server] in Hwork. unfold server_weight, storage_of; simpl. lia.
  - apply server_weight_move. by eapply begin_line_weight.
  - apply server_weight_move. by eapply answer_line_weight.
  - apply server_weight_move. by eapply close_line_weight.
  - apply server_weight_move. unfold server_weight, storage_of; simpl.
    rewrite Hpost; simpl. lia.
Qed.

Lemma service_moves_bounded n s s' :
  service_ok s → nsteps move n s s' → (n + service_weight s' ≤ service_weight s)%nat.
Proof.
  intros Hok Hrun. revert Hok.
  induction Hrun as [s|n s s1 s' Hmove _ IH]; intros Hok; [done|].
  pose proof (move_weight s s1 Hok Hmove). apply move_ok in Hmove; [|done].
  specialize (IH Hmove). lia.
Qed.

(** ** Where no move is left *)

Abbreviation connection_ok := (connection_ok steady_clock config connection_string database).

(** No exception leaves [handle]. *)
Hypothesis handlers_return : ∀ s0 h k request,
  opened connection_string database = Some s0 →
  ran steady_clock connection_string s0 h →
  ServerSystem.clients h !! k = Some request →
  ServerSystem.done_client steady_clock request →
  ∃ text, result_of steady_clock (ServerSystem.request request) = Ret text.

Definition resting (s : Service.t) : Prop := ∀ s', ¬ move s s'.

Lemma resting_handlers s h :
  resting s → ¬ ServerSystem.move steady_clock (TcpJsonServer.handler_state (server s)) h.
Proof. intros Hrest Hmove. destruct s. eapply Hrest. by apply handler_move. Qed.

Lemma resting_storage s :
  resting s → StorageWorker.thread_main (storage_of (server s)) = None.
Proof.
  intros Hrest. destruct (StorageWorker.thread_main _) as [w|] eqn:Hw; [|done].
  exfalso. pose proof (λ h, resting_handlers s h Hrest) as Hno.
  revert Hno Hw. unfold storage_of.
  destruct (TcpJsonServer.handler_state _) as [rs w0]. intros Hno Hw.
  eapply Hno. by apply ServerSystem.move_worker.
Qed.

Lemma resting_done s :
  service_ok s → resting s →
  all_done steady_clock (TcpJsonServer.handler_state (server s)).
Proof.
  intros Hok Hrest k c Hk.
  destruct (ok_storage Hok)
    as [b Hh _|rest _ _ Hh|e w _ _ Hcl _ _|s0 _ Hran _ _ _|w _ _ _ _ _ Hd].
  - rewrite Hh in Hk. simpl in Hk. by rewrite lookup_empty in Hk.
  - rewrite Hh in Hk. simpl in Hk. by rewrite lookup_empty in Hk.
  - by rewrite Hcl, lookup_empty in Hk.
  - destruct (system_progress steady_clock s0 _ (ran_live _ _ Hran)) as [[h Hm]|[_ Hd]].
    + by apply resting_handlers in Hm.
    + by apply (Hd k).
  - by apply (Hd k).
Qed.

(** A handler that is over goes on to the write of its response. *)
Lemma resting_idle s : service_ok s → resting s → idle_server (server s).
Proof.
  intros Hok Hrest id c Hid. destruct (calling c) as [[k chunk]|] eqn:Hc; [exfalso|done].
  destruct (conn_call (ok_sessions Hok id c Hid) k chunk Hc)
    as (Hw & Hdo & line & rest & request & Hf & Hmax & Hk & Htext).
  destruct (ok_workers Hok Hw) as (_ & _ & s0 & Hs0 & Hran).
  pose proof (resting_done s Hok Hrest k request Hk) as Hd.
  destruct (handlers_return s0 _ k request Hs0 Hran Hk Hd) as [text Hr].
  destruct s as [cs g v]. eapply Hrest, network_answer.
  eapply (answer_handle _ id v c k chunk request line rest); [done..|].
  unfold Session.on_read. cbn [Session.set_buffer Session.max_message_size_ Session.buffer_].
  rewrite bool_decide_false by lia. unfold getline. rewrite Hf.
  unfold serve_running. rewrite decide_True by done. rewrite Hr. reflexivity.
Qed.

Lemma no_calls_not_busy v : idle_server v → busy_count v = 0%nat.
Proof.
  intros Hidle. apply map_size_empty_iff, map_empty_filter.
  intros id c Hid. unfold is_busy. by rewrite (Hidle id c Hid).
Qed.

Lemma idle_runs v :
  idle_server v → TcpJsonServer.workers_ v ≠ 0%nat →
  TcpJsonServer.io_stopped v = false → io_runs v.
Proof. intros Hb%no_calls_not_busy Hw Hio. split; [lia|done]. Qed.

(** A free thread takes a line that has arrived. *)
Lemma resting_lines s id c :
  resting s → idle_server (server s) → io_runs (server s) →
  TcpJsonServer.sessions (server s) !! id = Some c →
  Session.doing (session c) = Session.Reading →
  find_char line_feed (Session.buffer_ (session c)) = None.
Proof.
  destruct s as [cs g v]. cbn [server]. intros Hrest Hidle Hio Hid Hd.
  pose proof (Hidle id c Hid) as Hc.
  destruct (find_char line_feed _) as [[line rest]|] eqn:Hf; [exfalso|done].
  destruct (decide (Z.of_nat (String.length line) + 1 ≤
    Session.max_message_size_ (session c))).
  - eapply Hrest, network_begin.
    eapply (begin_handle id EmptyString v c line rest
      (fresh (dom (ServerSystem.clients (TcpJsonServer.handler_state v)))) 0); try done.
    + by rewrite string_app_nil_r.
    + apply not_elem_of_dom, is_fresh.
  - eapply Hrest, network_close. eapply close_large; [done..|lia].
Qed.

(** The main thread is not in a call on the logger, the storage or the network. *)
Lemma resting_head s c rest :
  service_ok s → resting s → todo s = c :: rest → Shutdown.is_plain c = false.
Proof.
  intros Hok Hrest Hcs. pose proof (resting_storage s Hrest) as Hm.
  pose proof (resting_idle s Hok Hrest) as Hidle.
  pose proof (ok_storage Hok) as Hph.
  destruct s as [cs g v]. cbn [todo server] in *. subst cs.
  destruct c as [|[]| |[]|]; try done; exfalso.
  - eapply Hrest, main_logger. by left.
  - destruct (StorageWorker.init_promise (storage_of v)) as [o|] eqn:Hp;
      [by eapply Hrest, main_storage_started|].
    unfold storage_of in *.
    destruct Hph as [b Hh _|rest' _ _ Hh|e w _ _ _ _ Hp'|s0 _ _ _ Hp' _|w _ Hs1 _ _ _ _].
    + eapply Hrest, main_start_storage. unfold storage_of. by rewrite Hh.
    + rewrite Hh in Hm. revert Hm. unfold StorageWorker.thread_main; simpl.
      by destruct (StorageWorker.open_storage _ _).
    + congruence.
    + done.
    + apply Hs1. by left.
  - eapply Hrest, main_start_server.
  - destruct (StorageWorker.stopping (storage_of v)) eqn:Hst;
      [|by eapply Hrest, main_stop_storage].
    destruct (StorageWorker.join (storage_of v)) as [w|] eqn:Hj;
      [by eapply Hrest, main_join_storage|].
    revert Hm Hj. unfold StorageWorker.thread_main, StorageWorker.join. rewrite Hst.
    destruct (StorageWorker.worker _) as [|x|x|n j x|]; [done| | | |done].
    + by destruct (StorageWorker.open_storage _ _).
    + by destruct (StorageWorker.jobs _) as [|[]].
    + by destruct (StorageWorker.execute _ _).
  - destruct (TcpJsonServer.running_ v) eqn:Hr; [by eapply Hrest, main_stop_server|].
    destruct (TcpJsonServer.io_stopped v) eqn:Hio; [|by eapply Hrest, main_stop_io].
    eapply Hrest, main_join_server; [done..|]. by apply no_calls_not_busy.
  - eapply Hrest, main_logger. by right.
Qed.

Lemma resting_shutdown s s' :
  service_ok s → resting s → ¬ Shutdown.move attempt (shutdown_of s) s'.
Proof.
  intros Hok Hrest Hmove.
  pose proof (λ c rest, resting_head s c rest Hok Hrest) as Hhead.
  destruct s as [cs g v]. unfold shutdown_of in Hmove. cbn [todo signals] in *.
  inversion Hmove as [c rest h Hc|rest h|rest h Hcal|rest h h' Hs|cs' h h' Ht]; subst.
  - by rewrite (Hhead _ _ eq_refl) in Hc.
  - eapply Hrest, main_start_signals.
  - by eapply Hrest, main_wait.
  - by eapply Hrest, main_stop_signals.
  - by eapply Hrest, signal_thread.
Qed.

(** [run] is over, and every thread it started is joined. *)
Record over (s : Service.t) : Prop := mk_over {
  over_calls : todo s = [];
  over_signals : SignalHandler.thread_ (signals s) = SignalHandler.NoThread;
  over_storage : ∃ w,
    StorageWorker.worker (storage_of (server s)) = StorageWorker.NoThread w;
  over_network : TcpJsonServer.workers_ (server s) = 0%nat
}.

(** [run] waits for a signal with every component running, and the sessions wait
    for their clients. *)
Record waits (s : Service.t) : Prop := mk_waits {
  waits_calls : ∃ rest, todo s = AwaitShutdown :: rest;
  waits_signals : SignalHandler.thread_ (signals s) = SignalHandler.InSigwait;
  waits_storage : ∃ st,
    StorageWorker.worker (storage_of (server s)) = StorageWorker.Waiting st;
  waits_accepting : TcpJsonServer.accepting (server s) = true;
  waits_free : io_runs (server s);
  waits_sessions id c : TcpJsonServer.sessions (server s) !! id = Some c →
    calling c = None ∧
    (Session.doing (session c) = Session.Reading →
       find_char line_feed (Session.buffer_ (session c)) = None)
}.

Lemma serving_waits s :
  resting s → is_serving steady_clock connection_string database
    (TcpJsonServer.handler_state (server s)) →
  ∃ st, StorageWorker.worker (storage_of (server s)) = StorageWorker.Waiting st.
Proof.
  intros Hrest (Hst & s0 & _ & Hran).
  destruct (run_refines steady_clock s0 [] _ _ (started_linked s0 _) Hran)
    as (h & [Hw _] & _).
  destruct (blocked_reached s0 h _ Hw (resting_storage s Hrest)) as [_ Hwait].
  rewrite Hst in Hwait. by eexists.
Qed.

Lemma resting_cases s :
  service_ok s → resting s → over s ∨ waits s ∧ ¬ noisy (shutdown_of s).
Proof.
  intros Hok Hrest.
  destruct (lifecycle_blocked attempt (shutdown_of s) (ok_life Hok)
    (λ s', resting_shutdown s s' Hok Hrest)) as [[Hcs Hth]|([rest Hcs] & Hth & Hq)];
    unfold shutdown_of in Hcs, Hth; cbn [Shutdown.todo Shutdown.signals] in Hcs, Hth.
  - left. split; [done|done| |].
    + destruct (ok_storage Hok)
        as [b Hh _|rest Hrest' _ _|e w _ Hin _ _ _|s0 _ _ Hin _ _|w _ _ _ _ Hw _].
      * exists database. unfold storage_of. by rewrite Hh.
      * congruence.
      * rewrite Hcs in Hin. by apply elem_of_nil in Hin.
      * rewrite Hcs in Hin. by apply elem_of_nil in Hin.
      * by exists w.
    + destruct (decide (TcpJsonServer.workers_ (server s) = 0%nat)) as [|Hw]; [done|].
      destruct (ok_workers Hok Hw) as [Hf _]. by rewrite Hcs in Hf.
  - right. split; [|done].
    pose proof (resting_idle s Hok Hrest) as Hidle.
    destruct (net_waiting (ok_network Hok))
      as [_ Hup]; [rewrite Hcs; by left|].
    destruct Hup as (_ & Hacc & Hw & Hio & _).
    { pose proof (ok_ordered Hok) as Ho. rewrite Hcs in Ho |- *.
      apply ordered_head in Ho. by rewrite not_elem_of_cons. }
    destruct (ok_workers Hok Hw) as [_ Hserv].
    pose proof (idle_runs _ Hidle Hw Hio) as Hruns.
    split; [by exists rest|done|by apply serving_waits|done|done|].
    intros id c Hid. split; [by eapply Hidle|]. by eapply resting_lines.
Qed.
End live.
