(* ===== verification/ServiceTheorems.v ===== *)
(** * The whole service is right, and ends by a signal

    What the clients of [main]'s service read, from the start of the process to
    its end. *)

From stdpp Require Import base tactics strings list gmap relations.
From S2P Require Import Prelude.
From S2P Require Import Types.
From S2P Require Import CppString.
From S2P Require Import Checker.
From S2P Require Import Abacus.
From S2P Require Import OperationKey.
From S2P Require Import CacheRepository.
From S2P Require Import Postgres.
From S2P Require Import OperationStorage.
From S2P Require Import StorageService.
From S2P Require Import RequestHandler.
From S2P Require Import LineProtocol.
From S2P Require Import HandlerSafety.
From S2P Require Import HandlerCorrect.
From S2P Require Import HandlerTheorems.
From S2P Require Import Restart.
From S2P Require Import HandlerConcurrent.
From S2P Require Import HandlerFailing.
From S2P Require Import StorageOutage.
From S2P Require Import StorageWorker.
From S2P Require Import WorkerCorrect.
From S2P Require Import WorkerStorage.
From S2P Require Import ServerSystem.
From S2P Require Import SystemCorrect.
From S2P Require Import SystemLive.
From S2P Require Import SystemTheorems.
From S2P Require Import ServerConfig.
From S2P Require Import TcpServer.
From S2P Require Import TcpCorrect.
From S2P Require Import ServerCorrect.
From S2P Require Import ServerSessions.
From S2P Require Import SignalHandler.
From S2P Require Import Application.
From S2P Require Import Shutdown.
From S2P Require Import Service.
From S2P Require Import ServiceCorrect.
From S2P Require Import ServiceLive.
Import Protocol.
Import RequestHandler.
Import ServiceApplication.
Import Service.

(** ** What a client reads *)

(** A line is answered with a failure of the storage. *)
Definition failed_answer `{protocol : Protocol.Library} `{total : !Protocol.Total}
    (fails : exn → Prop) (line text : string) : Prop :=
  ∃ req response timing, parse_request (strip_cr line) = inr req ∧
    failed_response fails (Protocol.request_id req) response ∧
    text = render (set_timing_info timing response).

Section responses.
Context `{lib : Libpq.Library}.
Context `{protocol : Protocol.Library} `{total : !Protocol.Total}.
Context `{math : CalculatorMath.Library} `{symmetric : !CalculatorMath.Symmetric}.
Context {fails : exn → Prop} {asks : storage_call → Prop}
  `{service_honest : !HonestStorage StorageService.t fails asks}.
Variable steady_clock : nat → Z.

Lemma answered_honest cs s0 line text :
  available s0 → honest fails (records s0) →
  answered (serve_running steady_clock) (handled_request steady_clock cs s0 false)
    line text →
  right_response line text ∨ failed_answer fails line text.
Proof.
  intros Hs Hm (c & (s & i & Hrun & Hi & Hdone & Hstop) & Hr).
  unfold serve_running in Hr. destruct (decide _) as [Htext|]; [|done]. simpl in Hr.
  assert (system_ok s0 s) as Hok
    by (eapply run_system_ok; [exact Hrun|by apply started_system_ok]).
  destruct (done_honest steady_clock s0 s i c Hok Hi Hdone)
    as [(text' & Hresult & Hright)|[(req & response & Hp & Hf & Hresult)|[Hst _]]];
    [..|by specialize (Hstop Hst)];
    rewrite Hresult in Hr; injection Hr as <-; rewrite Htext in *.
  - left. intros req d Hp Hd Hops. destruct (Hright req d Hp Hd Hops)
      as (response & -> & Ha). by do 2 eexists.
  - right. by exists req, response, (timing_at steady_clock (reads (ServerSystem.request c))).
Qed.

Lemma honest_returns cs s0 h k request :
  available s0 → honest fails (records s0) →
  ran steady_clock cs s0 h → ServerSystem.clients h !! k = Some request →
  ServerSystem.done_client steady_clock request →
  ∃ text, result_of steady_clock (ServerSystem.request request) = Ret text.
Proof.
  intros Hs Hm Hrun Hk Hdone.
  assert (system_ok s0 h) as Hok
    by (eapply run_system_ok; [exact Hrun|by apply started_system_ok]).
  destruct (done_honest steady_clock s0 h k request Hok Hk Hdone)
    as [(text & ? & _)|[(req & response & _ & _ & ?)|(_ & req & _ & ?)]]; by eexists.
Qed.
End responses.

(** ** The service from its start *)

Section service.
Context `{lib : Libpq.Library}.
Context `{protocol : Protocol.Library} `{total : !Protocol.Total}.
Context `{math : CalculatorMath.Library} `{symmetric : !CalculatorMath.Symmetric}.
Variable steady_clock : nat → Z.
Variable config : ServerConfig.t.
Variable connection_string : string.
Variable database : Libpq.world.
Variable logger_error : option exn.
Variable mask_result : Z.
Variable listen : bool → string → Z → (asio_call * exn) + Z.

Abbreviation attempt :=
  (attempt config connection_string database logger_error mask_result listen).
Abbreviation initial :=
  (Service.initial config connection_string database logger_error mask_result listen).
Abbreviation move := (Service.move steady_clock config connection_string database
  logger_error mask_result listen).
Abbreviation step := (Service.step steady_clock config connection_string database
  logger_error mask_result listen).
Abbreviation service_ok := (service_ok steady_clock config connection_string database
  logger_error mask_result listen).

Lemma reached_ok s : rtc step initial s → service_ok s.
Proof. intros Hrun. eapply run_ok; [exact Hrun|apply initial_service_ok]. Qed.

(** What a session sent, when its lines can be answered with [answer]. *)
Lemma connection_log (answer : string → string → Prop) s id c :
  service_ok s → TcpJsonServer.sessions (server s) !! id = Some c →
  (∀ s0 line text, opened connection_string database = Some s0 →
     answered (serve_running steady_clock)
       (handled_request steady_clock connection_string s0 false) line text →
     answer line text) →
  ∃ log rest,
    incoming c = unlines log.*1 +:+ rest ∧
    log.*1 = take (length log) (getlines (incoming c)) ∧
    Forall (λ '(line, text), answer line text) log ∧
    outgoing c `prefix_of` responses log ∧
    (Session.doing (session c) = Session.Reading →
     outgoing c = responses log ∧ Session.buffer_ (session c) = rest).
Proof.
  intros Hok Hid Hans.
  destruct (conn_run (ok_sessions Hok id c Hid))
    as (s0 & Hs0 & Hrun).
  destruct (session_log _ _ _ _ _ _ Hrun) as (log & rest & Hin & Hl & Hx & Hp & _ & Hr).
  exists log, rest. split_and!; [done|done| |done|done].
  eapply Forall_impl; [exact Hx|]. intros [line text] (_ & _ & Ha). by eapply Hans.
Qed.

(** C7: a failing database never makes the whole service wrong.  The only condition
    is on the history that is loaded when the storage opens: each of its records is
    right or holds a storage failure.  Otherwise [libpq] may answer anything at any
    time, also at the opening, and [run] is started with any configuration and any
    outcome of its calls.  In every state that its threads, the signals and the
    clients can lead to, each session has sent, for the first lines it received, in
    their order and one for each, a response text: for a line with a request of at
    least one operand, it is right or reports [STORAGE_ERROR] for a failure of the
    storage; no client is told that the storage is stopping, and none is answered by
    a storage that is not open. *)
Theorem service_never_wrong s id c :
  (∀ s0, opened connection_string database = Some s0 →
     honest storage_failure (records s0)) →
  rtc step initial s → TcpJsonServer.sessions (server s) !! id = Some c →
  ∃ log : list (string * string),
    log.*1 = take (length log) (getlines (incoming c)) ∧
    Forall (λ '(line, text),
      right_response line text ∨ failed_answer storage_failure line text) log ∧
    outgoing c `prefix_of` responses log.
Proof.
  intros Hm Hrun%reached_ok Hid.
  destruct (connection_log (λ line text,
    right_response line text ∨ failed_answer storage_failure line text) s id c Hrun Hid)
    as (log & rest & _ & Hl & Hx & Hp & _); [|by exists log].
  intros s0 line text Hs0.
  apply (answered_honest (service_honest := failing_service_honest)); [done|by apply Hm].
Qed.

(** At the wait, a session that waits for its client has answered every complete
    line. *)
Lemma waits_answered s :
  service_ok s → waits s →
  ∀ id c, TcpJsonServer.sessions (server s) !! id = Some c →
    Session.doing (session c) = Session.Reading →
    ∃ log rest, incoming c = unlines log.*1 +:+ rest ∧
      find_char line_feed rest = None ∧ outgoing c = responses log.
Proof.
  intros Hok Hw id c Hid Hd.
  destruct (connection_log (λ _ _, True) s id c Hok Hid)
    as (log & rest & Hi & _ & _ & _ & Hr); [done|].
  destruct (Hr Hd) as [Ho <-]. exists log, (Session.buffer_ (session c)).
  split_and!; [done| |done]. by apply (waits_sessions _ Hw id c Hid).
Qed.

Lemma failing_returns :
  (∀ s0, opened connection_string database = Some s0 →
     honest storage_failure (records s0)) →
  ∀ s0 h k request, opened connection_string database = Some s0 →
    ran steady_clock connection_string s0 h →
    ServerSystem.clients h !! k = Some request →
    ServerSystem.done_client steady_clock request →
    ∃ text, result_of steady_clock (ServerSystem.request request) = Ret text.
Proof.
  intros Hm s0 h k request Hs0.
  apply (honest_returns (service_honest := failing_service_honest)); [done|by apply Hm].
Qed.

(** C4: the whole service comes to a rest, and a signal ends it.  From every state
    that its threads, the signals and the clients can lead to, on every schedule,
    the moves of its own threads come to an end.  Where they do, either [run] is
    over, with the signal thread, the storage thread and the network threads
    joined; or no signal was delivered before, every start succeeded, and [run]
    waits with all components running: a thread is free, connections are
    accepted, and each session that waits for its client has answered every
    complete line it was sent.  And [run] does not leave its wait before the
    callback was called for a signal. *)
Theorem service_ends s :
  (∀ s0, opened connection_string database = Some s0 →
     honest storage_failure (records s0)) →
  rtc step initial s →
  (∃ bound, ∀ n s', nsteps move n s s' → (n ≤ bound)%nat) ∧
  (∀ s', rtc move s s' → (∀ s'', ¬ move s' s'') →
     over s' ∨
     waits s' ∧ first_failure attempt = None ∧
     SignalHandler.pending (signals s) = [] ∧ SignalHandler.called (signals s) = [] ∧
     ∀ id c, TcpJsonServer.sessions (server s') !! id = Some c →
       Session.doing (session c) = Session.Reading →
       ∃ log rest, incoming c = unlines log.*1 +:+ rest ∧
         find_char line_feed rest = None ∧ outgoing c = responses log) ∧
  (first_failure attempt = None → AwaitShutdown ∉ todo s →
     SignalHandler.called (signals s) ≠ []).
Proof.
  intros Hm Hrun. pose proof (reached_ok s Hrun) as Hok.
  pose proof (steps_shutdown _ _ _ _ _ _ _ _ _ Hrun) as Hsteps.
  destruct (initial_trace attempt) as [_ Htrace].
  split_and!.
  - exists (service_weight s). intros n s' Hn.
    apply service_moves_bounded in Hn; [lia|done].
  - intros s' Hmoves Hrest.
    pose proof (moves_ok _ _ _ _ _ _ _ _ _ Hmoves Hok) as Hok'.
    pose proof (moves_shutdown _ _ _ _ _ _ _ _ _ Hmoves) as Hsh.
    destruct (resting_cases steady_clock _ _ _ _ _ _ (failing_returns Hm) s' Hok' Hrest)
      as [?|[Hw Hq]]; [by left|right].
    destruct (waits_calls _ Hw) as [rest Hcs].
    assert (AwaitShutdown ∈ Shutdown.todo (shutdown_of s')) as Hin
      by (unfold shutdown_of; simpl; rewrite Hcs; by left).
    destruct (run_noisy attempt _ _ Hsh (ok_life Hok) Hin) as [Hin0 Hn].
    split; [done|]. split.
    { apply Htrace. by eapply run_todo. }
    destruct (not_noisy (shutdown_of s)) as [Hp Hc]; [by auto|]. split_and!; [done..|].
    by apply waits_answered.
  - intros Hf Hno.
    destruct (run_waits attempt _ _ Hsteps (initial_lifecycle _)) as [?|?]; [|done..].
    left. by apply Htrace.
Qed.
End service.

(** ** On a reliable database *)

Section reliable.
Context `{lib : Libpq.Library} `{doc : !Documented}.
Context `{protocol : Protocol.Library} `{total : !Protocol.Total}.
Context `{math : CalculatorMath.Library} `{codes : !CalculatorMath.Codes}
  `{safe : !CalculatorMath.Safe} `{symmetric : !CalculatorMath.Symmetric}.
Variable steady_clock : nat → Z.

(** The whole service is right.  [run] is started with any configuration and
    any outcome of its calls, on a database from which the storage, if it opens,
    is available with sound records.  In every state that its threads, the signals
    and the clients can lead to, each session has sent, for the first lines it
    received, in their order and one for each, response texts that are right: for
    a line that parses to a request with operands in the range of [int], the text
    of a response with the value, or the error status, of the request's checks
    and calculation.  No line is refused because of a stop, since the network is
    stopped before the storage. *)
Lemma service_answers_right config connection_string database logger_error
    mask_result listen s id c :
  (∀ s0, opened connection_string database = Some s0 →
     serving s0 ∧ sound (records s0)) →
  rtc (Service.step steady_clock config connection_string database logger_error
         mask_result listen)
    (Service.initial config connection_string database logger_error mask_result listen)
    s →
  TcpJsonServer.sessions (server s) !! id = Some c →
  ∃ log : list (string * string),
    log.*1 = take (length log) (getlines (incoming c)) ∧
    Forall (λ '(line, text), right_response line text) log ∧
    outgoing c `prefix_of` responses log.
Proof.
  intros Hs Hrun%reached_ok Hid.
  destruct (connection_log _ _ _ _ _ _ _ right_response s id c Hrun Hid)
    as (log & rest & _ & Hl & Hx & Hp & _); [|by exists log].
  intros s0 line text Hs0 Ha. destruct (Hs s0 Hs0) as [Hserv Hsound].
  destruct (answered_honest (service_honest := reliable_honest) steady_clock _ s0 line
    text Hserv (sound_honest _ _ Hsound) Ha) as [?|(req & response & timing & _ & Hf & _)];
    [done|].
  by destruct Hf as [e []|d what []].
Qed.
End reliable.
