(* ===== verification/ServiceMemory.v ===== *)
(** * What the whole service remembers

    The invariant of [ServiceCorrect] extended with what the sessions' lines
    left in the storage: in every state of the service, each line that was
    answered has its key there. *)

From stdpp Require Import base tactics strings list gmap relations.
From S2P Require Import Prelude.
From S2P Require Import Types.
From S2P Require Import CppString.
From S2P Require Import Checker.
From S2P Require Import Abacus.
From S2P Require Import OperationKey.
From S2P Require Import CacheRepository.
From S2P Require Import Postgres.
From S2P Require Import OperationStorage.
From S2P Require Import StorageService.
From S2P Require Import RequestHandler.
From S2P Require Import LineProtocol.
From S2P Require Import HandlerSafety.
From S2P Require Import HandlerCorrect.
From S2P Require Import HandlerTheorems.
From S2P Require Import Restart.
From S2P Require Import HandlerConcurrent.
From S2P Require Import HandlerFailing.
From S2P Require Import StorageWorker.
From S2P Require Import WorkerCorrect.
From S2P Require Import WorkerStorage.
From S2P Require Import ServerSystem.
From S2P Require Import SystemCorrect.
From S2P Require Import SystemLive.
From S2P Require Import SystemMemory.
From S2P Require Import SystemTheorems.
From S2P Require Import ServerConfig.
From S2P Require Import TcpServer.
From S2P Require Import TcpCorrect.
From S2P Require Import ServerCorrect.
From S2P Require Import ServerSessions.
From S2P Require Import SignalHandler.
From S2P Require Import Application.
From S2P Require Import Shutdown.
From S2P Require Import Service.
From S2P Require Import ServiceCorrect.
From S2P Require Import ServiceLive.
From S2P Require Import ServiceTheorems.
Import Protocol.
Import RequestHandler.
Import ServiceApplication.
Import Service.

(** ** The invariant *)

Section memory.
Context `{lib : Libpq.Library}.
Context `{protocol : Protocol.Library} `{total : !Protocol.Total}.
Context `{math : CalculatorMath.Library} `{symmetric : !CalculatorMath.Symmetric}.
Context {asks : storage_call → Prop}
  `{service_honest : !HonestStorage StorageService.t no_failure asks}.
Variable steady_clock : nat → Z.
Variable config : ServerConfig.t.
Variable connection_string : string.
Variable database : Libpq.world.
Variable logger_error : option exn.
Variable mask_result : Z.
Variable listen : bool → string → Z → (asio_call * exn) + Z.

Abbreviation move := (Service.move steady_clock config connection_string database
  logger_error mask_result listen).
Abbreviation step := (Service.step steady_clock config connection_string database
  logger_error mask_result listen).
Abbreviation service_ok := (service_ok steady_clock config connection_string database
  logger_error mask_result listen).
Abbreviation opened := (opened connection_string database).
Abbreviation is_serving := (is_serving steady_clock connection_string database).
Abbreviation clients_of v := (ServerSystem.clients (TcpJsonServer.handler_state v)).
(** [handle] as a session sees it: a completion that calls no handler has no
    request. *)
Definition serve_request (text : string) :
    prog (thrown ProtocolError) (option ServerSystem.client) string := λ request,
  match request with
  | Some c => let '(o, c') := serve_running steady_clock text c in (o, Some c')
  | None => (Undef, None)
  end.

(** What a request left and was answered. *)
Definition remembered (held now : gset string) (request : option ServerSystem.client) :
    Prop :=
  match request with
  | Some c => request_memory steady_clock held now (ServerSystem.request c)
  | None => True
  end.

(** A line and the response of a request that is remembered. *)
Definition line_memory (held now : gset string) (x : string * string) : Prop :=
  ∃ request, remembered held now request ∧
    (serve_request (strip_cr x.1) request).1 = Ret x.2.

(** The state [hl] in which the storage last served: the state [h] itself, until
    the storage thread is joined. *)
Inductive last_served (cs : list call) (h hl : ServerSystem.t) : Prop :=
  | last_now : h = hl → last_served cs h hl
  | last_joined w :
      Start Storage ∉ cs →
      StorageWorker.worker (ServerSystem.storage_ h) = StorageWorker.NoThread w →
      StorageWorker.worker (ServerSystem.storage_ hl) = StorageWorker.Returned w →
      last_served cs h hl.

(** The keys that the storage held at some time, by the service that was opened;
    the requests that there were then, and for each session the first line that is
    handled after it. *)
Variable held : StorageService.t → gset string.
Variable old : gset nat.
Variable first : nat → nat.

Abbreviation system_memory s0 := (system_memory (fails := no_failure) (held s0) old s0).

(** The lines of a session from the first one on are remembered; the request that
    its handler is in is for such a line, if it is no old one. *)
Record log_kept (now : gset string) (s0 : StorageService.t) (id : nat) (c : connection)
    (log : list (string * string)) : Prop := mk_log_kept {
  log_progress : progress serve_request (λ _, True)
    (ServerConfig.max_message_size config) (incoming c) (outgoing c) (session c) log;
  log_lines i x : log !! i = Some x → (first id ≤ i)%nat → line_memory (held s0) now x;
  log_calling k chunk : calling c = Some (k, chunk) → k ∈ old → (length log < first id)%nat
}.

Definition session_kept (now : gset string) (s0 : StorageService.t) (id : nat)
    (c : connection) : Prop :=
  ∃ log, log_kept now s0 id c log.

(** The storage was opened with [s0] and was given the jobs [js] since. *)
Record lines_kept (s : Service.t) (s0 : StorageService.t) (js : list StorageWorker.job)
    (hl : ServerSystem.t) : Prop := mk_lines_kept {
  kept_opened : opened = Some s0;
  kept_system : system_memory s0 js hl;
  kept_last : last_served (todo s) (TcpJsonServer.handler_state (server s)) hl;
  kept_sessions : map_Forall (session_kept (keys_after s0 js) s0)
    (TcpJsonServer.sessions (server s))
}.

(** At first, the time is the start. *)
Record no_line (s : Service.t) : Prop := mk_no_line {
  no_sessions : TcpJsonServer.sessions (server s) = ∅;
  first_keys s0 : held s0 ⊆ keys s0;
  first_requests : old = ∅
}.

Definition service_memory (s : Service.t) : Prop :=
  no_line s ∨ ∃ s0 js hl, lines_kept s s0 js hl.

Lemma line_memory_mono h now now' x :
  now ⊆ now' → line_memory h now x → line_memory h now' x.
Proof.
  intros Hsub ([r|] & Hr & Hx); [|by exists None]. exists (Some r). split; [|done].
  simpl in *. by eapply request_memory_mono.
Qed.

Lemma sessions_kept_mono now now' s0 (cs : gmap nat connection) :
  now ⊆ now' → map_Forall (session_kept now s0) cs → map_Forall (session_kept now' s0) cs.
Proof.
  intros Hsub Hcs id c Hid. destruct (Hcs id c Hid) as (log & [Hp Hl Hc]).
  exists log. split; [done| |done]. intros i x Hx Hi.
  by eapply line_memory_mono, Hl.
Qed.

(** The storage thread is not behind its last service while it serves. *)
Lemma ran_no_thread s0 h w :
  ran steady_clock connection_string s0 h →
  StorageWorker.worker (ServerSystem.storage_ h) ≠ StorageWorker.NoThread w.
Proof. intros Hran Hw. apply ran_worker in Hran. by rewrite Hw in Hran. Qed.

Lemma serving_last cs h hl : is_serving h → last_served cs h hl → h = hl.
Proof.
  intros (_ & s0 & _ & Hran) [?|w _ Hw _]; [done|].
  by destruct (ran_no_thread s0 h w Hran).
Qed.

Lemma linked_no_thread s0 js h w :
  linked s0 js h →
  StorageWorker.worker (ServerSystem.storage_ h) ≠ StorageWorker.NoThread w.
Proof.
  intros [[completed _ _ Hp] _] Hw. by rewrite Hw in Hp.
Qed.

(** ** The steps that leave the sessions alone *)

Lemma last_served_tail cs cs' h hl :
  (∀ x, x ∈ cs' → x ∈ cs) → last_served cs h hl → last_served cs' h hl.
Proof. intros Hsub [?|w Hcs Hw Hw']; [by left|eright; eauto]. Qed.

(** The main thread's calls on the network, and what is outside of it. *)
Lemma same_memory cs cs' g g' v v' :
  (∀ x, x ∈ cs' → x ∈ cs) →
  TcpJsonServer.sessions v' = TcpJsonServer.sessions v →
  TcpJsonServer.handler_state v' = TcpJsonServer.handler_state v →
  service_memory (mk cs g v) → service_memory (mk cs' g' v').
Proof.
  unfold service_memory; cbn [server]. intros Hsub Hses Hh.
  intros [[]|(s0 & js & hl & [Ho Hs Hl Hc])];
    [left; split; [simpl in *; congruence|done..]|right].
  exists s0, js, hl. cbn [todo server] in *.
  split; cbn [todo server]; rewrite ?Hh, ?Hses; [done|done| |done].
  by eapply last_served_tail.
Qed.

(** The handlers and the storage thread, while it serves or before a session
    started. *)
Lemma handlers_memory cs g v h :
  service_memory (mk cs g v) →
  (∀ hl, last_served cs (TcpJsonServer.handler_state v) hl →
     TcpJsonServer.handler_state v = hl) →
  ServerSystem.step steady_clock (TcpJsonServer.handler_state v) h →
  service_memory (mk cs g (TcpJsonServer.set_handler_state h v)).
Proof.
  unfold service_memory; cbn [server].
  intros [[]|(s0 & js & hl & [Ho Hs Hl Hc])] Hlast Hstep; [by left; split|right].
  cbn [todo server] in *. rewrite <-(Hlast hl Hl) in Hs.
  destruct (step_memory steady_clock (held s0) old s0 js _ h Hs Hstep) as (js' & Hs' & Hsub).
  exists s0, js', h. split; cbn [todo server]; [done|done|by left|].
  by eapply sessions_kept_mono.
Qed.

(** ** The storage *)

Lemma start_storage_memory rest g v w :
  service_memory (mk (Start Storage :: rest) g v) →
  StorageWorker.start (storage_of v) = (Ret (), w) →
  service_memory (mk (Start Storage :: rest) g (set_storage w v)).
Proof.
  intros [[]|(s0 & js & hl & [_ [Hl _ _] Hlast _])] Hstart; [by left; split|exfalso].
  cbn [todo server] in *.
  assert (∃ x, StorageWorker.worker (storage_of v) = StorageWorker.NoThread x) as [x Hx].
  { revert Hstart. unfold StorageWorker.start, StorageWorker.set_stopping; simpl.
    destruct (StorageWorker.worker _) as [x| | | |]; [by exists x|done..]. }
  unfold storage_of in Hx. destruct Hlast as [Hh|y Hno _ _]; [|apply Hno; by left].
  rewrite Hh in Hx. by apply (linked_no_thread _ _ _ x Hl).
Qed.

Lemma stop_storage_memory cs g v :
  service_memory (mk cs g v) →
  service_memory (mk cs g (set_storage (StorageWorker.request_stop (storage_of v)) v)).
Proof.
  intros [[]|(s0 & js & hl & [Ho Hs Hl Hc])]; [by left; split|right].
  cbn [todo server] in *.
  destruct Hl as [Hh|y Hno Hw Hw'].
  - set (h' := ServerSystem.mk (clients_of v) (StorageWorker.request_stop (storage_of v))).
    assert (ServerSystem.step steady_clock hl h') as Hstep.
    { unfold h', storage_of. rewrite Hh. destruct hl. apply ServerSystem.step_stop. }
    destruct (step_memory steady_clock (held s0) old s0 js _ _ Hs Hstep) as (js' & Hs' & Hsub).
    exists s0, js', h'. split; cbn [todo server]; [done|done|by left|].
    by eapply sessions_kept_mono.
  - exists s0, js, hl. split; cbn [todo server]; [done|done| |done]. eright; eauto.
Qed.

Lemma join_storage_memory rest g v w :
  service_ok (mk (Stop Storage :: rest) g v) →
  service_memory (mk (Stop Storage :: rest) g v) →
  StorageWorker.join (storage_of v) = Some w →
  service_memory (mk rest g (set_storage w v)).
Proof.
  intros Hok [[]|(s0 & js & hl & [Ho Hs Hl Hc])] Hjoin; [by left; split|right].
  cbn [todo server] in *. exists s0, js, hl.
  destruct (ordered_head _ _ (ok_ordered Hok)) as [Hno _].
  split; cbn [todo server]; [done|done| |done]. revert Hjoin. unfold StorageWorker.join, storage_of.
  destruct Hl as [Hh|y Hno' Hw Hw'].
  - rewrite Hh. destruct (StorageWorker.worker (ServerSystem.storage_ hl)) as [x| | | |x] eqn:Hx;
      [|done..|].
    + by destruct (linked_no_thread _ _ _ x (system_linked _ _ _ _ _ Hs)).
    + intros [= <-]. eapply (last_joined _ _ _ x); done.
  - rewrite Hw. intros [= <-]. eapply last_joined; eauto.
Qed.

(** ** The network *)

(** While a completion handler runs, the storage serves and remembers. *)
Lemma network_memory s :
  (∀ s0, opened = Some s0 → available s0 ∧ honest no_failure (records s0)) →
  service_ok s → service_memory s → TcpJsonServer.workers_ (server s) ≠ 0%nat →
  ∃ s0 js, lines_kept s s0 js (TcpJsonServer.handler_state (server s)).
Proof.
  intros Hopen Hok Hmem Hw. destruct (ok_workers Hok Hw) as [_ Hserv].
  destruct Hmem as [[Hno Hkeys Hold]|(s0 & js & hl & [Ho Hs Hl Hc])].
  - destruct Hserv as (Hst & s0 & Hs0 & Hran). destruct (Hopen s0 Hs0) as [Ha Hh].
    destruct (steps_memory steady_clock (held s0) old s0 [] _ _
      (started_memory (held s0) old s0 connection_string Ha Hh (Hkeys s0) Hold) Hran)
      as (js & Hs & _).
    exists s0, js. split; [done|done|by left|]. rewrite Hno. apply map_Forall_empty.
  - pose proof (serving_last _ _ _ Hserv Hl) as Heq. subst hl. by exists s0, js.
Qed.

(** A session changes. *)
Lemma set_connection_memory cs g v id d s0 js hl :
  lines_kept (mk cs g v) s0 js hl → session_kept (keys_after s0 js) s0 id d →
  service_memory (mk cs g (set_connection id d v)).
Proof.
  intros [Ho Hs Hl Hc] Hd. right. exists s0, js, hl. split; cbn [todo server] in *;
    [done..|]. by apply map_Forall_insert_2.
Qed.

(** One more completion. *)
Lemma completion_kept now s0 id c request chunk output s :
  session_kept now s0 id c →
  remembered (held s0) now request ∨
    (∃ k chunk', calling c = Some (k, chunk') ∧ k ∈ old) →
  Session.step serve_request request chunk output (session c) s request →
  session_kept now s0 id
    (mk_connection s None (incoming c +:+ chunk) (outgoing c ++ option_list output)).
Proof.
  intros (log & [Hp Hl Hc]) Hr Hstep.
  destruct (step_progress _ _ _ _ _ _ _ _ _ _ _ _ Hp I Hstep) as (new & Hp' & Hnew).
  exists (log ++ option_list new). split; [done| |done].
  intros i x [Hx|[Hlen Hx]]%lookup_app_Some Hi; [by eapply Hl|].
  destruct new as [y|]; simpl in Hx; [|done].
  apply list_lookup_singleton_Some in Hx as [Hlast ->].
  destruct Hr as [Hr|(k & chunk' & Hk & Hold)].
  - exists request. split; [done|by apply Hnew].
  - specialize (Hc k chunk' Hk Hold). lia.
Qed.

Lemma on_read_request n s request s' :
  Session.on_read (serve_running steady_clock) None n s request = (Ret s', request) →
  Session.on_read serve_request None n s (Some request) = (Ret s', Some request).
Proof.
  unfold Session.on_read. case_bool_decide; [by intros [= <-]|].
  destruct (getline _) as [line rest]. simpl.
  destruct (serve_running _ _ _) as [[response|e|] c']; intros; simplify_eq. done.
Qed.

Section opened.
Hypothesis opens : ∀ s0, opened = Some s0 →
  available s0 ∧ honest no_failure (records s0).

Lemma begin_line_memory id chunk cs g v v' :
  service_ok (mk cs g v) → service_memory (mk cs g v) →
  begin_line id chunk v v' → service_memory (mk cs g v').
Proof.
  intros Hok Hmem [c line rest k n Hio Hid Hc Hd Hf Hmax Hk].
  destruct (network_memory _ opens Hok Hmem (io_runs_workers _ Hio))
    as (s0 & js & [Ho Hs Hl Hses]). cbn [todo server] in *.
  set (request := ServerSystem.mk_client (mk_thread (strip_cr line) n []) None).
  set (h' := ServerSystem.mk (<[k:=request]> (clients_of v)) (storage_of v)).
  assert (ServerSystem.step steady_clock (TcpJsonServer.handler_state v) h') as Hstep.
  { unfold h', storage_of. destruct (TcpJsonServer.handler_state v) as [rs w].
    by apply ServerSystem.step_arrive. }
  destruct (step_memory steady_clock (held s0) old s0 js _ h' Hs Hstep) as (js' & Hs' & Hsub).
  apply (set_connection_memory cs g (TcpJsonServer.set_handler_state h' v) id _ s0 js' h').
  - split; cbn [todo server]; [done|done|by left|by eapply sessions_kept_mono].
  - destruct (sessions_kept_mono _ _ _ _ Hsub Hses id c Hid) as (log & [Hp Hlog Hcall]).
    exists log. split; [done|done|]. intros k' chunk' [= <- _] Hin. exfalso.
    apply (memory_old _ _ _ (system_pool _ _ _ _ _ Hs)) in Hin. simpl in Hin.
    rewrite dom_fmap in Hin. by apply not_elem_of_dom in Hk.
Qed.

Lemma answer_line_memory id cs g v v' :
  service_ok (mk cs g v) → service_memory (mk cs g v) →
  answer_line steady_clock id v v' → service_memory (mk cs g v').
Proof.
  intros Hok Hmem [c k chunk request line rest s Hid Hc Hk Hdone Hf Hread].
  pose proof (ok_sessions Hok id c Hid) as Hcon. cbn [server] in *.
  destruct (conn_call Hcon k chunk Hc) as (Hw & Hd & _).
  destruct (ok_workers Hok Hw) as (_ & Hst & _).
  destruct (network_memory _ opens Hok Hmem Hw) as (s0 & js & Hkept).
  pose proof Hkept as [Ho Hs Hl Hses]. cbn [todo server] in *.
  eapply set_connection_memory; [exact Hkept|].
  rewrite <-(app_nil_r (outgoing c)). change [] with (option_list (None (A := string))).
  apply (completion_kept _ _ id c (Some request)); [exact (Hses id c Hid)|..].
  - destruct (decide (k ∈ old)) as [Hold|Hnew]; [right; by exists k, chunk|left].
    exact (done_client_memory steady_clock (held s0) old s0 js _ k request Hs Hk Hnew
      Hdone Hst).
  - eapply Session.step_read; [done|exact Hf|]. by apply on_read_request.
Qed.

Lemma session_event_memory id chunk cs g v v' :
  service_ok (mk cs g v) → service_memory (mk cs g v) →
  session_event id chunk v v' → service_memory (mk cs g v').
Proof.
  intros Hok Hmem [c output s Hio Hid Hc Hstep].
  destruct (network_memory _ opens Hok Hmem (io_runs_workers _ Hio)) as (s0 & js & Hkept).
  eapply set_connection_memory; [exact Hkept|].
  apply (completion_kept _ _ id c None); [|by left|by apply no_handler_step].
  exact (kept_sessions _ _ _ _ Hkept id c Hid).
Qed.

Lemma accept_memory id error cs g v :
  service_ok (mk cs g v) → service_memory (mk cs g v) → io_runs v →
  service_memory (mk cs g (TcpJsonServer.on_accept new_connection id error v)).
Proof.
  intros Hok Hmem Hio. unfold TcpJsonServer.on_accept.
  destruct (TcpJsonServer.running_ v); [|by apply (same_memory cs cs g g v)].
  destruct error; [done|].
  destruct (network_memory _ opens Hok Hmem (io_runs_workers _ Hio)) as (s0 & js & Hkept).
  eapply (set_connection_memory cs g v id); [exact Hkept|].
  pose proof (ok_config _ _ _ _ _ _ _ _ Hok) as Hcf. simpl in Hcf. rewrite Hcf.
  exists []. split; [by apply (progress_made _ _ _ _ _ _ _ EmptyString)|done|done].
Qed.

(** ** The whole service *)

Lemma handler_last cs g v h :
  service_ok (mk cs g v) →
  ServerSystem.move steady_clock (TcpJsonServer.handler_state v) h →
  ∀ hl, last_served cs (TcpJsonServer.handler_state v) hl →
    TcpJsonServer.handler_state v = hl.
Proof.
  intros Hok Hmove hl [?|w _ Hw _]; [done|exfalso].
  revert Hmove. apply all_done_blocked.
  - destruct (ok_storage Hok) as [b Hh _|rest _ _ Hh|e x _ _ Hcl _ _|s0 _ Hran _ _ _
      |x _ _ _ _ _ Hd]; cbn [server] in *.
    + rewrite Hh. intros k c; simpl. by rewrite lookup_empty.
    + by rewrite Hh in Hw.
    + intros k c. by rewrite Hcl, lookup_empty.
    + by destruct (ran_no_thread s0 _ w Hran).
    + done.
  - unfold StorageWorker.thread_main. by rewrite Hw.
Qed.

Lemma move_memory s s' : move s s' → service_ok s → service_memory s → service_memory s'.
Proof.
  assert (∀ (c : call) rest x, x ∈ rest → x ∈ c :: rest) as Htail by (intros; by right).
  destruct 1 as [c rest g v Hc|rest g v|rest g v w Hstart|rest g v o Hp|rest g v
    |rest g v Hcal|rest g v Hr|rest g v Hr Hio|rest g v Hr Hio Hb|rest g v Hst
    |rest g v w Hst Hj|rest g g' v Hs|cs g g' v Hm|cs g v h Hm|id cs g v v' Hb
    |id cs g v v' Ha|id cs g v v' Hcl|cs g v Hio Hpost]; intros Hok Hmem.
  - by eapply same_memory; [apply Htail|..].
  - by eapply same_memory; [apply Htail|..].
  - by apply start_storage_memory.
  - by eapply same_memory; [apply Htail|..].
  - eapply same_memory; [apply Htail|..|exact Hmem]; unfold TcpJsonServer.start;
      (destruct (TcpJsonServer.running_ v); [done|by destruct (listen _ _ _) as [[]|]]).
  - by eapply same_memory; [apply Htail|..].
  - by apply (same_memory (Stop Server :: rest) (Stop Server :: rest) g g v).
  - by apply (same_memory (Stop Server :: rest) (Stop Server :: rest) g g v).
  - by apply (same_memory (Stop Server :: rest) rest g g v); [apply Htail|..].
  - by apply stop_storage_memory.
  - by eapply join_storage_memory.
  - eapply same_memory; [|done..|exact Hmem]. destruct (Shutdown.stop_returned g'); auto.
  - by apply (same_memory cs cs g g' v).
  - apply handlers_memory; [done| |by apply ServerSystem.step_move].
    by eapply handler_last.
  - by eapply begin_line_memory.
  - by eapply answer_line_memory.
  - eapply session_event_memory; [exact Hok|exact Hmem|by apply close_event].
  - by apply (same_memory cs cs g g v).
Qed.

Lemma step_memory_ok s s' : step s s' → service_ok s → service_memory s → service_memory s'.
Proof.
  destruct 1 as [s s' Hmove|signal cs g v Hin|id error cs g v Hio Ha Hid
    |id chunk cs g v v' Hb|id chunk cs g v v' He]; intros Hok Hmem.
  - by eapply move_memory.
  - by apply (same_memory cs cs g _ v).
  - by apply accept_memory.
  - by eapply begin_line_memory.
  - by eapply session_event_memory.
Qed.

Lemma run_memory s s' :
  rtc step s s' → service_ok s → service_memory s → service_memory s'.
Proof.
  induction 1 as [|s s1 s' Hstep _ IH]; [done|]. intros Hok Hmem.
  apply IH; [by eapply step_ok|by eapply step_memory_ok].
Qed.
End opened.
End memory.

(** ** From a moment on *)

(** The lines of a session that were answered or are being answered. *)
Definition begun (c : connection) : nat :=
  match calling c, Session.doing (session c) with
  | None, Session.Reading => length (outgoing c)
  | _, _ => S (length (outgoing c))
  end.

Definition begun_in `{lib : Libpq.Library} (s : Service.t) (id : nat) : nat :=
  match TcpJsonServer.sessions (server s) !! id with
  | Some c => begun c
  | None => 0
  end.

Section moments.
Context `{lib : Libpq.Library}.
Context `{protocol : Protocol.Library} `{total : !Protocol.Total}.
Context `{math : CalculatorMath.Library} `{symmetric : !CalculatorMath.Symmetric}.
Context {asks : storage_call → Prop}
  `{service_honest : !HonestStorage StorageService.t no_failure asks}.
Variable steady_clock : nat → Z.
Variable config : ServerConfig.t.
Variable connection_string : string.
Variable database : Libpq.world.
Variable logger_error : option exn.
Variable mask_result : Z.
Variable listen : bool → string → Z → (asio_call * exn) + Z.

Abbreviation lines_kept := (lines_kept steady_clock config connection_string database).
Abbreviation session_kept := (session_kept steady_clock config).
Abbreviation step := (Service.step steady_clock config connection_string database
  logger_error mask_result listen).
Abbreviation service_ok := (service_ok steady_clock config connection_string database
  logger_error mask_result listen).

(** A line that a session answered. *)
Lemma answered_line_memory held old first now s0 id c i line text :
  session_kept held old first now s0 id c → (first id ≤ i)%nat →
  getlines (incoming c) !! i = Some line → outgoing c !! i = Some text →
  ∃ r answer, text = TcpCorrect.ended answer ∧ request_json r = strip_cr line ∧
    result_of steady_clock r = Ret answer ∧
    request_memory steady_clock (held s0) now r.
Proof.
  intros (log & [Hp Hlog _]) Hfirst Hline Htext.
  destruct (progress_log _ _ _ _ _ _ _ Hp) as (rest & _ & Hl & _ & Hsent & _).
  pose proof (prefix_lookup_Some _ _ _ _ Htext Hsent) as Hi.
  unfold responses in Hi. rewrite list_lookup_fmap in Hi.
  destruct (log !! i) as [[line' answer]|] eqn:Hx; [|done]. injection Hi as <-.
  assert (line' = line) as ->.
  { assert (log.*1 !! i = Some line') as H1 by (by rewrite list_lookup_fmap, Hx).
    pose proof (lookup_lt_Some _ _ _ Hx) as Hlt.
    rewrite Hl, lookup_take_lt in H1 by done. congruence. }
  destruct (Hlog i _ Hx Hfirst) as ([r|] & Hr & Ha); [|done].
  simpl in Hr, Ha. unfold serve_running in Ha. destruct (decide _) as [Hjson|]; [|done].
  by exists (ServerSystem.request r), answer.
Qed.

Lemma log_begun held old first now s0 id c log :
  log_kept steady_clock config held old first now s0 id c log →
  (calling c ≠ None → Session.doing (session c) = Session.Reading) →
  (length log ≤ begun c)%nat ∧ (calling c ≠ None → (length log < begun c)%nat).
Proof.
  intros [Hp _ _] Hc.
  destruct (progress_log _ _ _ _ _ _ _ Hp) as (rest & _ & _ & _ & _ & Hlen & Hr).
  assert (Session.doing (session c) = Session.Reading → length log = length (outgoing c))
    as Hreading.
  { intros Hd. destruct (Hr Hd) as [-> _]. unfold responses. by rewrite length_fmap. }
  unfold begun. destruct (calling c) as [p|] eqn:Hcall.
  - rewrite Hreading by (by apply Hc). lia.
  - destruct (Session.doing (session c)); [rewrite Hreading by done|..]; (split; [lia|done]).
Qed.

(** What was remembered at a moment is the start of what is remembered after it. *)
Lemma kept_from held old first s s0 js hl :
  service_ok s → lines_kept held old first s s0 js hl →
  lines_kept (λ _, keys_after s0 js) (dom (ServerSystem.clients hl)) (begun_in s) s s0 js hl.
Proof.
  intros Hok [Ho Hs Hl Hses].
  split; [done|by eapply memory_from|done|]. intros id c Hid.
  destruct (Hses id c Hid) as (log & Hlog).
  destruct (log_begun _ _ _ _ _ _ _ _ Hlog) as [Hlen Hcall].
  { intros Hc. destruct (calling c) as [[k chunk]|] eqn:Hk; [|done].
    by destruct (conn_call (ok_sessions Hok id c Hid) k chunk Hk) as (_ & ? & _). }
  exists log. unfold begun_in.
  split; [apply (log_progress _ _ _ _ _ _ _ _ _ _ Hlog)|..]; rewrite Hid.
  - intros i x Hx Hi. apply lookup_lt_Some in Hx. lia.
  - intros k chunk Hk _. apply Hcall. by rewrite Hk.
Qed.

Hypothesis opens : ∀ s0, opened connection_string database = Some s0 →
  available s0 ∧ honest no_failure (records s0).

(** A session is in the memory of the whole run. *)
Lemma reached_kept s id c :
  rtc step (Service.initial config connection_string database logger_error mask_result
              listen) s →
  TcpJsonServer.sessions (server s) !! id = Some c →
  ∃ s0 js hl, lines_kept keys ∅ (λ _, 0%nat) s s0 js hl.
Proof.
  intros Hrun Hid.
  assert (service_memory steady_clock config connection_string database keys ∅
    (λ _, 0%nat) s) as [[Hno _ _]|]; [|by rewrite Hno, lookup_empty in Hid|done].
  eapply run_memory; [exact opens|exact Hrun|apply initial_service_ok|by left].
Qed.

(** ... and in that of the run from a moment on. *)
Lemma later_kept s s' id c held old first s0 js hl :
  service_ok s → lines_kept held old first s s0 js hl →
  rtc step s s' → TcpJsonServer.sessions (server s') !! id = Some c →
  ∃ js' hl', lines_kept (λ _, keys_after s0 js) (dom (ServerSystem.clients hl))
    (begun_in s) s' s0 js' hl'.
Proof.
  intros Hok Hkept Hrun Hid.
  assert (service_memory steady_clock config connection_string database
    (λ _, keys_after s0 js) (dom (ServerSystem.clients hl)) (begun_in s) s')
    as [[Hno _ _]|(s1 & js' & hl' & Hkept')].
  - eapply run_memory; [exact opens|exact Hrun|exact Hok|right].
    exists s0, js, hl. by eapply kept_from.
  - by rewrite Hno, lookup_empty in Hid.
  - assert (s1 = s0) as ->.
    { pose proof (kept_opened _ _ _ _ _ _ _ _ _ _ _ Hkept).
      pose proof (kept_opened _ _ _ _ _ _ _ _ _ _ _ Hkept'). congruence. }
    eauto.
Qed.
End moments.

(** ** In one life of the process *)

Section reliable.
Context `{lib : Libpq.Library} `{doc : !Documented}.
Context `{protocol : Protocol.Library} `{total : !Protocol.Total}.
Context `{math : CalculatorMath.Library} `{codes : !CalculatorMath.Codes}
  `{safe : !CalculatorMath.Safe} `{symmetric : !CalculatorMath.Symmetric}.

(** C2: a calculation is made once, for all clients.  On a database from which the
    storage opens available and with sound records, with any configuration, and
    with the threads, the signals, the connections and the bytes in any order: once
    a session has sent the response to a line that parses to a request that passes
    the checks, every line with the same cache key (the same operands, in either
    order for a sum or a product) whose handling begins after that moment, in any
    session, is answered from the cache, with the value, or the error status, of
    that line's own checks and calculation. *)
Theorem service_remembers steady_clock config cs database logger_error mask_result listen
    s1 id1 c1 i1 line1 text1 req1 d1 k s2 id2 c2 i2 line2 text2 req2 d2 :
  (∀ s0, opened cs database = Some s0 → serving s0 ∧ sound (records s0)) →
  rtc (Service.step steady_clock config cs database logger_error mask_result listen)
    (Service.initial config cs database logger_error mask_result listen) s1 →
  TcpJsonServer.sessions (server s1) !! id1 = Some c1 →
  getlines (incoming c1) !! i1 = Some line1 → outgoing c1 !! i1 = Some text1 →
  parse_request (strip_cr line1) = inr req1 → to_calculator_data req1 = Ret d1 →
  check_arguments d1 = Ret () → request_key d1 = Ret k →
  rtc (Service.step steady_clock config cs database logger_error mask_result listen)
    s1 s2 →
  TcpJsonServer.sessions (server s2) !! id2 = Some c2 → (begun_in s1 id2 ≤ i2)%nat →
  getlines (incoming c2) !! i2 = Some line2 → outgoing c2 !! i2 = Some text2 →
  parse_request (strip_cr line2) = inr req2 → to_calculator_data req2 = Ret d2 →
  operands req2 ≠ [] → request_key d2 = Ret k →
  ∃ response timing,
    text2 = TcpCorrect.ended (render (set_timing_info timing
      (set_result_source CACHE response))) ∧
    answers (Protocol.request_id req2) d2 (set_result_source CACHE response).
Proof.
  intros Hopen Hrun1 Hid1 Hl1 Ht1 Hp1 Hd1 Hchk Hk1 Hrun2 Hid2 Hi2 Hl2 Ht2 Hp2 Hd2 Hops Hk2.
  assert (∀ s0, opened cs database = Some s0 →
    HandlerFailing.available (HonestStorage := reliable_honest) s0 ∧
    honest no_failure (records s0)) as Hopens.
  { intros s0 Hs0. destruct (Hopen s0 Hs0). split; [done|by apply sound_honest]. }
  pose proof (reached_ok _ _ _ _ _ _ _ s1 Hrun1) as Hok1.
  destruct (reached_kept _ _ _ _ _ _ _ Hopens s1 id1 c1 Hrun1 Hid1) as (s0 & js & hl & Hkept1).
  destruct (answered_line_memory _ _ _ _ _ _ _ _ _ _ _ _
    (kept_sessions _ _ _ _ _ _ _ _ _ _ _ Hkept1 id1 c1 Hid1) (Nat.le_0_l i1) Hl1 Ht1)
    as (r1 & answer1 & _ & Hjson1 & _ & Hmem1).
  rewrite <-Hjson1 in Hp1. destruct (Hmem1 req1 d1 k Hp1 Hd1 Hk1) as [Hin _].
  destruct (later_kept _ _ _ _ _ _ _ Hopens s1 s2 id2 c2 _ _ _ s0 js hl Hok1 Hkept1
    Hrun2 Hid2) as (js' & hl' & Hkept2).
  destruct (answered_line_memory _ _ _ _ _ _ _ _ _ _ _ _
    (kept_sessions _ _ _ _ _ _ _ _ _ _ _ Hkept2 id2 c2 Hid2) Hi2 Hl2 Ht2)
    as (r2 & answer2 & -> & Hjson2 & Hres2 & Hmem2).
  rewrite <-Hjson2 in Hp2. destruct (Hmem2 req2 d2 k Hp2 Hd2 Hk2) as [_ Hcached].
  destruct (Hcached (Hin Hchk)) as (response & Hres & Ha).
  exists response, (timing_at steady_clock (reads r2)). split; [congruence|by apply Ha].
Qed.
End reliable.
