(* ===== verification/ServiceRun.v ===== *)
(** * Runs of the whole service by hand

    A schedule of the threads and of what comes from outside, carried out; a
    service on a table from its start to its end; and the theorems on it. *)

From stdpp Require Import base tactics strings list gmap relations.
From S2P Require Import Prelude.
From S2P Require Import Types.
From S2P Require Import CppString.
From S2P Require Import Checker.
From S2P Require Import Abacus.
From S2P Require Import OperationKey.
From S2P Require Import CacheRepository.
From S2P Require Import Postgres.
From S2P Require Import OperationStorage.
From S2P Require Import StorageService.
From S2P Require Import RequestHandler.
From S2P Require Import LineProtocol.
From S2P Require Import HandlerSafety.
From S2P Require Import HandlerCorrect.
From S2P Require Import HandlerTheorems.
From S2P Require Import Restart.
From S2P Require Import HandlerConcurrent.
From S2P Require Import HandlerFailing.
From S2P Require Import StorageOutage.
From S2P Require Import StorageWorker.
From S2P Require Import ServerSystem.
From S2P Require Import SystemLive.
From S2P Require Import SystemTheorems.
From S2P Require Import ServerConfig.
From S2P Require Import TcpServer.
From S2P Require Import TcpCorrect.
From S2P Require Import ServerCorrect.
From S2P Require Import ServerSessions.
From S2P Require Import SignalHandler.
From S2P Require Import Application.
From S2P Require Import Shutdown.
From S2P Require Import Service.
From S2P Require Import ServiceCorrect.
From S2P Require Import ServiceLive.
From S2P Require Import ServiceTheorems.
Import Protocol.
Import RequestHandler.
Import ServiceApplication.
Import Service.

(** Whose turn it is: the main thread, the signal thread, a handler or the storage
    thread, a network thread that takes a line, answers it, finds a write done or
    runs the handler that [stop] posted; a signal, a connection. *)
Inductive service_turn : Type :=
  | Main
  | SignalThread
  | Handler (e : turn)
  | Interrupt (signal : Z)
  | Accept (id : nat)
  | Line (id k n : nat) (chunk : string)
  | Answer (id : nat)
  | Written (id : nat)
  | Posted.

Section turns.
Context `{lib : Libpq.Library}.
Context `{protocol : Protocol.Library} `{math : CalculatorMath.Library}.
Variable steady_clock : nat → Z.
Variable config : ServerConfig.t.
Variable connection_string : string.
Variable database : Libpq.world.
Variable logger_error : option exn.
Variable mask_result : Z.
Variable listen : bool → string → Z → (asio_call * exn) + Z.

Abbreviation attempt :=
  (attempt config connection_string database logger_error mask_result listen).
Abbreviation step := (Service.step steady_clock config connection_string database
  logger_error mask_result listen).

#[export] Instance io_runs_dec v : Decision (io_runs v).
Proof. unfold io_runs. apply _. Defined.

Definition main_turn (s : Service.t) : option Service.t :=
  let '(mk cs g v) := s in
  match cs with
  | [] => None
  | c :: rest =>
      match c with
      | InitLogger | ShutdownLogger => Some (mk rest g v)
      | Start Signals => Some (mk rest (Shutdown.start_signals attempt g) v)
      | Start Storage =>
          match StorageWorker.init_promise (storage_of v) with
          | Some _ => Some (mk rest g v)
          | None =>
              match StorageWorker.start (storage_of v) with
              | (Ret _, w) => Some (mk cs g (set_storage w v))
              | _ => None
              end
          end
      | Start Server => Some (mk rest g (TcpJsonServer.start listen v).2)
      | AwaitShutdown =>
          match SignalHandler.called g with [] => None | _ => Some (mk rest g v) end
      | Stop Server =>
          if TcpJsonServer.running_ v
          then Some (mk cs g (TcpJsonServer.post_close (TcpJsonServer.exchange_running v)))
          else if TcpJsonServer.io_stopped v
          then if decide (busy_count v = 0%nat)
               then Some (mk rest g (TcpJsonServer.join_workers v)) else None
          else Some (mk cs g (TcpJsonServer.io_stop v))
      | Stop Storage =>
          if StorageWorker.stopping (storage_of v)
          then w ← StorageWorker.join (storage_of v); Some (mk rest g (set_storage w v))
          else Some (mk cs g
                 (set_storage (StorageWorker.request_stop (storage_of v)) v))
      | Stop Signals =>
          g' ← SignalHandler.stop_step g;
          Some (mk (if Shutdown.stop_returned g' then rest else cs) g' v)
      end
  end.

Lemma main_turn_step s s' : main_turn s = Some s' → step s s'.
Proof.
  destruct s as [[|c rest] g v]; simpl; [done|]. intros Hs. apply step_move. revert Hs.
  destruct c as [|[]| |[]|].
  - intros [= <-]. apply main_logger. by left.
  - intros [= <-]. apply main_start_signals.
  - destruct (StorageWorker.init_promise _) eqn:Hp.
    + intros [= <-]. by eapply main_storage_started.
    + destruct (StorageWorker.start _) as [[[]| |] w] eqn:Hst; intros [= <-].
      by apply main_start_storage.
  - intros [= <-]. apply main_start_server.
  - destruct (SignalHandler.called g) eqn:Hc; intros [= <-]. apply main_wait. by rewrite Hc.
  - intros (g' & Hg & [= <-])%bind_Some. by apply main_stop_signals.
  - destruct (StorageWorker.stopping _) eqn:Hst.
    + intros (w & Hj & [= <-])%bind_Some. by apply main_join_storage.
    + intros [= <-]. by apply main_stop_storage.
  - destruct (TcpJsonServer.running_ v) eqn:Hr; [intros [= <-]; by apply main_stop_server|].
    destruct (TcpJsonServer.io_stopped v) eqn:Hio; [|intros [= <-]; by apply main_stop_io].
    destruct (decide _); intros [= <-]. by apply main_join_server.
  - intros [= <-]. apply main_logger. by right.
Qed.

#[export] Instance activity_eq_dec : EqDecision Session.activity.
Proof. solve_decision. Defined.

(** No handler has the number [k]. *)
Definition is_new (h : ServerSystem.t) (k : nat) : Prop :=
  k ∉ dom (ServerSystem.clients h).

#[export] Instance is_new_dec h k : Decision (is_new h k).
Proof. unfold is_new. apply _. Defined.

#[export] Instance new_session_dec (v : server_t) id :
  Decision (TcpJsonServer.sessions v !! id = None).
Proof.
  destruct (TcpJsonServer.sessions v !! id); [right|left]; done.
Defined.

Definition line_turn (id k n : nat) (chunk : string) (v : server_t) : option server_t :=
  c ← TcpJsonServer.sessions v !! id;
  '(line, rest) ← find_char line_feed (Session.buffer_ (session c) +:+ chunk);
  if decide (io_runs v ∧ calling c = None ∧ Session.doing (session c) = Session.Reading ∧
    Z.of_nat (String.length line) + 1 ≤ Session.max_message_size_ (session c) ∧
    is_new (TcpJsonServer.handler_state v) k)
  then Some (set_connection id (mk_connection (session c) (Some (k, chunk))
                                  (incoming c) (outgoing c))
         (TcpJsonServer.set_handler_state
            (ServerSystem.mk
               (<[k := ServerSystem.mk_client (mk_thread (strip_cr line) n []) None]>
                  (ServerSystem.clients (TcpJsonServer.handler_state v)))
               (storage_of v)) v))
  else None.

Definition answer_turn (id : nat) (v : server_t) : option server_t :=
  c ← TcpJsonServer.sessions v !! id;
  '(k, chunk) ← calling c;
  request ← ServerSystem.clients (TcpJsonServer.handler_state v) !! k;
  '(line, rest) ← find_char line_feed (Session.buffer_ (session c) +:+ chunk);
  if decide (ServerSystem.done_client steady_clock request)
  then
    match Session.on_read (serve_running steady_clock) None
            (Z.of_nat (String.length line) + 1)
            (Session.set_buffer (Session.buffer_ (session c) +:+ chunk) (session c))
            request with
    | (Ret s, _) =>
        Some (set_connection id
                (mk_connection s None (incoming c +:+ chunk) (outgoing c)) v)
    | _ => None
    end
  else None.

Definition written_turn (id : nat) (v : server_t) : option server_t :=
  c ← TcpJsonServer.sessions v !! id;
  match Session.doing (session c) with
  | Session.Writing output =>
      if decide (io_runs v ∧ calling c = None)
      then Some (set_connection id
             (mk_connection (Session.on_written None (session c)) None
                (incoming c +:+ EmptyString) (outgoing c ++ option_list (Some output))) v)
      else None
  | _ => None
  end.

Lemma line_turn_step id k n chunk v v' :
  line_turn id k n chunk v = Some v' → begin_line id chunk v v'.
Proof.
  intros (c & Hc & ([line rest] & Hf & H)%bind_Some)%bind_Some.
  destruct (decide _) as [(? & ? & ? & ? & ?)|]; [|done]. injection H as <-.
  eapply begin_handle; [done..|]. by apply not_elem_of_dom.
Qed.

Lemma answer_turn_step id v v' :
  answer_turn id v = Some v' → answer_line steady_clock id v v'.
Proof.
  intros (c & Hc & ([k chunk] & Hk & (r & Hr & ([line rest] & Hf & H)%bind_Some)%bind_Some)
    %bind_Some)%bind_Some.
  destruct (decide _) as [Hd|]; [|done].
  destruct (Session.on_read _ _ _ _ _) as [[s|e|] r'] eqn:Ho; [|done..].
  assert (r' = r) as ->.
  { revert Ho. unfold Session.on_read, serve_running. case_bool_decide; [by intros [= _ <-]|].
    destruct (getline _). destruct (decide _); [|done].
    destruct (result_of _ _); by intros [= _ <-]. }
  injection H as <-. by eapply answer_handle.
Qed.

Lemma written_turn_step id v v' :
  written_turn id v = Some v' → session_event id EmptyString v v'.
Proof.
  intros (c & Hc & H)%bind_Some.
  destruct (Session.doing (session c)) as [|output|] eqn:Hd; [done| |done].
  destruct (decide _) as [[? ?]|]; [|done]. injection H as <-.
  apply (session_completes id EmptyString v c (Some output)
    (Session.on_written None (session c))); [done..|]. by apply Session.step_written.
Qed.

Definition service_turn_of (e : service_turn) (s : Service.t) : option Service.t :=
  let '(mk cs g v) := s in
  match e with
  | Main => main_turn s
  | SignalThread => g' ← SignalHandler.thread_main g; Some (mk cs g' v)
  | Handler e =>
      match e with
      | Arrive _ _ _ | SystemTheorems.Stop => None
      | _ =>
          h ← system_turn steady_clock e (TcpJsonServer.handler_state v);
          Some (mk cs g (TcpJsonServer.set_handler_state h v))
      end
  | Interrupt signal =>
      if decide (signal ∈ [SignalHandler.SIGINT; SignalHandler.SIGTERM])
      then Some (mk cs (SignalHandler.deliver signal g) v) else None
  | Accept id =>
      if decide (io_runs v ∧ TcpJsonServer.accepting v = true ∧
                 TcpJsonServer.sessions v !! id = None)
      then Some (mk cs g (TcpJsonServer.on_accept new_connection id None v))
      else None
  | Line id k n chunk => v' ← line_turn id k n chunk v; Some (mk cs g v')
  | Answer id => v' ← answer_turn id v; Some (mk cs g v')
  | Written id => v' ← written_turn id v; Some (mk cs g v')
  | Posted =>
      if decide (io_runs v ∧ TcpJsonServer.close_posted v = true)
      then Some (mk cs g (TcpJsonServer.close_acceptor v)) else None
  end.

Fixpoint service_turns (es : list service_turn) (s : Service.t) : option Service.t :=
  match es with
  | [] => Some s
  | e :: rest => s' ← service_turn_of e s; service_turns rest s'
  end.

Lemma handler_turn_move e h h' :
  system_turn steady_clock e h = Some h' →
  match e with Arrive _ _ _ | SystemTheorems.Stop => False | _ => True end →
  ServerSystem.move steady_clock h h'.
Proof.
  destruct h as [cs w], e as [i json n|i|i| |]; simpl; [done|..|done].
  - destruct (cs !! i) as [[h [|]]|] eqn:Hi; [done| |done].
    intros (c & Hc & Hp)%bind_Some _.
    destruct (ServerSystem.post c w) as [[ticket|e|] w'] eqn:Hpost; simplify_eq;
      [by eapply ServerSystem.move_post|by eapply ServerSystem.move_refused].
  - destruct (cs !! i) as [[h [ticket|]]|] eqn:Hi; [|done..].
    intros (r & Hr & Hs)%bind_Some _. simplify_eq. by eapply ServerSystem.move_get.
  - intros (w' & Hw & Hs)%bind_Some _. simplify_eq. by apply ServerSystem.move_worker.
Qed.

Lemma service_turn_step e s s' : service_turn_of e s = Some s' → step s s'.
Proof.
  destruct s as [cs g v], e as [| |e|signal|id|id k n chunk|id|id|].
  - apply main_turn_step.
  - intros (g' & Hg & [= <-])%bind_Some. by apply step_move, signal_thread.
  - intros Hs. apply step_move.
    assert (∃ h, system_turn steady_clock e (TcpJsonServer.handler_state v) = Some h ∧
      s' = mk cs g (TcpJsonServer.set_handler_state h v) ∧
      match e with Arrive _ _ _ | SystemTheorems.Stop => False | _ => True end) as (h & Hh & -> & He).
    { destruct e; [done|..|done]; apply bind_Some in Hs as (h & Hh & [= <-]); by exists h. }
    by eapply handler_move, handler_turn_move.
  - simpl. destruct (decide _); intros [= <-]. by apply step_signal.
  - simpl. destruct (decide _) as [(? & ? & ?)|]; intros [= <-]. by apply step_accept.
  - intros (v' & Hv & [= <-])%bind_Some. by eapply step_line, line_turn_step.
  - intros (v' & Hv & [= <-])%bind_Some.
    by eapply step_move, network_answer, answer_turn_step.
  - intros (v' & Hv & [= <-])%bind_Some. by eapply step_session, written_turn_step.
  - simpl. destruct (decide _) as [[? ?]|]; intros [= <-]. by apply step_move, network_posted.
Qed.

Lemma service_turns_run es s s' : service_turns es s = Some s' → rtc step s s'.
Proof.
  revert s. induction es as [|e es IH]; simpl; intros s Hs; [by simplify_eq|].
  apply bind_Some in Hs as (s1 & H1 & H2).
  eapply rtc_l; [by eapply service_turn_step|by apply IH].
Qed.
End turns.

(** ** A service from its start to its end *)

Definition table_config : ServerConfig.t := ServerConfig.default.

(** The service opens its storage and its network; a client connects, sends a line
    and reads the response. *)
Definition first_line : list service_turn :=
  [Main; Main; Main; Handler Work; Main; Main; Accept 0;
   Line 0 0 0 (ended ("+2,3" +:+ String carriage_return EmptyString));
   Handler (Post 0); Handler Work; Handler Work; Handler (Get 0);
   Handler (Post 0); Handler Work; Handler Work; Handler (Get 0); Answer 0; Written 0].

(** It sends the line with the operands swapped, and the process is interrupted
    while the line is handled; the handler ends and [run] stops everything. *)
Definition last_line : list service_turn :=
  [Line 0 1 2 (ended "+3,2"); Handler (Post 1); Interrupt SignalHandler.SIGINT;
   SignalThread; SignalThread; SignalThread; SignalThread; SignalThread;
   Main; Main; Posted; Main; Handler Work; Handler Work; Handler (Get 1); Answer 0; Main;
   Main; Handler Work; Main; Main; Main; Main; Main; Main; Main; Main].

Definition table_initial : Service.t (lib := TableServer.library) :=
  Service.initial (lib := TableServer.library) table_config EmptyString empty_database
    None 0 any_acceptor.

Definition table_service (es : list service_turn) :
    option (Service.t (lib := TableServer.library)) :=
  service_turns (lib := TableServer.library) (protocol := LineProtocol.library)
    (math := SafeMath.library) clock_1ms table_config EmptyString empty_database None 0
    any_acceptor es table_initial.

Definition table_connection (es : list service_turn) : option connection :=
  s ← table_service es; TcpJsonServer.sessions (server s) !! 0%nat.

(** What the client reads of the two lines; [run] is over.  The write of the second
    response had begun, but no completion handler runs after the stop. *)
Example table_results :
  (c ← table_connection first_line; Some (outgoing c, Session.doing (session c))) =
    Some ([ended "OK 5 calculated"], Session.Reading) ∧
  (c ← table_connection (first_line ++ last_line);
     Some (outgoing c, Session.doing (session c))) =
    Some ([ended "OK 5 calculated"], Session.Writing (ended "OK 5 cache")) ∧
  (s ← table_service (first_line ++ last_line);
     Some (todo s, TcpJsonServer.workers_ (server s),
           SignalHandler.thread_ (signals s), SignalHandler.called (signals s))) =
    Some ([], 0%nat, SignalHandler.NoThread, [SignalHandler.SIGINT]).
Proof. vm_compute. split_and!; reflexivity. Qed.

Abbreviation table_step := (Service.step (lib := TableServer.library)
  (protocol := LineProtocol.library) (math := SafeMath.library) clock_1ms table_config
  EmptyString empty_database None 0 any_acceptor).

Lemma table_run es :
  match table_connection es with Some _ => true | None => false end = true →
  ∃ s c, table_service es = Some s ∧ rtc table_step table_initial s ∧
         TcpJsonServer.sessions (server s) !! 0%nat = Some c.
Proof.
  unfold table_connection. destruct (table_service es) as [s|] eqn:Hs; [|discriminate].
  unfold table_service in Hs. apply service_turns_run in Hs. simpl.
  destruct (TcpJsonServer.sessions (server s) !! 0%nat) as [c|] eqn:Hc; [|discriminate].
  intros _. exists s, c. exact (conj eq_refl (conj Hs Hc)).
Qed.

Abbreviation table_storage :=
  (opened (lib := TableServer.library) EmptyString empty_database).

Lemma table_storage_opened : table_storage = Some demo_storage.
Proof. exact (eq_refl (Some demo_storage) <: table_storage = Some demo_storage). Qed.

Lemma table_opened s0 :
  table_storage = Some s0 →
  serving (ReliableStorage := service_reliable (lib := TableServer.library)
    (doc := TableServer.documented)) s0 ∧
  sound (math := SafeMath.library)
    (records (StorageLaws := service_laws (lib := TableServer.library)) s0).
Proof.
  rewrite table_storage_opened. intros [= <-]. split; [apply demo_serving|apply demo_sound].
Qed.

Lemma table_honest s0 :
  table_storage = Some s0 →
  honest (math := SafeMath.library) storage_failure
    (records (StorageLaws := service_laws (lib := TableServer.library)) s0).
Proof. intros [_ Hs]%table_opened. by apply sound_honest. Qed.

Example service_answers_right_witness :
  ∃ s c log, table_service first_line = Some s ∧
    TcpJsonServer.sessions (server s) !! 0%nat = Some c ∧
    log.*1 = take (length log) (getlines (incoming c)) ∧
    Forall (λ '(line, text), right_response (protocol := LineProtocol.library)
      (total := LineProtocol.total) (math := SafeMath.library) line text) log ∧
    outgoing c `prefix_of` responses log.
Proof.
  destruct (table_run first_line) as (s & c & Hs & Hrun & Hc); [vm_compute; reflexivity|].
  destruct (service_answers_right (doc := TableServer.documented)
    (total := LineProtocol.total) (codes := SafeMath.codes) (safe := SafeMath.safe)
    (symmetric := SafeMath.symmetric) clock_1ms table_config EmptyString empty_database
    None 0 any_acceptor s 0 c table_opened Hrun Hc) as (log & Hl & Hx & Hp).
  exists s, c, log. exact (conj Hs (conj Hc (conj Hl (conj Hx Hp)))).
Defined.

Example service_never_wrong_witness :
  ∃ s c log, table_service (first_line ++ last_line) = Some s ∧
    TcpJsonServer.sessions (server s) !! 0%nat = Some c ∧
    log.*1 = take (length log) (getlines (incoming c)) ∧
    outgoing c `prefix_of` responses log.
Proof.
  destruct (table_run (first_line ++ last_line)) as (s & c & Hs & Hrun & Hc);
    [vm_compute; reflexivity|].
  destruct (service_never_wrong (lib := TableServer.library) (total := LineProtocol.total)
    (symmetric := SafeMath.symmetric) clock_1ms table_config EmptyString empty_database
    None 0 any_acceptor s 0 c table_honest Hrun Hc) as (log & Hl & _ & Hp).
  exists s, c, log. exact (conj Hs (conj Hc (conj Hl Hp))).
Defined.

Example service_ends_witness :
  ∃ s bound, table_service first_line = Some s ∧
    ∀ n s', nsteps (Service.move (lib := TableServer.library)
      (protocol := LineProtocol.library) (math := SafeMath.library) clock_1ms
      table_config EmptyString empty_database None 0 any_acceptor) n s s' → (n ≤ bound)%nat.
Proof.
  destruct (table_run first_line) as (s & c & Hs & Hrun & _); [vm_compute; reflexivity|].
  destruct (service_ends (lib := TableServer.library) (total := LineProtocol.total)
    (symmetric := SafeMath.symmetric) clock_1ms table_config EmptyString empty_database
    None 0 any_acceptor s table_honest Hrun) as [[bound Hb] _].
  exists s, bound. exact (conj Hs Hb).
Defined.
