(* ===== verification/ServiceResources.v ===== *)
(** * The whole service releases what [libpq] gave it

    The ledger of [Resources] along the runs of [Service]: whatever the library
    answers, and however the threads, the signals and the clients behave. *)

From stdpp Require Import base tactics strings list gmap relations.
From S2P Require Import Prelude.
From S2P Require Import Types.
From S2P Require Import CppString.
From S2P Require Import Abacus.
From S2P Require Import Postgres.
From S2P Require Import OperationStorage.
From S2P Require Import StorageService.
From S2P Require Import RequestHandler.
From S2P Require Import LineProtocol.
From S2P Require Import HandlerTheorems.
From S2P Require Import Restart.
From S2P Require Import HandlerConcurrent.
From S2P Require Import StorageWorker.
From S2P Require Import WorkerCorrect.
From S2P Require Import Resources.
From S2P Require Import ServerSystem.
From S2P Require Import SystemCorrect.
From S2P Require Import ServerConfig.
From S2P Require Import TcpServer.
From S2P Require Import TcpCorrect.
From S2P Require Import ServerSessions.
From S2P Require Import SignalHandler.
From S2P Require Import Application.
From S2P Require Import Shutdown.
From S2P Require Import Service.
From S2P Require Import ServiceCorrect.
From S2P Require Import ServiceRun.
Import Protocol.
Import RequestHandler.
Import ServiceApplication.
Import Service.

Section resources.
Context `{lib : Libpq.Library} `{tracks : !Tracked}.
Context `{protocol : Protocol.Library} `{math : CalculatorMath.Library}.
Variable steady_clock : nat → Z.
Variable config : ServerConfig.t.
Variable connection_string : string.
Variable database : Libpq.world.
Variable logger_error : option exn.
Variable mask_result : Z.
Variable listen : bool → string → Z → (asio_call * exn) + Z.

Abbreviation move := (Service.move steady_clock config connection_string database
  logger_error mask_result listen).
Abbreviation step := (Service.step steady_clock config connection_string database
  logger_error mask_result listen).

(** What the storage thread of a server holds. *)
Definition server_holds (v : server_t) : Prop :=
  phase_holds (StorageWorker.worker (storage_of v)).

Lemma system_holds h h' :
  ServerSystem.move steady_clock h h' →
  phase_holds (StorageWorker.worker (ServerSystem.storage_ h)) →
  phase_holds (StorageWorker.worker (ServerSystem.storage_ h')).
Proof.
  destruct 1 as [i r c ticket cs w w' _ _ Hp|i r c e cs w w' _ _ Hp
    |i r ticket reply cs w _ _|cs w w' Hw]; cbn [ServerSystem.storage_].
  - rewrite post_enqueue in Hp. by eapply enqueue_holds.
  - rewrite post_enqueue in Hp. by eapply enqueue_holds.
  - done.
  - by eapply thread_main_holds.
Qed.

Lemma start_server_holds v :
  server_holds v → server_holds (TcpJsonServer.start listen v).2.
Proof.
  unfold server_holds, storage_of, TcpJsonServer.start.
  destruct (TcpJsonServer.running_ v); [done|]. by destruct (listen _ _ _) as [[]|].
Qed.

Lemma event_holds id chunk v v' : session_event id chunk v v' → server_holds v → server_holds v'.
Proof. by destruct 1. Qed.

Lemma begin_holds id chunk v v' : begin_line id chunk v v' → server_holds v → server_holds v'.
Proof. by destruct 1. Qed.

Lemma move_holds s s' : move s s' → server_holds (server s) → server_holds (server s').
Proof.
  destruct 1 as [c rest g v Hc|rest g v|rest g v w Hstart|rest g v o Hp|rest g v
    |rest g v Hcal|rest g v Hr|rest g v Hr Hio|rest g v Hr Hio Hb|rest g v Hst
    |rest g v w Hst Hj|rest g g' v Hs|cs g g' v Hm|cs g v h Hm|id cs g v v' Hb
    |id cs g v v' Ha|id cs g v v' Hcl|cs g v Hio Hpost]; cbn [server]; try done.
  - by eapply start_holds.
  - apply start_server_holds.
  - by eapply join_holds.
  - by apply system_holds.
  - by eapply begin_holds.
  - by destruct Ha.
  - by destruct Hcl.
Qed.

Lemma step_holds s s' : step s s' → server_holds (server s) → server_holds (server s').
Proof.
  destruct 1 as [s s' Hmove|signal cs g v Hin|id error cs g v Hio Ha Hid
    |id chunk cs g v v' Hb|id chunk cs g v v' He]; cbn [server].
  - by apply move_holds.
  - done.
  - unfold TcpJsonServer.on_accept. by destruct (TcpJsonServer.running_ v), error.
  - by eapply begin_holds.
  - by eapply event_holds.
Qed.

Lemma run_holds s s' : rtc step s s' → server_holds (server s) → server_holds (server s').
Proof. induction 1; eauto using step_holds. Qed.
End resources.

(** C8: the service releases what [libpq] gives it, exactly once.  Over any
    library, whatever its calls answer, and with any outcome of the calls of [run],
    any signals, connections and bytes in any order: between two moves of the
    storage thread no result is held; while the thread serves, the connection of its
    storage is open and no other is; before it has opened the storage, when that
    failed, when it has returned and at the end of [run] none is; and nothing was
    ever released twice or used for a statement after it was closed. *)
Theorem service_releases (L : Libpq.Library) `{protocol : Protocol.Library}
    `{math : CalculatorMath.Library} steady_clock config connection_string
    (database : Libpq.world (Library := tracked L)) logger_error mask_result listen s :
  clean (ledger database) →
  rtc (Service.step steady_clock config connection_string database logger_error
         mask_result listen)
    (Service.initial config connection_string database logger_error mask_result listen)
    s →
  match StorageWorker.worker (storage_of (server s)) with
  | StorageWorker.Waiting st | StorageWorker.Executing _ _ st =>
      ∃ n c, StorageService.postgres_repository st = Some (n, c) ∧
        Ledger.results (ledger (StorageService.server st)) = ∅ ∧
        Ledger.connections (ledger (StorageService.server st)) = {[n]} ∧
        Ledger.misused (ledger (StorageService.server st)) = false
  | StorageWorker.NoThread w | StorageWorker.Initializing w | StorageWorker.Returned w =>
      Ledger.results (ledger w) = ∅ ∧ Ledger.connections (ledger w) = ∅ ∧
      Ledger.misused (ledger w) = false
  end.
Proof.
  intros Hw Hrun.
  pose proof (run_holds _ _ _ _ _ _ _ _ _ Hrun Hw) as Hs. unfold server_holds in Hs.
  destruct (StorageWorker.worker _) as [w|w|st|n j st|w]; simpl in Hs.
  - by destruct Hs.
  - by destruct Hs.
  - destruct Hs as (n & ([n' c] & Hc & <-) & [Hr Hcon Hm _]). by exists n', c.
  - destruct Hs as (k & ([n' c] & Hc & <-) & [Hr Hcon Hm _]). by exists n', c.
  - by destruct Hs.
Qed.

(** ** The ledger of a service on a table *)

Abbreviation counted := (tracked TableServer.library).

Definition counted_database : Libpq.world (Library := counted) :=
  (empty_database, Ledger.mk 0 ∅ ∅ false).

Definition counted_service (es : list service_turn) : option (Service.t (lib := counted)) :=
  service_turns (lib := counted) (protocol := LineProtocol.library)
    (math := SafeMath.library) clock_1ms table_config EmptyString counted_database None 0
    any_acceptor es (Service.initial (lib := counted) table_config EmptyString counted_database
      None 0 any_acceptor).

Lemma counted_run es s :
  counted_service es = Some s →
  rtc (Service.step (lib := counted) (protocol := LineProtocol.library)
         (math := SafeMath.library) clock_1ms table_config EmptyString counted_database
         None 0 any_acceptor)
    (Service.initial (lib := counted) table_config EmptyString counted_database None 0
       any_acceptor) s.
Proof. apply service_turns_run. Qed.

(** The database of a thread that was joined. *)
Definition joined_world (life : option (Service.t (lib := counted))) :
    option (Libpq.world (Library := counted)) :=
  s ← life;
  match StorageWorker.worker (storage_of (server s)) with
  | StorageWorker.NoThread w => Some w
  | _ => None
  end.

(** What the ledger of a joined thread has issued. *)
Definition issued_by (life : option (Service.t (lib := counted))) : option nat :=
  w ← joined_world life; Some (Ledger.issued (ledger w)).

Lemma four_issued : issued_by (counted_service (first_line ++ last_line)) = Some 4%nat.
Proof.
  exact (eq_refl (Some 4%nat) <:
    issued_by (counted_service (first_line ++ last_line)) = Some 4%nat).
Qed.

(** From the start of the process to its end, one connection and three results,
    of the statements that make and read the table and of one [save]. *)
Example service_releases_witness :
  ∃ s w, counted_service (first_line ++ last_line) = Some s ∧
    StorageWorker.worker (storage_of (server s)) = StorageWorker.NoThread w ∧
    Ledger.issued (ledger w) = 4%nat ∧
    Ledger.results (ledger w) = ∅ ∧ Ledger.connections (ledger w) = ∅ ∧
    Ledger.misused (ledger w) = false.
Proof.
  pose proof four_issued as Hissued.
  destruct (counted_service (first_line ++ last_line)) as [s|] eqn:Hs;
    [|discriminate Hissued].
  apply counted_run in Hs.
  pose proof (service_releases TableServer.library (protocol := LineProtocol.library)
    (math := SafeMath.library) clock_1ms table_config EmptyString counted_database None 0
    any_acceptor s (mk_clean (Ledger.mk 0 ∅ ∅ false) eq_refl eq_refl eq_refl) Hs) as Hheld.
  unfold issued_by, joined_world in Hissued. simpl in Hissued. exists s.
  destruct (StorageWorker.worker (storage_of (server s))) as [w| | | |];
    [|discriminate Hissued..].
  injection Hissued as Hissued.
  exists w. exact (conj eq_refl (conj eq_refl (conj Hissued Hheld))).
Defined.
