(* ===== verification/ServiceLives.v ===== *)
(** * The service across restarts of its process

    The process is run again and again on one database, with any configuration
    each time; what a life of it leaves in the table is right, so that the next
    one starts from right records. *)

From stdpp Require Import base tactics strings list gmap relations.
From S2P Require Import Prelude.
From S2P Require Import Types.
From S2P Require Import CppString.
From S2P Require Import Checker.
From S2P Require Import Abacus.
From S2P Require Import OperationKey.
From S2P Require Import CacheRepository.
From S2P Require Import Postgres.
From S2P Require Import OperationStorage.
From S2P Require Import StorageService.
From S2P Require Import RequestHandler.
From S2P Require Import LineProtocol.
From S2P Require Import HandlerSafety.
From S2P Require Import HandlerCorrect.
From S2P Require Import HandlerTheorems.
From S2P Require Import Restart.
From S2P Require Import HandlerConcurrent.
From S2P Require Import HandlerFailing.
From S2P Require Import StorageWorker.
From S2P Require Import WorkerCorrect.
From S2P Require Import WorkerStorage.
From S2P Require Import ServerSystem.
From S2P Require Import SystemCorrect.
From S2P Require Import SystemLive.
From S2P Require Import SystemTheorems.
From S2P Require Import ServerConfig.
From S2P Require Import TcpServer.
From S2P Require Import TcpCorrect.
From S2P Require Import ServerCorrect.
From S2P Require Import ServerSessions.
From S2P Require Import SignalHandler.
From S2P Require Import Application.
From S2P Require Import Shutdown.
From S2P Require Import Service.
From S2P Require Import ServiceCorrect.
From S2P Require Import ServiceLive.
From S2P Require Import ServiceTheorems.
From S2P Require Import ServiceRun.
Import Protocol.
Import RequestHandler.
Import ServiceApplication.
Import Service.

(** ** A storage whose cache and table are in step *)

(** Records that are saved fit the table and are right. *)
Definition call_sound `{protocol : Protocol.Library} `{math : CalculatorMath.Library}
    (c : storage_call) : Prop :=
  match c with
  | FindCall _ _ _ => True
  | SaveCall r => fits_columns r ∧ agrees sound_record r
  end.

Section in_step.
Context `{lib : Libpq.Library} `{doc : !Documented}.
Context `{protocol : Protocol.Library} `{total : !Protocol.Total}.
Context `{math : CalculatorMath.Library} `{codes : !CalculatorMath.Codes}
  `{safe : !CalculatorMath.Safe} `{symmetric : !CalculatorMath.Symmetric}.
Variable steady_clock : nat → Z.

Abbreviation in_step := (coherent sound_record).

#[export] Instance in_step_honest :
  HonestStorage StorageService.t no_failure call_sound.
Proof.
  refine {| HandlerFailing.available := in_step |}.
  - exact no_failure_std.
  - intros clock t [a x op|r] Ht Hc; [done|]. by apply (calm_saves clock t).
  - intros [a x op|r] s Hs Ha; simpl.
    + split; [done|]. split; [by left|done].
    + destruct Ha as [Hf Ha]. destruct (save_coherent sound_record r s Hs Hf Ha) as [Ho Hs'].
      rewrite service_save in *. simpl in *. split; [done|].
      rewrite Ho. split; [constructor|by left].
Defined.

(** ** What the storage thread leaves *)

Lemma ran_in_step cs s0 h :
  in_step s0 → ran steady_clock cs s0 h →
  ∃ js, reached s0 js (ServerSystem.storage_ h) ∧
        in_step (StorageWorker.replay js s0).2.
Proof.
  intros Hs Hran.
  assert (system_ok (service_honest := in_step_honest) s0 h) as (js & [Hw _] & Hv).
  { eapply run_system_ok; [exact Hran|]. apply started_system_ok; [done|].
    apply sound_honest, Hs. }
  exists js. split; [done|]. apply Hv.
Qed.

(** The database under the storage thread. *)
Definition world_of (w : StorageWorker.t) : Libpq.world :=
  match StorageWorker.worker w with
  | StorageWorker.NoThread w | StorageWorker.Initializing w | StorageWorker.Returned w => w
  | StorageWorker.Waiting s | StorageWorker.Executing _ _ s => StorageService.server s
  end.

Abbreviation good w := (good_table sound_record (table w)).

Lemma ran_returned cs s0 h w :
  in_step s0 → ran steady_clock cs s0 h →
  StorageWorker.worker (ServerSystem.storage_ h) = StorageWorker.Returned w → good w.
Proof.
  intros Hs Hran Hw. destruct (ran_in_step cs s0 h Hs Hran) as (js & [done _ _ Hp] & Hc).
  rewrite Hw in Hp. destruct Hp as (-> & -> & _). rewrite destroy_table.
  by apply coherent_table.
Qed.

Lemma ran_blocked cs s0 h :
  in_step s0 → ran steady_clock cs s0 h →
  StorageWorker.thread_main (ServerSystem.storage_ h) = None →
  good (world_of (ServerSystem.storage_ h)).
Proof.
  intros Hs Hran Hb. destruct (ran_in_step cs s0 h Hs Hran) as (js & Hw & Hc).
  destruct (blocked_reached _ _ _ Hw Hb) as [_ Hwork]. unfold world_of. rewrite Hwork.
  destruct (StorageWorker.stopping _); rewrite ?destroy_table; by apply coherent_table.
Qed.

(** ** Opening the storage *)

(** Connecting leaves the table alone, and a connection that reports to be good is
    available. *)
Definition connects (cs : string) (w : Libpq.world) : Prop :=
  ∀ c w', Libpq.PQconnectdb (c_str cs) w = (c, w') →
    table w' = table w ∧
    ∀ conn, c = Some conn → Libpq.PQstatus conn w' = Libpq.CONNECTION_OK →
      Postgres.available conn w'.

Lemma connect_cases cs w :
  connects cs w →
  match PostgresConnection.connect cs w with
  | (Ret c, w') => table w' = table w ∧ ∃ conn, c = Some conn ∧ Postgres.available conn w'
  | (Throw _, w') => table w' = table w
  | (Undef, _) => False
  end.
Proof.
  unfold connects, PostgresConnection.connect, mbind, prog_bind. intros Hc.
  destruct (Libpq.PQconnectdb (c_str cs) w) as [c w'].
  destruct (Hc c w' eq_refl) as [Ht Ha]. unfold PostgresConnection.ensure_connected.
  destruct c as [conn|]; unfold unwinding; simpl; [|done].
  case_bool_decide as Hst; simpl; [|by rewrite finish_keeps].
  split; [done|]. exists conn. auto.
Qed.

Lemma open_storage_cases cs w :
  connects cs w → good w →
  match StorageWorker.open_storage cs w with
  | (Ret s0, _) => in_step s0
  | (Throw _, w') => table w' = table w
  | (Undef, _) => False
  end.
Proof.
  intros Hc Hg. pose proof (connect_cases cs w Hc) as Hcase.
  unfold StorageWorker.open_storage.
  destruct (PostgresConnection.connect cs w) as [[c|e|] w1]; [|done..].
  destruct Hcase as (Ht & conn & -> & Ha). rewrite <-Ht in Hg.
  destruct (initialize_coherent sound_record conn w1 Ha Hg) as (w2 & -> & Hs & _).
  exact Hs.
Qed.

Lemma opened_in_step cs w s0 :
  connects cs w → good w → opened cs w = Some s0 → in_step s0.
Proof.
  intros Hc Hg. pose proof (open_storage_cases cs w Hc Hg) as Hcase. unfold opened.
  destruct (StorageWorker.open_storage cs w) as [[s|e|] w']; simpl; [|done..].
  by intros [= <-].
Qed.
End in_step.

(** ** Lives of the process *)

Section lives.
Context `{lib : Libpq.Library} `{doc : !Documented}.
Context `{protocol : Protocol.Library} `{total : !Protocol.Total}.
Context `{math : CalculatorMath.Library} `{codes : !CalculatorMath.Codes}
  `{safe : !CalculatorMath.Safe} `{symmetric : !CalculatorMath.Symmetric}.

Abbreviation good w := (good_table sound_record (table w)).

Definition database_of (s : Service.t) : Libpq.world := world_of (storage_of (server s)).

(** A life of the process ends where no thread moves: at the end of [run], or when
    it is killed while it waits.  Each life has a clock, a configuration and an
    environment of its own. *)
Inductive lives : Libpq.world → Libpq.world → Prop :=
  | lives_none w : lives w w
  | lives_next steady_clock config cs logger_error mask_result listen w s w' :
      connects cs w →
      rtc (Service.step steady_clock config cs w logger_error mask_result listen)
        (Service.initial config cs w logger_error mask_result listen) s →
      (∀ s', ¬ Service.move steady_clock config cs w logger_error mask_result listen s s') →
      lives (database_of s) w' → lives w w'.

Section life.
Variable steady_clock : nat → Z.
Variable config : ServerConfig.t.
Variable cs : string.
Variable database : Libpq.world.
Variable logger_error : option exn.
Variable mask_result : Z.
Variable listen : bool → string → Z → (asio_call * exn) + Z.
Hypothesis database_connects : connects cs database.
Hypothesis database_good : good database.

Abbreviation service_ok :=
  (service_ok steady_clock config cs database logger_error mask_result listen).

Lemma left_good w : left_by steady_clock cs database w → good w.
Proof.
  intros [->|e Ho|s0 h Hs0 Hran Hw]; [done| |].
  - pose proof (open_storage_cases cs database database_connects database_good) as Hc.
    rewrite Ho in Hc. by rewrite Hc.
  - eapply ran_returned; [by eapply opened_in_step|exact Hran|done].
Qed.

Lemma resting_good s :
  service_ok s → StorageWorker.thread_main (storage_of (server s)) = None →
  good (database_of s).
Proof.
  intros Hok Hb. unfold database_of, storage_of in *.
  destruct (ok_storage Hok)
    as [b -> _|rest _ _ ->|e w Ho _ _ Hw _|s0 Hs0 Hran _ _ _|w Hl _ _ _ Hw _].
  - done.
  - done.
  - unfold world_of. rewrite Hw. apply left_good. by eapply left_failed.
  - eapply ran_blocked; [by eapply opened_in_step|exact Hran|done].
  - unfold world_of. rewrite Hw. by apply left_good.
Qed.

Lemma opened_sound s0 :
  opened cs database = Some s0 → serving s0 ∧ sound (records s0).
Proof. intros Hs0. apply in_step_serving. by eapply opened_in_step. Qed.
End life.

Lemma lives_good w w' : lives w w' → good w → good w'.
Proof.
  induction 1 as [w|steady_clock config cs logger_error mask_result listen w s w' Hc Hrun
    Hrest _ IH]; [done|]. intros Hg. apply IH.
  eapply (resting_good steady_clock config cs w); [done..| |].
  - by eapply reached_ok.
  - by eapply resting_storage.
Qed.

(** C1: the service is right in every life of its process.  On a database whose table
    holds right records (an empty one, say), the process is run any number of
    times, each time with any configuration and environment, and ends by itself or
    is killed while it waits; connecting to the database leaves its table alone
    and gives available connections.  Then, in the life that follows, with its
    threads, signals, connections and bytes in any order, each session has sent,
    for the first lines it received, in their order and one for each, response
    texts that are right: for a line that parses to a request with operands in the
    range of [int], the text of a response with the value, or the error status,
    of the request's checks and calculation. *)
Theorem service_lives_right w0 w steady_clock config cs logger_error mask_result listen
    s id c :
  good w0 → lives w0 w → connects cs w →
  rtc (Service.step steady_clock config cs w logger_error mask_result listen)
    (Service.initial config cs w logger_error mask_result listen) s →
  TcpJsonServer.sessions (server s) !! id = Some c →
  ∃ log : list (string * string),
    log.*1 = take (length log) (getlines (incoming c)) ∧
    Forall (λ '(line, text), right_response line text) log ∧
    outgoing c `prefix_of` responses log.
Proof.
  intros Hg Hlives Hc. apply (lives_good _ _ Hlives) in Hg.
  apply service_answers_right. by eapply opened_sound.
Qed.
End lives.

(** ** Two lives on a table *)

Section ended.
Context `{lib : Libpq.Library}.
Context `{protocol : Protocol.Library} `{math : CalculatorMath.Library}.
Variable steady_clock : nat → Z.

(** A test that nothing moves any more. *)
Definition ended (s : Service.t) : bool :=
  bool_decide (todo s = []) &&
  bool_decide (is_Some (SignalHandler.thread_main (signals s)) → False) &&
  bool_decide (map_Forall (λ _, ServerSystem.done_client steady_clock)
    (ServerSystem.clients (TcpJsonServer.handler_state (server s)))) &&
  bool_decide (is_Some (StorageWorker.thread_main (storage_of (server s))) → False) &&
  TcpJsonServer.io_stopped (server s) &&
  bool_decide (map_Forall (λ _ c, calling c = None) (TcpJsonServer.sessions (server s))).

Lemma ended_rests config cs database logger_error mask_result listen s s' :
  ended s = true →
  ¬ Service.move steady_clock config cs database logger_error mask_result listen s s'.
Proof.
  unfold ended. rewrite !andb_true_iff, !bool_decide_eq_true.
  intros (((((Hcs & Hsig) & Hcl) & Hst) & Hio) & Hcalls) Hmove.
  destruct Hmove as [| | | | | | | | | | | |cs' g g' v Hm|cs' g v h Hm|id cs' g v v' Hb
    |id cs' g v v' Ha|id cs' g v v' Hc|cs' g v [_ Hruns] _]; simpl in *; try done.
  - rewrite Hm in Hsig. by destruct Hsig.
  - revert Hm. apply all_done_blocked; [exact Hcl|]. unfold storage_of in Hst.
    destruct (StorageWorker.thread_main _); [by destruct Hst|done].
  - destruct Hb as [c line rest k n [_ Hruns]]. congruence.
  - destruct Ha as [c k chunk request line rest s Hid Hc]. by rewrite (Hcalls id c Hid) in Hc.
  - destruct Hc as [c line rest [_ Hruns]]. congruence.
  - congruence.
Qed.
End ended.

Definition life_on (w : TableServer.state) (es : list service_turn) :
    option (Service.t (lib := TableServer.library)) :=
  service_turns (lib := TableServer.library) (protocol := LineProtocol.library)
    (math := SafeMath.library) clock_1ms table_config EmptyString w None 0 any_acceptor es
    (Service.initial (lib := TableServer.library) table_config EmptyString w None 0 any_acceptor).

(** The first life answers a sum and is interrupted; the second finds it. *)
Definition cached_line : list service_turn :=
  [Main; Main; Main; Handler Work; Main; Main; Accept 0; Line 0 0 0 (TcpCorrect.ended "+3,2");
   Handler (Post 0); Handler Work; Handler Work; Handler (Get 0); Answer 0; Written 0].

Definition first_life : option (Service.t (lib := TableServer.library)) :=
  life_on empty_database (first_line ++ last_line).

Definition second_life : option (Service.t (lib := TableServer.library)) :=
  s ← first_life; life_on (database_of (lib := TableServer.library) s) cached_line.

Example second_life_reads :
  (s ← second_life; c ← TcpJsonServer.sessions (server s) !! 0%nat; Some (outgoing c)) =
    Some [TcpCorrect.ended "OK 5 cache"].
Proof. vm_compute. reflexivity. Qed.

Lemma table_connects w :
  connects (lib := TableServer.library) (doc := TableServer.documented) EmptyString w.
Proof.
  intros c w' Hc. injection Hc as <- <-. split; [reflexivity|].
  intros conn _ Hst. revert Hst. destruct w as [[] rows]; simpl; [done|discriminate].
Qed.

Lemma life_on_run w es :
  match life_on w es with Some _ => true | None => false end = true →
  ∃ s, life_on w es = Some s ∧
    rtc (Service.step (lib := TableServer.library) (protocol := LineProtocol.library)
           (math := SafeMath.library) clock_1ms table_config EmptyString w None 0 any_acceptor)
      (Service.initial (lib := TableServer.library) table_config EmptyString w None 0
         any_acceptor) s.
Proof.
  destruct (life_on w es) as [s|] eqn:Hs; [|discriminate]. intros _. exists s.
  split; [reflexivity|]. unfold life_on in Hs. by apply service_turns_run in Hs.
Qed.

Example service_lives_right_witness :
  ∃ s1 s c log, first_life = Some s1 ∧ second_life = Some s ∧
    TcpJsonServer.sessions (server s) !! 0%nat = Some c ∧
    log.*1 = take (length log) (getlines (incoming c)) ∧
    Forall (λ '(line, text), right_response (protocol := LineProtocol.library)
      (total := LineProtocol.total) (math := SafeMath.library) line text) log ∧
    outgoing c `prefix_of` responses log.
Proof.
  destruct (life_on_run empty_database (first_line ++ last_line)) as (s1 & Hs1 & Hrun1);
    [vm_compute; reflexivity|].
  assert (match first_life with
    | Some s => ended (protocol := LineProtocol.library) (math := SafeMath.library)
                  clock_1ms s
    | None => false
    end = true) as Hend by (vm_compute; reflexivity).
  assert (match second_life with
    | Some s => match TcpJsonServer.sessions (server s) !! 0%nat with
                | Some _ => true | None => false end
    | None => false
    end = true) as Hsecond by (vm_compute; reflexivity).
  unfold second_life, first_life in *. rewrite Hs1 in Hend, Hsecond |- *. simpl in *.
  destruct (life_on (database_of s1) cached_line) as [s|] eqn:Hs; [|discriminate].
  destruct (TcpJsonServer.sessions (server s) !! 0%nat) as [c|] eqn:Hc; [|discriminate].
  destruct (service_lives_right (lib := TableServer.library)
    (doc := TableServer.documented) (total := LineProtocol.total)
    (codes := SafeMath.codes) (safe := SafeMath.safe) (symmetric := SafeMath.symmetric)
    empty_database (database_of s1) clock_1ms table_config EmptyString None 0 any_acceptor
    s 0 c) as (log & Hl & Hx & Hp).
  - split; constructor.
  - eapply lives_next; [apply table_connects|exact Hrun1| |apply lives_none].
    intros s'. by apply ended_rests.
  - apply table_connects.
  - exact (service_turns_run _ _ _ _ _ _ _ _ _ _ Hs).
  - exact Hc.
  - exists s1, s, c, log. exact (conj eq_refl (conj eq_refl (conj Hc (conj Hl (conj Hx Hp))))).
Defined.
