(* ===== verification/ServiceRecall.v ===== *)
(** * What a life of the process leaves to the next ones

    The process is run again and again on one database: what was calculated for a
    client of one life is found by every client of the lives behind it. *)

From stdpp Require Import base tactics strings list gmap relations.
From S2P Require Import Prelude.
From S2P Require Import Types.
From S2P Require Import CppString.
From S2P Require Import Checker.
From S2P Require Import Abacus.
From S2P Require Import OperationKey.
From S2P Require Import CacheRepository.
From S2P Require Import Postgres.
From S2P Require Import OperationStorage.
From S2P Require Import StorageService.
From S2P Require Import RequestHandler.
From S2P Require Import LineProtocol.
From S2P Require Import HandlerSafety.
From S2P Require Import HandlerCorrect.
From S2P Require Import HandlerTheorems.
From S2P Require Import Restart.
From S2P Require Import HandlerConcurrent.
From S2P Require Import HandlerFailing.
From S2P Require Import StorageWorker.
From S2P Require Import WorkerCorrect.
From S2P Require Import WorkerStorage.
From S2P Require Import ServerSystem.
From S2P Require Import SystemCorrect.
From S2P Require Import SystemLive.
From S2P Require Import SystemMemory.
From S2P Require Import SystemTheorems.
From S2P Require Import ServerConfig.
From S2P Require Import TcpServer.
From S2P Require Import TcpCorrect.
From S2P Require Import ServerCorrect.
From S2P Require Import ServerSessions.
From S2P Require Import SignalHandler.
From S2P Require Import Application.
From S2P Require Import Shutdown.
From S2P Require Import Service.
From S2P Require Import ServiceCorrect.
From S2P Require Import ServiceLive.
From S2P Require Import ServiceTheorems.
From S2P Require Import ServiceRun.
From S2P Require Import ServiceLives.
From S2P Require Import ServiceMemory.
Import Protocol.
Import RequestHandler.
Import ServiceApplication.
Import Service.

(** ** What a life leaves to the next ones *)

Section recall.
Context `{lib : Libpq.Library} `{doc : !Documented}.
Context `{protocol : Protocol.Library} `{total : !Protocol.Total}.
Context `{math : CalculatorMath.Library} `{codes : !CalculatorMath.Codes}
  `{safe : !CalculatorMath.Safe} `{symmetric : !CalculatorMath.Symmetric}.

Abbreviation good w := (good_table sound_record (table w)).
Abbreviation system_memory held old :=
  (system_memory (service_honest := in_step_honest) held old).

(** The table has the keys that the storage has. *)
Lemma memory_dom held old s0 js h :
  system_memory held old s0 js h →
  row_keys (table (StorageService.server (StorageWorker.replay js s0).2)) =
    keys_after s0 js.
Proof. intros [_ [Hc _ _ _] _]. symmetry. exact (coherent_dom _ _ Hc). Qed.

Lemma memory_blocked held old s0 js h :
  system_memory held old s0 js h →
  StorageWorker.thread_main (ServerSystem.storage_ h) = None →
  row_keys (table (world_of (ServerSystem.storage_ h))) = keys_after s0 js.
Proof.
  intros Hm Hb. rewrite <-(memory_dom _ _ _ _ _ Hm). destruct Hm as [[Hw _] _ _].
  destruct (blocked_reached _ _ _ Hw Hb) as [_ Hwork]. unfold world_of. rewrite Hwork.
  by destruct (StorageWorker.stopping _); rewrite ?destroy_table.
Qed.

Lemma memory_returned held old s0 js h w :
  system_memory held old s0 js h →
  StorageWorker.worker (ServerSystem.storage_ h) = StorageWorker.Returned w →
  row_keys (table w) = keys_after s0 js.
Proof.
  intros Hm Hw. rewrite <-(memory_dom _ _ _ _ _ Hm). destruct Hm as [[[done _ _ Hp] _] _ _].
  rewrite Hw in Hp. destruct Hp as (-> & -> & _). by rewrite destroy_table.
Qed.

Lemma opened_keys cs w s0 :
  connects cs w → good w → opened cs w = Some s0 → keys s0 = row_keys (table w).
Proof.
  intros Hc Hg. pose proof (connect_cases cs w Hc) as Hcase.
  unfold opened, StorageWorker.open_storage.
  destruct (PostgresConnection.connect cs w) as [[c|e|] w1]; [|done..].
  destruct Hcase as (Ht & conn & -> & Ha). rewrite <-Ht in Hg |- *.
  destruct (initialize_coherent sound_record conn w1 Ha Hg) as (w2 & -> & Hs & Ht2).
  intros [= <-]. etransitivity; [exact (coherent_dom _ _ Hs)|]. by rewrite <-Ht2.
Qed.

Section life.
Variable steady_clock : nat → Z.
Variable config : ServerConfig.t.
Variable cs : string.
Variable database : Libpq.world.
Variable logger_error : option exn.
Variable mask_result : Z.
Variable listen : bool → string → Z → (asio_call * exn) + Z.
Hypothesis database_connects : connects cs database.
Hypothesis database_good : good database.

Abbreviation initial :=
  (Service.initial config cs database logger_error mask_result listen).
Abbreviation step :=
  (Service.step steady_clock config cs database logger_error mask_result listen).
Abbreviation service_ok :=
  (service_ok steady_clock config cs database logger_error mask_result listen).
Abbreviation lines_kept := (lines_kept (service_honest := in_step_honest) steady_clock
  config cs database keys ∅ (λ _, 0%nat)).

Lemma opened_honest s0 :
  opened cs database = Some s0 →
  HandlerFailing.available (HonestStorage := in_step_honest) s0 ∧
  honest no_failure (records s0).
Proof.
  intros Hs0. destruct (opened_sound cs database database_connects database_good s0 Hs0).
  split; [by eapply opened_in_step|by apply sound_honest].
Qed.

Lemma ran_memory s0 h :
  opened cs database = Some s0 → ran steady_clock cs s0 h →
  ∃ js, system_memory (keys s0) ∅ s0 js h ∧ row_keys (table database) ⊆ keys_after s0 js.
Proof.
  intros Hs0 Hran. destruct (opened_honest s0 Hs0) as [Ha Hh].
  destruct (steps_memory steady_clock (keys s0) ∅ s0 [] _ h
    (started_memory (keys s0) ∅ s0 cs Ha Hh (reflexivity _) eq_refl) Hran)
    as (js & Hs & _).
  exists js. split; [done|]. rewrite <-(opened_keys cs database s0) by done.
  exact (memory_held _ _ _ (system_pool _ _ _ _ _ Hs)).
Qed.

Lemma left_keys w :
  left_by steady_clock cs database w → row_keys (table database) ⊆ row_keys (table w).
Proof.
  intros [->|e Ho|s0 h Hs0 Hran Hw]; [done| |].
  - pose proof (open_storage_cases cs database database_connects database_good) as Hc.
    rewrite Ho in Hc. by rewrite Hc.
  - destruct (ran_memory s0 h Hs0 Hran) as (js & Hs & Hsub).
    by rewrite (memory_returned _ _ _ _ _ _ Hs Hw).
Qed.

Lemma resting_keys s :
  service_ok s → StorageWorker.thread_main (storage_of (server s)) = None →
  row_keys (table database) ⊆ row_keys (table (database_of s)).
Proof.
  intros Hok Hb. unfold database_of, storage_of in *.
  destruct (ok_storage Hok)
    as [b -> _|rest _ _ ->|e w Ho _ _ Hw _|s0 Hs0 Hran _ _ _|w Hl _ _ _ Hw _].
  - done.
  - done.
  - unfold world_of. rewrite Hw. apply left_keys. by eapply left_failed.
  - destruct (ran_memory s0 _ Hs0 Hran) as (js & Hs & Hsub).
    by rewrite (memory_blocked _ _ _ _ _ Hs Hb).
  - unfold world_of. rewrite Hw. by apply left_keys.
Qed.

(** What the storage remembers at a rest is in the table. *)
Lemma kept_rests s s0 js hl :
  lines_kept s s0 js hl → StorageWorker.thread_main (storage_of (server s)) = None →
  row_keys (table (database_of s)) = keys_after s0 js.
Proof.
  intros [_ Hs Hl _] Hb. unfold database_of, storage_of in *.
  destruct Hl as [Hh|w _ Hw Hw'].
  - rewrite Hh in *. by eapply memory_blocked.
  - unfold world_of. rewrite Hw. by eapply memory_returned.
Qed.

Lemma reached_lines s id c :
  rtc step initial s → TcpJsonServer.sessions (server s) !! id = Some c →
  ∃ s0 js hl, lines_kept s s0 js hl.
Proof. apply reached_kept. exact opened_honest. Qed.
End life.

Lemma lives_keys w w' :
  lives w w' → good w → row_keys (table w) ⊆ row_keys (table w').
Proof.
  induction 1 as [w|steady_clock config cs logger_error mask_result listen w s w' Hc Hrun
    Hrest _ IH]; [done|]. intros Hg.
  pose proof (reached_ok _ _ _ _ _ _ _ s Hrun) as Hok.
  pose proof (resting_storage _ _ _ _ _ _ _ s Hrest) as Hb.
  etransitivity; [by eapply resting_keys|]. apply IH. by eapply resting_good.
Qed.

(** C3: the service remembers across the lives of its process.  In a life on a
    database whose table holds right records, with any threads, signals,
    connections and bytes in any order, a session has answered a line that parses to
    a request that passes the checks; the life ends by itself or is killed while
    it waits.  However often the process is then run again on that database, with
    any configuration and environment each time, in the life that follows every
    response that any session has sent to a line with the same cache key (the same
    operands, in either order for a sum or a product) is the text of a response
    that names the cache as its source, with the value, or the error status, of
    that line's own checks and calculation. *)
Theorem service_lives_remember
    w1 steady_clock1 config1 cs1 logger_error1 mask_result1 listen1 s1 id1 c1 i1 line1
    text1 req1 d1 k
    w2 steady_clock2 config2 cs2 logger_error2 mask_result2 listen2 s2 id2 c2 i2 line2
    text2 req2 d2 :
  good w1 → connects cs1 w1 →
  rtc (Service.step steady_clock1 config1 cs1 w1 logger_error1 mask_result1 listen1)
    (Service.initial config1 cs1 w1 logger_error1 mask_result1 listen1) s1 →
  (∀ s', ¬ Service.move steady_clock1 config1 cs1 w1 logger_error1 mask_result1 listen1
             s1 s') →
  TcpJsonServer.sessions (server s1) !! id1 = Some c1 →
  getlines (incoming c1) !! i1 = Some line1 → outgoing c1 !! i1 = Some text1 →
  parse_request (strip_cr line1) = inr req1 → to_calculator_data req1 = Ret d1 →
  check_arguments d1 = Ret () → request_key d1 = Ret k →
  lives (database_of s1) w2 → connects cs2 w2 →
  rtc (Service.step steady_clock2 config2 cs2 w2 logger_error2 mask_result2 listen2)
    (Service.initial config2 cs2 w2 logger_error2 mask_result2 listen2) s2 →
  TcpJsonServer.sessions (server s2) !! id2 = Some c2 →
  getlines (incoming c2) !! i2 = Some line2 → outgoing c2 !! i2 = Some text2 →
  parse_request (strip_cr line2) = inr req2 → to_calculator_data req2 = Ret d2 →
  operands req2 ≠ [] → request_key d2 = Ret k →
  ∃ response timing,
    text2 = TcpCorrect.ended (render (set_timing_info timing
      (set_result_source CACHE response))) ∧
    answers (Protocol.request_id req2) d2 (set_result_source CACHE response).
Proof.
  intros Hg1 Hc1 Hrun1 Hrest Hid1 Hl1 Ht1 Hp1 Hd1 Hchk Hk1 Hlives Hc2 Hrun2 Hid2 Hl2 Ht2
    Hp2 Hd2 Hops Hk2.
  pose proof (reached_ok _ _ _ _ _ _ _ s1 Hrun1) as Hok1.
  pose proof (resting_storage _ _ _ _ _ _ _ s1 Hrest) as Hb.
  assert (good (database_of s1)) as Hg1'
    by exact (resting_good _ _ _ _ _ _ _ Hc1 Hg1 s1 Hok1 Hb).
  assert (k ∈ row_keys (table w2)) as Hin.
  { apply (lives_keys _ _ Hlives Hg1').
    destruct (reached_lines _ _ _ _ _ _ _ Hc1 Hg1 s1 id1 c1 Hrun1 Hid1)
      as (s0 & js & hl & Hkept).
    rewrite (kept_rests _ _ _ _ _ _ _ _ Hkept Hb).
    destruct (answered_line_memory _ _ _ _ _ _ _ _ _ _ _ _
      (kept_sessions _ _ _ _ _ _ _ _ _ _ _ Hkept id1 c1 Hid1) (Nat.le_0_l i1) Hl1 Ht1)
      as (r & answer & _ & Hjson & _ & Hmem).
    rewrite <-Hjson in Hp1. by apply (Hmem req1 d1 k Hp1 Hd1 Hk1). }
  pose proof (lives_good _ _ Hlives Hg1') as Hg2.
  destruct (reached_lines _ _ _ _ _ _ _ Hc2 Hg2 s2 id2 c2 Hrun2 Hid2)
    as (s0 & js & hl & Hkept).
  destruct (answered_line_memory _ _ _ _ _ _ _ _ _ _ _ _
    (kept_sessions _ _ _ _ _ _ _ _ _ _ _ Hkept id2 c2 Hid2) (Nat.le_0_l i2) Hl2 Ht2)
    as (r & answer & -> & Hjson & Hres & Hmem).
  rewrite <-Hjson in Hp2. destruct (Hmem req2 d2 k Hp2 Hd2 Hk2) as [_ Hcached].
  destruct Hcached as (response & Hres' & Ha).
  - by rewrite (opened_keys _ _ _ Hc2 Hg2 (kept_opened _ _ _ _ _ _ _ _ _ _ _ Hkept)).
  - exists response, (timing_at steady_clock2 (reads r)).
    split; [congruence|by apply Ha].
Qed.
End recall.

(** The exchange of a life's first session that has the number [i]. *)
Definition life_exchange (life : option (Service.t (lib := TableServer.library))) (i : nat) :
    option (string * string) :=
  s ← life; c ← TcpJsonServer.sessions (server s) !! 0%nat;
  line ← getlines (incoming c) !! i; text ← outgoing c !! i; Some (line, text).

Lemma life_exchange_session s i line text :
  life_exchange (Some s) i = Some (line, text) →
  ∃ c, TcpJsonServer.sessions (server s) !! 0%nat = Some c ∧
    getlines (incoming c) !! i = Some line ∧ outgoing c !! i = Some text.
Proof.
  unfold life_exchange; simpl.
  intros (c & Hc & (l & Hl & (t & Ht & Heq)%bind_Some)%bind_Some)%bind_Some.
  exists c. split; [exact Hc|]. split; congruence.
Qed.

Definition asked_line : string := "+2,3" +:+ String carriage_return EmptyString.

Example service_lives_remember_witness :
  ∃ response timing,
    TcpCorrect.ended "OK 5 cache" = TcpCorrect.ended (render
      (Total := LineProtocol.total) (set_timing_info timing
      (set_result_source CACHE response))) ∧
    answers (total := LineProtocol.total) (math := SafeMath.library)
      "req" (demo_data OPERATION_ADDITION 3 2) (set_result_source CACHE response).
Proof.
  destruct (life_on_run empty_database (first_line ++ last_line)) as (s1 & Hs1 & Hrun1);
    [vm_compute; reflexivity|].
  assert (match first_life with
    | Some s => ended (protocol := LineProtocol.library) (math := SafeMath.library)
                  clock_1ms s
    | None => false
    end = true) as Hend by (vm_compute; reflexivity).
  assert (life_exchange first_life 0 =
    Some (asked_line, TcpCorrect.ended "OK 5 calculated")) as Hfirst
    by (vm_compute; reflexivity).
  assert (life_exchange second_life 0 = Some ("+3,2", TcpCorrect.ended "OK 5 cache"))
    as Hsecond by (vm_compute; reflexivity).
  unfold second_life, first_life in *. rewrite Hs1 in Hend, Hfirst, Hsecond.
  change (life_exchange (life_on (database_of s1) cached_line) 0 =
    Some ("+3,2", TcpCorrect.ended "OK 5 cache")) in Hsecond.
  destruct (life_on (database_of s1) cached_line) as [s2|] eqn:Hs2; [|discriminate].
  destruct (life_exchange_session _ _ _ _ Hfirst) as (c1 & Hid1 & Hl1 & Ht1).
  destruct (life_exchange_session _ _ _ _ Hsecond) as (c2 & Hid2 & Hl2 & Ht2).
  refine (service_lives_remember (lib := TableServer.library)
    (doc := TableServer.documented) (total := LineProtocol.total)
    (codes := SafeMath.codes) (safe := SafeMath.safe) (symmetric := SafeMath.symmetric)
    empty_database clock_1ms table_config EmptyString None 0 any_acceptor s1 0 c1 0 asked_line
    (TcpCorrect.ended "OK 5 calculated") (demo_request LineProtocol.Add [2; 3])
    (demo_data OPERATION_ADDITION 2 3) "2+3"
    (database_of s1) clock_1ms table_config EmptyString None 0 any_acceptor s2 0 c2 0 "+3,2"
    (TcpCorrect.ended "OK 5 cache") (demo_request LineProtocol.Add [3; 2])
    (demo_data OPERATION_ADDITION 3 2)
    _ (table_connects _) Hrun1 (λ s', ended_rests _ _ _ _ _ _ _ _ s' Hend) Hid1 Hl1 Ht1
    eq_refl eq_refl eq_refl eq_refl (lives_none _) (table_connects _)
    (service_turns_run _ _ _ _ _ _ _ _ _ _ Hs2) Hid2 Hl2 Ht2 eq_refl eq_refl _ eq_refl).
  - split; constructor.
  - discriminate.
Defined.

(** The client of the first line sends it again, with the operands swapped. *)
Definition again_line : list service_turn :=
  [Line 0 1 2 (TcpCorrect.ended "+3,2"); Handler (Post 1); Handler Work; Handler Work;
   Handler (Get 1); Answer 0; Written 0].

Definition life_goes_on (s : Service.t (lib := TableServer.library))
    (es : list service_turn) : option (Service.t (lib := TableServer.library)) :=
  service_turns (lib := TableServer.library) (protocol := LineProtocol.library)
    (math := SafeMath.library) clock_1ms table_config EmptyString empty_database None 0
    any_acceptor es s.

Example service_remembers_witness :
  ∃ response timing,
    TcpCorrect.ended "OK 5 cache" = TcpCorrect.ended (render
      (Total := LineProtocol.total) (set_timing_info timing
      (set_result_source CACHE response))) ∧
    answers (total := LineProtocol.total) (math := SafeMath.library)
      "req" (demo_data OPERATION_ADDITION 3 2) (set_result_source CACHE response).
Proof.
  assert (life_exchange (table_service first_line) 0 =
    Some (asked_line, TcpCorrect.ended "OK 5 calculated")) as Hfirst
    by (vm_compute; reflexivity).
  assert ((s ← table_service first_line; life_exchange (life_goes_on s again_line) 1) =
    Some ("+3,2", TcpCorrect.ended "OK 5 cache")) as Hsecond by (vm_compute; reflexivity).
  assert ((s ← table_service first_line; Some (begun_in s 0)) = Some 1%nat) as Hbegun
    by (vm_compute; reflexivity).
  destruct (table_service first_line) as [s1|] eqn:Hs1; [|discriminate Hfirst].
  change (life_exchange (life_goes_on s1 again_line) 1 =
    Some ("+3,2", TcpCorrect.ended "OK 5 cache")) in Hsecond.
  change (Some (begun_in s1 0) = Some 1%nat) in Hbegun. injection Hbegun as Hbegun.
  destruct (life_goes_on s1 again_line) as [s2|] eqn:Hs2; [|discriminate Hsecond].
  destruct (life_exchange_session _ _ _ _ Hfirst) as (c1 & Hid1 & Hl1 & Ht1).
  destruct (life_exchange_session _ _ _ _ Hsecond) as (c2 & Hid2 & Hl2 & Ht2).
  refine (service_remembers (lib := TableServer.library)
    (doc := TableServer.documented) (total := LineProtocol.total)
    (codes := SafeMath.codes) (safe := SafeMath.safe) (symmetric := SafeMath.symmetric)
    clock_1ms table_config EmptyString empty_database None 0 any_acceptor
    s1 0 c1 0 asked_line (TcpCorrect.ended "OK 5 calculated")
    (demo_request LineProtocol.Add [2; 3]) (demo_data OPERATION_ADDITION 2 3) "2+3"
    s2 0 c2 1 "+3,2" (TcpCorrect.ended "OK 5 cache")
    (demo_request LineProtocol.Add [3; 2]) (demo_data OPERATION_ADDITION 3 2)
    table_opened (service_turns_run _ _ _ _ _ _ _ _ _ _ Hs1) Hid1 Hl1 Ht1
    eq_refl eq_refl eq_refl eq_refl (service_turns_run _ _ _ _ _ _ _ _ _ _ Hs2)
    Hid2 _ Hl2 Ht2 eq_refl eq_refl _ eq_refl).
  - rewrite Hbegun. reflexivity.
  - discriminate.
Defined.
