(* ===== verification/Logger.v ===== *)
(** * [Calculator::Logger] ([support/src/logger.cpp])

    The process-wide logger: made by the first [init], or by the first message
    with default arguments, and used until [shutdown].  spdlog and the file
    system are parameters, with an explicit [world]; [recorded] is any such
    library with a record of the files that were opened and of the messages. *)

From stdpp Require Import base tactics strings list.
From S2P Require Import Prelude.
From S2P Require Import Types.
From S2P Require Import CppString.

(** [spdlog::level] *)
Inductive level : Type := trace | debug | info | warn | err | critical.

#[export] Instance level_eq_dec : EqDecision level.
Proof. solve_decision. Defined.

(** A sink with the [set_level] and the [set_pattern] that were called on it;
    [target] is a file, or [None] for the console. *)
Record sink (file : Type) : Type := mk_sink {
  target : option file;
  sink_level : level;
  pattern : string
}.
Arguments mk_sink {file} _ _ _.
Arguments target {file} _.
Arguments sink_level {file} _.
Arguments pattern {file} _.

Record spdlog_logger (file : Type) : Type := mk_logger {
  logger_name : string;
  sinks : list (sink file);
  logger_level : level;
  flush_level : level
}.
Arguments mk_logger {file} _ _ _ _.
Arguments logger_name {file} _.
Arguments logger_level {file} _.
Arguments flush_level {file} _.
Arguments sinks {file} _.

Definition map_sink {A B} (f : A → B) (s : sink A) : sink B :=
  mk_sink (f <$> target s) (sink_level s) (pattern s).

Definition map_logger {A B} (f : A → B) (l : spdlog_logger A) : spdlog_logger B :=
  mk_logger (logger_name l) (map_sink f <$> sinks l) (logger_level l) (flush_level l).

Module Spdlog.
Class Library : Type := {
  world : Type;
  file : Type;
  (** [fs::path]: the parent path, when there is one *)
  parent_path : string → option string;
  (** [fs::create_directories], whose error is dropped *)
  create_directories : string → world → world;
  (** [basic_file_sink_mt(path, truncate)] and [register_logger] may throw *)
  open_file : string → bool → world → (exn + file) * world;
  register_logger : spdlog_logger file → world → option exn * world;
  set_default_logger : spdlog_logger file → world → world;
  set_level : level → world → world;
  log : spdlog_logger file → level → string → world → world;
  shutdown : world → world
}.
End Spdlog.
Import Spdlog.

Module Logger.
Section logger.
Context `{lib : Spdlog.Library}.

(** [Logger::Impl], with the world outside of it. *)
Record t : Type := mk { logger_ : option (spdlog_logger file); outside : world }.

Definition default_file_path : string := "logs/console-calculator.log".
Definition default_logger_name : string := "console-calculator".

(** [%^%l%$] and the other placeholders are left to spdlog. *)
Definition console_pattern : string := "[%H:%M:%S.%e] [%^%l%$] [%n] %v".
Definition file_pattern : string :=
  "[%Y-%m-%d %H:%M:%S.%e] [%l] [%n] [pid:%P] [tid:%t] %v".

(** The logger that [init] makes on an open file. *)
Definition make_logger (name : string) (f : file) : spdlog_logger file :=
  mk_logger name
    [mk_sink None info console_pattern; mk_sink (Some f) trace file_pattern]
    trace err.

Definition init (file_path logger_name : string) : prog exn t unit := λ self,
  match logger_ self with
  | Some _ => (Ret (), self)
  | None =>
      let w := match parent_path file_path with
               | Some parent => create_directories parent (outside self)
               | None => outside self
               end in
      match open_file file_path true w with
      | (inr f, w1) =>
          let l := make_logger logger_name f in
          match register_logger l w1 with
          | (None, w2) =>
              (Ret (), mk (Some l) (set_level trace (set_default_logger l w2)))
          | (Some e, w2) => (Throw e, mk (Some l) w2)
          end
      | (inl e, w1) => (Throw e, mk None w1)
      end
  end.

Definition is_initialized (self : t) : bool :=
  match logger_ self with Some _ => true | None => false end.

Definition shutdown (self : t) : t := mk None (Spdlog.shutdown (outside self)).

(** The private [logger()]. *)
Definition logger : prog exn t (spdlog_logger file) := λ self,
  match logger_ self with
  | Some l => (Ret l, self)
  | None =>
      match init default_file_path default_logger_name self with
      | (Ret _, self') =>
          (match logger_ self' with Some l => Ret l | None => Undef end, self')
      | (Throw e, self') => (Throw e, self')
      | (Undef, self') => (Undef, self')
      end
  end.

(** [trace], [debug], [info], [warn], [error] and [critical], by their level. *)
Definition write (lvl : level) (message : string) : prog exn t unit :=
  l ← logger;
  modify (λ self, mk (logger_ self) (log l lvl message (outside self))).
End logger.
End Logger.
Import Logger.

(** ** Sequences of calls *)

Inductive log_call : Type :=
  | CallInit (file_path logger_name : string)
  | CallWrite (lvl : level) (message : string)
  | CallShutdown.

Section calls.
Context `{lib : Spdlog.Library}.

Definition perform_call (c : log_call) : prog exn Logger.t unit :=
  match c with
  | CallInit file_path logger_name => init file_path logger_name
  | CallWrite lvl message => write lvl message
  | CallShutdown => modify Logger.shutdown
  end.

Fixpoint perform_calls (cs : list log_call) : prog exn Logger.t unit :=
  match cs with
  | [] => mret ()
  | c :: rest => _ ← perform_call c; perform_calls rest
  end.
End calls.

(** ** The library with a record *)

(** What was done; a file is known by the path and the flag that it was opened
    with. *)
Inductive log_event : Type :=
  | CreatedDirectories (path : string)
  | OpenedFile (path : string) (truncated : bool)
  | Registered (l : spdlog_logger (string * bool))
  | MadeDefault (l : spdlog_logger (string * bool))
  | LevelSet (lvl : level)
  | Logged (l : spdlog_logger (string * bool)) (lvl : level) (message : string)
  | LoggersDropped.

Definition recorded (L : Spdlog.Library) : Spdlog.Library := {|
  world := world (Library := L) * list log_event;
  file := (string * bool) * file (Library := L);
  parent_path := parent_path;
  create_directories path w :=
    (create_directories path w.1, w.2 ++ [CreatedDirectories path]);
  open_file path truncated w :=
    match open_file path truncated w.1 with
    | (inr f, w') => (inr ((path, truncated), f), (w', w.2 ++ [OpenedFile path truncated]))
    | (inl e, w') => (inl e, (w', w.2))
    end;
  register_logger l w :=
    match register_logger (map_logger snd l) w.1 with
    | (None, w') => (None, (w', w.2 ++ [Registered (map_logger fst l)]))
    | (Some e, w') => (Some e, (w', w.2))
    end;
  set_default_logger l w :=
    (set_default_logger (map_logger snd l) w.1, w.2 ++ [MadeDefault (map_logger fst l)]);
  set_level lvl w := (set_level lvl w.1, w.2 ++ [LevelSet lvl]);
  log l lvl message w :=
    (log (map_logger snd l) lvl message w.1,
     w.2 ++ [Logged (map_logger fst l) lvl message]);
  Spdlog.shutdown w := (Spdlog.shutdown w.1, w.2 ++ [LoggersDropped])
|}.

(** ** Specification: the first call decides *)

(** The file and the name of the logger behind a call. *)
Definition settings_after (o : option (string * string)) (c : log_call) :
    option (string * string) :=
  match c with
  | CallInit path name => Some (default (path, name) o)
  | CallWrite _ _ =>
      Some (default ("logs/console-calculator.log", "console-calculator") o)
  | CallShutdown => None
  end.

(** The console from [info] on and the whole of the truncated file. *)
Definition logger_of (settings : string * string) : spdlog_logger (string * bool) :=
  mk_logger settings.2
    [mk_sink None info "[%H:%M:%S.%e] [%^%l%$] [%n] %v";
     mk_sink (Some (settings.1, true)) trace
       "[%Y-%m-%d %H:%M:%S.%e] [%l] [%n] [pid:%P] [tid:%t] %v"]
    trace err.

Section specification.
(** The parent of a path, when there is one. *)
Variable parent_of : string → option string.

(** The file of a new logger is opened, truncated; then the logger is made known. *)
Definition opening_events (settings : string * string) : list log_event :=
  (CreatedDirectories <$> option_list (parent_of settings.1)) ++
  [OpenedFile settings.1 true].

Definition making_events (settings : string * string) : list log_event :=
  opening_events settings ++
  [Registered (logger_of settings); MadeDefault (logger_of settings); LevelSet trace].

(** A logger is made where there was none; every message goes to the logger. *)
Definition call_events (o : option (string * string)) (c : log_call) :
    list log_event :=
  match o, settings_after o c with
  | None, Some settings => making_events settings
  | _, _ => []
  end ++
  match c, settings_after o c with
  | CallWrite lvl message, Some settings => [Logged (logger_of settings) lvl message]
  | CallShutdown, _ => [LoggersDropped]
  | _, _ => []
  end.

Fixpoint calls_events (o : option (string * string)) (cs : list log_call) :
    list log_event :=
  match cs with
  | [] => []
  | c :: rest => call_events o c ++ calls_events (settings_after o c) rest
  end.
End specification.

Section recording.
Context `{lib : Spdlog.Library}.

Abbreviation recording := (Logger.t (lib := recorded lib)).
Abbreviation call_events := (call_events parent_path).
Abbreviation calls_events := (calls_events parent_path).

Definition events (self : recording) : list log_event := (outside self).2.

(** The logger without the record. *)
Definition erase (self : recording) : Logger.t :=
  Logger.mk (map_logger snd <$> logger_ self) (outside self).1.

(** The logger has the settings [o], or there is none. *)
Definition configured (o : option (string * string)) (self : recording) : Prop :=
  map_logger fst <$> logger_ self = logger_of <$> o.

(** A call that returns. *)
Record call_returns (o : option (string * string)) (c : log_call)
    (self self' : recording) : Prop := mk_call_returns {
  returns_settings : configured (settings_after o c) self';
  returns_events : events self' = events self ++ call_events o c
}.

(** A call that throws: it is one that had to make the logger, and either the file
    could not be opened, or the logger, which stays, could not be registered. *)
Record call_throws (o : option (string * string)) (c : log_call)
    (self self' : recording) : Prop := mk_call_throws {
  throws_none : o = None;
  throws_makes : ∃ settings, settings_after None c = Some settings ∧
    (configured None self' ∧
       events self' = events self ++
         (CreatedDirectories <$> option_list (parent_path settings.1)) ∨
     configured (Some settings) self' ∧
       events self' = events self ++ opening_events parent_path settings)
}.

(** The same call with and without the record. *)
Definition call_correct (o : option (string * string)) (c : log_call)
    (self : recording) (m : prog exn recording unit) (m' : prog exn Logger.t unit) :
    Prop :=
  ∃ r self', m self = (r, self') ∧ m' (erase self) = (r, erase self') ∧
    match r with
    | Ret _ => call_returns o c self self'
    | Throw _ => call_throws o c self self'
    | Undef => False
    end.

Lemma init_correct path name o self :
  configured o self →
  call_correct o (CallInit path name) self (init path name) (init path name).
Proof.
  destruct self as [[l|] [w es]], o as [settings|]; try done; intros Hl.
  - exists (Ret ()). eexists. do 2 (split; [done|]). split; [done|]. by rewrite app_nil_r.
  - unfold call_correct, init; simpl.
    set (w' := match parent_path path with Some _ => _ | None => (w, es) end).
    set (w1 := match parent_path path with
               | Some parent => create_directories parent w | None => w end).
    set (dirs := CreatedDirectories <$> option_list (parent_path path)).
    assert (w' = (w1, es ++ dirs)) as ->.
    { unfold w', w1, dirs. destruct (parent_path path); [done|]. simpl. by rewrite app_nil_r. }
    simpl. destruct (open_file path true w1) as [[e|f] w2]; simpl.
    + eexists (Throw e), _. do 2 (split; [done|]). split; [done|].
      eexists. split; [done|]. by left.
    + destruct (register_logger _ w2) as [[e|] w3]; simpl.
      * eexists (Throw e), _. do 2 (split; [done|]). split; [done|].
        eexists. split; [done|]. right. split; [done|].
        unfold events, opening_events; simpl. by rewrite (assoc_L (++)).
      * eexists (Ret ()), _. do 2 (split; [done|]). split; [done|].
        change (call_events None (CallInit path name))
          with (making_events parent_path (path, name) ++ []).
        unfold making_events, opening_events, events; simpl. fold dirs.
        by rewrite app_nil_r, <-!(assoc_L (++)).
Qed.

(** A message on a logger that there is. *)
Lemma write_configured lvl message settings self :
  configured (Some settings) self →
  ∃ self', write lvl message self = (Ret (), self') ∧
    write lvl message (erase self) = (Ret (), erase self') ∧
    configured (Some settings) self' ∧
    events self' = events self ++ [Logged (logger_of settings) lvl message].
Proof.
  destruct self as [[l|] [w es]]; [|done]. intros Hl.
  eexists. split; [done|]. split; [done|]. split; [done|].
  assert (map_logger fst l = logger_of settings) as <- by (by apply (inj Some)).
  done.
Qed.

(** Without a logger, it is a call of [init] with the default arguments first. *)
Lemma write_none lvl message (L : Spdlog.Library) (self : Logger.t (lib := L)) :
  logger_ self = None →
  write lvl message self =
    (_ ← init default_file_path default_logger_name; write lvl message) self.
Proof.
  destruct self as [o w]; simpl. intros ->.
  unfold write, logger, mbind, prog_bind; simpl.
  destruct (init default_file_path default_logger_name (Logger.mk None w))
    as [[[]|e|] [[l|] w1]] eqn:Hi; simpl; try done.
  exfalso. revert Hi. unfold init; simpl.
  destruct (open_file _ _ _) as [[e|f] w2]; [done|].
  by destruct (register_logger _ _) as [[e|] w3].
Qed.

Lemma write_correct lvl message o self :
  configured o self →
  call_correct o (CallWrite lvl message) self (write lvl message) (write lvl message).
Proof.
  intros Hc. destruct o as [settings|].
  { destruct (write_configured lvl message settings self Hc)
      as (self' & Hw & Hw' & Hc' & He).
    exists (Ret ()), self'. by split_and!. }
  assert (logger_ self = None) as Hnone by (destruct self as [[l|] w]; done).
  destruct (init_correct default_file_path default_logger_name None self Hc)
    as (r & self1 & Hi & Hi' & Hr).
  unfold call_correct.
  rewrite !write_none by (unfold erase; simpl; by rewrite Hnone).
  unfold mbind, prog_bind. rewrite Hi, Hi'.
  destruct r as [[]|e|]; [|exists (Throw e), self1|done].
  - destruct Hr as [Hset Hev]. simpl in Hset.
    destruct (write_configured lvl message _ self1 Hset)
      as (self' & Hw & Hw' & Hc' & He).
    exists (Ret ()), self'. split_and!; [done..|]. split; [done|].
    rewrite He, Hev, <-(assoc_L (++)). unfold Logger.call_events; simpl.
    by rewrite app_nil_r.
  - split_and!; [done..|]. destruct Hr as [_ (settings & Hset & Hcase)].
    split; [done|]. simpl in *. by exists settings.
Qed.

Lemma perform_call_correct c o self :
  configured o self →
  call_correct o c self (perform_call c) (perform_call c).
Proof.
  intros Hc. destruct c; [by apply init_correct|by apply write_correct|].
  exists (Ret ()). eexists. do 3 (split; [done|]). by destruct o.
Qed.

(** C40: one logger from the first call to [shutdown].  Over any spdlog and file
    system, and for any sequence of calls of [init], of the six functions that
    write a message, and of [shutdown]: where there is no logger, the first [init],
    or the first message with the default file and name, opens its file, truncated,
    and makes the one logger, with the console from [info] on and the file; every
    later [init] changes nothing, and each message is logged once, by that logger,
    in the order of the calls, until a [shutdown], behind which the next call makes
    a new one.  Only a call that makes a logger can throw: when the file cannot be
    opened there is no logger behind it, and when the logger cannot be registered
    it is used all the same. *)
Theorem logger_is_first cs o self :
  configured o self →
  ∃ r self', perform_calls cs self = (r, self') ∧
    perform_calls cs (erase self) = (r, erase self') ∧
    match r with
    | Ret _ =>
        configured (foldl settings_after o cs) self' ∧
        events self' = events self ++ calls_events o cs
    | Throw _ =>
        ∃ before c behind self1, cs = before ++ c :: behind ∧
          configured (foldl settings_after o before) self1 ∧
          events self1 = events self ++ calls_events o before ∧
          call_throws (foldl settings_after o before) c self1 self'
    | Undef => False
    end.
Proof.
  revert o self. induction cs as [|c cs IH]; intros o self Hc.
  { exists (Ret ()), self. split_and!; [done..|]. by rewrite app_nil_r. }
  destruct (perform_call_correct c o self Hc) as (r & self1 & H1 & H1' & Hr).
  simpl. unfold mbind, prog_bind. rewrite H1, H1'.
  destruct r as [[]|e|]; [|exists (Throw e), self1|done].
  - destruct Hr as [Hset Hev]. destruct (IH _ _ Hset) as (r & self' & H2 & H2' & Hr).
    exists r, self'. split_and!; [done..|]. destruct r as [[]|e|]; [| |done].
    + destruct Hr as [? ->]. by rewrite Hev, <-(assoc_L (++)).
    + destruct Hr as (before & c' & behind & self2 & -> & Hs2 & He2 & Ht).
      exists (c :: before), c', behind, self2. split_and!; [done..| |done].
      by rewrite He2, Hev, <-(assoc_L (++)).
  - split_and!; [done..|]. exists [], c, cs, self. split_and!; [done..| |done].
    by rewrite app_nil_r.
Qed.
End recording.

(** A file system on which everything can be opened but what is under [/sys]. *)
#[export] Instance plain_spdlog : Spdlog.Library := {|
  world := unit;
  file := string;
  parent_path path := if String.prefix "/var/log/" path then Some "/var/log" else None;
  create_directories _ w := w;
  open_file path _ w :=
    (if String.prefix "/sys" path then inl (StdException "Failed opening file")
     else inr path, w);
  register_logger _ w := (None, w);
  set_default_logger _ w := w;
  set_level _ w := w;
  log _ _ _ w := w;
  Spdlog.shutdown w := w
|}.

Definition logged_calls : list log_call :=
  [CallInit "/var/log/service" "console-calculator"; CallWrite info "starting";
   CallInit "other.log" "other"; CallWrite warn "slow"; CallShutdown;
   CallWrite err "again"; CallShutdown; CallInit "/sys/log" "service"].

Definition no_logger : Logger.t (lib := recorded plain_spdlog) :=
  Logger.mk (lib := recorded plain_spdlog) None (tt, []).

Example logger_is_first_witness :
  ∃ self' before c behind self1,
    perform_calls logged_calls no_logger =
      (Throw (StdException "Failed opening file"), self') ∧
    logged_calls = before ++ c :: behind ∧
    events self1 = [] ++ calls_events parent_path None before.
Proof.
  destruct (logger_is_first (lib := plain_spdlog) logged_calls None no_logger eq_refl)
    as (r & self' & Hr & _ & Hcase).
  vm_compute in Hr. injection Hr as <- <-.
  destruct Hcase as (before & c & behind & self1 & Hcs & _ & He & _).
  eexists _, before, c, behind, self1. split; [vm_compute; reflexivity|].
  exact (conj Hcs He).
Defined.

(** What the calls do before the last of them fails. *)
Example logged_calls_events :
  let service := logger_of ("/var/log/service", "console-calculator") in
  let again := logger_of ("logs/console-calculator.log", "console-calculator") in
  calls_events parent_path None (take 7 logged_calls) =
    [CreatedDirectories "/var/log"; OpenedFile "/var/log/service" true;
     Registered service; MadeDefault service; LevelSet trace;
     Logged service info "starting"; Logged service warn "slow"; LoggersDropped;
     OpenedFile "logs/console-calculator.log" true;
     Registered again; MadeDefault again; LevelSet trace;
     Logged again err "again"; LoggersDropped].
Proof. reflexivity. Qed.
